(** * InvoiceX: the invoice inference pipeline, embedded and verified

    The development follows the Python sources of [invoicex/app]:
    - [Py]      the part of the interpreter the pipeline leans on (text,
                exceptions, binary64 floats, [int()], [float()], [round()],
                [datetime.strptime]);
    - [Etl]     [etl.py]: locale-aware numbers, dates and [normalize];
    - [Anomaly] [anomaly.py]: the hybrid risk score;
    - [Tax]     [tax.py]: the VAT rule cascade and its regular expressions;
    - [Explain] [explain.py]: token attributions;
    - [Utils], [Language], [Schema], [Classify]: [utils.py], [language.py],
                the validators of [schema.py] and [classify.py];
    - [Storage] [storage.py]: the invoice table, its constraints and the
                summary;
    - [Api]     [api.py]: the endpoints, over the table as explicit state.

    Text is a list of Unicode code points (Python's [str]); floats are the
    kernel's binary64 numbers, so that every arithmetic step rounds as the
    interpreter's does. *)

From Stdlib Require Import String Ascii.
From Stdlib Require Import List Sorted Permutation ZArith NArith Bool Lia Floats.
Import ListNotations.
Set Warnings "-inexact-float".

(* ================================================================== *)
(** * The interpreter: text, exceptions and numbers                    *)
(* ================================================================== *)
Module Py.

(** ** Text *)

(** A code point, and Python's [str]. *)
Definition char := N.
Bind Scope N_scope with char.
Definition str := list char.

(** Basic Latin literals. *)
Definition u (s : string) : str := map N_of_ascii (list_ascii_of_string s).

Fixpoint str_eqb (a b : str) : bool :=
  match a, b with
  | [], [] => true
  | x :: a', y :: b' => N.eqb x y && str_eqb a' b'
  | _, _ => false
  end.

(** Truthiness of a string: the empty string is falsy. *)
Definition nonempty (s : str) : bool :=
  match s with [] => false | _ => true end.

(** [x or d] for an optional string. *)
Definition str_or (x : option str) (d : str) : str :=
  match x with
  | Some s => if nonempty s then s else d
  | None => d
  end.

(** [Py_UNICODE_ISSPACE]: the characters [str.strip], [str.split] and the
    regular expression class [\s] treat as whitespace. *)
Definition is_space (c : char) : bool :=
  ((9 <=? c) && (c <=? 13) || (28 <=? c) && (c <=? 32)
   || (c =? 0x85) || (c =? 0xA0) || (c =? 0x1680)
   || (0x2000 <=? c) && (c <=? 0x200A)
   || (c =? 0x2028) || (c =? 0x2029) || (c =? 0x202F)
   || (c =? 0x205F) || (c =? 0x3000))%N.

Fixpoint lstrip_with (ws : char -> bool) (s : str) : str :=
  match s with
  | c :: s' => if ws c then lstrip_with ws s' else s
  | [] => []
  end.

Definition strip_with (ws : char -> bool) (s : str) : str :=
  rev (lstrip_with ws (rev (lstrip_with ws s))).

(** [s.strip()] *)
Definition strip : str -> str := strip_with is_space.

(** [s.replace(old, new)] for a one-character [old], the only form the
    pipeline uses. *)
Definition replace1 (old : char) (new : str) (s : str) : str :=
  flat_map (fun c => if N.eqb c old then new else [c]) s.

(** [sep.join(parts)] *)
Fixpoint join (sep : str) (parts : list str) : str :=
  match parts with
  | [] => []
  | [p] => p
  | p :: rest => p ++ sep ++ join sep rest
  end.

Definition is_ascii_digit (c : char) : bool := ((48 <=? c) && (c <=? 57))%N.
Definition is_ascii_upper (c : char) : bool := ((65 <=? c) && (c <=? 90))%N.
Definition is_ascii_lower (c : char) : bool := ((97 <=? c) && (c <=? 122))%N.
Definition ascii_upper (c : char) : char := if is_ascii_lower c then (c - 32)%N else c.
Definition ascii_lower (c : char) : char := if is_ascii_upper c then (c + 32)%N else c.

(** The tables of the interpreter's Unicode database outside Basic Latin, the
    one platform-dependent choice of the C library (whether [strftime] pads
    [%Y] to four digits) and the interpreter's sort on float keys, whose
    order in the presence of a NaN key is its own business.  Everything is
    proved for every runtime; what is asked of the sort is
    [sorts_as_documented] below. *)
Class Runtime := {
  (** [Py_UNICODE_ISALNUM] above U+007F *)
  uni_isalnum : char -> bool;
  (** [Py_UNICODE_TODECIMAL] above U+007E: the value of a decimal digit *)
  uni_decimal : char -> option Z;
  (** full uppercase mapping of a code point above U+007F *)
  uni_upper : char -> str;
  (** full lowercase mapping of a code point above U+007F, given the text
      before and after it (the final-sigma rule looks at both) *)
  uni_lower : str -> char -> str -> str;
  (** does [strftime("%Y")] zero-pad years below 1000? *)
  strftime_pads_year : bool;
  (** [l.sort(key=key, reverse=True)] for a key that is a float *)
  list_sort_desc : forall A : Type, (A -> PrimFloat.float) -> list A -> list A
}.

Section Text.
Context {rt : Runtime}.

(** [s.upper()] *)
Definition upper (s : str) : str :=
  flat_map (fun c => if (c <? 128)%N then [ascii_upper c] else uni_upper c) s.

Fixpoint lower_from (before s : str) : str :=
  match s with
  | [] => []
  | c :: s' =>
      (if (c <? 128)%N then [ascii_lower c] else uni_lower before c s')
        ++ lower_from (before ++ [c]) s'
  end.

(** [s.lower()] *)
Definition lower (s : str) : str := lower_from [] s.

(** The digit value of a decimal character, as [int()], [float()] and the
    class [\d] read it. *)
Definition decimal_value (c : char) : option Z :=
  if is_ascii_digit c then Some (Z.of_N c - 48)%Z
  else if (c <? 127)%N then None
  else uni_decimal c.

Definition is_decimal (c : char) : bool :=
  match decimal_value c with Some _ => true | None => false end.

End Text.

(** [s.split()]: the maximal runs of non-whitespace characters. *)
Fixpoint split_acc (cur : str) (s : str) : list str :=
  match s with
  | [] => if nonempty cur then [rev cur] else []
  | c :: s' =>
      if is_space c
      then (if nonempty cur then rev cur :: split_acc [] s' else split_acc [] s')
      else split_acc (c :: cur) s'
  end.

Definition split (s : str) : list str := split_acc [] s.

(** ** Exceptions *)

Inductive exn := ValueError | TypeError | OverflowError.

Inductive result (A : Type) :=
| Ret (a : A)
| Raise (e : exn).
Arguments Ret {A} a.
Arguments Raise {A} e.

Definition bind {A B} (m : result A) (k : A -> result B) : result B :=
  match m with
  | Ret a => k a
  | Raise e => Raise e
  end.

(** [try: m except Exception: d] *)
Definition try_except {A} (m : result A) (d : A) : A :=
  match m with
  | Ret a => a
  | Raise _ => d
  end.

(** ** Binary64 floats

    A Python [float] is an IEEE 754 binary64 number: the kernel's primitive
    float.  Conversions from integers, decimal text and [round] go through
    the exact integer specification [spec_float] and round to nearest,
    ties to even. *)

Definition float := PrimFloat.float.
Bind Scope float_scope with float.

(** [n / d] rounded to the nearest binary64 number. *)
Definition SF_of_ratio (neg : bool) (n d : positive) : spec_float :=
  let '(q, e, l) := SFdiv_core_binary prec emax (Zpos n) 0 (Zpos d) 0 in
  binary_round_aux prec emax neg q e l.

Definition float_of_ratio (neg : bool) (n d : positive) : float :=
  SF2Prim (SF_of_ratio neg n d).

(** [m * 10 ^ e10] rounded to the nearest binary64 number; what a decimal
    literal or [float("...")] denotes. *)
Definition float_of_decimal (neg : bool) (m : Z) (e10 : Z) : float :=
  match m with
  | Zpos p =>
      float_of_ratio neg (p * Z.to_pos (10 ^ Z.max e10 0))
                         (Z.to_pos (10 ^ Z.max (- e10) 0))
  | _ => if neg then neg_zero else zero
  end.

(** [float(z)] for an [int]: correctly rounded, [OverflowError] beyond the
    binary64 range. *)
Definition float_of_Z (z : Z) : result float :=
  match binary_normalize prec emax z 0 false with
  | S754_infinity _ => Raise OverflowError
  | f => Ret (SF2Prim f)
  end.

(** [int(f)] for a [float]: truncation towards zero. *)
Definition int_of_float (f : float) : result Z :=
  match Prim2SF f with
  | S754_nan => Raise ValueError
  | S754_infinity _ => Raise OverflowError
  | S754_zero _ => Ret 0%Z
  | S754_finite s m e =>
      let a := (if 0 <=? e then Zpos m * 2 ^ e else Zpos m / 2 ^ (- e))%Z in
      Ret (if s then (- a)%Z else a)
  end.

(** Truthiness of a float: zero (of either sign) is falsy, NaN is truthy. *)
Definition float_truthy (f : float) : bool := negb (PrimFloat.eqb f zero).

(** [n / d] rounded to the nearest integer, ties to even ([0 <= n], [0 < d]). *)
Definition round_half_even (n d : Z) : Z :=
  let q := (n / d)%Z in
  match (2 * (n mod d) ?= d)%Z with
  | Lt => q
  | Gt => (q + 1)%Z
  | Eq => if Z.even q then q else (q + 1)%Z
  end.

(** [round(x, ndigits)] for [0 <= ndigits]: the exact value of [x] is rounded
    to [ndigits] decimals (ties to even) and the decimal result is read back
    as the nearest float.  NaN, infinities and zeros are returned as they
    are. *)
Definition round (x : float) (ndigits : Z) : float :=
  match Prim2SF x with
  | S754_finite s m e =>
      let k := (10 ^ ndigits)%Z in
      let z := if (0 <=? e)%Z then (k * Zpos m * 2 ^ e)%Z
               else round_half_even (k * Zpos m) (2 ^ (- e)) in
      float_of_decimal s z (- ndigits)
  | _ => x
  end.

(** ** Reading numbers from text *)

(** Whitespace as [int()] and [float()] strip it: the C whitespace of Basic
    Latin and the Unicode whitespace above it. *)
Definition num_space (c : char) : bool :=
  ((9 <=? c) && (c <=? 13) || (c =? 32) || (127 <=? c) && is_space c)%N.

Definition underscore : char := 95%N.

Section Numbers.
Context {rt : Runtime}.

(** Digits after a first one, a single underscore allowed between two
    digits.  The accumulator is the value read and the number of digits. *)
Fixpoint digits_tail (v : Z) (n : Z) (s : str) : Z * Z * str :=
  match s with
  | [] => (v, n, [])
  | c :: s' =>
      match decimal_value c with
      | Some d => digits_tail (10 * v + d) (n + 1) s'
      | None =>
          if N.eqb c underscore then
            match s' with
            | c2 :: s'' =>
                match decimal_value c2 with
                | Some d => digits_tail (10 * v + d) (n + 1) s''
                | None => (v, n, s)
                end
            | [] => (v, n, s)
            end
          else (v, n, s)
      end
  end.

(** A possibly empty run of digits: its value, its length, and the rest. *)
Definition digits_opt (s : str) : Z * Z * str :=
  match s with
  | c :: s' =>
      match decimal_value c with
      | Some d => digits_tail d 1 s'
      | None => (0%Z, 0%Z, s)
      end
  | [] => (0%Z, 0%Z, [])
  end.

(** An optional sign. *)
Definition read_sign (s : str) : bool * str :=
  match s with
  | c :: s' =>
      if N.eqb c 45 then (true, s')
      else if N.eqb c 43 then (false, s')
      else (false, s)
  | [] => (false, [])
  end.

(** [int(s)] for a [str]; [None] is [ValueError]. *)
Definition int_of_str (s : str) : option Z :=
  let '(neg, body) := read_sign (strip_with num_space s) in
  match digits_opt body with
  | (v, n, []) =>
      if (0 <? n)%Z then Some (if neg then (- v)%Z else v) else None
  | _ => None
  end.

(** An exponent part: [e] or [E], an optional sign, at least one digit, and
    nothing after it. *)
Definition read_exponent (s : str) : option Z :=
  match s with
  | [] => Some 0%Z
  | c :: s' =>
      if N.eqb (ascii_lower c) 101 then
        let '(neg, body) := read_sign s' in
        match digits_opt body with
        | (v, n, []) =>
            if (0 <? n)%Z then Some (if neg then (- v)%Z else v) else None
        | _ => None
        end
      else None
  end.

(** [float(s)] for a [str]; [None] is [ValueError]. *)
Definition float_of_str (s : str) : option float :=
  let '(neg, body) := read_sign (strip_with num_space s) in
  let word := map ascii_lower body in
  if str_eqb word (u "inf") || str_eqb word (u "infinity")
  then Some (if neg then neg_infinity else infinity)
  else if str_eqb word (u "nan") then Some nan
  else
    let '(iv, ilen, r1) := digits_opt body in
    let '(fv, flen, r2) :=
      match r1 with
      | c :: r => if N.eqb c 46 then digits_opt r else (0%Z, 0%Z, r1)
      | [] => (0%Z, 0%Z, r1)
      end in
    if (0 <? ilen + flen)%Z then
      match read_exponent r2 with
      | Some e => Some (float_of_decimal neg (iv * 10 ^ flen + fv) (e - flen))
      | None => None
      end
    else None.

End Numbers.

(** ** Printing integers *)

Fixpoint digits_of (fuel : nat) (n : N) (acc : str) : str :=
  match fuel with
  | O => acc
  | S fuel' =>
      let acc' := (48 + n mod 10)%N :: acc in
      if (n <? 10)%N then acc' else digits_of fuel' (n / 10)%N acc'
  end.

(** [str(z)] for an [int]. *)
Definition str_of_Z (z : Z) : str :=
  let n := Z.abs_N z in
  let ds := digits_of (S (N.size_nat n)) n [] in
  if (z <? 0)%Z then 45%N :: ds else ds.

(** A non-negative integer zero-padded to at least [width] digits. *)
Definition zero_pad (width : nat) (z : Z) : str :=
  let ds := str_of_Z z in
  repeat 48%N (width - length ds) ++ ds.

(** ** Dates: [datetime.strptime] and [strftime]

    The formats of the pipeline use the directives [%Y], [%m], [%d] and the
    literal characters [-], [/] and [.].  [strptime] turns a format into a
    regular expression, matches it at the start of the text with the usual
    backtracking priorities, and rejects the text when characters remain or
    when the fields are not a date of the proleptic Gregorian calendar with
    [1 <= year]. *)

Inductive directive := DY | Dm | Dd | DLit (c : char).

Fixpoint parse_format (fmt : str) : list directive :=
  match fmt with
  | [] => []
  | c :: r =>
      if N.eqb c 37 then
        match r with
        | d :: r' =>
            (if N.eqb d 89 then DY
             else if N.eqb d 109 then Dm
             else if N.eqb d 100 then Dd
             else DLit d) :: parse_format r'
        | [] => [DLit c]
        end
      else DLit c :: parse_format r
  end.

Definition in_range (lo hi c : char) : bool := ((lo <=? c) && (c <=? hi))%N.
Definition digit (c : char) : Z := (Z.of_N c - 48)%Z.

(** The first alternative, in order, on which the rest of the match
    succeeds. *)
Fixpoint first_alt {A B} (alts : list A) (k : A -> option B) : option B :=
  match alts with
  | [] => None
  | a :: rest =>
      match k a with
      | Some b => Some b
      | None => first_alt rest k
      end
  end.

Definition is_leap (y : Z) : bool :=
  ((y mod 4 =? 0) && (negb (y mod 100 =? 0) || (y mod 400 =? 0)))%Z.

Definition days_in_month (y m : Z) : Z :=
  (if m =? 2 then (if is_leap y then 29 else 28)
   else if (m =? 4) || (m =? 6) || (m =? 9) || (m =? 11) then 30
   else 31)%Z.

(** The range [datetime.date] accepts. *)
Definition valid_date (y m d : Z) : bool :=
  ((1 <=? y) && (y <=? 9999) && (1 <=? m) && (m <=? 12)
   && (1 <=? d) && (d <=? days_in_month y m))%Z.

Section Dates.
Context {rt : Runtime}.

(** [%Y]: [\d\d\d\d] *)
Definition year_alts (s : str) : list (Z * str) :=
  match s with
  | a :: b :: c :: d :: r =>
      match decimal_value a, decimal_value b, decimal_value c, decimal_value d with
      | Some va, Some vb, Some vc, Some vd =>
          [((1000 * va + 100 * vb + 10 * vc + vd)%Z, r)]
      | _, _, _, _ => []
      end
  | _ => []
  end.

(** [%m]: [1[0-2]|0[1-9]|[1-9]] *)
Definition month_alts (s : str) : list (Z * str) :=
  match s with
  | a :: b :: r =>
      (if N.eqb a 49 && in_range 48 50 b then [((10 + digit b)%Z, r)] else [])
      ++ (if N.eqb a 48 && in_range 49 57 b then [(digit b, r)] else [])
  | _ => []
  end
  ++ match s with
     | a :: r => if in_range 49 57 a then [(digit a, r)] else []
     | [] => []
     end.

(** [%d]: [3[0-1]|[1-2]\d|0[1-9]|[1-9]| [1-9]] *)
Definition day_alts (s : str) : list (Z * str) :=
  match s with
  | a :: b :: r =>
      (if N.eqb a 51 && in_range 48 49 b then [((30 + digit b)%Z, r)] else [])
      ++ (if in_range 49 50 a then
            match decimal_value b with
            | Some vb => [((10 * digit a + vb)%Z, r)]
            | None => []
            end
          else [])
      ++ (if N.eqb a 48 && in_range 49 57 b then [(digit b, r)] else [])
  | _ => []
  end
  ++ match s with
     | a :: r => if in_range 49 57 a then [(digit a, r)] else []
     | [] => []
     end
  ++ match s with
     | a :: b :: r => if N.eqb a 32 && in_range 49 57 b then [(digit b, r)] else []
     | _ => []
     end.

(** The fields found so far: year, month, day. *)
Definition fields := (option Z * option Z * option Z)%type.

Fixpoint match_directives (ds : list directive) (s : str) (f : fields)
  : option (fields * str) :=
  match ds with
  | [] => Some (f, s)
  | DLit c :: ds' =>
      match s with
      | x :: s' => if N.eqb x c then match_directives ds' s' f else None
      | [] => None
      end
  | DY :: ds' =>
      first_alt (year_alts s)
        (fun a => let '(_, m, d) := f in match_directives ds' (snd a) (Some (fst a), m, d))
  | Dm :: ds' =>
      first_alt (month_alts s)
        (fun a => let '(y, _, d) := f in match_directives ds' (snd a) (y, Some (fst a), d))
  | Dd :: ds' =>
      first_alt (day_alts s)
        (fun a => let '(y, m, _) := f in match_directives ds' (snd a) (y, m, Some (fst a)))
  end.

(** [datetime.strptime(s, fmt)], as the date it denotes; [None] is
    [ValueError].  A field the format does not mention keeps its default. *)
Definition strptime (s fmt : str) : option (Z * Z * Z) :=
  match match_directives (parse_format fmt) s (None, None, None) with
  | Some ((y, m, d), []) =>
      let y := match y with Some v => v | None => 1900%Z end in
      let m := match m with Some v => v | None => 1%Z end in
      let d := match d with Some v => v | None => 1%Z end in
      if valid_date y m d then Some (y, m, d) else None
  | _ => None
  end.

(** [dt.strftime("%Y-%m-%d")] *)
Definition strftime_ymd (dt : Z * Z * Z) : str :=
  let '(y, m, d) := dt in
  (if strftime_pads_year then zero_pad 4 y else str_of_Z y)
    ++ [45%N] ++ zero_pad 2 m ++ [45%N] ++ zero_pad 2 d.

End Dates.

(** ** Sorting

    [l.sort(key=..., reverse=True)] and [sorted(..., reverse=True)], with
    [lt a b] standing for [key(a) < key(b)]: descending, and stable (items
    with equal keys keep their order).  This is the list the interpreter's
    sort leaves when the keys are totally ordered. *)
Fixpoint insert_desc {A} (lt : A -> A -> bool) (x : A) (l : list A) : list A :=
  match l with
  | [] => [x]
  | y :: l' => if lt x y then y :: insert_desc lt x l' else x :: y :: l'
  end.

Definition sort_desc {A} (lt : A -> A -> bool) (l : list A) : list A :=
  fold_right (insert_desc lt) [] l.

(** What is asked of the interpreter's sort on float keys: it permutes the
    list, and when no key is NaN it leaves the stable descending order.
    Every comparison with a NaN is false; the order left with a NaN among
    the keys depends on how the interpreter finds its runs and merges them,
    and nothing is asked of it. *)
Definition sorts_as_documented {rt : Runtime} : Prop :=
  forall (A : Type) (key : A -> float) (l : list A),
    Permutation l (list_sort_desc A key l)
    /\ (Forall (fun x => PrimFloat.is_nan (key x) = false) l ->
        list_sort_desc A key l
        = sort_desc (fun a b => PrimFloat.ltb (key a) (key b)) l).

(** A runtime to run the examples on.  Of the tables outside Basic Latin it
    knows the Arabic-Indic and the Extended Arabic-Indic digits and the
    Arabic letters; its [strftime] is glibc's, which does not pad [%Y]; it
    sorts by insertion. *)
Definition glibc_runtime : Runtime := {|
  uni_isalnum := fun c =>
    in_range 0x620 0x64A c || in_range 0x660 0x669 c || in_range 0x6F0 0x6F9 c;
  uni_decimal := fun c =>
    if in_range 0x660 0x669 c then Some (Z.of_N c - 0x660)%Z
    else if in_range 0x6F0 0x6F9 c then Some (Z.of_N c - 0x6F0)%Z
    else None;
  uni_upper := fun c => [c];
  uni_lower := fun _ c _ => [c];
  strftime_pads_year := false;
  list_sort_desc := fun A key => sort_desc (fun a b => PrimFloat.ltb (key a) (key b))
|}.

End Py.

Notation "x <- m ;; k" := (Py.bind m (fun x => k))
  (at level 61, m at next level, right associativity).


(* ================================================================== *)
(** * etl.py: locale-aware normalization                               *)
(* ================================================================== *)
Module Etl.
Import Py.

(** ** The data model *)

(** A raw quantity or price: absent ([None]), a number, or localized text. *)
Inductive value :=
| VNone
| VInt (z : Z)
| VFloat (f : float)
| VStr (s : str).

(** A raw line item: a dictionary whose keys may be missing (the outer
    [option]); the two text fields hold text or [None]. *)
Record RawItem := {
  raw_description : option str;
  raw_quantity : option value;
  raw_unit_price : option value;
  raw_category : option str
}.

(** The raw submission. *)
Record Payload := {
  p_vendor_name : option str;
  p_invoice_number : option str;
  p_date : option str;
  p_tax_id : option str;
  p_items : option (list RawItem);
  p_currency : option str;
  p_raw_text : option str
}.

Record Item := {
  description : str;
  quantity : Z;
  unit_price : float;
  category : str
}.

(** The canonical invoice [normalize] returns. *)
Record Canonical := {
  vendor_name : str;
  invoice_number : str;
  date : option str;
  tax_id : str;
  items : list Item;
  currency : str;
  total_amount : option float;
  line_count : Z;
  full_text : str
}.

(** ** Text helpers *)

Definition ARABIC_INDIC_CHARS : list char :=
  [0x660; 0x661; 0x662; 0x663; 0x664; 0x665; 0x666; 0x667; 0x668; 0x669]%N.

(** [str.maketrans] of the Arabic-Indic digits to the ASCII ones. *)
Definition ARABIC_INDIC : list (char * char) :=
  combine ARABIC_INDIC_CHARS (u "0123456789").

Fixpoint table_get (table : list (char * char)) (c : char) : option char :=
  match table with
  | [] => None
  | (k, v) :: rest => if N.eqb c k then Some v else table_get rest c
  end.

(** [s.translate(table)] *)
Definition translate (table : list (char * char)) (s : str) : str :=
  map (fun c => match table_get table c with Some d => d | None => c end) s.

Definition _strip (s : option str) : str := strip (str_or s []).

Definition _ar_digits_to_ascii (s : str) : str := translate ARABIC_INDIC s.

Definition ARABIC_THOUSANDS : char := 0x66C%N.
Definition ARABIC_DECIMAL : char := 0x66B%N.
Definition COMMA : char := 44%N.
Definition DOT : char := 46%N.

Section WithRuntime.
Context {rt : Runtime}.

(** ** Numbers *)

Definition _normalize_number_str (num : str) (lang : str) : str :=
  let s := _strip (Some num) in
  if str_eqb lang (u "ar") then
    let s := _ar_digits_to_ascii s in
    let s := replace1 ARABIC_THOUSANDS [] s in
    let s := replace1 ARABIC_DECIMAL (u ".") s in
    let s := replace1 COMMA [] s in
    s
  else if str_eqb lang (u "de") then
    let s := replace1 DOT [] s in
    let s := replace1 COMMA (u ".") s in
    s
  else replace1 COMMA [] s.

Definition _to_float (v : value) (lang : str) : result (option float) :=
  match v with
  | VNone => Ret None
  | VInt z => f <- float_of_Z z ;; Ret (Some f)
  | VFloat f => Ret (Some f)
  | VStr s => Ret (float_of_str (_normalize_number_str s lang))
  end.

(** ** Dates *)

Definition patterns (lang : str) : list str :=
  let en := [u "%Y-%m-%d"; u "%m/%d/%Y"; u "%m-%d-%Y"; u "%d/%m/%Y"; u "%d-%m-%Y"] in
  if str_eqb lang (u "en") then en
  else if str_eqb lang (u "de") then [u "%d.%m.%Y"; u "%d/%m/%Y"; u "%d-%m-%Y"; u "%Y-%m-%d"]
  else if str_eqb lang (u "ar") then [u "%d/%m/%Y"; u "%Y-%m-%d"; u "%d-%m-%Y"]
  else en.

Definition fallback_patterns : list str :=
  [u "%Y-%m-%d"; u "%d/%m/%Y"; u "%m/%d/%Y"; u "%d-%m-%Y"; u "%m-%d-%Y"; u "%d.%m.%Y"].

(** The loop [for fmt in ...: try: return strptime(...).strftime(...)]. *)
Fixpoint try_formats (raw : str) (fmts : list str) : option str :=
  match fmts with
  | [] => None
  | fmt :: rest =>
      match strptime raw fmt with
      | Some dt => Some (strftime_ymd dt)
      | None => try_formats raw rest
      end
  end.

Definition _parse_date_localized (date_str : str) (lang : str) : option str :=
  let raw := _strip (Some date_str) in
  if negb (nonempty raw) then None
  else
    let raw :=
      if existsb (fun c => existsb (N.eqb c) ARABIC_INDIC_CHARS) raw
      then _ar_digits_to_ascii raw else raw in
    let raw := replace1 ARABIC_THOUSANDS [] (replace1 ARABIC_DECIMAL (u ".") raw) in
    match try_formats raw (patterns lang) with
    | Some iso => Some iso
    | None => try_formats raw fallback_patterns
    end.

(** ** normalize *)

(** [int(qty)] *)
Definition int_of_value (v : value) : result Z :=
  match v with
  | VNone => Raise TypeError
  | VInt z => Ret z
  | VFloat f => int_of_float f
  | VStr s =>
      match int_of_str s with
      | Some z => Ret z
      | None => Raise ValueError
      end
  end.

(** [x or 0.0] for an optional float. *)
Definition float_or_zero (x : option float) : float :=
  match x with
  | Some f => if float_truthy f then f else zero
  | None => zero
  end.

(** The quantity of a raw item, as the loop body computes it. *)
Definition item_quantity (it : RawItem) (lang : str) : Z :=
  let qty := match raw_quantity it with Some v => v | None => VInt 1 end in
  let qty :=
    match qty with
    | VStr s => if str_eqb lang (u "ar") then VStr (_ar_digits_to_ascii s) else qty
    | _ => qty
    end in
  try_except (int_of_value qty) 1%Z.

(** One round of the loop over the raw items: the canonical item it appends
    and the amount it adds to the total. *)
Definition item_step (it : RawItem) (lang : str) : result (Item * float) :=
  let desc := _strip (raw_description it) in
  let qty := item_quantity it lang in
  p <- _to_float (match raw_unit_price it with Some v => v | None => VFloat zero end) lang ;;
  let unit_price := float_or_zero p in
  let item := {| description := desc; quantity := qty; unit_price := unit_price;
                 category := _strip (raw_category it) |} in
  fq <- float_of_Z qty ;;
  Ret (item, PrimFloat.mul fq unit_price).

(** The loop, threading the list built so far and the running total. *)
Fixpoint items_loop (raw_items : list RawItem) (lang : str)
    (items : list Item) (total_amount : float) : result (list Item * float) :=
  match raw_items with
  | [] => Ret (items, total_amount)
  | it :: rest =>
      r <- item_step it lang ;;
      items_loop rest lang (items ++ [fst r]) (PrimFloat.add total_amount (snd r))
  end.

Definition normalize (payload : Payload) (lang : str) : result Canonical :=
  let vendor_name := _strip (p_vendor_name payload) in
  let invoice_number := _strip (p_invoice_number payload) in
  let date_iso := _parse_date_localized (_strip (p_date payload)) lang in
  let tax_id := _strip (p_tax_id payload) in
  let currency := upper (_strip (Some (str_or (p_currency payload) (u "EUR")))) in
  let raw_items := match p_items payload with Some l => l | None => [] end in
  r <- items_loop raw_items lang [] zero ;;
  let '(items, total_amount) := r in
  let line_count := Z.of_nat (length items) in
  let full_text_parts :=
    [vendor_name; invoice_number; tax_id; currency]
      ++ filter nonempty (map description items)
      ++ [_strip (p_raw_text payload)] in
  let full_text_parts :=
    if str_eqb lang (u "ar") then map _ar_digits_to_ascii full_text_parts
    else full_text_parts in
  Ret {| vendor_name := vendor_name;
         invoice_number := invoice_number;
         date := date_iso;
         tax_id := tax_id;
         items := items;
         currency := currency;
         total_amount := if (line_count =? 0)%Z then None else Some (round total_amount 2);
         line_count := line_count;
         full_text := join (u " ") (filter nonempty full_text_parts) |}.

End WithRuntime.

End Etl.


(* ================================================================== *)
(** * anomaly.py: the hybrid risk score                                *)
(* ================================================================== *)
Module Anomaly.
Import Py Etl.

(** The trained outlier detector, loaded from [anomaly_iforest.joblib]: all
    the scorer asks of it is the decision score of one row of two features
    (higher is more normal).  The call may raise: the library validates its
    input. *)
Record IsolationForest := {
  decision_function : float -> float -> result float
}.

(** [np.clip(x, lo, hi)] on a scalar: [min(max(x, lo), hi)], where a NaN
    operand comes back as it is. *)
Definition np_maximum (a b : float) : float :=
  if PrimFloat.is_nan a then a else if PrimFloat.ltb b a then a else b.

Definition np_minimum (a b : float) : float :=
  if PrimFloat.is_nan a then a else if PrimFloat.ltb a b then a else b.

Definition clip (x lo hi : float) : float := np_minimum (np_maximum x lo) hi.

Definition _safe_float (x : option float) : float :=
  try_except (match x with Some f => Ret f | None => Raise TypeError end) zero.

Definition _safe_int (x : option Z) : Z :=
  try_except (match x with Some z => Ret z | None => Raise TypeError end) 0%Z.

Definition DUPLICATE_REASON : str :=
  u "Possible duplicate invoice (same vendor+number).".

Definition missing_reason (missing_count : Z) : str :=
  str_of_Z missing_count ++ u " critical fields missing.".

Definition CONSISTENT_REASON : str :=
  u "Looks consistent with past invoices.".

Section Scorer.
Variable _IFOREST : IsolationForest.

Definition score_anomaly (norm : Canonical) (is_duplicate : bool) (missing_count : Z)
  : result (float * list str) :=
  let amt := _safe_float (total_amount norm) in
  let lc := _safe_int (Some (line_count norm)) in
  (* X = np.array([[amt, lc]], dtype=float) *)
  flc <- float_of_Z lc ;;
  raw <- decision_function _IFOREST amt flc ;;
  let base_risk := clip (0.5 - raw)%float 0 1 in
  let risk := base_risk in
  let reasons : list str := [] in
  let '(risk, reasons) :=
    if is_duplicate
    then ((risk + 0.25)%float, reasons ++ [DUPLICATE_REASON])
    else (risk, reasons) in
  r <- (if (0 <? missing_count)%Z
        then k <- float_of_Z (Z.min missing_count 5) ;;
             Ret ((risk + 0.10 * k)%float, reasons ++ [missing_reason missing_count])
        else Ret (risk, reasons)) ;;
  let '(risk, reasons) := r in
  let risk := clip risk 0 0.99 in
  let reasons :=
    if PrimFloat.ltb risk 0.15 && negb (match reasons with [] => false | _ => true end)
    then reasons ++ [CONSISTENT_REASON]
    else reasons in
  Ret (risk, reasons).

End Scorer.
End Anomaly.


(* ================================================================== *)
(** * tax.py: the VAT rule cascade                                     *)
(* ================================================================== *)
Module Tax.
Import Py.

(** ** Regular expressions

    The fragment of [re] the cue patterns are written in, compiled with
    [re.I]: literal characters (matched without regard to case), character
    classes, the greedy repetition of a class, the word boundary, sequence,
    alternation and the greedy option.  [rmatch] is the backtracking matcher:
    it tries the alternatives in the order [re] does and hands what is left
    of the text to its continuation. *)
Inductive regex :=
| Eps
| Lit (c : char)
| Cls (p : char -> bool)
| Star (p : char -> bool)
| WordB
| Seq (r1 r2 : regex)
| Alt (r1 r2 : regex)
| Opt (r : regex).

(** A pattern character [p] against a text character [x] under [re.I]: [x]
    matches when its simple lowercase is [p] or a case-fold equivalent of
    [p].  For a Basic Latin [p] these are [p] and its capital, and also
    U+0130 and U+0131 for [i], U+017F for [s], U+212A for [k]. *)
Definition ci_eq (p x : char) : bool :=
  N.eqb x p
  || (is_ascii_lower p && N.eqb x (p - 32))
  || (N.eqb p 105 && (N.eqb x 0x130 || N.eqb x 0x131))
  || (N.eqb p 115 && N.eqb x 0x17F)
  || (N.eqb p 107 && N.eqb x 0x212A).

Definition is_ascii_alnum (c : char) : bool :=
  is_ascii_digit c || is_ascii_upper c || is_ascii_lower c.

(** [\s], [[-\s]] and [.] *)
Definition cls_space : char -> bool := is_space.
Definition cls_hyphen_space (c : char) : bool := N.eqb c 45 || is_space c.
Definition cls_dot (c : char) : bool := negb (N.eqb c 10).

Section Matcher.
Context {rt : Runtime}.

(** [\w]: alphanumeric or an underscore. *)
Definition is_word (c : char) : bool :=
  if (c <? 128)%N then is_ascii_alnum c || N.eqb c underscore else uni_isalnum c.

Definition is_word_opt (c : option char) : bool :=
  match c with Some x => is_word x | None => false end.

(** [\b] between the character before the position and the text at it. *)
Definition word_boundary (prev : option char) (s : str) : bool :=
  xorb (is_word_opt prev) (is_word_opt (hd_error s)).

Fixpoint star_greedy (p : char -> bool) (prev : option char) (s : str)
    (k : option char -> str -> option str) : option str :=
  match s with
  | c :: s' =>
      if p c then
        match star_greedy p (Some c) s' k with
        | Some r => Some r
        | None => k prev s
        end
      else k prev s
  | [] => k prev []
  end.

Fixpoint rmatch (r : regex) (prev : option char) (s : str)
    (k : option char -> str -> option str) : option str :=
  match r with
  | Eps => k prev s
  | Lit c =>
      match s with
      | x :: s' => if ci_eq c x then k (Some x) s' else None
      | [] => None
      end
  | Cls p =>
      match s with
      | x :: s' => if p x then k (Some x) s' else None
      | [] => None
      end
  | Star p => star_greedy p prev s k
  | WordB => if word_boundary prev s then k prev s else None
  | Seq r1 r2 => rmatch r1 prev s (fun prev' s' => rmatch r2 prev' s' k)
  | Alt r1 r2 =>
      match rmatch r1 prev s k with
      | Some x => Some x
      | None => rmatch r2 prev s k
      end
  | Opt r1 =>
      match rmatch r1 prev s k with
      | Some x => Some x
      | None => k prev s
      end
  end.

(** [pat.search(text)]: the leftmost match, as the text it covers
    ([m.group(0)]). *)
Fixpoint search_at (r : regex) (prev : option char) (s : str) : option str :=
  match rmatch r prev s (fun _ rest => Some rest) with
  | Some rest => Some (firstn (length s - length rest) s)
  | None =>
      match s with
      | [] => None
      | c :: s' => search_at r (Some c) s'
      end
  end.

Definition search (r : regex) (text : str) : option str := search_at r None text.

End Matcher.

(** A literal word, character by character. *)
Fixpoint lit (w : str) : regex :=
  match w with
  | [] => Eps
  | c :: w' => Seq (Lit c) (lit w')
  end.

Fixpoint seq (rs : list regex) : regex :=
  match rs with
  | [] => Eps
  | r :: rs' => Seq r (seq rs')
  end.

(** ** The tables *)

Definition EU_STANDARD : list (str * float) :=
  [ (u "DE", 0.19); (u "FR", 0.20); (u "IT", 0.22); (u "ES", 0.21);
    (u "NL", 0.21); (u "BE", 0.21); (u "AT", 0.20); (u "PT", 0.23);
    (u "SE", 0.25); (u "DK", 0.25); (u "FI", 0.25); (u "IE", 0.23) ]%float.

Definition GCC_STANDARD : list (str * float) :=
  [ (u "AE", 0.05); (u "SA", 0.15); (u "BH", 0.10); (u "OM", 0.05) ]%float.

Definition CURRENCY_TO_GCC : list (str * str) :=
  [ (u "AED", u "AE"); (u "SAR", u "SA"); (u "BHD", u "BH"); (u "OMR", u "OM") ].

(** [d.get(k)] *)
Fixpoint dict_get {V} (d : list (str * V)) (k : str) : option V :=
  match d with
  | [] => None
  | (k', v) :: rest => if str_eqb k k' then Some v else dict_get rest k
  end.

(** [k in d] *)
Definition dict_mem {V} (d : list (str * V)) (k : str) : bool :=
  match dict_get d k with Some _ => true | None => false end.

(** [\breverse\s*charge\b], [\barticle\s*196\b], [\bvat[-\s]*exempt\b] *)
Definition EXEMPT_PATTERNS : list regex :=
  [ seq [WordB; lit (u "reverse"); Star cls_space; lit (u "charge"); WordB];
    seq [WordB; lit (u "article"); Star cls_space; lit (u "196"); WordB];
    seq [WordB; lit (u "vat"); Star cls_hyphen_space; lit (u "exempt"); WordB] ].

(** [\bzero[-\s]*rated\b], [\bvat\s*0%|\b0%\s*vat\b],
    [\bexport\b.*\b(outside|to)\s*(eu|gcc)\b],
    [\binternational\s*transport(ation)?\b] *)
Definition ZERO_RATED_PATTERNS : list regex :=
  [ seq [WordB; lit (u "zero"); Star cls_hyphen_space; lit (u "rated"); WordB];
    Alt (seq [WordB; lit (u "vat"); Star cls_space; lit (u "0%")])
        (seq [WordB; lit (u "0%"); Star cls_space; lit (u "vat"); WordB]);
    seq [WordB; lit (u "export"); WordB; Star cls_dot; WordB;
         Alt (lit (u "outside")) (lit (u "to")); Star cls_space;
         Alt (lit (u "eu")) (lit (u "gcc")); WordB];
    seq [WordB; lit (u "international"); Star cls_space; lit (u "transport");
         Opt (lit (u "ation")); WordB] ].

(** ** The decision *)

Inductive Region := EU | GCC | Unknown.
Inductive Vat := exempt | zero_rated | standard.

Definition Region_eqb (a b : Region) : bool :=
  match a, b with
  | EU, EU | GCC, GCC | Unknown, Unknown => true
  | _, _ => false
  end.

(** The keys [classify_vat] reads of its argument; each may be missing or
    [None]. *)
Record Norm := {
  n_tax_id : option str;
  n_currency : option str;
  n_language : option str;
  n_raw_text : option str;
  n_full_text : option str
}.

(** The argument the request layer builds: the canonical record with the
    resolved language added ([{**norm, "language": lang}]). *)
Definition with_language (c : Etl.Canonical) (lang : str) : Norm := {|
  n_tax_id := Some (Etl.tax_id c);
  n_currency := Some (Etl.currency c);
  n_language := Some lang;
  n_raw_text := None;
  n_full_text := Some (Etl.full_text c)
|}.

Record Determination := {
  region : Region;
  vat : Vat;
  rate : float;
  reason : str
}.

Definition LQUOTE : char := 0x201C%N.
Definition RQUOTE : char := 0x201D%N.
Definition ARROW : char := 0x2192%N.

Section Classifier.
Context {rt : Runtime}.

Definition _decide_region_and_rate (norm : Norm) : Region * float * str :=
  let tax_id := upper (str_or (n_tax_id norm) []) in
  let cur := upper (str_or (n_currency norm) []) in
  let language := lower (str_or (n_language norm) []) in
  let cc := firstn 2 tax_id in
  match dict_get EU_STANDARD cc with
  | Some r => (EU, r, cc)
  | None =>
      match dict_get GCC_STANDARD cc with
      | Some r => (GCC, r, cc)
      | None =>
          match dict_get CURRENCY_TO_GCC cur with
          | Some gcc_cc =>
              (GCC,
               match dict_get GCC_STANDARD gcc_cc with Some r => r | None => 0.15%float end,
               gcc_cc)
          | None =>
              if str_eqb language (u "ar") then (GCC, 0.15%float, u "GCC")
              else (Unknown, 0.15%float, [])
          end
      end
  end.

(** [for pat in pats: m = pat.search(text); if m: ...]: the text of the
    first pattern that matches. *)
Fixpoint first_match (pats : list regex) (text : str) : option str :=
  match pats with
  | [] => None
  | pat :: rest =>
      match search pat text with
      | Some m => Some m
      | None => first_match rest text
      end
  end.

(** The text the cues are looked for in. *)
Definition cue_text (norm : Norm) : str :=
  str_or (n_raw_text norm) [] ++ u " " ++ str_or (n_full_text norm) [].

Definition classify_vat (norm : Norm) : Determination :=
  let '(region, standard_rate, cc_hint) := _decide_region_and_rate norm in
  let text := cue_text norm in
  match first_match EXEMPT_PATTERNS text with
  | Some m =>
      {| region := region; vat := exempt; rate := 0%float;
         reason := u "Detected exemption keyword (" ++ [LQUOTE] ++ m ++ [RQUOTE] ++ u ")." |}
  | None =>
      match first_match ZERO_RATED_PATTERNS text with
      | Some m =>
          {| region := if negb (Region_eqb region Unknown) then region else Unknown;
             vat := zero_rated; rate := 0%float;
             reason := u "Detected zero-rated cue (" ++ [LQUOTE] ++ m ++ [RQUOTE] ++ u ")." |}
      | None =>
          match (if Region_eqb region EU then dict_get EU_STANDARD cc_hint else None) with
          | Some r =>
              {| region := EU; vat := standard; rate := r;
                 reason := u "EU VAT ID prefix " ++ cc_hint ++ u " " ++ [ARROW]
                           ++ u " apply country standard rate (demo table)." |}
          | None =>
              if Region_eqb region GCC then
                let rate :=
                  match dict_get GCC_STANDARD cc_hint with
                  | Some r => r
                  | None => standard_rate
                  end in
                let hint := if dict_mem GCC_STANDARD cc_hint then cc_hint else u "GCC" in
                {| region := GCC; vat := standard; rate := rate;
                   reason := (if dict_mem GCC_STANDARD cc_hint
                              then u "GCC VAT ID" else u "GCC inference")
                             ++ u " (" ++ hint ++ u ") " ++ [ARROW]
                             ++ u " apply standard rate (demo table)." |}
              else
                {| region := Unknown; vat := standard; rate := standard_rate;
                   reason := u "Default standard rate for MVP; verify jurisdiction/rules." |}
          end
      end
  end.

End Classifier.
End Tax.


(* ================================================================== *)
(** * explain.py: token attributions                                   *)
(* ================================================================== *)
Module Explain.
Import Py.

(** ** The artifacts

    The fitted TF-IDF vectorizer and the linear classifier are loaded from
    disk; what [explain.py] asks of them is below.  A document is the sparse
    row [transform] returns: the indices of its features and their values. *)
Definition sparse_row := list (nat * float).

Record Vectorizer := {
  transform : str -> sparse_row;
  (** [None] when [get_feature_names_out()] raises *)
  get_feature_names_out : option (nat -> str)
}.

Record Classifier := {
  (** [None] when the classifier has no [decision_function] *)
  decision_function : option (sparse_row -> list float);
  predict : sparse_row -> str;
  classes_ : option (list str);
  (** [coef_[class_idx][idx]] *)
  coef_ : nat -> nat -> float
}.

(** [int(np.argmax(scores))]: the first maximum, a NaN counting as one. *)
Fixpoint argmax_from (best_i : nat) (best : float) (i : nat) (l : list float) : nat :=
  match l with
  | [] => best_i
  | x :: rest =>
      if negb (PrimFloat.leb x best) then
        if PrimFloat.is_nan x then i else argmax_from i x (S i) rest
      else argmax_from best_i best (S i) rest
  end.

Definition np_argmax (scores : list float) : nat :=
  match scores with
  | [] => O
  | x :: rest => if PrimFloat.is_nan x then O else argmax_from O x 1 rest
  end.

(** [max(xs)] for a non-empty sequence of floats. *)
Definition py_max (x : float) (xs : list float) : float :=
  fold_left (fun m y => if PrimFloat.ltb m y then y else m) xs x.

Definition contribution := (str * float)%type.

(** The sort key: [lambda t: abs(t[1])] *)
Definition magnitude (t : contribution) : float := PrimFloat.abs (snd t).

(** The normalization step: divide by the largest magnitude, or by 1.0 when
    that is zero. *)
Definition normalize_weights (top : list contribution) : list contribution :=
  match top with
  | [] => []
  | first :: others =>
      let m := py_max (PrimFloat.abs (snd first))
                      (map (fun t => PrimFloat.abs (snd t)) others) in
      let max_abs := if float_truthy m then m else 1%float in
      map (fun t => (fst t, (snd t / max_abs)%float)) top
  end.

(** ** Counter *)

Fixpoint counter_add (t : str) (c : list (str * Z)) : list (str * Z) :=
  match c with
  | [] => [(t, 1%Z)]
  | (k, n) :: rest =>
      if str_eqb t k then (k, (n + 1)%Z) :: rest else (k, n) :: counter_add t rest
  end.

(** [Counter(tokens)]: the tokens in order of first occurrence, with their
    counts. *)
Definition Counter (tokens : list str) : list (str * Z) :=
  fold_left (fun c t => counter_add t c) tokens [].

Definition count_lt (a b : str * Z) : bool := (snd a <? snd b)%Z.

(** [c.most_common(n)] *)
Definition most_common (n : nat) (c : list (str * Z)) : list (str * Z) :=
  firstn n (sort_desc count_lt c).

(** ** The explanation *)

Inductive Method := linear_contribution | feature_importances.

Record Explanation := {
  method : Method;
  top_tokens : list contribution
}.

Fixpoint mapM {A B} (f : A -> result B) (l : list A) : result (list B) :=
  match l with
  | [] => Ret []
  | x :: rest => y <- f x ;; ys <- mapM f rest ;; Ret (y :: ys)
  end.

Section Explainer.
Context {rt : Runtime}.
(** What [_load_artifacts()] returns: the pair, or [(None, None)] when
    loading failed. *)
Variable _load_artifacts : option (Vectorizer * Classifier).

(** The class the explanation is about. *)
Definition class_index (cls : Classifier) (X : sparse_row) : nat :=
  match decision_function cls with
  | Some scores => np_argmax (scores X)
  | None =>
      let first_class :=
        match classes_ cls with
        | Some (c :: _) => Some c
        | _ => None
        end in
      match first_class with
      | Some c => if str_eqb (predict cls X) c then 1%nat else 0%nat
      | None => 0%nat
      end
  end.

(** The loop over the features present in the document: token and
    contribution [coef * tfidf]. *)
Definition contribs_of (vec : Vectorizer) (cls : Classifier) (text : str)
  : list contribution :=
  let X := transform vec text in
  let coefs := coef_ cls (class_index cls X) in
  map (fun e =>
         let '(idx, tfidf_val) := e in
         let token :=
           match get_feature_names_out vec with
           | Some names => names idx
           | None => u "feat_" ++ str_of_Z (Z.of_nat idx)
           end in
         (token, (coefs idx * tfidf_val)%float)) X.

(** The sort is the interpreter's ([list_sort_desc]): a product of a
    coefficient and a value can be NaN, and a NaN key compares with
    nothing. *)
Definition _top_token_contributions (text : str) (top_k : nat) : list contribution :=
  match _load_artifacts with
  | None => []
  | Some (vec, cls) =>
      let contribs := contribs_of vec cls text in
      let contribs := list_sort_desc contribution magnitude contribs in
      let top := firstn top_k contribs in
      normalize_weights top
  end.

Definition long_tokens (text : str) : list str :=
  filter (fun t => (2 <? length t)%nat) (split text).

Definition explain_for_payload (norm : Etl.Canonical) : result Explanation :=
  let text := lower (Etl.full_text norm) in
  let top := _top_token_contributions text 5 in
  if (match top with [] => false | _ => true end) then
    Ret {| method := linear_contribution; top_tokens := top |}
  else
    let tokens := long_tokens text in
    let common := most_common 3 (Counter tokens) in
    tt <- mapM (fun e => w <- float_of_Z (snd e) ;;
                         Ret (fst e, (w / 10.0)%float)) common ;;
    Ret {| method := feature_importances; top_tokens := tt |}.

End Explainer.
End Explain.

(* ================================================================== *)
(** * utils.py: missing fields                                         *)
(* ================================================================== *)
Module Utils.
Import Py.

(** A Python object as [_is_missing] tells objects apart: [None], a string,
    a sized container (list, dict, tuple or set, of which only the length is
    looked at), or anything else (a number, a bool, ...). *)
Inductive obj :=
| ONone
| OStr (s : str)
| OSized (len : nat)
| OOther.

Definition _is_missing (v : obj) : bool :=
  match v with
  | ONone => true
  | OStr s => str_eqb (strip s) []
  | OSized len => Nat.eqb len 0
  | OOther => false
  end.

(** [d.get(k)]: [None] for a key the dictionary does not hold. *)
Definition get (d : list (str * obj)) (k : str) : obj :=
  match Tax.dict_get d k with
  | Some v => v
  | None => ONone
  end.

(** [sum(1 for k in keys if _is_missing(d.get(k)))] *)
Definition count_missing (d : list (str * obj)) (keys : list str) : Z :=
  fold_left (fun acc k => if _is_missing (get d k) then (acc + 1)%Z else acc) keys 0%Z.

End Utils.


(* ================================================================== *)
(** * language.py: the language of a submission                        *)
(* ================================================================== *)
Module Language.
Import Py.

Definition SUPPORTED : list str := [u "en"; u "de"; u "ar"].

(** The request dictionary: the keys [normalize] reads, and [language]. *)
Record Submission := {
  fields : Etl.Payload;
  language : option str
}.

Section Detector.
Context {rt : Runtime}.
(** [langdetect.detect]; [None] when it raises. *)
Variable detect : str -> option str.

Definition _whitelist (code : str) : str :=
  let code := lower (str_or (Some code) []) in
  if existsb (str_eqb code) SUPPORTED then code else u "en".

Definition detect_language (payload : Submission) : str :=
  if nonempty (str_or (language payload) []) then
    _whitelist (str_or (language payload) [])
  else
    let text :=
      str_or (Etl.p_raw_text (fields payload))
        (strip (join (u " ")
                  [ str_or (Etl.p_vendor_name (fields payload)) [];
                    str_or (Etl.p_invoice_number (fields payload)) [];
                    str_or (Etl.p_currency (fields payload)) [] ])) in
    if negb (nonempty text) then u "en"
    else
      match detect text with
      | Some code => _whitelist code
      | None => u "en"
      end.

End Detector.
End Language.


(* ================================================================== *)
(** * schema.py: the field validators                                  *)
(* ================================================================== *)
Module Schema.
Import Py Etl.

Section Validators.
Context {rt : Runtime}.

(** [float(v)] *)
Definition float_of_value (v : value) : result float :=
  match v with
  | VNone => Raise TypeError
  | VInt z => float_of_Z z
  | VFloat f => Ret f
  | VStr s =>
      match float_of_str s with
      | Some f => Ret f
      | None => Raise ValueError
      end
  end.

(** [max(a, b)] of two floats: [b] when it is greater, else [a]. *)
Definition max2 (a b : float) : float := if PrimFloat.ltb a b then b else a.

Definition _quantity_ok (v : value) : value :=
  match v with
  | VStr s => VStr (strip s)
  | _ =>
      let iv := try_except (int_of_value v) 1%Z in
      VInt (Z.max 1 iv)
  end.

Definition _unit_price_ok (v : value) : value :=
  match v with
  | VStr s => VStr (strip s)
  | _ =>
      let fv := try_except (float_of_value v) zero in
      VFloat (max2 zero fv)
  end.

Definition _cur_upper (v : str) : str := upper (str_or (Some v) (u "EUR")).

End Validators.
End Schema.


(* ================================================================== *)
(** * classify.py: the invoice type                                    *)
(* ================================================================== *)
Module Classify.
Import Py.

(** The type classifier, loaded from [type_classifier.joblib]. *)
Record TypeClassifier := {
  (** [None] when the classifier has no [predict_proba] *)
  predict_proba : option (Explain.sparse_row -> list float);
  classes_ : list str;
  (** [cls.predict(X)[0]], as text *)
  predict : Explain.sparse_row -> str
}.

(** [d[k] = v] on a dictionary kept in insertion order. *)
Fixpoint dict_set {V} (d : list (str * V)) (k : str) (v : V) : list (str * V) :=
  match d with
  | [] => [(k, v)]
  | (k', v') :: rest =>
      if str_eqb k k' then (k', v) :: rest else (k', v') :: dict_set rest k v
  end.

(** [{c: float(p) for c, p in zip(classes, probs)}] *)
Definition dict_of_zip (classes : list str) (probs : list float) : list (str * float) :=
  fold_left (fun d cp => dict_set d (fst cp) (snd cp)) (combine classes probs) [].

(** [w in t] for two strings: [w] occurs in [t]. *)
Fixpoint starts_with (w t : str) : bool :=
  match w, t with
  | [], _ => true
  | x :: w', y :: t' => N.eqb x y && starts_with w' t'
  | _ :: _, [] => false
  end.

Fixpoint contains (w t : str) : bool :=
  starts_with w t
  || match t with
     | [] => false
     | _ :: t' => contains w t'
     end.

Definition PRODUCT_WORDS : list str :=
  [u "monitor"; u "keyboard"; u "product"; u "item"; u "pcs"].

Definition SERVICE_WORDS : list str :=
  [u "hours"; u "service"; u "consult"; u "maintenance"; u "support"; u "subscription"].

Section Predictor.
Context {rt : Runtime}.
(** What [_load_models()] returns: the pair, or [(None, None)] when loading
    failed. *)
Variable _load_models : option (Explain.Vectorizer * TypeClassifier).

(** The label, its confidence and the confidence by class; [None] when an
    exception escapes ([argmax] of no score, a class index out of range). *)
Definition predict_type (text : str)
  : option (str * float * list (str * float)) :=
  match _load_models with
  | Some (vec, cls) =>
      let X := Explain.transform vec (str_or (Some text) []) in
      match predict_proba cls with
      | Some proba =>
          let probs := proba X in
          let classes := classes_ cls in
          let by_class := dict_of_zip classes probs in
          match probs with
          | [] => None
          | _ =>
              let best_idx := Explain.np_argmax probs in
              match nth_error classes best_idx, nth_error probs best_idx with
              | Some c, Some p => Some (c, p, by_class)
              | _, _ => None
              end
          end
      | None =>
          let label := predict cls X in
          Some (label, 1%float, [(label, 1%float)])
      end
  | None =>
      let t := lower (str_or (Some text) []) in
      if existsb (fun w => contains w t) PRODUCT_WORDS then
        Some (u "product-based", 0.7%float, [(u "product-based", 0.7%float)])
      else if existsb (fun w => contains w t) SERVICE_WORDS then
        Some (u "service-based", 0.7%float, [(u "service-based", 0.7%float)])
      else
        Some (u "other", 0.5%float, [(u "other", 0.5%float)])
  end.

End Predictor.
End Classify.

(* ================================================================== *)
(** * storage.py: the invoice table                                    *)
(* ================================================================== *)
Module Storage.
Import Py.

(** A moment, as far as the summary looks at it: year, month, day. *)
Definition datetime := (Z * Z * Z)%type.

(** A row of the table [invoices].  [id] is the primary key and the pair
    [(vendor_name, invoice_number)] is declared unique. *)
Record InvoiceRow := {
  id : str;
  vendor_name : str;
  invoice_number : str;
  raw_json : str;
  processed_json : option str;
  (** [None] for a value that is not a [datetime] *)
  created_at : option datetime
}.

(** The table: its rows, oldest first. *)
Definition Table := list InvoiceRow.

Definition same_invoice (v n : str) (r : InvoiceRow) : bool :=
  str_eqb (vendor_name r) v && str_eqb (invoice_number r) n.

(** Would [INSERT] raise [IntegrityError]?  The primary key or the unique
    pair is taken. *)
Definition conflicts (row : InvoiceRow) (table : Table) : bool :=
  existsb (fun r => str_eqb (id r) (id row)
                    || same_invoice (vendor_name row) (invoice_number row) r) table.

(** Lexicographic order of strings by code point, and of [(key, count)]
    tuples. *)
Fixpoint str_ltb (a b : str) : bool :=
  match a, b with
  | _, [] => false
  | [], _ :: _ => true
  | x :: a', y :: b' => (x <? y)%N || (N.eqb x y && str_ltb a' b')
  end.

Definition item_ltb (a b : str * Z) : bool :=
  if str_eqb (fst a) (fst b) then (snd a <? snd b)%Z else str_ltb (fst a) (fst b).

(** [sorted(l)]: ascending and stable, with [lt a b] standing for [a < b]. *)
Fixpoint insert_asc {A} (lt : A -> A -> bool) (x : A) (l : list A) : list A :=
  match l with
  | [] => [x]
  | y :: l' => if lt y x then y :: insert_asc lt x l' else x :: y :: l'
  end.

Definition sort_asc {A} (lt : A -> A -> bool) (l : list A) : list A :=
  fold_right (insert_asc lt) [] l.

(** The dictionary [summaries] returns. *)
Record Summary := {
  total : Z;
  anomalies_over_0_7 : Z;
  top_vendors : list (str * Z);
  monthly_totals : list (str * Z);
  monthly_anomalies_over_threshold : list (str * Z)
}.

(** The counters of the loop of [summaries]: [anomalies], [vendors],
    [monthly_totals], [monthly_anoms]. *)
Definition Counters := (Z * list (str * Z) * list (str * Z) * list (str * Z))%type.

Section Store.
Context {rt : Runtime}.
(** The request and the response as dictionaries, and [json.dumps] of each. *)
Variable Request : Type.
Variable Processed : Type.
Variable request_vendor_name : Request -> option str.
Variable request_invoice_number : Request -> option str.
Variable dumps_request : Request -> str.
Variable dumps_processed : Processed -> str.
(** [float(json.loads(pjson).get("fraud_score") or 0.0)]; [None] when any
    step of it raises. *)
Variable fraud_score_of : str -> option float.

(** [insert_raw_or_get(data)], with the identifier [uuid4] draws and the
    time of the insertion.  The result is [None] when [IntegrityError] is
    raised again. *)
Definition insert_raw_or_get (iid : str) (now : datetime) (data : Request)
    (table : Table) : option (str * bool) * Table :=
  let row := {| id := iid;
                vendor_name := str_or (request_vendor_name data) [];
                invoice_number := str_or (request_invoice_number data) [];
                raw_json := dumps_request data;
                processed_json := None;
                created_at := Some now |} in
  if conflicts row table then
    match find (same_invoice (str_or (request_vendor_name data) [])
                             (str_or (request_invoice_number data) [])) table with
    | Some existing => (Some (id existing, false), table)
    | None => (None, table)
    end
  else (Some (iid, true), table ++ [row]).

Definition insert_raw (iid : str) (now : datetime) (data : Request)
    (table : Table) : option str * Table :=
  match insert_raw_or_get iid now data table with
  | (Some (iid', _), table') => (Some iid', table')
  | (None, table') => (None, table')
  end.

(** [upsert_processed(iid, processed)]: the row [s.get] finds gets the new
    text. *)
Fixpoint upsert_processed (iid : str) (processed : Processed) (table : Table) : Table :=
  match table with
  | [] => []
  | r :: rest =>
      if str_eqb (id r) iid then
        {| id := id r; vendor_name := vendor_name r;
           invoice_number := invoice_number r; raw_json := raw_json r;
           processed_json := Some (dumps_processed processed);
           created_at := created_at r |} :: rest
      else r :: upsert_processed iid processed rest
  end.

(** [get_raw(iid)], before [json.loads]. *)
Definition get_raw (iid : str) (table : Table) : option str :=
  match find (fun r => str_eqb (id r) iid) table with
  | Some row => Some (raw_json row)
  | None => None
  end.

(** [dt.strftime("%Y-%m")] *)
Definition strftime_ym (dt : datetime) : str :=
  let '(y, m, _) := dt in
  (if strftime_pads_year then zero_pad 4 y else str_of_Z y) ++ [45%N] ++ zero_pad 2 m.

(** One round of the loop over the rows. *)
Definition summary_step (threshold : float) (acc : Counters) (row : InvoiceRow)
  : Counters :=
  let '(anomalies, vendors, monthly_totals, monthly_anoms) := acc in
  let vendors := Explain.counter_add (vendor_name row) vendors in
  let month_key :=
    match created_at row with
    | Some dt => strftime_ym dt
    | None => u "unknown"
    end in
  let monthly_totals := Explain.counter_add month_key monthly_totals in
  let over :=
    match processed_json row with
    | Some pjson =>
        if nonempty pjson then
          match fraud_score_of pjson with
          | Some score => PrimFloat.ltb threshold score
          | None => false
          end
        else false
    | None => false
    end in
  if over
  then ((anomalies + 1)%Z, vendors, monthly_totals,
        Explain.counter_add month_key monthly_anoms)
  else (anomalies, vendors, monthly_totals, monthly_anoms).

Definition summaries (threshold : float) (table : Table) : Summary :=
  let rows := table in
  let total := Z.of_nat (length rows) in
  let '(anomalies, vendors, monthly_totals, monthly_anoms) :=
    fold_left (summary_step threshold) rows (0%Z, [], [], []) in
  let top_vendors := firstn 10 (sort_desc Explain.count_lt vendors) in
  {| total := total;
     anomalies_over_0_7 := anomalies;
     top_vendors := top_vendors;
     monthly_totals := sort_asc item_ltb monthly_totals;
     monthly_anomalies_over_threshold := sort_asc item_ltb monthly_anoms |}.

End Store.
End Storage.


(* ================================================================== *)
(** * api.py: the endpoints                                            *)
(* ================================================================== *)
Module Api.
Import Py.

Record ExtractedFields := {
  e_vendor_name : str;
  e_invoice_number : str;
  e_date : option str;
  e_tax_id : str;
  e_total_amount : option float;
  e_currency : str;
  e_line_count : Z
}.

(** The dictionary [predict] answers with. *)
Record Output := {
  o_id : str;
  extracted_fields : ExtractedFields;
  o_language : str;
  type_class : str;
  type_confidence : float;
  type_explanation : Explain.Explanation;
  fraud_score : float;
  fraud_reasons : list str;
  tax_classification : Tax.Determination;
  warnings : list str
}.

(** An answer, or the [HTTPException] with status 400 every other exception
    is turned into. *)
Inductive response (A : Type) :=
| OK (a : A)
| BadRequest.
Arguments OK {A} a.
Arguments BadRequest {A}.

(** The canonical record as the dictionary [normalize] returns, for
    [count_missing]. *)
Definition as_dict (norm : Etl.Canonical) : list (str * Utils.obj) :=
  [ (u "vendor_name", Utils.OStr (Etl.vendor_name norm));
    (u "invoice_number", Utils.OStr (Etl.invoice_number norm));
    (u "date", match Etl.date norm with
               | Some d => Utils.OStr d
               | None => Utils.ONone
               end);
    (u "tax_id", Utils.OStr (Etl.tax_id norm));
    (u "items", Utils.OSized (length (Etl.items norm)));
    (u "currency", Utils.OStr (Etl.currency norm));
    (u "total_amount", match Etl.total_amount norm with
                       | Some _ => Utils.OOther
                       | None => Utils.ONone
                       end);
    (u "line_count", Utils.OOther);
    (u "full_text", Utils.OStr (Etl.full_text norm)) ].

Definition CRITICAL_FIELDS : list str :=
  [u "vendor_name"; u "invoice_number"; u "date"; u "tax_id"; u "currency"].

Definition DUPLICATE_WARNING : str :=
  u "Duplicate (vendor_name, invoice_number) found; review before payment.".

Section Endpoints.
Context {rt : Runtime}.
Variable detect : str -> option str.
Variable _IFOREST : Anomaly.IsolationForest.
Variable _load_models : option (Explain.Vectorizer * Classify.TypeClassifier).
Variable _load_artifacts : option (Explain.Vectorizer * Explain.Classifier).
Variable dumps_request : Language.Submission -> str.
Variable dumps_processed : Output -> str.

(** [storage.insert_raw_or_get(payload)], as the endpoints call it: on the
    submission as it came, keyed by its vendor name and invoice number. *)
Definition storage_insert_raw_or_get :=
  Storage.insert_raw_or_get Language.Submission
    (fun data => Etl.p_vendor_name (Language.fields data))
    (fun data => Etl.p_invoice_number (Language.fields data))
    dumps_request.

(** The steps of [predict] between the insertion and the storing of the
    answer. *)
Definition pipeline (iid : str) (created : bool) (payload : Language.Submission)
  : response Output :=
  let lang := Language.detect_language detect payload in
  match Etl.normalize (Language.fields payload) lang with
  | Raise _ => BadRequest
  | Ret norm =>
      let missing := Utils.count_missing (as_dict norm) CRITICAL_FIELDS in
      let is_duplicate := negb created in
      match Classify.predict_type _load_models (Etl.full_text norm) with
      | None => BadRequest
      | Some (label, conf, _) =>
          match Anomaly.score_anomaly _IFOREST norm is_duplicate missing with
          | Raise _ => BadRequest
          | Ret (fraud_score, reasons) =>
              let tax := Tax.classify_vat (Tax.with_language norm lang) in
              match Explain.explain_for_payload _load_artifacts norm with
              | Raise _ => BadRequest
              | Ret expl =>
                  OK {| o_id := iid;
                        extracted_fields :=
                          {| e_vendor_name := Etl.vendor_name norm;
                             e_invoice_number := Etl.invoice_number norm;
                             e_date := Etl.date norm;
                             e_tax_id := Etl.tax_id norm;
                             e_total_amount := Etl.total_amount norm;
                             e_currency := Etl.currency norm;
                             e_line_count := Etl.line_count norm |};
                        o_language := lang;
                        type_class := label;
                        type_confidence := conf;
                        type_explanation := expl;
                        fraud_score := fraud_score;
                        fraud_reasons := reasons;
                        tax_classification := tax;
                        warnings := if is_duplicate then [DUPLICATE_WARNING] else [] |}
              end
          end
      end
  end.

(** [POST /predict], with the identifier [uuid4] draws and the time of the
    request: the answer and the table afterwards. *)
Definition predict (iid : str) (now : Storage.datetime) (inv : Language.Submission)
    (table : Storage.Table) : response Output * Storage.Table :=
  let payload := inv in
  match storage_insert_raw_or_get iid now payload table with
  | (None, table) => (BadRequest, table)
  | (Some (iid, created), table) =>
      match pipeline iid created payload with
      | OK out => (OK out, Storage.upsert_processed Output dumps_processed iid out table)
      | BadRequest => (BadRequest, table)
      end
  end.

(** [POST /upload]; [None] when [IntegrityError] escapes. *)
Definition upload_invoice (iid : str) (now : Storage.datetime)
    (inv : Language.Submission) (table : Storage.Table)
  : option str * Storage.Table :=
  Storage.insert_raw Language.Submission
    (fun data => Etl.p_vendor_name (Language.fields data))
    (fun data => Etl.p_invoice_number (Language.fields data))
    dumps_request iid now inv table.

End Endpoints.
End Api.


(* ================================================================== *)
(** * Properties of normalize                                          *)
(* ================================================================== *)
Module EtlFacts.
Import Py Etl.

Section WithRuntime.
Context {rt : Runtime}.

(** The sum the loop accumulates, read off the canonical items: from [0.0],
    in item order, adding [quantity * unit_price] with the quantity converted
    to a float. *)
Definition line_total (it : Item) : result float :=
  fq <- float_of_Z (quantity it) ;; Ret (PrimFloat.mul fq (unit_price it)).

Fixpoint sum_from (acc : float) (its : list Item) : result float :=
  match its with
  | [] => Ret acc
  | it :: rest => t <- line_total it ;; sum_from (PrimFloat.add acc t) rest
  end.

Definition sum_line_totals (its : list Item) : result float := sum_from zero its.

(** What one round of the loop does to a raw item, as a relation. *)
Definition canonical_of (lang : str) (raw : RawItem) (it : Item) : Prop :=
  exists t, item_step raw lang = Ret (it, t).

Definition raw_items_of (payload : Payload) : list RawItem :=
  match p_items payload with Some l => l | None => [] end.

Lemma bind_ret {A B} (m : result A) (k : A -> result B) (b : B) :
  bind m k = Ret b -> exists a, m = Ret a /\ k a = Ret b.
Proof.
  destruct m as [a|e]; simpl; intros H.
  - exists a. split; [reflexivity | exact H].
  - discriminate H.
Qed.

Lemma sum_from_snoc (its : list Item) (it : Item) (acc s t : float) :
  sum_from acc its = Ret s -> line_total it = Ret t ->
  sum_from acc (its ++ [it]) = Ret (PrimFloat.add s t).
Proof.
  revert acc. induction its as [|x its IH]; simpl; intros acc Hs Ht.
  - injection Hs as <-. rewrite Ht. reflexivity.
  - destruct (line_total x) as [tx|e]; simpl in *; [|discriminate Hs].
    apply IH; assumption.
Qed.

Lemma item_step_line_total (raw : RawItem) (lang : str) (it : Item) (t : float) :
  item_step raw lang = Ret (it, t) -> line_total it = Ret t.
Proof.
  unfold item_step, line_total. intros H.
  apply bind_ret in H. destruct H as (p & _ & H).
  apply bind_ret in H. destruct H as (fq & Hq & H).
  injection H as <- <-. simpl. rewrite Hq. reflexivity.
Qed.

(** The loop invariant: the list grows by one canonical item per raw item,
    in order, and the running total is the sum over the list built. *)
Lemma items_loop_spec (raw : list RawItem) (lang : str) :
  forall acc tot its t,
    items_loop raw lang acc tot = Ret (its, t) ->
    exists new, its = acc ++ new
      /\ Forall2 (canonical_of lang) raw new
      /\ (sum_line_totals acc = Ret tot -> sum_line_totals its = Ret t).
Proof.
  induction raw as [|r raw IH]; simpl; intros acc tot its t H.
  - injection H as <- <-. exists []. rewrite app_nil_r.
    repeat split; [constructor | tauto].
  - apply bind_ret in H. destruct H as ([it lt] & Hstep & H). simpl in H.
    apply IH in H. destruct H as (new & -> & HF & Hsum).
    exists (it :: new). rewrite <- app_assoc. simpl.
    repeat split.
    + constructor; [exists lt; exact Hstep | exact HF].
    + intros Hacc. replace (acc ++ it :: new) with ((acc ++ [it]) ++ new)
        by (rewrite <- app_assoc; reflexivity).
      apply Hsum. apply sum_from_snoc; [exact Hacc|].
      eapply item_step_line_total; exact Hstep.
Qed.

Lemma items_loop_total (raw : list RawItem) (lang : str) :
  Forall (fun r => exists x, item_step r lang = Ret x) raw ->
  forall acc tot, exists res, items_loop raw lang acc tot = Ret res.
Proof.
  induction 1 as [|r raw (x & Hx) _ IH]; simpl; intros acc tot.
  - eexists; reflexivity.
  - rewrite Hx. simpl. apply IH.
Qed.

Lemma items_loop_raises (raw : list RawItem) (lang : str) :
  forall acc tot res, items_loop raw lang acc tot = Ret res ->
  Forall (fun r => exists x, item_step r lang = Ret x) raw.
Proof.
  induction raw as [|r raw IH]; simpl; intros acc tot res H.
  - constructor.
  - apply bind_ret in H. destruct H as (x & Hx & H).
    constructor; [exists x; exact Hx | eapply IH; exact H].
Qed.

(** The record [normalize] returns, in terms of what the loop returned. *)
Lemma normalize_ret (payload : Payload) (lang : str) (c : Canonical) :
  normalize payload lang = Ret c ->
  exists t, items_loop (raw_items_of payload) lang [] zero = Ret (items c, t)
    /\ line_count c = Z.of_nat (length (items c))
    /\ total_amount c =
         if (line_count c =? 0)%Z then None else Some (round t 2).
Proof.
  unfold normalize, raw_items_of. intros H.
  apply bind_ret in H. destruct H as ([its t] & Hloop & H).
  injection H as <-. simpl. exists t. repeat split. exact Hloop.
Qed.

(** *** Items: one per raw item, in order, degraded in place *)

(** The raw quantity as [int()] receives it: the default [1] for a missing
    key, Arabic-Indic digits made ASCII under [ar]. *)
Definition localized_quantity (raw : RawItem) (lang : str) : value :=
  match raw_quantity raw with
  | None => VInt 1
  | Some (VStr s) =>
      if str_eqb lang (u "ar") then VStr (_ar_digits_to_ascii s) else VStr s
  | Some v => v
  end.

(** The raw price as [_to_float] receives it. *)
Definition raw_price (raw : RawItem) : value :=
  match raw_unit_price raw with Some v => v | None => VFloat zero end.

(** The canonical item of a raw item, field by field. *)
Definition degrades_to (lang : str) (raw : RawItem) (it : Item) : Prop :=
  description it = _strip (raw_description raw)
  /\ category it = _strip (raw_category raw)
  /\ quantity it = try_except (int_of_value (localized_quantity raw lang)) 1%Z
  /\ exists p, _to_float (raw_price raw) lang = Ret p
               /\ unit_price it = float_or_zero p.

Lemma item_quantity_eq (raw : RawItem) (lang : str) :
  item_quantity raw lang = try_except (int_of_value (localized_quantity raw lang)) 1%Z.
Proof.
  unfold item_quantity, localized_quantity.
  destruct (raw_quantity raw) as [[| | |]|]; reflexivity.
Qed.

Lemma canonical_of_degrades (lang : str) (raw : RawItem) (it : Item) :
  canonical_of lang raw it -> degrades_to lang raw it.
Proof.
  intros (t & H). unfold item_step in H.
  apply bind_ret in H. destruct H as (p & Hp & H).
  apply bind_ret in H. destruct H as (fq & _ & H).
  injection H as <- _. unfold degrades_to; simpl.
  repeat split; [apply item_quantity_eq|].
  exists p. split; [exact Hp | reflexivity].
Qed.

Lemma normalize_items (payload : Payload) (lang : str) (c : Canonical) :
  normalize payload lang = Ret c ->
  Forall2 (canonical_of lang) (raw_items_of payload) (items c).
Proof.
  intros H. apply normalize_ret in H. destruct H as (t & Hloop & _).
  apply items_loop_spec in Hloop. destruct Hloop as (new & Hnew & HF & _).
  simpl in Hnew. rewrite Hnew. exact HF.
Qed.

(** C10 (amended): whenever [normalize] returns, the canonical items are the
    raw items taken one by one in their order, none dropped: text fields
    stripped (empty for [None]), the quantity [int()] of the raw one or [1]
    when that fails, the price the parsed one or [0.0]; and [line_count] is
    the number of raw items. *)
Theorem normalize_one_item_per_raw_item
    (payload : Payload) (lang : str) (c : Canonical) :
  normalize payload lang = Ret c ->
  Forall2 (degrades_to lang) (raw_items_of payload) (items c)
  /\ length (items c) = length (raw_items_of payload)
  /\ line_count c = Z.of_nat (length (raw_items_of payload))
  /\ (forall raw it, In (raw, it) (combine (raw_items_of payload) (items c)) ->
        (raw_description raw = None -> description it = [])
        /\ (raw_category raw = None -> category it = [])
        /\ (raw_quantity raw = None -> quantity it = 1%Z)
        /\ (forall e, int_of_value (localized_quantity raw lang) = Raise e ->
              quantity it = 1%Z)
        /\ (_to_float (raw_price raw) lang = Ret None -> unit_price it = zero)
        /\ (raw_unit_price raw = None -> unit_price it = zero)).
Proof.
  intros H.
  pose proof (normalize_items _ _ _ H) as HF.
  assert (HD : Forall2 (degrades_to lang) (raw_items_of payload) (items c)).
  { eapply Forall2_impl; [|exact HF]. apply canonical_of_degrades. }
  pose proof (Forall2_length HD) as Hlen.
  apply normalize_ret in H. destruct H as (t & _ & Hlc & _).
  split; [exact HD|]. split; [symmetry; exact Hlen|].
  split; [rewrite Hlc, Hlen; reflexivity|].
  intros raw it Hin.
  assert (Hd : degrades_to lang raw it).
  { clear - HD Hin. induction HD as [|r i rs its Hri _ IH]; simpl in Hin.
    - contradiction.
    - destruct Hin as [Heq|Hin]; [injection Heq as <- <-; exact Hri | auto]. }
  destruct Hd as (Hdesc & Hcat & Hq & p & Hp & Hup).
  repeat split.
  - intros E. rewrite Hdesc, E. reflexivity.
  - intros E. rewrite Hcat, E. reflexivity.
  - intros E. rewrite Hq. unfold localized_quantity. rewrite E. reflexivity.
  - intros e E. rewrite Hq, E. reflexivity.
  - intros E. rewrite E in Hp. injection Hp as <-. rewrite Hup. reflexivity.
  - intros E. unfold raw_price in Hp. rewrite E in Hp. simpl in Hp.
    injection Hp as <-. rewrite Hup. reflexivity.
Qed.

(** [normalize] returns a record exactly when no round of its loop raises
    (the only exception a round lets through is the [OverflowError] of an
    integer beyond the float range). *)
Lemma normalize_returns_iff (payload : Payload) (lang : str) :
  (exists c, normalize payload lang = Ret c)
  <-> Forall (fun r => exists x, item_step r lang = Ret x) (raw_items_of payload).
Proof.
  split.
  - intros (c & H). apply normalize_ret in H. destruct H as (t & Hloop & _).
    eapply items_loop_raises; exact Hloop.
  - intros HF. destruct (items_loop_total _ _ HF [] zero) as ([its t] & Hloop).
    unfold normalize. fold (raw_items_of payload). rewrite Hloop. simpl.
    eexists; reflexivity.
Qed.

(** *** The total *)

(** [n] is the whole number nearest to [100 * m * 2 ^ e], and the even one
    when two are equally near. *)
Definition nearest_hundredths (m : positive) (e : Z) (n : Z) : Prop :=
  if (0 <=? e)%Z then n = (100 * Zpos m * 2 ^ e)%Z
  else (2 * Z.abs (100 * Zpos m - n * 2 ^ (- e)) <= 2 ^ (- e))%Z
       /\ ((2 * Z.abs (100 * Zpos m - n * 2 ^ (- e)) = 2 ^ (- e))%Z ->
           Z.even n = true).

(** [t] is [s] rounded to two decimals: with [n] the number of hundredths
    nearest to the exact value of [s], [t] is the float nearest to
    [n / 100], of the sign of [s].  A zero, an infinity and a NaN have no
    decimals to round and are left as they are. *)
Definition rounded_to_2_decimals (s t : float) : Prop :=
  match Prim2SF s with
  | S754_finite sg m e =>
      exists n, (0 <= n)%Z /\ nearest_hundredths m e n
                /\ t = float_of_decimal sg n (-2)
  | _ => t = s
  end.

Lemma round_half_even_nearest (n d : Z) :
  (0 <= n)%Z -> (0 < d)%Z ->
  (0 <= round_half_even n d)%Z
  /\ (2 * Z.abs (n - round_half_even n d * d) <= d)%Z
  /\ ((2 * Z.abs (n - round_half_even n d * d) = d)%Z ->
      Z.even (round_half_even n d) = true).
Proof.
  intros Hn Hd. unfold round_half_even.
  pose proof (Z.div_mod n d ltac:(lia)) as E.
  pose proof (Z.mod_pos_bound n d Hd) as Hr.
  pose proof (Z.div_pos n d Hn Hd) as Hq.
  set (q := (n / d)%Z) in *. set (r := (n mod d)%Z) in *.
  destruct (Z.compare_spec (2 * r) d) as [C|C|C].
  - destruct (Z.even q) eqn:Ev.
    + split; [lia|]. split; [nia | intros _; exact Ev].
    + split; [lia|]. split; [nia|]. intros _.
      rewrite Z.even_add, Ev. reflexivity.
  - split; [lia|]. split; [nia | intros T; exfalso; nia].
  - split; [lia|]. split; [nia | intros T; exfalso; nia].
Qed.

(** [round(s, 2)] rounds to two decimals. *)
Lemma round_rounds (s : float) : rounded_to_2_decimals s (round s 2).
Proof.
  unfold rounded_to_2_decimals, round.
  destruct (Prim2SF s) as [sg|sg| |sg m e]; try reflexivity.
  change (10 ^ 2)%Z with 100%Z. change (- (2))%Z with (-2)%Z.
  unfold nearest_hundredths.
  destruct (0 <=? e)%Z eqn:Ee.
  - eexists. split; [|split; reflexivity].
    apply Z.leb_le in Ee.
    assert (0 <= 2 ^ e)%Z by (apply Z.pow_nonneg; lia). nia.
  - apply Z.leb_gt in Ee.
    assert (Hd : (0 < 2 ^ (- e))%Z) by (apply Z.pow_pos_nonneg; lia).
    destruct (round_half_even_nearest (100 * Zpos m) (2 ^ (- e)) ltac:(lia) Hd)
      as (H0 & H1 & H2).
    eexists. split; [exact H0|]. split; [split; [exact H1 | exact H2] | reflexivity].
Qed.

(** C2: whenever [normalize] returns, [total_amount] is present exactly when
    [line_count] is positive, it is [None] (not zero) for no items, and when
    present it is the sum of [quantity * unit_price] over the items, from
    [0.0] in item order, rounded to 2 decimals: the float nearest to the
    whole number of hundredths nearest to the sum. *)
Theorem normalize_total_amount_iff_items
    (payload : Payload) (lang : str) (c : Canonical) :
  normalize payload lang = Ret c ->
  (total_amount c <> None <-> (0 < line_count c)%Z)
  /\ (items c = [] -> total_amount c = None)
  /\ (raw_items_of payload = [] -> total_amount c = None)
  /\ (forall t, total_amount c = Some t ->
        exists s, sum_line_totals (items c) = Ret s /\ t = round s 2
                  /\ rounded_to_2_decimals s t).
Proof.
  intros H.
  pose proof (normalize_items _ _ _ H) as HF.
  apply normalize_ret in H. destruct H as (t & Hloop & Hlc & Htot).
  apply items_loop_spec in Hloop. destruct Hloop as (new & Hnew & _ & Hsum).
  specialize (Hsum eq_refl).
  assert (Hempty : items c = [] -> total_amount c = None).
  { intros E. rewrite Htot, Hlc, E. reflexivity. }
  split; [|split; [exact Hempty|split]].
  - rewrite Htot. destruct (Z.eqb_spec (line_count c) 0) as [E|E].
    + split; [intros F; now contradiction F | lia].
    + split; [lia | discriminate].
  - intros E. apply Hempty. rewrite E in HF. inversion HF. reflexivity.
  - intros t' E. rewrite Htot in E.
    destruct (line_count c =? 0)%Z; [discriminate|].
    injection E as <-. exists t. split; [exact Hsum|].
    split; [reflexivity | apply round_rounds].
Qed.

(** *** No clamping *)

(** What input validation guarantees of a numeric quantity and of a numeric
    price ([max(1, int(v))] and [max(0.0, float(v))]); text is passed on as
    it is. *)
Definition validated_quantity (raw : RawItem) : Prop :=
  match raw_quantity raw with
  | None => True
  | Some (VInt z) => (1 <= z)%Z
  | Some _ => False
  end.

Definition validated_price (raw : RawItem) : Prop :=
  match raw_unit_price raw with
  | None => True
  | Some (VFloat f) => PrimFloat.leb zero f = true
  | Some _ => False
  end.

(** C9 (amended): [normalize] does not clamp.  The quantity of a canonical
    item is [int()] of the raw quantity, or [1] when that conversion fails, so
    it is at least 1 exactly when the conversion fails or yields at least 1;
    the price is the parsed raw price, or [0.0] when there is none or it is
    zero.  Both bounds hold for the numeric values input validation lets
    through. *)
Theorem normalize_items_not_clamped
    (payload : Payload) (lang : str) (c : Canonical) :
  normalize payload lang = Ret c ->
  Forall2 (fun raw it =>
      degrades_to lang raw it
      /\ ((1 <= quantity it)%Z <->
            forall z, int_of_value (localized_quantity raw lang) = Ret z -> (1 <= z)%Z)
      /\ (validated_quantity raw -> (1 <= quantity it)%Z)
      /\ (validated_price raw -> PrimFloat.leb zero (unit_price it) = true))
    (raw_items_of payload) (items c).
Proof.
  intros H. apply normalize_items in H.
  eapply Forall2_impl; [|exact H]. clear H. intros raw it Hc.
  apply canonical_of_degrades in Hc. split; [exact Hc|].
  destruct Hc as (_ & _ & Hq & p & Hp & Hup).
  split; [|split].
  - rewrite Hq. destruct (int_of_value (localized_quantity raw lang)) as [z|e]; simpl.
    + split; [intros Hz z' E; injection E as <-; exact Hz | intros Hz; apply Hz; reflexivity].
    + split; [intros _ z E; discriminate E | lia].
  - unfold validated_quantity. intros Hv. rewrite Hq. unfold localized_quantity.
    destruct (raw_quantity raw) as [[| z | |]|]; simpl; try contradiction; lia.
  - unfold validated_price. intros Hv. rewrite Hup. unfold raw_price in Hp.
    destruct (raw_unit_price raw) as [[| | f |]|]; simpl in Hp; try contradiction;
      injection Hp as <-; simpl.
    + destruct (float_truthy f); [exact Hv | reflexivity].
    + reflexivity.
Qed.

(** *** Numbers *)

(** What each locale does to one character of a number, in the words of the
    specification. *)
Definition ar_char (c : char) : str :=
  if in_range 0x660 0x669 c then [(c - 0x660 + 48)%N]
  else if N.eqb c ARABIC_THOUSANDS then []
  else if N.eqb c ARABIC_DECIMAL then [DOT]
  else if N.eqb c COMMA then []
  else [c].

Definition de_char (c : char) : str :=
  if N.eqb c DOT then [] else if N.eqb c COMMA then [DOT] else [c].

Definition en_char (c : char) : str :=
  if N.eqb c COMMA then [] else [c].

Lemma replace1_app (old : char) (new a b : str) :
  replace1 old new (a ++ b) = replace1 old new a ++ replace1 old new b.
Proof. apply flat_map_app. Qed.

Lemma replace1_cons (old : char) (new : str) (c : char) (s : str) :
  replace1 old new (c :: s) = replace1 old new [c] ++ replace1 old new s.
Proof. change (c :: s) with ([c] ++ s). apply replace1_app. Qed.

Ltac split_eqb c :=
  repeat (cbn [flat_map app];
          match goal with
          | |- context [N.eqb c ?k] =>
              destruct (N.eqb_spec c k);
              [subst c; first [reflexivity | exfalso; lia]|]
          end).

Lemma ar_passes_pointwise (c : char) :
  replace1 COMMA []
    (replace1 ARABIC_DECIMAL (u ".")
       (replace1 ARABIC_THOUSANDS [] (_ar_digits_to_ascii [c]))) = ar_char c.
Proof.
  unfold ar_char, in_range, _ar_digits_to_ascii, translate, replace1,
    ARABIC_THOUSANDS, ARABIC_DECIMAL, COMMA, DOT.
  cbn [map ARABIC_INDIC ARABIC_INDIC_CHARS combine u list_ascii_of_string table_get].
  change (N_of_ascii "0") with 48%N. change (N_of_ascii "1") with 49%N.
  change (N_of_ascii "2") with 50%N. change (N_of_ascii "3") with 51%N.
  change (N_of_ascii "4") with 52%N. change (N_of_ascii "5") with 53%N.
  change (N_of_ascii "6") with 54%N. change (N_of_ascii "7") with 55%N.
  change (N_of_ascii "8") with 56%N. change (N_of_ascii "9") with 57%N.
  change (N_of_ascii ".") with 46%N.
  split_eqb c.
  destruct (N.leb_spec 0x660 c), (N.leb_spec c 0x669); simpl;
    first [reflexivity | exfalso; lia].
Qed.

Lemma ar_passes (s : str) :
  replace1 COMMA []
    (replace1 ARABIC_DECIMAL (u ".")
       (replace1 ARABIC_THOUSANDS [] (_ar_digits_to_ascii s))) = flat_map ar_char s.
Proof.
  induction s as [|c s IH]; [reflexivity|].
  change (_ar_digits_to_ascii (c :: s))
    with (_ar_digits_to_ascii [c] ++ _ar_digits_to_ascii s).
  rewrite !replace1_app, IH, ar_passes_pointwise. reflexivity.
Qed.

Lemma de_passes (s : str) :
  replace1 COMMA (u ".") (replace1 DOT [] s) = flat_map de_char s.
Proof.
  induction s as [|c s IH]; [reflexivity|].
  rewrite (replace1_cons DOT), replace1_app, IH. simpl flat_map. f_equal.
  unfold replace1, de_char, DOT, COMMA. simpl.
  split_eqb c. reflexivity.
Qed.

Lemma _strip_some (s : str) : _strip (Some s) = strip s.
Proof. destruct s; reflexivity. Qed.

Lemma normalize_number_ar (s : str) :
  _normalize_number_str s (u "ar") = flat_map ar_char (strip s).
Proof.
  unfold _normalize_number_str. rewrite _strip_some.
  simpl str_eqb. cbv iota. apply ar_passes.
Qed.

Lemma normalize_number_de (s : str) :
  _normalize_number_str s (u "de") = flat_map de_char (strip s).
Proof.
  unfold _normalize_number_str. rewrite _strip_some.
  simpl str_eqb. cbv iota. apply de_passes.
Qed.

Lemma normalize_number_en (s : str) :
  _normalize_number_str s (u "en") = flat_map en_char (strip s).
Proof. unfold _normalize_number_str. rewrite _strip_some. reflexivity. Qed.

(** After the [ar] passes no Arabic-Indic digit, Arabic separator or comma
    is left. *)
Lemma ar_char_clean (c x : char) :
  In x (ar_char c) ->
  in_range 0x660 0x669 x = false /\ x <> ARABIC_THOUSANDS
  /\ x <> ARABIC_DECIMAL /\ x <> COMMA.
Proof.
  unfold ar_char. intros Hin.
  destruct (in_range 0x660 0x669 c) eqn:Er.
  - destruct Hin as [<-|[]]. unfold in_range in *.
    apply andb_true_iff in Er. destruct Er as [E1 E2].
    apply N.leb_le in E1. apply N.leb_le in E2.
    unfold ARABIC_THOUSANDS, ARABIC_DECIMAL, COMMA.
    split; [apply andb_false_iff; left; apply N.leb_gt; lia|].
    repeat split; lia.
  - destruct (N.eqb_spec c ARABIC_THOUSANDS) as [|N1]; [destruct Hin|].
    destruct (N.eqb_spec c ARABIC_DECIMAL) as [|N2].
    { destruct Hin as [<-|[]]. repeat split; discriminate. }
    destruct (N.eqb_spec c COMMA) as [|N3]; [destruct Hin|].
    destruct Hin as [<-|[]]. repeat split; assumption.
Qed.

(** C7: the German and the English example parse to [1234.56]; under each
    locale [_to_float] is [float()] of the text with every character
    rewritten as the locale prescribes (under [ar]: Arabic-Indic digits to
    ASCII, U+066C dropped, U+066B to a dot, commas dropped), so that
    U+0661 U+066C U+0662 U+0663 U+0664 U+066B U+0665 U+0666 parses to
    [1234.56] too; text that [float()] still rejects yields [None]; a number
    bypasses parsing. *)
Theorem to_float_by_locale :
  _to_float (VStr (u "1.234,56")) (u "de") = Ret (Some 1234.56%float)
  /\ _to_float (VStr (u "1,234.56")) (u "en") = Ret (Some 1234.56%float)
  /\ _to_float (VStr [0x661; 0x66C; 0x662; 0x663; 0x664; 0x66B; 0x665; 0x666]%N)
       (u "ar") = Ret (Some 1234.56%float)
  /\ (forall s, _to_float (VStr s) (u "de")
                = Ret (float_of_str (flat_map de_char (strip s))))
  /\ (forall s, _to_float (VStr s) (u "en")
                = Ret (float_of_str (flat_map en_char (strip s))))
  /\ (forall s, _to_float (VStr s) (u "ar")
                = Ret (float_of_str (flat_map ar_char (strip s)))
        /\ forall x, In x (_normalize_number_str s (u "ar")) ->
             in_range 0x660 0x669 x = false /\ x <> ARABIC_THOUSANDS
             /\ x <> ARABIC_DECIMAL /\ x <> COMMA)
  /\ (forall s lang, float_of_str (_normalize_number_str s lang) = None ->
        _to_float (VStr s) lang = Ret None)
  /\ (forall lang, _to_float (VStr (u "12 apples")) lang = Ret None)
  /\ (forall f lang, _to_float (VFloat f) lang = Ret (Some f)).
Proof.
  split; [vm_compute; reflexivity|].
  split; [vm_compute; reflexivity|].
  split; [vm_compute; reflexivity|].
  split; [intros s; simpl; rewrite normalize_number_de; reflexivity|].
  split; [intros s; simpl; rewrite normalize_number_en; reflexivity|].
  split.
  { intros s. split; [simpl; rewrite normalize_number_ar; reflexivity|].
    intros x Hx. rewrite normalize_number_ar in Hx.
    apply in_flat_map in Hx. destruct Hx as (c & _ & Hx).
    eapply ar_char_clean; exact Hx. }
  split; [intros s lang H; simpl; rewrite H; reflexivity|].
  split; [|reflexivity].
  intros lang. unfold _to_float, _normalize_number_str.
  destruct (str_eqb lang (u "ar")); [vm_compute; reflexivity|].
  destruct (str_eqb lang (u "de")); vm_compute; reflexivity.
Qed.

(** *** Dates *)

(** The text [YYYY-MM-DD] of a date. *)
Definition iso_date_string (y m d : Z) : str :=
  zero_pad 4 y ++ u "-" ++ zero_pad 2 m ++ u "-" ++ zero_pad 2 d.

(** A calendar date of ISO 8601: a year from 0000 to 9999 and a day of the
    proleptic Gregorian calendar. *)
Definition iso_valid (y m d : Z) : bool :=
  ((0 <=? y) && (y <=? 9999) && (1 <=? m) && (m <=? 12)
   && (1 <=? d) && (d <=? days_in_month y m))%Z.

Definition supported (lang : str) : Prop :=
  lang = u "en" \/ lang = u "de" \/ lang = u "ar".

Lemma forall_below (P : Z -> bool) (n : Z) :
  forallb P (map Z.of_nat (seq 0 (Z.to_nat n))) = true ->
  forall z, (0 <= z < n)%Z -> P z = true.
Proof.
  intros H z Hz. rewrite forallb_forall in H. apply H.
  apply in_map_iff. exists (Z.to_nat z). split; [lia|].
  apply in_seq. lia.
Qed.

Definition year_text_ok (y : Z) : bool :=
  match zero_pad 4 y with
  | [a; b; c; d] =>
      is_ascii_digit a && is_ascii_digit b && is_ascii_digit c && is_ascii_digit d
      && (1000 * digit a + 100 * digit b + 10 * digit c + digit d =? y)%Z
      && ((y <? 1000)%Z || str_eqb (str_of_Z y) [a; b; c; d])
  | _ => false
  end.

Definition two_digit_ok (v : Z) : bool :=
  match zero_pad 2 v with
  | [a; b] => is_ascii_digit a && is_ascii_digit b && (10 * digit a + digit b =? v)%Z
  | _ => false
  end.

Lemma str_eqb_eq (a b : str) : str_eqb a b = true -> a = b.
Proof.
  revert b. induction a as [|x a IH]; destruct b as [|y b]; simpl;
    try discriminate; [reflexivity|].
  intros H. apply andb_true_iff in H. destruct H as [H1 H2].
  apply N.eqb_eq in H1. f_equal; [exact H1 | apply IH; exact H2].
Qed.

Lemma year_text (y : Z) :
  (0 <= y <= 9999)%Z ->
  exists a b c d,
    zero_pad 4 y = [a; b; c; d]
    /\ is_ascii_digit a = true /\ is_ascii_digit b = true
    /\ is_ascii_digit c = true /\ is_ascii_digit d = true
    /\ (1000 * digit a + 100 * digit b + 10 * digit c + digit d)%Z = y
    /\ ((1000 <= y)%Z -> str_of_Z y = [a; b; c; d]).
Proof.
  intros Hy.
  assert (H : year_text_ok y = true).
  { apply (forall_below year_text_ok 10000); [vm_compute; reflexivity | lia]. }
  unfold year_text_ok in H.
  destruct (zero_pad 4 y) as [|a [|b [|c [|d [|]]]]]; try discriminate.
  apply andb_true_iff in H. destruct H as [H Hplain].
  apply andb_true_iff in H. destruct H as [H Hval].
  apply andb_true_iff in H. destruct H as [H Hd].
  apply andb_true_iff in H. destruct H as [H Hc].
  apply andb_true_iff in H. destruct H as [Ha Hb].
  exists a, b, c, d. repeat split; try assumption.
  - apply Z.eqb_eq. assumption.
  - intros Hge. apply orb_true_iff in Hplain. destruct Hplain as [E|E].
    + apply Z.ltb_lt in E. lia.
    + apply str_eqb_eq. exact E.
Qed.

Lemma two_digit_text (v : Z) :
  (1 <= v <= 31)%Z ->
  exists a b, zero_pad 2 v = [a; b]
    /\ is_ascii_digit a = true /\ is_ascii_digit b = true.
Proof.
  intros Hv.
  assert (H : two_digit_ok v = true).
  { apply (forall_below two_digit_ok 32); [vm_compute; reflexivity | lia]. }
  unfold two_digit_ok in H.
  destruct (zero_pad 2 v) as [|a [|b [|]]]; try discriminate.
  apply andb_true_iff in H. destruct H as [H _].
  apply andb_true_iff in H. destruct H as [Ha Hb].
  exists a, b. repeat split; assumption.
Qed.

Lemma digit_bounds (c : char) :
  is_ascii_digit c = true -> (48 <= c <= 57)%N.
Proof.
  unfold is_ascii_digit. intros H. apply andb_true_iff in H.
  destruct H as [H1 H2]. apply N.leb_le in H1. apply N.leb_le in H2. lia.
Qed.

Lemma decimal_value_digit (c : char) :
  is_ascii_digit c = true -> decimal_value c = Some (digit c).
Proof. unfold decimal_value. intros ->. reflexivity. Qed.

Lemma digit_neq (c k : char) :
  is_ascii_digit c = true -> (k < 48 \/ 57 < k)%N -> N.eqb c k = false.
Proof. intros H Hk. apply digit_bounds in H. apply N.eqb_neq. lia. Qed.

Lemma digit_not_space (c : char) : is_ascii_digit c = true -> is_space c = false.
Proof.
  intros H. apply digit_bounds in H. unfold is_space.
  replace (c <=? 13)%N with false by (symmetry; apply N.leb_gt; lia).
  replace (c <=? 32)%N with false by (symmetry; apply N.leb_gt; lia).
  replace (0x2000 <=? c)%N with false by (symmetry; apply N.leb_gt; lia).
  rewrite !andb_false_r. simpl.
  repeat (rewrite (proj2 (N.eqb_neq c _)) by lia). reflexivity.
Qed.

(** Text without whitespace and without anything beyond Basic Latin passes
    the preparation of [_parse_date_localized] untouched. *)
Definition plain (c : char) : Prop := (c < 128)%N /\ is_space c = false.

Lemma lstrip_plain (s : str) : Forall plain s -> lstrip_with is_space s = s.
Proof. intros [|c s' [_ Hc] _]; simpl; [|rewrite Hc]; reflexivity. Qed.

Lemma strip_plain (s : str) : Forall plain s -> strip s = s.
Proof.
  intros H. unfold strip, strip_with.
  rewrite (lstrip_plain s H), lstrip_plain by (apply Forall_rev; exact H).
  apply rev_involutive.
Qed.

Lemma replace1_absent (old : char) (new s : str) :
  Forall (fun c => c <> old) s -> replace1 old new s = s.
Proof.
  induction 1 as [|c s Hc _ IH]; [reflexivity|].
  rewrite replace1_cons, IH. unfold replace1. simpl.
  destruct (N.eqb_spec c old); [contradiction | reflexivity].
Qed.

Lemma no_arabic_indic (s : str) :
  Forall plain s ->
  existsb (fun c => existsb (N.eqb c) ARABIC_INDIC_CHARS) s = false.
Proof.
  induction 1 as [|c s [Hc _] _ IH]; [reflexivity|].
  cbn [existsb]. rewrite IH, orb_false_r.
  unfold ARABIC_INDIC_CHARS. cbn [existsb].
  repeat (rewrite (proj2 (N.eqb_neq c _)) by lia). reflexivity.
Qed.

Lemma parse_date_plain (s lang : str) :
  Forall plain s -> s <> [] ->
  _parse_date_localized s lang =
    match try_formats s (patterns lang) with
    | Some iso => Some iso
    | None => try_formats s fallback_patterns
    end.
Proof.
  intros Hp Hne. unfold _parse_date_localized.
  rewrite _strip_some, (strip_plain s Hp).
  destruct s as [|c s]; [contradiction Hne; reflexivity|].
  cbn [nonempty negb]. rewrite (no_arabic_indic _ Hp).
  rewrite (replace1_absent ARABIC_DECIMAL), (replace1_absent ARABIC_THOUSANDS);
    [reflexivity | |];
    (eapply Forall_impl; [|exact Hp]); intros x [Hx _];
    unfold ARABIC_DECIMAL, ARABIC_THOUSANDS; lia.
Qed.

Lemma digit_plain (c : char) : is_ascii_digit c = true -> plain c.
Proof.
  intros H. split; [apply digit_bounds in H; lia | apply digit_not_space; exact H].
Qed.

Lemma hyphen_plain : plain 45%N.
Proof. split; [lia | reflexivity]. Qed.

Lemma first_alt_head {A B} (x : A) (tl : list A) (k : A -> option B) (b : B) :
  k x = Some b -> first_alt (x :: tl) k = Some b.
Proof. intros H. simpl. rewrite H. reflexivity. Qed.

Lemma month_alts_pad (m : Z) (r : str) :
  (1 <= m <= 12)%Z ->
  exists tl, month_alts (zero_pad 2 m ++ r) = (m, r) :: tl.
Proof.
  intros Hm.
  assert (E : (m = 1 \/ m = 2 \/ m = 3 \/ m = 4 \/ m = 5 \/ m = 6 \/ m = 7
              \/ m = 8 \/ m = 9 \/ m = 10 \/ m = 11 \/ m = 12)%Z) by lia.
  repeat (destruct E as [E|E]; [subst m; eexists; reflexivity|]).
  subst m; eexists; reflexivity.
Qed.

Lemma day_alts_pad (d : Z) (r : str) :
  (1 <= d <= 31)%Z ->
  exists tl, day_alts (zero_pad 2 d ++ r) = (d, r) :: tl.
Proof.
  intros Hd.
  assert (E : (d = 1 \/ d = 2 \/ d = 3 \/ d = 4 \/ d = 5 \/ d = 6 \/ d = 7
              \/ d = 8 \/ d = 9 \/ d = 10 \/ d = 11 \/ d = 12 \/ d = 13
              \/ d = 14 \/ d = 15 \/ d = 16 \/ d = 17 \/ d = 18 \/ d = 19
              \/ d = 20 \/ d = 21 \/ d = 22 \/ d = 23 \/ d = 24 \/ d = 25
              \/ d = 26 \/ d = 27 \/ d = 28 \/ d = 29 \/ d = 30 \/ d = 31)%Z) by lia.
  repeat (destruct E as [E|E]; [subst d; eexists; reflexivity|]).
  subst d; eexists; reflexivity.
Qed.

(** The ISO format reads the ISO text of a date back. *)
Lemma match_iso (y m d : Z) :
  (0 <= y <= 9999)%Z -> (1 <= m <= 12)%Z -> (1 <= d <= 31)%Z ->
  match_directives [DY; DLit 45; Dm; DLit 45; Dd] (iso_date_string y m d)
    (None, None, None) = Some ((Some y, Some m, Some d), []).
Proof.
  intros Hy Hm Hd. unfold iso_date_string.
  destruct (year_text y Hy) as (a & b & c & e & -> & Ha & Hb & Hc & He & Hval & _).
  destruct (month_alts_pad m ([45%N] ++ zero_pad 2 d) Hm) as (tlm & Em).
  destruct (day_alts_pad d [] Hd) as (tld & Ed).
  rewrite app_nil_r in Ed.
  cbn [match_directives app year_alts u list_ascii_of_string map].
  rewrite !decimal_value_digit by assumption.
  apply first_alt_head. cbn [fst snd match_directives]. rewrite Hval.
  change (N_of_ascii "-") with 45%N. rewrite N.eqb_refl.
  change (45%N :: zero_pad 2 d) with ([45%N] ++ zero_pad 2 d).
  rewrite Em. apply first_alt_head.
  cbn [fst snd app match_directives]. rewrite N.eqb_refl.
  rewrite Ed. apply first_alt_head. reflexivity.
Qed.

(** A format that starts with a day and a separator rejects text that
    starts with three digits. *)
Lemma day_first_fails (a b c sep : char) (rest : str) (ds : list directive) (f : fields) :
  is_ascii_digit b = true -> is_ascii_digit c = true -> (sep < 48)%N ->
  match_directives (Dd :: DLit sep :: ds) (a :: b :: c :: rest) f = None.
Proof.
  intros Hb Hc Hsep. destruct f as [[fy fm] fd].
  assert (Eb : N.eqb b sep = false) by (apply digit_neq; [assumption | lia]).
  assert (Ec : N.eqb c sep = false) by (apply digit_neq; [assumption | lia]).
  cbn [match_directives]. unfold day_alts.
  destruct (N.eqb a 51 && in_range 48 49 b);
    destruct (in_range 49 50 a);
    destruct (decimal_value b);
    destruct (N.eqb a 48 && in_range 49 57 b);
    destruct (in_range 49 57 a);
    destruct (N.eqb a 32 && in_range 49 57 b);
    cbn [app first_alt fst snd match_directives]; rewrite ?Eb, ?Ec; reflexivity.
Qed.

Lemma iso_text_shape (y m d : Z) :
  (0 <= y <= 9999)%Z -> (1 <= m <= 12)%Z -> (1 <= d <= 31)%Z ->
  exists a b c e rest,
    iso_date_string y m d = a :: b :: c :: e :: rest
    /\ is_ascii_digit b = true /\ is_ascii_digit c = true
    /\ Forall plain (iso_date_string y m d).
Proof.
  intros Hy Hm Hd. unfold iso_date_string.
  destruct (year_text y Hy) as (a & b & c & e & -> & Ha & Hb & Hc & He & _).
  destruct (two_digit_text m) as (m1 & m2 & -> & Hm1 & Hm2); [lia|].
  destruct (two_digit_text d Hd) as (d1 & d2 & -> & Hd1 & Hd2).
  exists a, b, c, e. eexists. split; [reflexivity|].
  split; [exact Hb|]. split; [exact Hc|].
  cbn [app u list_ascii_of_string map]. change (N_of_ascii "-") with 45%N.
  repeat constructor; try (apply digit_plain; assumption); reflexivity.
Qed.

Lemma days_in_month_le (y m : Z) : (days_in_month y m <= 31)%Z.
Proof.
  unfold days_in_month.
  destruct (m =? 2)%Z; [destruct (is_leap y); lia|].
  destruct ((m =? 4) || (m =? 6) || (m =? 9) || (m =? 11))%Z; lia.
Qed.

Lemma valid_date_bounds (y m d : Z) :
  valid_date y m d = true ->
  (1 <= y <= 9999 /\ 1 <= m <= 12 /\ 1 <= d <= 31)%Z.
Proof.
  unfold valid_date. intros H.
  apply andb_true_iff in H. destruct H as [H H6].
  apply andb_true_iff in H. destruct H as [H H5].
  apply andb_true_iff in H. destruct H as [H H4].
  apply andb_true_iff in H. destruct H as [H H3].
  apply andb_true_iff in H. destruct H as [H1 H2].
  apply Z.leb_le in H1, H2, H3, H4, H5, H6.
  pose proof (days_in_month_le y m). lia.
Qed.

Lemma strptime_iso (y m d : Z) :
  valid_date y m d = true ->
  strptime (iso_date_string y m d) (u "%Y-%m-%d") = Some (y, m, d).
Proof.
  intros Hv. unfold strptime.
  change (parse_format (u "%Y-%m-%d")) with [DY; DLit 45; Dm; DLit 45; Dd].
  pose proof (valid_date_bounds y m d Hv) as Hr.
  rewrite match_iso by lia. rewrite Hv. reflexivity.
Qed.

Lemma strptime_day_first (y m d : Z) (fmt : str) (sep : char) (ds : list directive) :
  (0 <= y <= 9999)%Z -> (1 <= m <= 12)%Z -> (1 <= d <= 31)%Z ->
  parse_format fmt = Dd :: DLit sep :: ds -> (sep < 48)%N ->
  strptime (iso_date_string y m d) fmt = None.
Proof.
  intros Hy Hm Hd Hfmt Hsep. unfold strptime. rewrite Hfmt.
  destruct (iso_text_shape y m d Hy Hm Hd) as (a & b & c & e & rest & -> & Hb & Hc & _).
  rewrite day_first_fails by assumption. reflexivity.
Qed.

Lemma strftime_iso (y m d : Z) :
  strftime_pads_year = true \/ (1000 <= y <= 9999)%Z ->
  strftime_ymd (y, m, d) = iso_date_string y m d.
Proof.
  intros H. unfold strftime_ymd, iso_date_string.
  destruct strftime_pads_year; [reflexivity|].
  destruct H as [H|H]; [discriminate|].
  destruct (year_text y) as (a & b & c & e & -> & _ & _ & _ & _ & _ & Hs); [lia|].
  rewrite Hs by lia. reflexivity.
Qed.

(** C8 (amended): for every date [datetime] can hold (years 0001 to 9999)
    whose year has four digits or whose platform pads [%Y], and for each of
    [en], [de] and [ar], the text [YYYY-MM-DD] of the date parses to
    itself. *)
Theorem iso_date_round_trip (y m d : Z) (lang : str) :
  valid_date y m d = true ->
  supported lang ->
  strftime_pads_year = true \/ (1000 <= y)%Z ->
  _parse_date_localized (iso_date_string y m d) lang
    = Some (iso_date_string y m d).
Proof.
  intros Hv Hlang Hpad.
  pose proof (valid_date_bounds y m d Hv) as Hr.
  destruct Hr as (Hy & Hm & Hd).
  assert (Hfmt : strftime_ymd (y, m, d) = iso_date_string y m d).
  { apply strftime_iso. destruct Hpad; [left; assumption | right; lia]. }
  assert (Hiso : strptime (iso_date_string y m d) (u "%Y-%m-%d") = Some (y, m, d))
    by (apply strptime_iso; exact Hv).
  assert (Hfail : forall fmt sep ds,
            parse_format fmt = Dd :: DLit sep :: ds -> (sep < 48)%N ->
            strptime (iso_date_string y m d) fmt = None).
  { intros fmt sep ds. apply strptime_day_first; lia. }
  destruct (iso_text_shape y m d) as (a & b & c & e & rest & Hshape & _ & _ & Hplain);
    try lia.
  rewrite parse_date_plain; [|exact Hplain | rewrite Hshape; discriminate].
  destruct Hlang as [-> | [-> | ->]].
  - change (patterns (u "en")) with
      [u "%Y-%m-%d"; u "%m/%d/%Y"; u "%m-%d-%Y"; u "%d/%m/%Y"; u "%d-%m-%Y"].
    cbn [try_formats]. rewrite Hiso, Hfmt. reflexivity.
  - change (patterns (u "de")) with
      [u "%d.%m.%Y"; u "%d/%m/%Y"; u "%d-%m-%Y"; u "%Y-%m-%d"].
    cbn [try_formats].
    rewrite (Hfail (u "%d.%m.%Y") 46%N [Dm; DLit 46%N; DY] eq_refl eq_refl).
    rewrite (Hfail (u "%d/%m/%Y") 47%N [Dm; DLit 47%N; DY] eq_refl eq_refl).
    rewrite (Hfail (u "%d-%m-%Y") 45%N [Dm; DLit 45%N; DY] eq_refl eq_refl).
    rewrite Hiso, Hfmt. reflexivity.
  - change (patterns (u "ar")) with [u "%d/%m/%Y"; u "%Y-%m-%d"; u "%d-%m-%Y"].
    cbn [try_formats].
    rewrite (Hfail (u "%d/%m/%Y") 47%N [Dm; DLit 47%N; DY] eq_refl eq_refl).
    rewrite Hiso, Hfmt. reflexivity.
Qed.

End WithRuntime.

(** C8 as stated fails at year 0000, a year of ISO 8601 that [datetime]
    does not hold: every format raises and the result is [None]. *)
Lemma iso_year_zero_is_rejected :
  iso_valid 0 1 1 = true
  /\ iso_date_string 0 1 1 = u "0000-01-01"
  /\ _parse_date_localized (rt := glibc_runtime) (u "0000-01-01") (u "en") = None
  /\ _parse_date_localized (rt := glibc_runtime) (u "0000-01-01") (u "de") = None
  /\ _parse_date_localized (rt := glibc_runtime) (u "0000-01-01") (u "ar") = None.
Proof. repeat split; vm_compute; reflexivity. Qed.

(** Where [strftime] does not pad the year, a year below 1000 loses its
    leading zeros. *)
Lemma iso_year_below_1000_unpadded :
  _parse_date_localized (rt := glibc_runtime) (u "0999-07-10") (u "en")
    = Some (u "999-07-10").
Proof. vm_compute. reflexivity. Qed.

Lemma iso_date_round_trip_witness :
  valid_date 2025 7 10 = true
  /\ supported (u "de")
  /\ _parse_date_localized (rt := glibc_runtime) (u "2025-07-10") (u "de")
      = Some (u "2025-07-10").
Proof.
  split; [reflexivity|]. split; [right; left; reflexivity|].
  change (u "2025-07-10") with (iso_date_string 2025 7 10).
  apply (iso_date_round_trip (rt := glibc_runtime) 2025 7 10 (u "de"));
    [reflexivity | right; left; reflexivity | right; lia].
Defined.



(** *** The scenario of the specification, and an unclamped submission *)

Definition sample_item : RawItem := {|
  raw_description := Some (u "Keyboard");
  raw_quantity := Some (VInt 3);
  raw_unit_price := Some (VFloat 35);
  raw_category := None
|}.

Definition sample_payload : Payload := {|
  p_vendor_name := Some (u "Acme");
  p_invoice_number := Some (u "A-1");
  p_date := Some (u "10.07.2025");
  p_tax_id := Some (u "DE123");
  p_items := Some [sample_item];
  p_currency := Some (u "EUR");
  p_raw_text := None
|}.

Definition sample_canonical : Canonical := {|
  vendor_name := u "Acme";
  invoice_number := u "A-1";
  date := Some (u "2025-07-10");
  tax_id := u "DE123";
  items := [ {| description := u "Keyboard"; quantity := 3;
                unit_price := 35; category := [] |} ];
  currency := u "EUR";
  total_amount := Some 105%float;
  line_count := 1;
  full_text := u "Acme A-1 DE123 EUR Keyboard"
|}.

Lemma sample_normalized :
  normalize (rt := glibc_runtime) sample_payload (u "de") = Ret sample_canonical.
Proof. vm_compute. reflexivity. Qed.

Lemma normalize_one_item_per_raw_item_witness :
  normalize (rt := glibc_runtime) sample_payload (u "de") = Ret sample_canonical
  /\ length (items sample_canonical) = length (raw_items_of sample_payload)
  /\ line_count sample_canonical = Z.of_nat (length (raw_items_of sample_payload)).
Proof.
  split; [exact sample_normalized|].
  pose proof (normalize_one_item_per_raw_item (rt := glibc_runtime)
                sample_payload (u "de") sample_canonical sample_normalized) as H.
  split; [exact (proj1 (proj2 H)) | exact (proj1 (proj2 (proj2 H)))].
Defined.

(** Two items whose amounts do not add up to a number of two decimals. *)
Definition dimes_payload : Payload := {|
  p_vendor_name := Some (u "Acme");
  p_invoice_number := Some (u "A-4");
  p_date := Some (u "2025-07-10");
  p_tax_id := Some (u "DE123");
  p_items := Some [ {| raw_description := Some (u "Washer");
                       raw_quantity := Some (VInt 1);
                       raw_unit_price := Some (VFloat 0.1);
                       raw_category := None |};
                    {| raw_description := Some (u "Nut");
                       raw_quantity := Some (VInt 1);
                       raw_unit_price := Some (VFloat 0.2);
                       raw_category := None |} ];
  p_currency := Some (u "EUR");
  p_raw_text := None
|}.

Lemma normalize_total_amount_iff_items_witness :
  exists c s,
    normalize (rt := glibc_runtime) dimes_payload (u "en") = Ret c
    /\ total_amount c = Some 0.3%float
    /\ sum_line_totals (items c) = Ret s
    /\ s = 0.30000000000000004%float
    /\ rounded_to_2_decimals s 0.3.
Proof.
  destruct (normalize (rt := glibc_runtime) dimes_payload (u "en")) as [c|e] eqn:E;
    [|revert E; vm_compute; discriminate].
  assert (Ht : total_amount c = Some 0.3%float)
    by (revert E; vm_compute; intros E; injection E as <-; reflexivity).
  destruct (proj2 (proj2 (proj2
    (normalize_total_amount_iff_items (rt := glibc_runtime)
       dimes_payload (u "en") c E))) 0.3%float Ht) as (s & Hs & _ & Hr).
  exists c, s. split; [reflexivity|]. split; [exact Ht|]. split; [exact Hs|].
  split; [|exact Hr].
  revert Hs. revert E. vm_compute. intros E. injection E as <-.
  vm_compute. intros Hs. injection Hs as <-. reflexivity.
Defined.

Lemma normalize_items_not_clamped_witness :
  normalize (rt := glibc_runtime) sample_payload (u "de") = Ret sample_canonical
  /\ Forall2 (fun raw it =>
        degrades_to (rt := glibc_runtime) (u "de") raw it
        /\ ((1 <= quantity it)%Z <->
              forall z, int_of_value (rt := glibc_runtime)
                          (localized_quantity raw (u "de")) = Ret z -> (1 <= z)%Z)
        /\ (validated_quantity raw -> (1 <= quantity it)%Z)
        /\ (validated_price raw -> PrimFloat.leb zero (unit_price it) = true))
      (raw_items_of sample_payload) (items sample_canonical).
Proof.
  split; [exact sample_normalized|].
  exact (normalize_items_not_clamped (rt := glibc_runtime)
           sample_payload (u "de") sample_canonical sample_normalized).
Defined.

(** A submission input validation lets through: quantity and price are
    text, which validation only strips. *)
Definition unclamped_item : RawItem := {|
  raw_description := Some (u "Refund");
  raw_quantity := Some (VStr (u "0"));
  raw_unit_price := Some (VStr (u "-5"));
  raw_category := None
|}.

Definition unclamped_payload : Payload := {|
  p_vendor_name := Some (u "Acme");
  p_invoice_number := Some (u "A-2");
  p_date := Some (u "2025-07-10");
  p_tax_id := Some (u "DE123");
  p_items := Some [unclamped_item];
  p_currency := Some (u "EUR");
  p_raw_text := None
|}.

(** C9 as stated fails: the quantity ["0"] and the price ["-5"] come out as
    [0] and [-5.0]. *)
Lemma normalize_keeps_quantity_below_one :
  exists c it,
    normalize (rt := glibc_runtime) unclamped_payload (u "en") = Ret c
    /\ In it (items c)
    /\ quantity it = 0%Z /\ ~ (1 <= quantity it)%Z
    /\ unit_price it = (-5)%float
    /\ PrimFloat.leb zero (unit_price it) = false.
Proof.
  eexists. eexists. split; [vm_compute; reflexivity|].
  split; [left; reflexivity|].
  simpl. repeat split; try reflexivity. lia.
Qed.

(** A submission with one item, whose quantity is a text of four hundred
    digits: an integer for [int()], beyond the range of [float]. *)
Definition oversized_payload : Payload := {|
  p_vendor_name := Some (u "Acme");
  p_invoice_number := Some (u "A-3");
  p_date := Some (u "2025-07-10");
  p_tax_id := Some (u "DE123");
  p_items := Some [ {| raw_description := Some (u "Bolt");
                       raw_quantity := Some (VStr (repeat 57%N 400));
                       raw_unit_price := Some (VFloat 1);
                       raw_category := None |} ];
  p_currency := Some (u "EUR");
  p_raw_text := None
|}.

(** C10 as stated fails: on this submission the round of the loop raises
    [OverflowError] at [qty * unit_price], so [normalize] produces no
    canonical invoice at all, and no canonical item for the one raw item. *)
Lemma normalize_produces_nothing_on_overflow :
  length (raw_items_of oversized_payload) = 1%nat
  /\ normalize (rt := glibc_runtime) oversized_payload (u "en") = Raise OverflowError
  /\ ~ (exists c,
          normalize (rt := glibc_runtime) oversized_payload (u "en") = Ret c
          /\ line_count c = Z.of_nat (length (raw_items_of oversized_payload))).
Proof.
  assert (H : normalize (rt := glibc_runtime) oversized_payload (u "en")
              = Raise OverflowError) by (vm_compute; reflexivity).
  split; [reflexivity|]. split; [exact H|].
  intros (c & Hc & _). rewrite H in Hc. discriminate Hc.
Qed.

End EtlFacts.


(* ================================================================== *)
(** * Facts about binary64 arithmetic                                  *)
(* ================================================================== *)
Module FloatFacts.
Import Py.

Definition SFis_nan (x : spec_float) : bool :=
  match x with S754_nan => true | _ => false end.

(** Zero or a finite non-zero number. *)
Definition SFfinite (x : spec_float) : bool :=
  match x with S754_zero _ | S754_finite _ _ _ => true | _ => false end.

Definition finite (x : float) : bool := SFfinite (Prim2SF x).

Lemma SFcompare_refl (x : spec_float) :
  SFis_nan x = false -> SFcompare x x = Some Eq.
Proof.
  destruct x as [s|s| |s m e]; simpl; try discriminate; intros _.
  - reflexivity.
  - destruct s; reflexivity.
  - rewrite Z.compare_refl, Pos.compare_cont_refl. destruct s; reflexivity.
Qed.

Lemma is_nan_spec (x : float) : PrimFloat.is_nan x = SFis_nan (Prim2SF x).
Proof.
  unfold PrimFloat.is_nan. rewrite eqb_spec. unfold SFeqb.
  destruct (Prim2SF x) as [s|s| |s m e] eqn:E; try reflexivity;
    rewrite SFcompare_refl; reflexivity.
Qed.

Lemma finite_not_nan (x : float) : finite x = true -> PrimFloat.is_nan x = false.
Proof. rewrite is_nan_spec. unfold finite. destruct (Prim2SF x); simpl; congruence. Qed.

Lemma leb_refl (x : float) : PrimFloat.is_nan x = false -> PrimFloat.leb x x = true.
Proof.
  rewrite is_nan_spec, leb_spec. intros H. unfold SFleb.
  rewrite SFcompare_refl by exact H. reflexivity.
Qed.

Lemma ltb_leb (x y : float) : PrimFloat.ltb x y = true -> PrimFloat.leb x y = true.
Proof.
  rewrite ltb_spec, leb_spec. unfold SFltb, SFleb.
  destruct (SFcompare (Prim2SF x) (Prim2SF y)) as [[| |]|]; congruence.
Qed.

(** A number between two finite numbers is finite. *)
Lemma between_finite (lo x hi : float) :
  finite lo = true -> finite hi = true ->
  PrimFloat.leb lo x = true -> PrimFloat.leb x hi = true -> finite x = true.
Proof.
  unfold finite. rewrite !leb_spec. unfold SFleb.
  destruct (Prim2SF lo) as [sl|sl| |sl ml el]; try discriminate;
    destruct (Prim2SF hi) as [sh|sh| |sh mh eh]; try discriminate;
    destruct (Prim2SF x) as [s|[|]| |s m e]; simpl; try reflexivity;
    try discriminate; try destruct sl; try destruct sh; simpl; congruence.
Qed.

(** *** Rounding never makes a NaN *)

Lemma iter_pos_invariant {A} (P : A -> Prop) (f : A -> A) :
  (forall x, P x -> P (f x)) -> forall p x, P x -> P (iter_pos f p x).
Proof.
  intros Hf. induction p as [p IH|p IH|]; simpl; intros x Hx; auto.
Qed.

Lemma shr_1_nonneg (mrs : shr_record) :
  (0 <= shr_m mrs)%Z -> (0 <= shr_m (shr_1 mrs))%Z.
Proof.
  destruct mrs as [m r s]. simpl.
  destruct m as [|[p|p|]|[p|p|]]; simpl; lia.
Qed.

Lemma shr_fexp_nonneg (m e : Z) (l : location) :
  (0 <= m)%Z -> (0 <= shr_m (fst (shr_fexp prec emax m e l)))%Z.
Proof.
  intros Hm. unfold shr_fexp, shr.
  assert (H0 : (0 <= shr_m (shr_record_of_loc m l))%Z)
    by (destruct l as [|[| |]]; exact Hm).
  destruct (fexp prec emax (Zdigits2 m + e) - e)%Z; simpl; try exact H0.
  apply (iter_pos_invariant (fun r => 0 <= shr_m r)%Z); [apply shr_1_nonneg | exact H0].
Qed.

Lemma round_nearest_even_nonneg (m : Z) (l : location) :
  (0 <= m)%Z -> (0 <= round_nearest_even m l)%Z.
Proof.
  intros Hm. destruct l as [|[| |]]; simpl; try destruct (Z.even m); lia.
Qed.

(** The outcome of a rounding: a zero, a finite number or an infinity. *)
Lemma binary_round_aux_not_nan (sx : bool) (mx ex : Z) (lx : location) :
  (0 <= mx)%Z -> SFis_nan (binary_round_aux prec emax sx mx ex lx) = false.
Proof.
  intros Hm. unfold binary_round_aux.
  pose proof (shr_fexp_nonneg mx ex lx Hm) as H1.
  destruct (shr_fexp prec emax mx ex lx) as [mrs' e']. simpl in H1.
  pose proof (shr_fexp_nonneg _ e' loc_Exact
                (round_nearest_even_nonneg _ (loc_of_shr_record mrs') H1)) as H2.
  destruct (shr_fexp prec emax _ e' loc_Exact) as [mrs'' e'']. simpl in H2.
  destruct (shr_m mrs''); [reflexivity | | lia].
  destruct (e'' <=? emax - prec)%Z; reflexivity.
Qed.

Lemma binary_round_not_nan (sx : bool) (mx : positive) (ex : Z) :
  SFis_nan (binary_round prec emax sx mx ex) = false.
Proof.
  unfold binary_round. destruct (shl_align _ _ _) as [mz ez].
  apply binary_round_aux_not_nan. lia.
Qed.

Lemma binary_normalize_not_nan (m e : Z) (szero : bool) :
  SFis_nan (binary_normalize prec emax m e szero) = false.
Proof.
  destruct m; simpl; [reflexivity | apply binary_round_not_nan ..].
Qed.

Lemma SFadd_not_nan (x y : spec_float) :
  SFis_nan x = false -> SFfinite y = true -> SFis_nan (SFadd prec emax x y) = false.
Proof.
  destruct x as [sx|sx| |sx mx ex]; destruct y as [sy|sy| |sy my ey];
    simpl; try discriminate; intros _ _; try reflexivity.
  - destruct sx, sy; reflexivity.
  - apply binary_normalize_not_nan.
Qed.

Lemma SFsub_not_nan (x y : spec_float) :
  SFfinite x = true -> SFis_nan y = false -> SFis_nan (SFsub prec emax x y) = false.
Proof.
  destruct x as [sx|sx| |sx mx ex]; destruct y as [sy|sy| |sy my ey];
    simpl; try discriminate; intros _ _; try reflexivity.
  - destruct sx, sy; reflexivity.
  - apply binary_normalize_not_nan.
Qed.

Lemma add_not_nan (x y : float) :
  PrimFloat.is_nan x = false -> finite y = true ->
  PrimFloat.is_nan (x + y)%float = false.
Proof.
  rewrite !is_nan_spec, add_spec. apply SFadd_not_nan.
Qed.

Lemma sub_not_nan (x y : float) :
  finite x = true -> PrimFloat.is_nan y = false ->
  PrimFloat.is_nan (x - y)%float = false.
Proof.
  rewrite !is_nan_spec, sub_spec. apply SFsub_not_nan.
Qed.

End FloatFacts.


(* ================================================================== *)
(** * Rounding: magnitudes, overflow and quotients                     *)
(* ================================================================== *)
Module FloatRounding.
Import Py FloatFacts.
Local Open Scope Z_scope.

Lemma digits2_pos_size (p : positive) : digits2_pos p = Pos.size p.
Proof. induction p; simpl; congruence. Qed.

Lemma digits_bounds (p : positive) :
  2 ^ (Zpos (digits2_pos p) - 1) <= Zpos p < 2 ^ Zpos (digits2_pos p).
Proof.
  rewrite digits2_pos_size.
  pose proof (Pos.size_gt p) as Hgt. pose proof (Pos.size_le p) as Hle.
  assert (E : Zpos (2 ^ Pos.size p) = 2 ^ Zpos (Pos.size p)) by apply Pos2Z.inj_pow.
  split.
  - assert (H : 2 * 2 ^ (Zpos (Pos.size p) - 1) = 2 ^ Zpos (Pos.size p)).
    { rewrite <- Z.pow_succ_r by lia. f_equal. lia. }
    lia.
  - lia.
Qed.

Lemma digits_le_pow (p : positive) (k : Z) :
  0 <= k -> Zpos p <= 2 ^ k -> Zpos (digits2_pos p) <= k + 1.
Proof.
  intros Hk Hp. destruct (Z_le_gt_dec (Zpos (digits2_pos p)) (k + 1)) as [H|H]; [exact H|].
  exfalso. pose proof (digits_bounds p) as [Hlo _].
  assert (2 ^ (k + 1) <= 2 ^ (Zpos (digits2_pos p) - 1)) by (apply Z.pow_le_mono_r; lia).
  assert (2 ^ k < 2 ^ (k + 1)) by (apply Z.pow_lt_mono_r; lia).
  lia.
Qed.

Lemma shr_1_m (mrs : shr_record) : 0 <= shr_m mrs -> shr_m (shr_1 mrs) = shr_m mrs / 2.
Proof.
  destruct mrs as [m r s]. simpl. intros Hm.
  destruct m as [|[p|p|]|p]; simpl; try lia; try reflexivity.
  - rewrite (Pos2Z.inj_xI p). apply Z.div_unique with 1; lia.
  - rewrite (Pos2Z.inj_xO p). apply Z.div_unique with 0; lia.
Qed.

Lemma iter_shr_1_m (p : positive) :
  forall mrs, 0 <= shr_m mrs ->
  shr_m (iter_pos shr_1 p mrs) = shr_m mrs / 2 ^ Zpos p
  /\ 0 <= shr_m (iter_pos shr_1 p mrs).
Proof.
  induction p as [p IH|p IH|]; intros mrs Hm; cbn [iter_pos].
  - assert (H1 : 0 <= shr_m (shr_1 mrs)) by (rewrite shr_1_m by lia; apply Z.div_pos; lia).
    destruct (IH _ H1) as [E1 P1]. destruct (IH _ P1) as [E2 P2].
    split; [|exact P2]. rewrite E2, E1, shr_1_m by lia.
    rewrite !Z.div_div by (try apply Z.pow_pos_nonneg; lia).
    f_equal. rewrite (Pos2Z.inj_xI p).
    replace (2 * Zpos p + 1) with (1 + Zpos p + Zpos p) by lia.
    rewrite !Z.pow_add_r by lia. lia.
  - destruct (IH _ Hm) as [E1 P1]. destruct (IH _ P1) as [E2 P2].
    split; [|exact P2]. rewrite E2, E1.
    rewrite !Z.div_div by (try apply Z.pow_pos_nonneg; lia).
    f_equal. rewrite (Pos2Z.inj_xO p).
    replace (2 * Zpos p) with (Zpos p + Zpos p) by lia.
    rewrite !Z.pow_add_r by lia. lia.
  - split; [rewrite shr_1_m by lia; reflexivity|].
    rewrite shr_1_m by lia. apply Z.div_pos; lia.
Qed.

Lemma shr_1_exact (x : Z) :
  0 <= x -> shr_1 (Build_shr_record (2 * x) false false) = Build_shr_record x false false.
Proof. destruct x; simpl; intros; try reflexivity; lia. Qed.

Lemma iter_shr_1_exact (p : positive) :
  forall x, 0 <= x ->
  iter_pos shr_1 p (Build_shr_record (x * 2 ^ Zpos p) false false)
  = Build_shr_record x false false.
Proof.
  induction p as [p IH|p IH|]; intros x Hx; cbn [iter_pos].
  - rewrite (Pos2Z.inj_xI p).
    replace (x * 2 ^ (2 * Zpos p + 1)) with (2 * ((x * 2 ^ Zpos p) * 2 ^ Zpos p)).
    2:{ replace (2 * Zpos p + 1) with (1 + Zpos p + Zpos p) by lia.
        rewrite !Z.pow_add_r by lia. lia. }
    rewrite shr_1_exact by (apply Z.mul_nonneg_nonneg; [apply Z.mul_nonneg_nonneg|]; try lia;
                            apply Z.pow_nonneg; lia).
    rewrite IH by (apply Z.mul_nonneg_nonneg; try lia; apply Z.pow_nonneg; lia).
    apply IH. exact Hx.
  - rewrite (Pos2Z.inj_xO p).
    replace (x * 2 ^ (2 * Zpos p)) with ((x * 2 ^ Zpos p) * 2 ^ Zpos p).
    2:{ replace (2 * Zpos p) with (Zpos p + Zpos p) by lia.
        rewrite !Z.pow_add_r by lia. lia. }
    rewrite IH by (apply Z.mul_nonneg_nonneg; try lia; apply Z.pow_nonneg; lia).
    apply IH. exact Hx.
  - replace (x * 2 ^ 1) with (2 * x) by lia. apply shr_1_exact. exact Hx.
Qed.

Lemma loc_of_record_of (m : Z) (l : location) :
  loc_of_shr_record (shr_record_of_loc m l) = l /\ shr_m (shr_record_of_loc m l) = m.
Proof. destruct l as [|[| |]]; split; reflexivity. Qed.

(** A number of magnitude at most [2 ^ B], as mantissa and exponent. *)
Definition below_pow (B m e : Z) : Prop := e <= B - 52 /\ m <= 2 ^ (B - e).

(** One normalization step keeps a magnitude of at most [2 ^ B] so, and
    tells when the bound is hit exactly. *)
Lemma shr_fexp_below_pow (B m e : Z) (l : location) :
  0 <= B -> 0 <= m -> below_pow B m e -> (m = 2 ^ (B - e) -> l = loc_Exact) ->
  let mrs := fst (shr_fexp prec emax m e l) in
  let e1 := snd (shr_fexp prec emax m e l) in
  0 <= shr_m mrs /\ below_pow B (shr_m mrs) e1
  /\ (shr_m mrs = 2 ^ (B - e1) -> loc_of_shr_record mrs = loc_Exact).
Proof.
  intros HB Hm [He Hle] Hex. unfold shr_fexp, shr, below_pow.
  destruct (loc_of_record_of m l) as [Hloc Hrec].
  destruct (fexp prec emax (Zdigits2 m + e) - e) as [|p|p] eqn:En; simpl;
    try (rewrite Hloc, Hrec; repeat split; assumption).
  assert (He1 : e + Zpos p <= B - 52).
  { rewrite <- En. unfold fexp, emin, prec, emax.
    destruct m as [|q|q]; simpl Zdigits2; [lia| |lia].
    pose proof (digits_le_pow q (B - e) ltac:(lia) Hle). lia. }
  assert (Hrec0 : 0 <= shr_m (shr_record_of_loc m l)) by (rewrite Hrec; exact Hm).
  destruct (iter_shr_1_m p _ Hrec0) as [Eq Pos]. rewrite Hrec in Eq.
  assert (Hpow : 2 ^ (B - e) = 2 ^ (B - (e + Zpos p)) * 2 ^ Zpos p).
  { rewrite <- Z.pow_add_r by lia. f_equal. lia. }
  assert (Hp2 : 0 < 2 ^ Zpos p) by (apply Z.pow_pos_nonneg; lia).
  split; [exact Pos|]. split; [split; [exact He1|]|].
  - rewrite Eq. apply Z.div_le_upper_bound; [exact Hp2|]. rewrite Z.mul_comm, <- Hpow. exact Hle.
  - intros Hhit. rewrite Eq in Hhit.
    assert (Hmeq : m = 2 ^ (B - e)).
    { pose proof (Z.mul_div_le m (2 ^ Zpos p) Hp2) as H. rewrite Hhit in H.
      rewrite Z.mul_comm, <- Hpow in H. lia. }
    rewrite (Hex Hmeq). simpl shr_record_of_loc.
    rewrite Hmeq, Hpow, iter_shr_1_exact; [reflexivity|].
    apply Z.pow_nonneg; lia.
Qed.

(** A float of magnitude at most [2 ^ B]. *)
Definition SFbelow_pow (B : Z) (x : spec_float) : Prop :=
  match x with
  | S754_zero _ => True
  | S754_finite _ m e => below_pow B (Zpos m) e
  | _ => False
  end.

(** Rounding keeps a magnitude of at most [2 ^ B] so: there is no overflow
    up to [2 ^ 1023]. *)
Lemma binary_round_aux_below_pow (B : Z) (s : bool) (m e : Z) (l : location) :
  0 <= B <= 1023 -> 0 <= m -> below_pow B m e -> (m = 2 ^ (B - e) -> l = loc_Exact) ->
  SFbelow_pow B (binary_round_aux prec emax s m e l).
Proof.
  intros HB Hm Hb Hex. unfold binary_round_aux.
  pose proof (shr_fexp_below_pow B m e l (proj1 HB) Hm Hb Hex) as H1. cbv zeta in H1.
  destruct (shr_fexp prec emax m e l) as [mrs1 e1]. simpl in H1.
  destruct H1 as (P1 & [E1 L1] & X1).
  set (m2 := round_nearest_even (shr_m mrs1) (loc_of_shr_record mrs1)).
  assert (Hm2 : 0 <= m2 /\ m2 <= 2 ^ (B - e1)).
  { unfold m2. destruct (loc_of_shr_record mrs1) as [|c] eqn:El; simpl; [lia|].
    assert (shr_m mrs1 < 2 ^ (B - e1)).
    { destruct (Z.eq_dec (shr_m mrs1) (2 ^ (B - e1))) as [E|E]; [|lia].
      specialize (X1 E). discriminate. }
    destruct c; try destruct (Z.even (shr_m mrs1)); lia. }
  pose proof (shr_fexp_below_pow B m2 e1 loc_Exact (proj1 HB) (proj1 Hm2)
                (conj E1 (proj2 Hm2)) (fun _ => eq_refl)) as H2.
  cbv zeta in H2.
  destruct (shr_fexp prec emax m2 e1 loc_Exact) as [mrs3 e3]. simpl in H2.
  destruct H2 as (P3 & [E3 L3] & _).
  destruct (shr_m mrs3) as [|q|q] eqn:Em3; [exact I| |lia].
  replace (e3 <=? emax - prec) with true by (symmetry; apply Z.leb_le; unfold emax, prec; lia).
  split; assumption.
Qed.



Lemma pos_iter_xO (m d : positive) : Zpos (Pos.iter xO m d) = Zpos m * 2 ^ Zpos d.
Proof.
  induction d as [|d IH] using Pos.peano_ind.
  - simpl. lia.
  - rewrite Pos.iter_succ, Pos2Z.inj_xO, IH, Pos2Z.inj_succ, Z.pow_succ_r by lia. lia.
Qed.

(** An integer of magnitude at most [2 ^ 1023] converts without overflow. *)
Lemma binary_normalize_below_pow (z : Z) :
  Z.abs z <= 2 ^ 1023 -> SFbelow_pow 1023 (binary_normalize prec emax z 0 false).
Proof.
  intros Hz.
  assert (H : forall s p, Zpos p <= 2 ^ 1023 ->
            SFbelow_pow 1023 (binary_round prec emax s p 0)).
  { intros s p Hp. unfold binary_round, shl_align.
    pose proof (digits_le_pow p 1023 ltac:(lia) Hp) as Hd.
    destruct (fexp prec emax (Zpos (digits2_pos p) + 0) - 0) as [|d|d] eqn:Ed;
      (apply binary_round_aux_below_pow; [lia | lia | | intros _; reflexivity]).
    - split; [lia | rewrite Z.sub_0_r; exact Hp].
    - split; [lia | rewrite Z.sub_0_r; exact Hp].
    - unfold fexp, emin, prec, emax in *. split; [lia|].
      rewrite pos_iter_xO.
      replace (1023 - (Z.max (Zpos (digits2_pos p) + 0 - 53) (3 - 1024 - 53)))
        with (1023 + Zpos d) by lia.
      rewrite Z.pow_add_r by lia.
      apply Z.mul_le_mono_nonneg_r; [apply Z.pow_nonneg; lia | exact Hp]. }
  destruct z as [|p|p]; simpl; [exact I | apply H; lia | apply H; lia].
Qed.





Lemma SFleb_finite_iff (m1 : positive) (e1 : Z) (m2 : positive) (e2 : Z) :
  SFleb (S754_finite false m1 e1) (S754_finite false m2 e2) = true
  <-> e1 < e2 \/ (e1 = e2 /\ (m1 <= m2)%positive).
Proof.
  unfold SFleb, SFcompare. rewrite Pos.compare_cont_spec. simpl Pos.switch_Eq.
  destruct (Z.compare_spec e1 e2) as [E|E|E].
  - destruct (Pos.compare_spec m1 m2) as [C|C|C]; split; intros G;
      try discriminate; try lia; reflexivity.
  - split; [lia | reflexivity].
  - split; [discriminate | lia].
Qed.

Lemma canonical_digits (m : positive) (e : Z) :
  canonical_mantissa prec emax m e = true ->
  Zpos (digits2_pos m) <= 53 /\ -1074 <= e
  /\ (-1074 < e -> Zpos (digits2_pos m) = 53).
Proof.
  unfold canonical_mantissa, fexp, emin, prec, emax. intros H.
  apply Z.eqb_eq in H. lia.
Qed.




(** ** On primitive floats *)

(** Zero or a finite positive number: what [abs] makes of a finite number. *)
Definition SFnonneg (x : spec_float) : bool :=
  match x with
  | S754_zero false | S754_finite false _ _ => true
  | _ => false
  end.

Definition nonneg (x : float) : bool := SFnonneg (Prim2SF x).

Lemma abs_nonneg (x : float) : finite x = true -> nonneg (PrimFloat.abs x) = true.
Proof.
  unfold finite, nonneg. rewrite abs_spec.
  destruct (Prim2SF x); simpl; congruence.
Qed.

Lemma nonneg_finite (x : float) : nonneg x = true -> finite x = true.
Proof. unfold finite, nonneg. destruct (Prim2SF x) as [[|]|[|]| |[|] m e]; simpl; congruence. Qed.

Lemma leb_nonneg_total (x y : float) :
  nonneg x = true -> nonneg y = true ->
  PrimFloat.ltb x y = false -> PrimFloat.leb y x = true.
Proof.
  unfold nonneg. rewrite ltb_spec, leb_spec. unfold SFltb, SFleb.
  destruct (Prim2SF x) as [[|]|[|]| |[|] m1 e1]; try discriminate;
    destruct (Prim2SF y) as [[|]|[|]| |[|] m2 e2]; try discriminate;
    simpl; try congruence.
  intros _ _. rewrite !Pos.compare_cont_spec. simpl Pos.switch_Eq.
  rewrite (Z.compare_antisym e1 e2), (Pos.compare_antisym m1 m2).
  destruct (e1 ?= e2); simpl; try congruence.
  destruct (m1 ?= m2)%positive; simpl; congruence.
Qed.

Lemma leb_nonneg_trans (x y z : float) :
  nonneg x = true -> nonneg y = true -> nonneg z = true ->
  PrimFloat.leb x y = true -> PrimFloat.leb y z = true -> PrimFloat.leb x z = true.
Proof.
  unfold nonneg. rewrite !leb_spec.
  destruct (Prim2SF x) as [[|]|[|]| |[|] m1 e1]; try discriminate;
    destruct (Prim2SF y) as [[|]|[|]| |[|] m2 e2]; try discriminate;
    destruct (Prim2SF z) as [[|]|[|]| |[|] m3 e3]; try discriminate;
    intros _ _ _; try reflexivity; try (intros H; discriminate H);
    try (intros _ H; discriminate H).
  rewrite !SFleb_finite_iff. lia.
Qed.







(** [float(z)] returns for every integer up to [2 ^ 1023] in magnitude. *)
Lemma float_of_Z_returns (z : Z) :
  Z.abs z <= 2 ^ 1023 -> exists f, float_of_Z z = Ret f.
Proof.
  intros Hz. unfold float_of_Z.
  pose proof (binary_normalize_below_pow z Hz) as H.
  destruct (binary_normalize prec emax z 0 false); simpl in H;
    try contradiction; eexists; reflexivity.
Qed.

End FloatRounding.


(* ================================================================== *)
(** * Properties of the risk score                                     *)
(* ================================================================== *)
Module AnomalyFacts.
Import Py Etl Anomaly FloatFacts EtlFacts.

(** Clipping a number to an interval lands in the interval. *)
Lemma clip_in_range (x lo hi : float) :
  PrimFloat.is_nan x = false -> PrimFloat.is_nan lo = false ->
  PrimFloat.is_nan hi = false -> PrimFloat.leb lo hi = true ->
  PrimFloat.leb lo (clip x lo hi) = true /\ PrimFloat.leb (clip x lo hi) hi = true.
Proof.
  intros Hx Hlo Hhi Hle. unfold clip, np_maximum. rewrite Hx.
  destruct (PrimFloat.ltb lo x) eqn:E1; unfold np_minimum.
  - rewrite Hx. destruct (PrimFloat.ltb x hi) eqn:E2.
    + split; apply ltb_leb; assumption.
    + split; [exact Hle | apply leb_refl; exact Hhi].
  - rewrite Hlo. destruct (PrimFloat.ltb lo hi) eqn:E2.
    + split; [apply leb_refl; exact Hlo | exact Hle].
    + split; [exact Hle | apply leb_refl; exact Hhi].
Qed.

(** The bump for missing fields is one of five finite numbers. *)
Lemma missing_bump_finite (missing_count : Z) (k : float) :
  (0 < missing_count)%Z ->
  float_of_Z (Z.min missing_count 5) = Ret k -> finite (0.10 * k)%float = true.
Proof.
  intros Hpos Hk.
  assert (E : (Z.min missing_count 5 = 1 \/ Z.min missing_count 5 = 2
               \/ Z.min missing_count 5 = 3 \/ Z.min missing_count 5 = 4
               \/ Z.min missing_count 5 = 5)%Z) by lia.
  destruct E as [E|[E|[E|[E|E]]]]; rewrite E in Hk;
    injection Hk as <-; vm_compute; reflexivity.
Qed.

Lemma missing_bump_returns (missing_count : Z) :
  (0 < missing_count)%Z -> exists k, float_of_Z (Z.min missing_count 5) = Ret k.
Proof.
  intros Hpos.
  assert (E : (Z.min missing_count 5 = 1 \/ Z.min missing_count 5 = 2
               \/ Z.min missing_count 5 = 3 \/ Z.min missing_count 5 = 4
               \/ Z.min missing_count 5 = 5)%Z) by lia.
  destruct E as [E|[E|[E|[E|E]]]]; rewrite E; eexists; vm_compute; reflexivity.
Qed.

Section Scorer.
Variable _IFOREST : IsolationForest.

(** The risk before the final clip and the reasons before the default one,
    from the decision score. *)
Definition bumped (raw : float) (is_duplicate : bool) (missing_count : Z)
    (risk : float) (reasons : list str) : Prop :=
  let base_risk := clip (0.5 - raw)%float 0 1 in
  let r1 := if is_duplicate then (base_risk + 0.25)%float else base_risk in
  let rs1 := if is_duplicate then [DUPLICATE_REASON] else [] in
  if (0 <? missing_count)%Z
  then exists k, float_of_Z (Z.min missing_count 5) = Ret k
         /\ risk = (r1 + 0.10 * k)%float
         /\ reasons = rs1 ++ [missing_reason missing_count]
  else risk = r1 /\ reasons = rs1.

Lemma score_anomaly_ret (norm : Canonical) (is_duplicate : bool)
    (missing_count : Z) (risk : float) (reasons : list str) :
  score_anomaly _IFOREST norm is_duplicate missing_count = Ret (risk, reasons) ->
  exists flc raw risk0 reasons0,
    float_of_Z (line_count norm) = Ret flc
    /\ decision_function _IFOREST (_safe_float (total_amount norm)) flc = Ret raw
    /\ bumped raw is_duplicate missing_count risk0 reasons0
    /\ risk = clip risk0 0 0.99
    /\ reasons =
         if PrimFloat.ltb risk 0.15 && negb (match reasons0 with [] => false | _ => true end)
         then reasons0 ++ [CONSISTENT_REASON] else reasons0.
Proof.
  unfold score_anomaly, bumped. intros H.
  apply bind_ret in H. destruct H as (flc & Hflc & H).
  apply bind_ret in H. destruct H as (raw & Hraw & H).
  exists flc, raw.
  destruct is_duplicate; destruct (0 <? missing_count)%Z;
    apply bind_ret in H; destruct H as ([r0 rs0] & Hb & H);
    try (apply bind_ret in Hb; destruct Hb as (k & Hk & Hb));
    injection Hb as <- <-; injection H as <- <-;
    eexists; eexists; (split; [exact Hflc|]); (split; [exact Hraw|]);
    (split; [first [exists k; split; [exact Hk|]; split; reflexivity
                   | split; reflexivity]|]);
    split; reflexivity.
Qed.

Lemma score_anomaly_returns (norm : Canonical) (is_duplicate : bool)
    (missing_count : Z) (flc raw : float) :
  float_of_Z (line_count norm) = Ret flc ->
  decision_function _IFOREST (_safe_float (total_amount norm)) flc = Ret raw ->
  exists risk reasons,
    score_anomaly _IFOREST norm is_duplicate missing_count = Ret (risk, reasons).
Proof.
  intros Hflc Hraw. unfold score_anomaly.
  change (_safe_int (Some (line_count norm))) with (line_count norm).
  rewrite Hflc. cbn [bind]. rewrite Hraw. cbn [bind].
  destruct is_duplicate; destruct (0 <? missing_count)%Z eqn:E;
    try (apply Z.ltb_lt in E; destruct (missing_bump_returns _ E) as (k & ->));
    simpl; eexists; eexists; reflexivity.
Qed.

Lemma bumped_not_nan (raw : float) (is_duplicate : bool) (missing_count : Z)
    (risk : float) (reasons : list str) :
  PrimFloat.is_nan raw = false ->
  bumped raw is_duplicate missing_count risk reasons ->
  PrimFloat.is_nan risk = false.
Proof.
  intros Hraw. unfold bumped.
  assert (Hbase : finite (clip (0.5 - raw)%float 0 1) = true).
  { destruct (clip_in_range (0.5 - raw)%float 0 1) as [H1 H2];
      try reflexivity.
    - apply sub_not_nan; [reflexivity | exact Hraw].
    - eapply between_finite; [| | exact H1 | exact H2]; reflexivity. }
  assert (Hr1 : PrimFloat.is_nan
                  (if is_duplicate then (clip (0.5 - raw)%float 0 1 + 0.25)%float
                   else clip (0.5 - raw)%float 0 1) = false).
  { destruct is_duplicate.
    - apply add_not_nan; [apply finite_not_nan; exact Hbase | reflexivity].
    - apply finite_not_nan; exact Hbase. }
  destruct (0 <? missing_count)%Z eqn:E.
  - intros (k & Hk & -> & _). apply Z.ltb_lt in E.
    apply add_not_nan; [exact Hr1 | eapply missing_bump_finite; eassumption].
  - intros (-> & _). exact Hr1.
Qed.

(** The detector never answers NaN: its score is a path-length average
    shifted by a fixed offset. *)
Hypothesis decision_is_a_number :
  forall amt lc raw,
    decision_function _IFOREST amt lc = Ret raw -> PrimFloat.is_nan raw = false.

(** C1: whatever the invoice, the duplicate flag and the missing-field count
    (from 0 to 10 and beyond), the score [score_anomaly] returns lies in
    [[0, 0.99]]; and it returns one whenever the detector scores the row. *)
Theorem risk_score_in_range (norm : Canonical) (is_duplicate : bool)
    (missing_count : Z) :
  (forall risk reasons,
     score_anomaly _IFOREST norm is_duplicate missing_count = Ret (risk, reasons) ->
     PrimFloat.leb 0 risk = true /\ PrimFloat.leb risk 0.99 = true)
  /\ (forall flc raw,
        float_of_Z (line_count norm) = Ret flc ->
        decision_function _IFOREST (_safe_float (total_amount norm)) flc = Ret raw ->
        exists risk reasons,
          score_anomaly _IFOREST norm is_duplicate missing_count = Ret (risk, reasons)).
Proof.
  split; [|apply score_anomaly_returns].
  intros risk reasons H.
  apply score_anomaly_ret in H.
  destruct H as (flc & raw & risk0 & reasons0 & _ & Hraw & Hb & -> & _).
  apply clip_in_range; try reflexivity.
  eapply bumped_not_nan; [|exact Hb].
  eapply decision_is_a_number; exact Hraw.
Qed.

(** C5 (amended): the reasons are, in this order, the duplicate warning when
    the flag is set, the count reason when the count is positive, and the
    default reason when neither fired and the final score is below 0.15.
    The list is empty exactly when no rule fired and the score is not below
    0.15. *)
Theorem reasons_in_priority_order (norm : Canonical) (is_duplicate : bool)
    (missing_count : Z) (risk : float) (reasons : list str) :
  score_anomaly _IFOREST norm is_duplicate missing_count = Ret (risk, reasons) ->
  reasons =
    (if is_duplicate then [DUPLICATE_REASON] else [])
    ++ (if (0 <? missing_count)%Z then [missing_reason missing_count] else [])
    ++ (if PrimFloat.ltb risk 0.15 && negb is_duplicate && negb (0 <? missing_count)%Z
        then [CONSISTENT_REASON] else [])
  /\ (reasons = [] <->
        is_duplicate = false /\ (missing_count <= 0)%Z
        /\ PrimFloat.ltb risk 0.15 = false).
Proof.
  intros H. apply score_anomaly_ret in H.
  destruct H as (flc & raw & risk0 & reasons0 & _ & _ & Hb & Hrisk & Hreasons).
  unfold bumped in Hb.
  destruct is_duplicate; destruct (0 <? missing_count)%Z eqn:E;
    [ destruct Hb as (k & _ & _ & ->) | destruct Hb as (_ & ->)
    | destruct Hb as (k & _ & _ & ->) | destruct Hb as (_ & ->) ];
    cbn [app negb andb] in Hreasons; rewrite ?andb_false_r in Hreasons;
    try (apply Z.ltb_lt in E); try (apply Z.ltb_ge in E);
    rewrite ?andb_false_r, ?andb_true_r; cbn [app].
  - subst reasons. split; [reflexivity|]. split; [discriminate | intros (F & _); discriminate].
  - subst reasons. split; [reflexivity|]. split; [discriminate | intros (F & _); discriminate].
  - subst reasons. split; [reflexivity|]. split; [discriminate | lia].
  - destruct (PrimFloat.ltb risk 0.15); subst reasons; (split; [reflexivity|]).
    + split; [discriminate | intros (_ & _ & F); discriminate].
    + split; [intros _; repeat split; lia | reflexivity].
Qed.

End Scorer.

(** A detector that finds every row mildly normal. *)
Definition steady_forest : IsolationForest :=
  {| decision_function := fun _ _ => Ret 0.1%float |}.

Lemma steady_forest_is_a_number :
  forall amt lc raw,
    decision_function steady_forest amt lc = Ret raw -> PrimFloat.is_nan raw = false.
Proof. intros amt lc raw H. injection H as <-. reflexivity. Qed.

Lemma risk_score_in_range_witness :
  score_anomaly steady_forest sample_canonical true 3
    = Ret (0.9500000000000001%float, [DUPLICATE_REASON; missing_reason 3])
  /\ PrimFloat.leb 0 0.9500000000000001 = true
  /\ PrimFloat.leb 0.9500000000000001 0.99 = true.
Proof.
  split; [vm_compute; reflexivity|].
  apply (proj1 (risk_score_in_range steady_forest steady_forest_is_a_number
                  sample_canonical true 3) 0.9500000000000001%float
               [DUPLICATE_REASON; missing_reason 3]).
  vm_compute. reflexivity.
Defined.

(** C5 as stated fails: a clean, new invoice that the detector scores at 0.1
    gets the risk 0.4 and no reason at all. *)
Lemma reasons_can_be_empty :
  score_anomaly steady_forest sample_canonical false 0 = Ret (0.4%float, [])
  /\ PrimFloat.ltb 0.4 0.15 = false.
Proof. split; vm_compute; reflexivity. Qed.

Lemma reasons_in_priority_order_witness :
  score_anomaly steady_forest sample_canonical true 0
    = Ret (0.65%float, [DUPLICATE_REASON])
  /\ ([DUPLICATE_REASON] = [] <->
        true = false /\ (0 <= 0)%Z /\ PrimFloat.ltb 0.65 0.15 = false).
Proof.
  split; [vm_compute; reflexivity|].
  apply (proj2 (reasons_in_priority_order steady_forest sample_canonical true 0
                  0.65%float [DUPLICATE_REASON] ltac:(vm_compute; reflexivity))).
Defined.

End AnomalyFacts.


(* ================================================================== *)
(** * Properties of the VAT cascade                                    *)
(* ================================================================== *)
Module TaxFacts.
Import Py Tax.

Section WithRuntime.
Context {rt : Runtime}.

(** ** What a pattern matches

    [matches r prev s prev' rest]: read from the text [s], which follows the
    character [prev], the pattern [r] can stop with [rest] left, the last
    character passed being [prev']. *)
Inductive matches : regex -> option char -> str -> option char -> str -> Prop :=
| M_Eps prev s : matches Eps prev s prev s
| M_Lit c x prev s : ci_eq c x = true -> matches (Lit c) prev (x :: s) (Some x) s
| M_Cls p x prev s : p x = true -> matches (Cls p) prev (x :: s) (Some x) s
| M_Star_stop p prev s : matches (Star p) prev s prev s
| M_Star_step p x prev s prev' rest :
    p x = true -> matches (Star p) (Some x) s prev' rest ->
    matches (Star p) prev (x :: s) prev' rest
| M_WordB prev s : word_boundary prev s = true -> matches WordB prev s prev s
| M_Seq r1 r2 prev s prev1 s1 prev2 s2 :
    matches r1 prev s prev1 s1 -> matches r2 prev1 s1 prev2 s2 ->
    matches (Seq r1 r2) prev s prev2 s2
| M_Alt_l r1 r2 prev s prev' rest :
    matches r1 prev s prev' rest -> matches (Alt r1 r2) prev s prev' rest
| M_Alt_r r1 r2 prev s prev' rest :
    matches r2 prev s prev' rest -> matches (Alt r1 r2) prev s prev' rest
| M_Opt_some r prev s prev' rest :
    matches r prev s prev' rest -> matches (Opt r) prev s prev' rest
| M_Opt_none r prev s : matches (Opt r) prev s prev s.

(** The matcher finds a match whenever there is one (not necessarily the
    same one: it follows the priorities of [re]). *)
Lemma rmatch_complete (r : regex) (prev : option char) (s : str)
    (prev' : option char) (rest : str) :
  matches r prev s prev' rest ->
  forall k, k prev' rest <> None -> rmatch r prev s k <> None.
Proof.
  induction 1 as
    [ prev s | c x prev s Hc | p x prev s Hp | p prev s
    | p x prev s prev' rest Hp _ IH | prev s Hb
    | r1 r2 prev s prev1 s1 prev2 s2 _ IH1 _ IH2
    | r1 r2 prev s prev' rest _ IH | r1 r2 prev s prev' rest _ IH
    | r prev s prev' rest _ IH | r prev s ];
    intros k Hk; simpl.
  - exact Hk.
  - rewrite Hc. exact Hk.
  - rewrite Hp. exact Hk.
  - destruct s as [|c s']; simpl; [exact Hk|].
    destruct (p c); [|exact Hk].
    destruct (star_greedy p (Some c) s' k); [discriminate | exact Hk].
  - rewrite Hp. specialize (IH k Hk). simpl in IH.
    destruct (star_greedy p (Some x) s k); [discriminate | contradiction].
  - rewrite Hb. exact Hk.
  - apply IH1. apply IH2. exact Hk.
  - specialize (IH k Hk). destruct (rmatch r1 prev s k); [discriminate | contradiction].
  - destruct (rmatch r1 prev s k); [discriminate | apply IH; exact Hk].
  - specialize (IH k Hk). destruct (rmatch r prev s k); [discriminate | contradiction].
  - destruct (rmatch r prev s k); [discriminate | exact Hk].
Qed.

(** The character before the position reached after reading [pre]. *)
Definition last_of (prev : option char) (pre : str) : option char :=
  match rev pre with
  | [] => prev
  | c :: _ => Some c
  end.

Lemma last_of_cons (prev : option char) (c : char) (pre : str) :
  last_of prev (c :: pre) = last_of (Some c) pre.
Proof.
  unfold last_of. simpl. destruct (rev pre) as [|x l] eqn:E; reflexivity.
Qed.

Lemma search_at_complete (r : regex) (pre s : str) :
  forall prev prev' rest,
    matches r (last_of prev pre) s prev' rest ->
    search_at r prev (pre ++ s) <> None.
Proof.
  induction pre as [|c pre IH]; intros prev prev' rest Hm.
  - assert (H : rmatch r prev s (fun _ rest => Some rest) <> None)
      by (eapply rmatch_complete; [exact Hm | discriminate]).
    simpl in *. destruct s; simpl;
      (destruct (rmatch r prev _ _); [discriminate | contradiction]).
  - rewrite last_of_cons in Hm. specialize (IH _ _ _ Hm).
    simpl. destruct (rmatch r prev (c :: pre ++ s) _); [discriminate | exact IH].
Qed.

(** A word of the pattern against a piece of text, character by character. *)
Definition ci_word (w piece : str) : Prop :=
  Forall2 (fun p x => ci_eq p x = true) w piece.

Lemma matches_lit (w piece : str) :
  ci_word w piece -> forall prev s,
  matches (lit w) prev (piece ++ s) (last_of prev piece) s.
Proof.
  induction 1 as [|p x w piece Hpx _ IH]; intros prev s.
  - apply M_Eps.
  - simpl. rewrite last_of_cons. eapply M_Seq; [apply M_Lit; exact Hpx | apply IH].
Qed.

Lemma matches_star (p : char -> bool) (ws : str) :
  Forall (fun c => p c = true) ws -> forall prev s,
  matches (Star p) prev (ws ++ s) (last_of prev ws) s.
Proof.
  induction 1 as [|c ws Hc _ IH]; intros prev s.
  - apply M_Star_stop.
  - simpl. rewrite last_of_cons. apply M_Star_step; [exact Hc | apply IH].
Qed.

(** ** The phrase "reverse charge" *)

(** The text holds the phrase as words of their own: [reverse], any amount
    of whitespace (none included), [charge], in any letter case, with no
    word character right before or right after. *)
Definition has_reverse_charge_phrase (text : str) : Prop :=
  exists pre w1 ws w2 post,
    text = pre ++ w1 ++ ws ++ w2 ++ post
    /\ ci_word (u "reverse") w1
    /\ Forall (fun c => is_space c = true) ws
    /\ ci_word (u "charge") w2
    /\ is_word_opt (last_of None pre) = false
    /\ is_word_opt (hd_error post) = false.

(** The text holds the letters of the phrase, wherever they stand. *)
Definition contains_reverse_charge (text : str) : Prop :=
  exists pre w1 ws w2 post,
    text = pre ++ w1 ++ ws ++ w2 ++ post
    /\ ci_word (u "reverse") w1
    /\ Forall (fun c => is_space c = true) ws
    /\ ci_word (u "charge") w2.

(** A character that matches a pattern letter other than [i], [s] and [k]
    is that letter or its capital: a word character. *)
Lemma ci_eq_letter_is_word (p x : char) :
  is_ascii_lower p = true ->
  N.eqb p 105 || N.eqb p 115 || N.eqb p 107 = false ->
  ci_eq p x = true -> is_word x = true.
Proof.
  intros Hp Hplain Hpx. unfold ci_eq in Hpx. rewrite Hp in Hpx.
  apply orb_false_iff in Hplain. destruct Hplain as [Hplain Hk].
  apply orb_false_iff in Hplain. destruct Hplain as [Hi Hs].
  rewrite Hi, Hs, Hk in Hpx. simpl in Hpx. rewrite !orb_false_r in Hpx.
  unfold is_ascii_lower in Hp. apply andb_true_iff in Hp. destruct Hp as [Hp1 Hp2].
  apply N.leb_le in Hp1. apply N.leb_le in Hp2.
  apply orb_true_iff in Hpx. destruct Hpx as [E|E]; apply N.eqb_eq in E; subst x;
    unfold is_word.
  - replace (p <? 128)%N with true by (symmetry; apply N.ltb_lt; lia).
    unfold is_ascii_alnum, is_ascii_lower.
    replace (97 <=? p)%N with true by (symmetry; apply N.leb_le; lia).
    replace (p <=? 122)%N with true by (symmetry; apply N.leb_le; lia).
    rewrite !orb_true_r. reflexivity.
  - replace (p - 32 <? 128)%N with true by (symmetry; apply N.ltb_lt; lia).
    unfold is_ascii_alnum, is_ascii_upper.
    replace (65 <=? p - 32)%N with true by (symmetry; apply N.leb_le; lia).
    replace (p - 32 <=? 90)%N with true by (symmetry; apply N.leb_le; lia).
    rewrite !orb_true_r. reflexivity.
Qed.

Definition REVERSE_CHARGE : regex :=
  seq [WordB; lit (u "reverse"); Star cls_space; lit (u "charge"); WordB].

Lemma phrase_is_found (text : str) :
  has_reverse_charge_phrase text -> search REVERSE_CHARGE text <> None.
Proof.
  intros (pre & w1 & ws & w2 & post & -> & Hw1 & Hws & Hw2 & Hpre & Hpost).
  unfold search.
  eapply (search_at_complete REVERSE_CHARGE pre _ None _ post).
  assert (Hfirst : exists x w1', w1 = x :: w1' /\ is_word x = true).
  { unfold ci_word in Hw1.
    change (u "reverse") with [114; 101; 118; 101; 114; 115; 101]%N in Hw1.
    inversion Hw1 as [|p x w piece Hpx _]; subst. exists x, piece.
    split; [reflexivity|]. eapply ci_eq_letter_is_word; [| |exact Hpx]; reflexivity. }
  assert (Hlast : forall prev, exists x, last_of prev w2 = Some x /\ is_word x = true).
  { intros prev. unfold ci_word in Hw2.
    change (u "charge") with [99; 104; 97; 114; 103; 101]%N in Hw2.
    repeat match goal with
    | H : Forall2 _ (_ :: _) _ |- _ => inversion H; clear H; subst
    | H : Forall2 _ [] _ |- _ => inversion H; clear H; subst
    end.
    eexists. split; [reflexivity|].
    eapply ci_eq_letter_is_word; [| |eassumption]; reflexivity. }
  destruct Hfirst as (x & w1' & -> & Hx).
  destruct (Hlast (last_of (last_of (last_of None pre) (x :: w1')) ws)) as (y & Ey & Hy).
  unfold REVERSE_CHARGE. cbn [seq].
  eapply M_Seq.
  { apply M_WordB. unfold word_boundary. rewrite Hpre. simpl. rewrite Hx. reflexivity. }
  eapply M_Seq; [apply matches_lit; exact Hw1|].
  eapply M_Seq; [apply matches_star; exact Hws|].
  eapply M_Seq; [apply matches_lit; exact Hw2|].
  eapply M_Seq; [|apply M_Eps].
  apply M_WordB. unfold word_boundary. rewrite Ey. simpl. rewrite Hy, Hpost. reflexivity.
Qed.

(** C3 (amended): when the text the cues are looked for in holds the phrase
    "reverse charge" as words of their own (any letter case, any amount of
    whitespace between the two words), [classify_vat] answers [exempt] at
    rate 0.0 whatever the tax identifier, the currency and the region
    resolved from them, and whatever zero-rating cue the text holds as well;
    the reason echoes the text matched. *)
Theorem reverse_charge_phrase_forces_exempt (norm : Norm) :
  has_reverse_charge_phrase (cue_text norm) ->
  vat (classify_vat norm) = exempt
  /\ rate (classify_vat norm) = 0%float
  /\ region (classify_vat norm) = fst (fst (_decide_region_and_rate norm))
  /\ exists m,
       search REVERSE_CHARGE (cue_text norm) = Some m
       /\ reason (classify_vat norm)
          = u "Detected exemption keyword (" ++ [LQUOTE] ++ m ++ [RQUOTE] ++ u ").".
Proof.
  intros H. apply phrase_is_found in H.
  destruct (search REVERSE_CHARGE (cue_text norm)) as [m|] eqn:E; [clear H | contradiction].
  unfold classify_vat.
  destruct (_decide_region_and_rate norm) as [[rg sr] cc].
  change (first_match EXEMPT_PATTERNS (cue_text norm))
    with (match search REVERSE_CHARGE (cue_text norm) with
          | Some m => Some m
          | None => first_match (tl EXEMPT_PATTERNS) (cue_text norm)
          end).
  rewrite E. simpl.
  repeat split. exists m. split; reflexivity.
Qed.

(** ** The resolution order *)

Definition no_cue (norm : Norm) : Prop :=
  first_match EXEMPT_PATTERNS (cue_text norm) = None
  /\ first_match ZERO_RATED_PATTERNS (cue_text norm) = None.

Definition tax_id_prefix (norm : Norm) : str :=
  firstn 2 (upper (str_or (n_tax_id norm) [])).

Definition currency_code (norm : Norm) : str :=
  upper (str_or (n_currency norm) []).

Definition language_code (norm : Norm) : str :=
  lower (str_or (n_language norm) []).

Lemma hinted_country_has_rate (cur country : str) :
  dict_get CURRENCY_TO_GCC cur = Some country ->
  exists r, dict_get GCC_STANDARD country = Some r.
Proof.
  unfold CURRENCY_TO_GCC. cbn [dict_get].
  repeat (destruct (str_eqb cur _);
          [intros E; injection E as <-; eexists; reflexivity|]).
  discriminate.
Qed.

(** The cascade, on the prefix and the codes as [_decide_region_and_rate]
    computes them. *)
Lemma cascade_order (norm : Norm) :
  no_cue norm ->
  vat (classify_vat norm) = standard
  /\ match dict_get EU_STANDARD (tax_id_prefix norm) with
     | Some r => region (classify_vat norm) = EU /\ rate (classify_vat norm) = r
     | None =>
         match dict_get GCC_STANDARD (tax_id_prefix norm) with
         | Some r => region (classify_vat norm) = GCC /\ rate (classify_vat norm) = r
         | None =>
             match dict_get CURRENCY_TO_GCC (currency_code norm) with
             | Some country =>
                 region (classify_vat norm) = GCC
                 /\ dict_get GCC_STANDARD country = Some (rate (classify_vat norm))
             | None =>
                 if str_eqb (language_code norm) (u "ar")
                 then region (classify_vat norm) = GCC
                      /\ rate (classify_vat norm) = 0.15%float
                 else region (classify_vat norm) = Unknown
                      /\ rate (classify_vat norm) = 0.15%float
             end
         end
     end
  /\ (tax_id_prefix norm = u "DE" ->
        region (classify_vat norm) = EU /\ rate (classify_vat norm) = 0.19%float)
  /\ (dict_get EU_STANDARD (tax_id_prefix norm) = None ->
      dict_get GCC_STANDARD (tax_id_prefix norm) = None ->
      currency_code norm = u "AED" ->
        region (classify_vat norm) = GCC /\ rate (classify_vat norm) = 0.05%float).
Proof.
  intros (He & Hz).
  unfold classify_vat, _decide_region_and_rate.
  fold (tax_id_prefix norm) (currency_code norm) (language_code norm).
  rewrite He, Hz.
  destruct (dict_get EU_STANDARD (tax_id_prefix norm)) as [r|] eqn:Eeu.
  { cbn [Region_eqb]. rewrite Eeu. simpl.
    repeat split; try discriminate.
    match goal with E : tax_id_prefix norm = _ |- _ => rewrite E in Eeu end.
    vm_compute in Eeu. injection Eeu as <-. reflexivity. }
  destruct (dict_get GCC_STANDARD (tax_id_prefix norm)) as [r|] eqn:Egcc.
  { cbn [Region_eqb]. rewrite Egcc. simpl.
    repeat split; try discriminate;
      match goal with E : tax_id_prefix norm = _ |- _ => rewrite E in Eeu end;
      vm_compute in Eeu; discriminate Eeu. }
  destruct (dict_get CURRENCY_TO_GCC (currency_code norm)) as [country|] eqn:Ecur.
  { destruct (hinted_country_has_rate _ _ Ecur) as (r & Er).
    cbn [Region_eqb]. rewrite Er. simpl.
    repeat split; try assumption;
      try (match goal with E : tax_id_prefix norm = _ |- _ => rewrite E in Eeu end;
           vm_compute in Eeu; discriminate Eeu);
      match goal with E : currency_code norm = _ |- _ => rewrite E in Ecur end;
      vm_compute in Ecur; injection Ecur as <-;
      vm_compute in Er; injection Er as <-; reflexivity. }
  destruct (str_eqb (language_code norm) (u "ar")) eqn:Elang; simpl;
    (repeat split;
     try (match goal with E : tax_id_prefix norm = _ |- _ => rewrite E in Eeu end;
          vm_compute in Eeu; discriminate Eeu);
     match goal with E : currency_code norm = _ |- _ => rewrite E in Ecur end;
     vm_compute in Ecur; discriminate Ecur).
Qed.

(** *** Letter case *)

(** A capital letter of Basic Latin or a digit: the characters of the keys
    of the tables. *)
Definition key_char (x : char) : bool :=
  ((65 <=? x) && (x <=? 90) || (48 <=? x) && (x <=? 57))%N.

(** The text [p] spells the key [k] in some letter case: character by
    character, the character of [k] or, for a capital letter, its small
    letter. *)
Definition spells (k p : str) : Prop :=
  Forall2 (fun x c => c = x \/ ((65 <= x <= 90)%N /\ c = (x + 32)%N)) k p.

Lemma upper_spells (k p rest : str) :
  forallb key_char k = true -> spells k p -> upper (p ++ rest) = k ++ upper rest.
Proof.
  intros Hk H. induction H as [|x c k p Hxc _ IH]; [reflexivity|].
  simpl in Hk. apply andb_true_iff in Hk. destruct Hk as [Hx Hk].
  change (upper ((c :: p) ++ rest))
    with ((if (c <? 128)%N then [ascii_upper c] else uni_upper c) ++ upper (p ++ rest)).
  unfold key_char in Hx.
  assert (Hx' : (65 <= x <= 90 \/ 48 <= x <= 57)%N).
  { apply orb_true_iff in Hx. destruct Hx as [Hx|Hx];
      apply andb_true_iff in Hx; destruct Hx as [H1 H2];
      apply N.leb_le in H1; apply N.leb_le in H2; [left | right]; lia. }
  assert (Hc : (c <? 128)%N = true /\ ascii_upper c = x).
  { unfold ascii_upper, is_ascii_lower. destruct Hxc as [->|[Hcap ->]].
    - split; [apply N.ltb_lt; lia|].
      replace ((97 <=? x) && (x <=? 122))%N with false; [reflexivity|].
      symmetry. apply andb_false_iff. left. apply N.leb_gt. lia.
    - split; [apply N.ltb_lt; lia|].
      replace ((97 <=? x + 32) && (x + 32 <=? 122))%N with true; [lia|].
      symmetry. apply andb_true_iff. split; apply N.leb_le; lia. }
  destruct Hc as [-> ->]. cbn [app]. f_equal. apply IH. exact Hk.
Qed.

Lemma dict_get_key {V} (d : list (str * V)) (k : str) (v : V) :
  dict_get d k = Some v -> In k (map fst d).
Proof.
  induction d as [|[k' v'] d IH]; simpl; [discriminate|].
  destruct (str_eqb k k') eqn:E; [|intros H; right; apply IH; exact H].
  intros _. left. symmetry. apply EtlFacts.str_eqb_eq. exact E.
Qed.

(** The keys of the country tables are two capital letters, and no country
    is in both. *)
Lemma country_keys (k : str) :
  In k (map fst EU_STANDARD ++ map fst GCC_STANDARD) ->
  forallb key_char k = true /\ length k = 2%nat
  /\ (In k (map fst GCC_STANDARD) -> dict_get EU_STANDARD k = None).
Proof.
  intros H. simpl in H.
  repeat (destruct H as [<-|H];
          [split; [reflexivity|]; split; [reflexivity|]; intros G;
           first [reflexivity
                 | exfalso; simpl in G;
                   repeat (destruct G as [G|G]; [discriminate G|]); exact G]|]).
  contradiction.
Qed.

Lemma currency_keys (k : str) (country : str) :
  dict_get CURRENCY_TO_GCC k = Some country -> forallb key_char k = true.
Proof.
  intros H. apply dict_get_key in H. simpl in H.
  repeat (destruct H as [<-|H]; [reflexivity|]). contradiction.
Qed.

(** C4: without an exemption or zero-rating cue the answer is [standard],
    and region and rate follow the fixed order: the EU table on the first
    two characters of the uppercased tax identifier, else the GCC table on
    them, else the GCC country hinted by the currency, at that country's
    rate, else GCC at 0.15 for the language [ar], else Unknown at 0.15.  In
    particular the prefix [DE] gives EU at 0.19 and the currency [AED], with
    no prefix of either table, gives GCC at 0.05.  The letter case of the
    identifier and of the currency does not matter: an identifier that
    starts with the two letters of a country of a table, capital or small,
    is of that country, and a currency of the hint table counts in any
    spelling. *)
Theorem region_and_rate_in_fixed_order (norm : Norm) :
  no_cue norm ->
  vat (classify_vat norm) = standard
  /\ match dict_get EU_STANDARD (tax_id_prefix norm) with
     | Some r => region (classify_vat norm) = EU /\ rate (classify_vat norm) = r
     | None =>
         match dict_get GCC_STANDARD (tax_id_prefix norm) with
         | Some r => region (classify_vat norm) = GCC /\ rate (classify_vat norm) = r
         | None =>
             match dict_get CURRENCY_TO_GCC (currency_code norm) with
             | Some country =>
                 region (classify_vat norm) = GCC
                 /\ dict_get GCC_STANDARD country = Some (rate (classify_vat norm))
             | None =>
                 if str_eqb (language_code norm) (u "ar")
                 then region (classify_vat norm) = GCC
                      /\ rate (classify_vat norm) = 0.15%float
                 else region (classify_vat norm) = Unknown
                      /\ rate (classify_vat norm) = 0.15%float
             end
         end
     end
  /\ (tax_id_prefix norm = u "DE" ->
        region (classify_vat norm) = EU /\ rate (classify_vat norm) = 0.19%float)
  /\ (dict_get EU_STANDARD (tax_id_prefix norm) = None ->
      dict_get GCC_STANDARD (tax_id_prefix norm) = None ->
      currency_code norm = u "AED" ->
        region (classify_vat norm) = GCC /\ rate (classify_vat norm) = 0.05%float)
  /\ (forall k r p rest,
        dict_get EU_STANDARD k = Some r ->
        spells k p -> n_tax_id norm = Some (p ++ rest) ->
        region (classify_vat norm) = EU /\ rate (classify_vat norm) = r)
  /\ (forall k r p rest,
        dict_get GCC_STANDARD k = Some r ->
        spells k p -> n_tax_id norm = Some (p ++ rest) ->
        region (classify_vat norm) = GCC /\ rate (classify_vat norm) = r)
  /\ (forall k country p,
        dict_get CURRENCY_TO_GCC k = Some country ->
        spells k p -> n_currency norm = Some p ->
        dict_get EU_STANDARD (tax_id_prefix norm) = None ->
        dict_get GCC_STANDARD (tax_id_prefix norm) = None ->
        region (classify_vat norm) = GCC
        /\ dict_get GCC_STANDARD country = Some (rate (classify_vat norm))).
Proof.
  intros Hcue. destruct (cascade_order norm Hcue) as (Hstd & Hcascade & Hde & Haed).
  split; [exact Hstd|]. split; [exact Hcascade|]. split; [exact Hde|].
  split; [exact Haed|].
  assert (Hprefix : forall k p rest,
            In k (map fst EU_STANDARD ++ map fst GCC_STANDARD) ->
            spells k p -> n_tax_id norm = Some (p ++ rest) ->
            tax_id_prefix norm = k).
  { intros k p rest Hk Hs Ht. destruct (country_keys k Hk) as (Hkc & Hlen & _).
    assert (E : str_or (n_tax_id norm) [] = p ++ rest)
      by (rewrite Ht; unfold str_or; destruct (p ++ rest); reflexivity).
    unfold tax_id_prefix.
    replace (upper (str_or (n_tax_id norm) [])) with (k ++ upper rest)
      by (rewrite E; symmetry; apply upper_spells; assumption).
    rewrite <- Hlen, firstn_app, firstn_all, Nat.sub_diag. simpl. apply app_nil_r. }
  split; [|split].
  - intros k r p rest Hk Hs Ht.
    rewrite (Hprefix k p rest (in_or_app _ _ _ (or_introl (dict_get_key _ _ _ Hk))) Hs Ht)
      in Hcascade.
    rewrite Hk in Hcascade. exact Hcascade.
  - intros k r p rest Hk Hs Ht.
    pose proof (dict_get_key _ _ _ Hk) as Hin.
    destruct (country_keys k (in_or_app _ _ _ (or_intror Hin))) as (_ & _ & Hno).
    rewrite (Hprefix k p rest (in_or_app _ _ _ (or_intror Hin)) Hs Ht) in Hcascade.
    rewrite (Hno Hin), Hk in Hcascade. exact Hcascade.
  - intros k country p Hk Hs Hc Heu Hgcc.
    assert (Ecur : currency_code norm = k).
    { assert (E : str_or (n_currency norm) [] = p)
        by (rewrite Hc; destruct p; reflexivity).
      pose proof (upper_spells k p [] (currency_keys _ _ Hk) Hs) as U.
      rewrite !app_nil_r in U. unfold currency_code.
      replace (upper (str_or (n_currency norm) [])) with (upper p)
        by (rewrite E; reflexivity).
      exact U. }
    rewrite Heu, Hgcc, Ecur, Hk in Hcascade. exact Hcascade.
Qed.


End WithRuntime.

(** The argument the scenario of the specification leads to, with a free
    text put in. *)
Definition german_norm (text : str) : Norm := {|
  n_tax_id := Some (u "DE123");
  n_currency := Some (u "EUR");
  n_language := Some (u "de");
  n_raw_text := None;
  n_full_text := Some text
|}.

(** C3 as stated fails: "reverse charges" holds the letters of "reverse
    charge", but the pattern wants a word boundary after them; the German
    standard rate applies. *)
Lemma reverse_charges_is_not_a_cue :
  contains_reverse_charge (cue_text (german_norm (u "Acme reverse charges apply")))
  /\ vat (classify_vat (rt := glibc_runtime)
            (german_norm (u "Acme reverse charges apply"))) = standard
  /\ rate (classify_vat (rt := glibc_runtime)
             (german_norm (u "Acme reverse charges apply"))) = 0.19%float.
Proof.
  split.
  - exists (u " Acme "), (u "reverse"), (u " "), (u "charge"), (u "s apply").
    split; [reflexivity|].
    split; [repeat constructor|].
    split; [repeat constructor|].
    repeat constructor.
  - split; vm_compute; reflexivity.
Qed.

Lemma reverse_charge_phrase_forces_exempt_witness :
  has_reverse_charge_phrase (rt := glibc_runtime)
    (cue_text (german_norm (u "Acme Reverse  Charge, zero-rated export")))
  /\ vat (classify_vat (rt := glibc_runtime)
            (german_norm (u "Acme Reverse  Charge, zero-rated export"))) = exempt
  /\ rate (classify_vat (rt := glibc_runtime)
             (german_norm (u "Acme Reverse  Charge, zero-rated export"))) = 0%float.
Proof.
  assert (H : has_reverse_charge_phrase (rt := glibc_runtime)
                (cue_text (german_norm (u "Acme Reverse  Charge, zero-rated export")))).
  { exists (u " Acme "), (u "Reverse"), (u "  "), (u "Charge"), (u ", zero-rated export").
    split; [reflexivity|].
    split; [repeat constructor|].
    split; [repeat constructor|].
    split; [repeat constructor|].
    split; reflexivity. }
  split; [exact H|].
  pose proof (reverse_charge_phrase_forces_exempt (rt := glibc_runtime) _ H) as T.
  split; [exact (proj1 T) | exact (proj1 (proj2 T))].
Defined.

(** A record with no cue: the currency decides. *)
Definition dirham_norm : Norm := {|
  n_tax_id := Some (u "100234567");
  n_currency := Some (u "AED");
  n_language := Some (u "en");
  n_raw_text := None;
  n_full_text := Some (u "Gulf Trading G-7 100234567 AED Cloud support")
|}.

(** A record with no cue whose identifier and currency are written in small
    letters. *)
Definition small_letters_norm : Norm := {|
  n_tax_id := Some (u "de811907980");
  n_currency := Some (u "aed");
  n_language := Some (u "en");
  n_raw_text := None;
  n_full_text := Some (u "Gulf Trading G-8 de811907980 aed Cloud support")
|}.

Lemma region_and_rate_in_fixed_order_witness :
  no_cue (rt := glibc_runtime) dirham_norm
  /\ region (classify_vat (rt := glibc_runtime) dirham_norm) = GCC
  /\ rate (classify_vat (rt := glibc_runtime) dirham_norm) = 0.05%float
  /\ no_cue (rt := glibc_runtime) small_letters_norm
  /\ region (classify_vat (rt := glibc_runtime) small_letters_norm) = EU
  /\ rate (classify_vat (rt := glibc_runtime) small_letters_norm) = 0.19%float.
Proof.
  assert (H : no_cue (rt := glibc_runtime) dirham_norm)
    by (split; vm_compute; reflexivity).
  assert (H' : no_cue (rt := glibc_runtime) small_letters_norm)
    by (split; vm_compute; reflexivity).
  split; [exact H|].
  destruct (proj1 (proj2 (proj2 (proj2
    (region_and_rate_in_fixed_order (rt := glibc_runtime) dirham_norm H))))
    eq_refl eq_refl eq_refl) as [Hr Ht].
  split; [exact Hr|]. split; [exact Ht|]. split; [exact H'|].
  apply (proj1 (proj2 (proj2 (proj2 (proj2
    (region_and_rate_in_fixed_order (rt := glibc_runtime) small_letters_norm H')))))
    (u "DE") 0.19%float (u "de") (u "811907980") eq_refl).
  - constructor; [right; split; [split; vm_compute; discriminate | reflexivity]|].
    constructor; [right; split; [split; vm_compute; discriminate | reflexivity]|].
    constructor.
  - reflexivity.
Defined.

End TaxFacts.


(* ================================================================== *)
(** * Properties of the explanation                                    *)
(* ================================================================== *)
Module ExplainFacts.
Import Py Explain FloatFacts FloatRounding EtlFacts.

(** ** Sorting *)

Lemma in_firstn {A} (n : nat) (l : list A) (y : A) :
  In y (firstn n l) -> In y l.
Proof.
  intros H. rewrite <- (firstn_skipn n l). apply in_or_app. left. exact H.
Qed.

Section Sorting.
Context {A : Type} (lt : A -> A -> bool).

Lemma insert_desc_perm (x : A) (l : list A) :
  forall y, In y (insert_desc lt x l) <-> y = x \/ In y l.
Proof.
  induction l as [|z l IH]; simpl; intros y.
  - intuition.
  - destruct (lt x z); simpl; [rewrite IH|]; intuition.
Qed.

Lemma sort_desc_in (l : list A) : forall y, In y (sort_desc lt l) <-> In y l.
Proof.
  induction l as [|x l IH]; simpl; intros y; [tauto|].
  rewrite insert_desc_perm, IH. intuition.
Qed.

Lemma insert_desc_length (x : A) (l : list A) :
  length (insert_desc lt x l) = S (length l).
Proof.
  induction l as [|z l IH]; simpl; [reflexivity|].
  destruct (lt x z); simpl; [rewrite IH|]; reflexivity.
Qed.

Lemma sort_desc_length (l : list A) : length (sort_desc lt l) = length l.
Proof.
  induction l as [|x l IH]; simpl; [reflexivity|].
  rewrite insert_desc_length, IH. reflexivity.
Qed.

(** Descending order, for a comparison that is the strict part of a total
    preorder [ge]. *)
Variable ge : A -> A -> Prop.
Hypothesis ge_trans : forall a b c, ge a b -> ge b c -> ge a c.
Hypothesis lt_ge : forall a b, lt a b = true -> ge b a.
Hypothesis not_lt_ge : forall a b, lt a b = false -> ge a b.

Lemma insert_desc_sorted (x : A) (l : list A) :
  StronglySorted ge l -> StronglySorted ge (insert_desc lt x l).
Proof.
  induction 1 as [|z l Hs IH Hz]; simpl.
  - repeat constructor.
  - destruct (lt x z) eqn:E.
    + constructor; [exact IH|].
      apply Forall_forall. intros y Hy. apply insert_desc_perm in Hy.
      destruct Hy as [->|Hy]; [apply lt_ge; exact E|].
      rewrite Forall_forall in Hz. apply Hz; exact Hy.
    + constructor; [constructor; assumption|].
      constructor; [apply not_lt_ge; exact E|].
      eapply Forall_impl; [|exact Hz]. intros y Hy.
      eapply ge_trans; [apply not_lt_ge; exact E | exact Hy].
Qed.

Lemma sort_desc_sorted (l : list A) : StronglySorted ge (sort_desc lt l).
Proof.
  induction l as [|x l IH]; simpl; [constructor | apply insert_desc_sorted; exact IH].
Qed.

(** What the first [n] of a descending list leave out is no larger than
    what they keep. *)
Lemma firstn_dominates (n : nat) (l : list A) :
  StronglySorted ge l ->
  forall x y, In x (firstn n l) -> In y l -> In y (firstn n l) \/ ge x y.
Proof.
  intros Hs x y Hx Hy.
  rewrite <- (firstn_skipn n l) in Hy. apply in_app_or in Hy.
  destruct Hy as [Hy|Hy]; [left; exact Hy | right].
  rewrite <- (firstn_skipn n l) in Hs.
  revert Hs Hx Hy. generalize (firstn n l) (skipn n l). clear.
  intros a b Hs Hx Hy. induction a as [|z a IH]; [contradiction|].
  inversion Hs as [|? ? Hs' Hz]; subst. destruct Hx as [->|Hx].
  - rewrite Forall_forall in Hz. apply Hz. apply in_or_app. right. exact Hy.
  - apply IH; assumption.
Qed.

Lemma firstn_sorted (n : nat) (l : list A) :
  StronglySorted ge l -> StronglySorted ge (firstn n l).
Proof.
  intros Hs. revert n. induction Hs as [|z l Hs IH Hz]; intros [|n]; simpl;
    try constructor.
  - apply IH.
  - apply Forall_forall. intros y Hy. rewrite Forall_forall in Hz.
    apply Hz. eapply in_firstn. exact Hy.
Qed.

End Sorting.

(** Sorting by insertion permutes. *)
Lemma insert_desc_permutation {A} (lt : A -> A -> bool) (x : A) (l : list A) :
  Permutation (x :: l) (insert_desc lt x l).
Proof.
  induction l as [|y l IH]; simpl; [apply Permutation_refl|].
  destruct (lt x y); [|apply Permutation_refl].
  eapply Permutation_trans; [apply perm_swap|]. apply perm_skip. exact IH.
Qed.

Lemma sort_desc_permutation {A} (lt : A -> A -> bool) (l : list A) :
  Permutation l (sort_desc lt l).
Proof.
  induction l as [|x l IH]; simpl; [apply Permutation_refl|].
  eapply Permutation_trans; [apply perm_skip; exact IH|].
  apply insert_desc_permutation.
Qed.

(** The runtime of the examples sorts as asked. *)
Lemma glibc_sorts_as_documented : sorts_as_documented (rt := glibc_runtime).
Proof.
  intros A key l. split; [apply sort_desc_permutation | intros _; reflexivity].
Qed.

(** Sorting values that are comparable *)

Section SortingOn.
Context {A : Type} (lt : A -> A -> bool) (P : A -> Prop) (ge : A -> A -> Prop).
Hypothesis ge_trans : forall a b c, P a -> P b -> P c -> ge a b -> ge b c -> ge a c.
Hypothesis lt_ge : forall a b, P a -> P b -> lt a b = true -> ge b a.
Hypothesis not_lt_ge : forall a b, P a -> P b -> lt a b = false -> ge a b.

Lemma insert_desc_sorted_on (x : A) (l : list A) :
  P x -> Forall P l -> StronglySorted ge l -> StronglySorted ge (insert_desc lt x l).
Proof.
  intros Hx Hl Hs. induction Hs as [|z l Hs IH Hz]; simpl.
  - repeat constructor.
  - inversion Hl as [|? ? Hpz Hl']; subst. destruct (lt x z) eqn:E.
    + constructor; [apply IH; exact Hl'|].
      apply Forall_forall. intros y Hy. apply insert_desc_perm in Hy.
      destruct Hy as [->|Hy]; [apply lt_ge; assumption|].
      rewrite Forall_forall in Hz. apply Hz; exact Hy.
    + constructor; [constructor; assumption|].
      constructor; [apply not_lt_ge; assumption|].
      apply Forall_forall. intros y Hy.
      rewrite Forall_forall in Hz, Hl'.
      apply (ge_trans x z y); auto.
Qed.

Lemma sort_desc_sorted_on (l : list A) :
  Forall P l -> StronglySorted ge (sort_desc lt l).
Proof.
  induction 1 as [|x l Hx Hl IH]; simpl; [constructor|].
  apply insert_desc_sorted_on; [exact Hx | | exact IH].
  apply Forall_forall. intros y Hy. apply sort_desc_in in Hy.
  rewrite Forall_forall in Hl. apply Hl. exact Hy.
Qed.

End SortingOn.

Lemma sorted_app {A} (ge : A -> A -> Prop) (a b : list A) :
  StronglySorted ge (a ++ b) ->
  StronglySorted ge a /\ forall x y, In x a -> In y b -> ge x y.
Proof.
  induction a as [|z a IH]; simpl; intros H.
  - split; [constructor | intros x y []].
  - inversion H as [|? ? Hs Hz]; subst. destruct (IH Hs) as [Ha Hab].
    rewrite Forall_forall in Hz. split.
    + constructor; [exact Ha|]. apply Forall_forall. intros y Hy.
      apply Hz. apply in_or_app. left. exact Hy.
    + intros x y [->|Hx] Hy; [apply Hz; apply in_or_app; right; exact Hy|].
      apply Hab; assumption.
Qed.

(** ** The contributions kept are the largest *)

(** [key(a) < key(b)] for the sort of the contributions. *)
Definition abs_lt (a b : contribution) : bool :=
  PrimFloat.ltb (magnitude a) (magnitude b).

(** [a] has at least the magnitude of [b]. *)
Definition outweighs (a b : contribution) : Prop :=
  PrimFloat.leb (PrimFloat.abs (snd b)) (PrimFloat.abs (snd a)) = true.

Lemma sorted_by_magnitude (contribs : list contribution) :
  Forall (fun t => finite (snd t) = true) contribs ->
  StronglySorted outweighs (sort_desc abs_lt contribs).
Proof.
  apply sort_desc_sorted_on; unfold outweighs, abs_lt, magnitude.
  - intros a b c Ha Hb Hc H1 H2.
    apply (leb_nonneg_trans _ (PrimFloat.abs (snd b))); try apply abs_nonneg; assumption.
  - intros a b Ha Hb H. apply ltb_leb. exact H.
  - intros a b Ha Hb H. apply leb_nonneg_total; try apply abs_nonneg; assumption.
Qed.


(** ** Counting *)

Lemma str_eqb_refl (a : str) : str_eqb a a = true.
Proof. induction a as [|x a IH]; simpl; [|rewrite N.eqb_refl, IH]; reflexivity. Qed.

Lemma str_eqb_spec (a b : str) : reflect (a = b) (str_eqb a b).
Proof.
  destruct (str_eqb a b) eqn:E; constructor.
  - apply str_eqb_eq. exact E.
  - intros ->. rewrite str_eqb_refl in E. discriminate.
Qed.

(** How often a token occurs. *)
Definition occurrences (t : str) (tokens : list str) : Z :=
  Z.of_nat (length (filter (str_eqb t) tokens)).

(** A counter that has seen [seen]. *)
Definition counts (seen : list str) (c : list (str * Z)) : Prop :=
  NoDup (map fst c)
  /\ (forall t n, In (t, n) c -> n = occurrences t seen /\ In t seen)
  /\ (forall t, In t seen -> exists n, In (t, n) c).

Lemma occurrences_snoc (t x : str) (seen : list str) :
  occurrences t (seen ++ [x])
  = (occurrences t seen + if str_eqb t x then 1 else 0)%Z.
Proof.
  unfold occurrences. rewrite filter_app, length_app. simpl.
  destruct (str_eqb t x); simpl; lia.
Qed.

Lemma counter_add_keys (t : str) (c : list (str * Z)) :
  forall k, In k (map fst (counter_add t c)) <-> k = t \/ In k (map fst c).
Proof.
  induction c as [|[k0 n0] c IH]; simpl; intros k; [intuition|].
  destruct (str_eqb_spec t k0) as [->|Hne]; simpl; [intuition|].
  rewrite IH. intuition.
Qed.

Lemma counter_add_counts (t : str) (seen : list str) (c : list (str * Z)) :
  counts seen c -> counts (seen ++ [t]) (counter_add t c).
Proof.
  intros (Hnd & Hval & Hall).
  assert (Hin : forall k n, In (k, n) (counter_add t c) ->
            (k = t /\ ((n = 1%Z /\ ~ In t (map fst c))
                       \/ exists m, In (t, m) c /\ n = (m + 1)%Z))
            \/ (k <> t /\ In (k, n) c)).
  { clear Hval Hall. induction c as [|[k0 n0] c IH]; simpl; intros k n H.
    - destruct H as [H|[]]. injection H as <- <-. left. split; [reflexivity|]. left. tauto.
    - inversion Hnd as [|? ? Hk0 Hnd']; subst.
      destruct (str_eqb_spec t k0) as [->|Hne]; simpl in H.
      + destruct H as [H|H].
        * injection H as <- <-. left. split; [reflexivity|]. right. exists n0. tauto.
        * right. split; [|tauto]. intros ->. apply Hk0.
          apply in_map_iff. exists (k0, n). tauto.
      + destruct H as [H|H].
        * injection H as <- <-. right. split; [congruence | tauto].
        * destruct (IH Hnd' k n H) as [(-> & [(-> & Hni)|(m & Hm & ->)])|(Hk & Hc)].
          -- left. split; [reflexivity|]. left. split; [reflexivity|].
             intros [E|E]; [congruence | contradiction].
          -- left. split; [reflexivity|]. right. exists m. tauto.
          -- right. tauto. }
  split; [|split].
  - clear Hval Hall Hin. induction c as [|[k0 n0] c IH]; simpl.
    + repeat constructor. intros [].
    + inversion Hnd as [|? ? Hk0 Hnd']; subst.
      destruct (str_eqb_spec t k0) as [->|Hne]; simpl.
      * constructor; assumption.
      * constructor; [|apply IH; exact Hnd'].
        rewrite counter_add_keys. intros [E|E]; [congruence | contradiction].
  - intros k n H. rewrite occurrences_snoc.
    destruct (Hin k n H) as [(-> & [(-> & Hni)|(m & Hm & ->)])|(Hk & Hc)].
    + rewrite str_eqb_refl. split; [|apply in_or_app; right; left; reflexivity].
      assert (E : occurrences t seen = 0%Z).
      { unfold occurrences. destruct (filter (str_eqb t) seen) as [|y l] eqn:F;
          [reflexivity|].
        exfalso. assert (Hy : In y (filter (str_eqb t) seen)) by (rewrite F; left; reflexivity).
        apply filter_In in Hy. destruct Hy as [Hy Ey]. apply str_eqb_eq in Ey. subst y.
        destruct (Hall t Hy) as (n & Hn). apply Hni.
        apply in_map_iff. exists (t, n). tauto. }
      rewrite E. reflexivity.
    + rewrite str_eqb_refl. destruct (Hval t m Hm) as (-> & Ht).
      split; [reflexivity | apply in_or_app; left; exact Ht].
    + destruct (str_eqb_spec k t) as [->|_]; [contradiction Hk; reflexivity|].
      destruct (Hval k n Hc) as (-> & Ht).
      split; [lia | apply in_or_app; left; exact Ht].
  - intros k Hk. apply in_app_or in Hk.
    assert (Hkeys : In k (map fst (counter_add t c))).
    { rewrite counter_add_keys. destruct Hk as [Hk|[<-|[]]]; [right | left; reflexivity].
      destruct (Hall k Hk) as (n & Hn). apply in_map_iff. exists (k, n). tauto. }
    apply in_map_iff in Hkeys. destruct Hkeys as ([k' n] & E & Hn). simpl in E. subst k'.
    exists n. exact Hn.
Qed.

Lemma Counter_counts (tokens : list str) : counts tokens (Counter tokens).
Proof.
  unfold Counter.
  assert (H : forall seen c, counts seen c ->
            counts (seen ++ tokens) (fold_left (fun c t => counter_add t c) tokens c)).
  { induction tokens as [|t tokens IH]; simpl; intros seen c Hc.
    - rewrite app_nil_r. exact Hc.
    - replace (seen ++ t :: tokens) with ((seen ++ [t]) ++ tokens)
        by (rewrite <- app_assoc; reflexivity).
      apply IH. apply counter_add_counts. exact Hc. }
  apply (H [] []). split; [constructor | split; intros; contradiction].
Qed.

(** ** The largest magnitude and the normalization *)

Lemma nonneg_not_nan (x : float) : nonneg x = true -> PrimFloat.is_nan x = false.
Proof. intros H. apply finite_not_nan. apply nonneg_finite. exact H. Qed.





(** ** The fallback *)

Lemma mapM_ret {A B} (f : A -> result B) (l : list A) (out : list B) :
  mapM f l = Ret out -> Forall2 (fun a b => f a = Ret b) l out.
Proof.
  revert out. induction l as [|a l IH]; simpl; intros out H.
  - injection H as <-. constructor.
  - apply bind_ret in H. destruct H as (b & Hb & H).
    apply bind_ret in H. destruct H as (bs & Hbs & H).
    injection H as <-. constructor; [exact Hb | apply IH; exact Hbs].
Qed.

Definition count_ge (a b : str * Z) : Prop := (snd b <= snd a)%Z.

Lemma entry_eq_dec (a b : str * Z) : {a = b} + {a <> b}.
Proof.
  decide equality; [apply Z.eq_dec | apply (list_eq_dec N.eq_dec)].
Qed.

Lemma most_common_spec (n : nat) (tokens : list str) :
  let common := most_common n (Counter tokens) in
  (length common <= n)%nat
  /\ (forall t c, In (t, c) common -> In t tokens /\ c = occurrences t tokens)
  /\ StronglySorted count_ge common
  /\ (forall t, In t tokens ->
        (exists c, In (t, c) common)
        \/ forall e, In e common -> (occurrences t tokens <= snd e)%Z)
  /\ (common = [] -> n = 0%nat \/ tokens = []).
Proof.
  unfold most_common. cbv zeta.
  destruct (Counter_counts tokens) as (Hnd & Hval & Hall).
  assert (Hsorted : StronglySorted count_ge (sort_desc count_lt (Counter tokens))).
  { apply sort_desc_sorted; unfold count_ge, count_lt; intros a b.
    - intros c H1 H2. lia.
    - intros H. apply Z.ltb_lt in H. lia.
    - intros H. apply Z.ltb_ge in H. lia. }
  split; [apply firstn_le_length|]. split; [|split; [|split]].
  - intros t c Hin. apply in_firstn in Hin. apply sort_desc_in in Hin.
    apply Hval in Hin. tauto.
  - apply firstn_sorted. exact Hsorted.
  - intros t Ht. destruct (Hall t Ht) as (c & Hc).
    assert (Hc' : c = occurrences t tokens) by (apply Hval in Hc; tauto).
    apply (proj2 (sort_desc_in count_lt _ _)) in Hc.
    destruct (firstn n (sort_desc count_lt (Counter tokens))) as [|e0 rest] eqn:E.
    + right. intros e [].
    + assert (Hdom : forall e, In e (e0 :: rest) ->
                In (t, c) (e0 :: rest) \/ count_ge e (t, c)).
      { intros e He. rewrite <- E in *.
        eapply firstn_dominates; [exact Hsorted | exact He | exact Hc]. }
      destruct (Hdom e0 (or_introl eq_refl)) as [Hin|_]; [left; exists c; exact Hin|].
      destruct (in_dec entry_eq_dec (t, c) (e0 :: rest)) as [Hin|Hnin].
      * left. exists c. exact Hin.
      * right. intros e He. destruct (Hdom e He) as [Hin|Hge]; [contradiction|].
        unfold count_ge in Hge. simpl in Hge. lia.
  - intros E. destruct n as [|n]; [left; reflexivity | right].
    destruct tokens as [|t tokens]; [reflexivity | exfalso].
    destruct (Hall t (or_introl eq_refl)) as (c & Hc).
    apply (proj2 (sort_desc_in count_lt _ _)) in Hc.
    destruct (sort_desc count_lt (Counter (t :: tokens))); [contradiction | discriminate E].
Qed.

(** ** The counts stay within the range of [float] *)





(** ** The shape of an explanation *)




Section Shape.
Context {rt : Runtime}.
Variable _load_artifacts : option (Vectorizer * Classifier).

Lemma finite_magnitude (t : contribution) :
  finite (snd t) = true -> PrimFloat.is_nan (magnitude t) = false.
Proof. intros H. apply nonneg_not_nan. apply abs_nonneg. exact H. Qed.

(** What [_top_token_contributions] keeps of the contributions and what it
    leaves out: together they are the contributions, and for finite
    contributions they are, kept first, in descending order of magnitude. *)
Lemma kept_and_dropped (vec : Vectorizer) (cls : Classifier) (text : str)
    (top_k : nat) :
  sorts_as_documented ->
  exists kept dropped,
    _top_token_contributions (Some (vec, cls)) text top_k = normalize_weights kept
    /\ Permutation (contribs_of vec cls text) (kept ++ dropped)
    /\ length kept = Nat.min top_k (length (contribs_of vec cls text))
    /\ (Forall (fun t => finite (snd t) = true) (contribs_of vec cls text) ->
        StronglySorted outweighs (kept ++ dropped)).
Proof.
  intros Hsort.
  destruct (Hsort contribution magnitude (contribs_of vec cls text)) as [Hperm Hstable].
  set (sorted := list_sort_desc contribution magnitude (contribs_of vec cls text)) in *.
  exists (firstn top_k sorted), (skipn top_k sorted).
  split; [reflexivity|]. rewrite firstn_skipn.
  split; [exact Hperm|]. split.
  - rewrite length_firstn, (Permutation_length Hperm). reflexivity.
  - intros Hfin. rewrite Hstable.
    + apply (sorted_by_magnitude _ Hfin).
    + eapply Forall_impl; [|exact Hfin]. intros t Ht. apply finite_magnitude. exact Ht.
Qed.



End Shape.

(** An invoice about cables, and no artifacts on disk. *)
Definition cable_invoice : Etl.Canonical :=
  {| Etl.vendor_name := u "Acme"; Etl.invoice_number := u "INV-7";
     Etl.date := None; Etl.tax_id := []; Etl.items := [];
     Etl.currency := u "EUR"; Etl.total_amount := None; Etl.line_count := 0%Z;
     Etl.full_text := u "Acme INV-7 EUR USB usb usb usb hub hub" |}.


(** A token seen eleven times weighs 1.1. *)
Lemma fallback_weight_above_one :
  explain_for_payload (rt := glibc_runtime) None
    {| Etl.vendor_name := u "Acme"; Etl.invoice_number := u "INV-8";
       Etl.date := None; Etl.tax_id := []; Etl.items := [];
       Etl.currency := []; Etl.total_amount := None; Etl.line_count := 0%Z;
       Etl.full_text := u "nut nut nut nut nut nut nut nut nut nut nut" |}
  = Ret {| method := feature_importances;
           top_tokens := [(u "nut", 1.1%float)] |}.
Proof. vm_compute. reflexivity. Qed.

(** Artifacts for the examples: two features, [usb] and [hub], one class. *)
Definition sample_vectorizer : Vectorizer :=
  {| transform := fun _ => [(0%nat, 0.5%float); (1%nat, 0.25%float)];
     get_feature_names_out :=
       Some (fun idx => match idx with O => u "usb" | _ => u "hub" end) |}.

Definition sample_classifier : Classifier :=
  {| decision_function := Some (fun _ => [0.5%float]);
     predict := fun _ => u "hardware";
     classes_ := Some [u "hardware"];
     coef_ := fun _ idx => match idx with O => (-3)%float | _ => 2%float end |}.

(** With every coefficient zero the model path answers with weights that
    are all zero. *)
Lemma zero_contributions_stay_zero :
  explain_for_payload (rt := glibc_runtime)
    (Some (sample_vectorizer,
           {| decision_function := None; predict := fun _ => u "hardware";
              classes_ := None; coef_ := fun _ _ => 0%float |}))
    cable_invoice
  = Ret {| method := linear_contribution;
           top_tokens := [(u "usb", 0%float); (u "hub", 0%float)] |}.
Proof. vm_compute. reflexivity. Qed.




End ExplainFacts.

(* ================================================================== *)
(** * Properties of [strip]                                            *)
(* ================================================================== *)
Module TextFacts.
Import Py.

Section Strip.
Variable ws : char -> bool.

Lemma lstrip_split (s : str) :
  exists pre, s = pre ++ lstrip_with ws s /\ Forall (fun c => ws c = true) pre.
Proof.
  induction s as [|c s (pre & E & Hpre)]; simpl.
  - exists []. split; [reflexivity | constructor].
  - destruct (ws c) eqn:Ec.
    + exists (c :: pre). split; [simpl; f_equal; exact E | constructor; assumption].
    + exists []. split; [reflexivity | constructor].
Qed.

Lemma lstrip_head (s : str) (c : char) (r : str) :
  lstrip_with ws s = c :: r -> ws c = false.
Proof.
  induction s as [|x s IH]; simpl; [discriminate|].
  destruct (ws x) eqn:Ex; [exact IH|].
  intros H. injection H as -> _. exact Ex.
Qed.

Lemma lstrip_fixed (s : str) :
  match s with [] => True | c :: _ => ws c = false end -> lstrip_with ws s = s.
Proof. destruct s as [|c s]; simpl; [reflexivity | intros ->; reflexivity]. Qed.

Lemma lstrip_all (s : str) :
  Forall (fun c => ws c = true) s -> lstrip_with ws s = [].
Proof. induction 1 as [|c s Hc _ IH]; simpl; [|rewrite Hc]; auto. Qed.

Lemma lstrip_nil (s : str) :
  lstrip_with ws s = [] -> Forall (fun c => ws c = true) s.
Proof.
  intros H. destruct (lstrip_split s) as (pre & E & Hpre).
  rewrite H, app_nil_r in E. subst. exact Hpre.
Qed.

(** Text that neither starts nor ends with whitespace. *)
Definition trimmed (s : str) : Prop :=
  lstrip_with ws s = s /\ lstrip_with ws (rev s) = rev s.

Lemma strip_with_trimmed (s : str) : trimmed (strip_with ws s).
Proof.
  unfold trimmed, strip_with.
  set (t := lstrip_with ws s).
  set (v := lstrip_with ws (rev t)).
  assert (Hv : lstrip_with ws v = v).
  { apply lstrip_fixed. destruct v as [|c r] eqn:E; [exact I|].
    apply (lstrip_head (rev t) c r). exact E. }
  split; [|rewrite rev_involutive; exact Hv].
  apply lstrip_fixed.
  destruct (rev v) as [|c r] eqn:E; [exact I|].
  destruct (lstrip_split (rev t)) as (pre & Hsplit & _). fold v in Hsplit.
  assert (Ht : t = c :: r ++ rev pre).
  { rewrite <- (rev_involutive t), Hsplit, rev_app_distr, E. reflexivity. }
  apply (lstrip_head s c (r ++ rev pre)). exact Ht.
Qed.

Lemma trimmed_strip_with (s : str) : trimmed s -> strip_with ws s = s.
Proof.
  intros [H1 H2]. unfold strip_with. rewrite H1, H2. apply rev_involutive.
Qed.

Lemma strip_with_idempotent (s : str) :
  strip_with ws (strip_with ws s) = strip_with ws s.
Proof. apply trimmed_strip_with. apply strip_with_trimmed. Qed.

Lemma strip_with_blank (s : str) :
  strip_with ws s = [] <-> Forall (fun c => ws c = true) s.
Proof.
  unfold strip_with. split.
  - intros H. apply (f_equal (@rev char)) in H. rewrite rev_involutive in H.
    simpl in H. apply lstrip_nil in H. apply Forall_rev in H.
    rewrite rev_involutive in H.
    destruct (lstrip_split s) as (pre & E & Hpre). rewrite E.
    apply Forall_app. split; assumption.
  - intros H. rewrite (lstrip_all s H). reflexivity.
Qed.

End Strip.

Lemma str_eqb_nil (s : str) : str_eqb s [] = true <-> s = [].
Proof. destruct s; simpl; split; congruence. Qed.

Lemma str_eqb_same (a : str) : str_eqb a a = true.
Proof. induction a as [|x a IH]; simpl; [|rewrite N.eqb_refl, IH]; reflexivity. Qed.

Lemma str_eqb_true (a b : str) : str_eqb a b = true <-> a = b.
Proof.
  split; [|intros ->; apply str_eqb_same].
  revert b. induction a as [|x a IH]; destruct b as [|y b]; simpl;
    try discriminate; [reflexivity|].
  intros H. apply andb_true_iff in H. destruct H as [H1 H2].
  apply N.eqb_eq in H1. f_equal; [exact H1 | apply IH; exact H2].
Qed.

(** A blank text: nothing but whitespace. *)
Definition blank (s : str) : Prop := Forall (fun c => is_space c = true) s.

Lemma strip_blank (s : str) : strip s = [] <-> blank s.
Proof. apply strip_with_blank. Qed.

Lemma strip_idempotent (s : str) : strip (strip s) = strip s.
Proof. apply strip_with_idempotent. Qed.

Lemma _strip_blank (x : option str) :
  Etl._strip x = [] <-> match x with Some s => blank s | None => True end.
Proof.
  unfold Etl._strip. destruct x as [s|]; simpl.
  - destruct s as [|c s]; simpl.
    + split; [constructor | reflexivity].
    + apply strip_blank.
  - split; [trivial | reflexivity].
Qed.

Lemma _strip_idempotent (x : option str) :
  strip (Etl._strip x) = Etl._strip x.
Proof. unfold Etl._strip. apply strip_idempotent. Qed.

End TextFacts.

(* ================================================================== *)
(** * More properties of normalize                                     *)
(* ================================================================== *)
Module NormalizeFacts.
Import Py Etl EtlFacts TextFacts.

Section WithRuntime.
Context {rt : Runtime}.

(** The parts [full_text] is joined from, before the empty ones are left
    out. *)
Definition full_text_parts (payload : Payload) (lang : str) (c : Canonical) : list str :=
  let parts :=
    [vendor_name c; invoice_number c; tax_id c; currency c]
      ++ filter nonempty (map description (items c))
      ++ [_strip (p_raw_text payload)] in
  if str_eqb lang (u "ar") then map _ar_digits_to_ascii parts else parts.

Lemma normalize_fields (payload : Payload) (lang : str) (c : Canonical) :
  normalize payload lang = Ret c ->
  vendor_name c = _strip (p_vendor_name payload)
  /\ invoice_number c = _strip (p_invoice_number payload)
  /\ date c = _parse_date_localized (_strip (p_date payload)) lang
  /\ tax_id c = _strip (p_tax_id payload)
  /\ currency c = upper (_strip (Some (str_or (p_currency payload) (u "EUR"))))
  /\ full_text c = join (u " ") (filter nonempty (full_text_parts payload lang c)).
Proof.
  unfold normalize. intros H.
  apply bind_ret in H. destruct H as ([its t] & _ & H).
  injection H as <-. unfold full_text_parts. simpl.
  repeat split; reflexivity.
Qed.

Lemma Forall2_right {A B} (R : A -> B -> Prop) (P : B -> Prop) (l : list A) (l' : list B) :
  Forall2 R l l' -> (forall a b, R a b -> P b) -> Forall P l'.
Proof. induction 1; intros H'; constructor; eauto. Qed.

(** Every text field of the canonical invoice comes out of [_strip]: it has
    no whitespace at either end, and stripping it again changes nothing.
    (The currency is uppercased after the stripping and is left out.) *)
Theorem normalized_text_is_trimmed (payload : Payload) (lang : str) (c : Canonical) :
  normalize payload lang = Ret c ->
  strip (vendor_name c) = vendor_name c
  /\ strip (invoice_number c) = invoice_number c
  /\ strip (tax_id c) = tax_id c
  /\ Forall (fun it => strip (description it) = description it
                       /\ strip (category it) = category it) (items c).
Proof.
  intros H. pose proof (normalize_fields _ _ _ H) as (Ev & En & _ & Et & _).
  rewrite Ev, En, Et. repeat split; try apply _strip_idempotent.
  eapply Forall2_right; [apply (normalize_items _ _ _ H)|].
  intros raw it Hc. apply canonical_of_degrades in Hc.
  destruct Hc as (Ed & Ec & _). rewrite Ed, Ec.
  split; apply _strip_idempotent.
Qed.

(** *** The currency *)

Definition latin (s : str) : Prop := Forall (fun c => (c < 128)%N) s.

Lemma upper_latin (s : str) : latin s -> upper s = map ascii_upper s.
Proof.
  unfold upper. induction 1 as [|c s Hc _ IH]; simpl; [reflexivity|].
  apply N.ltb_lt in Hc. rewrite Hc, IH. reflexivity.
Qed.

Lemma lstrip_Forall (P : char -> Prop) (ws : char -> bool) (s : str) :
  Forall P s -> Forall P (lstrip_with ws s).
Proof.
  intros H. destruct (lstrip_split ws s) as (pre & E & _).
  rewrite E in H. apply Forall_app in H. apply H.
Qed.

Lemma strip_Forall (P : char -> Prop) (s : str) : Forall P s -> Forall P (strip s).
Proof.
  intros H. unfold strip, strip_with.
  apply Forall_rev, lstrip_Forall, Forall_rev, lstrip_Forall. exact H.
Qed.

(** The currency of the canonical invoice: [EUR] when the submission has
    none or an empty one; otherwise the submitted text, stripped and
    uppercased, which for text of Basic Latin is letter by letter, and which
    is empty (not [EUR]) for a text of nothing but whitespace. *)
Theorem currency_defaults_to_eur (payload : Payload) (lang : str) (c : Canonical) :
  normalize payload lang = Ret c ->
  (p_currency payload = None \/ p_currency payload = Some [] -> currency c = u "EUR")
  /\ (forall s, p_currency payload = Some s -> s <> [] ->
        currency c = upper (strip s)
        /\ (latin s -> currency c = map ascii_upper (strip s))
        /\ (blank s -> currency c = [])).
Proof.
  intros H. pose proof (normalize_fields _ _ _ H) as (_ & _ & _ & _ & Ec & _).
  rewrite Ec. split.
  - intros [E|E]; rewrite E; reflexivity.
  - intros s E Hne. rewrite E.
    destruct s as [|x s]; [contradiction Hne; reflexivity|].
    cbn [str_or nonempty]. rewrite _strip_some.
    split; [reflexivity|]. split.
    + intros Hl. apply upper_latin. apply strip_Forall. exact Hl.
    + intros Hb. apply strip_blank in Hb. rewrite Hb. reflexivity.
Qed.

(** *** Arabic-Indic digits *)

Definition arabic_indic_digit (ch : char) : bool :=
  existsb (N.eqb ch) ARABIC_INDIC_CHARS.

Lemma translated_char (ch : char) :
  arabic_indic_digit
    (match table_get ARABIC_INDIC ch with Some d => d | None => ch end) = false.
Proof.
  unfold arabic_indic_digit, ARABIC_INDIC, ARABIC_INDIC_CHARS.
  cbn [combine u list_ascii_of_string map table_get].
  repeat match goal with
         | |- context [N.eqb ch ?k] =>
             destruct (N.eqb_spec ch k); [subst ch; reflexivity|]
         end.
  cbn [existsb].
  repeat (rewrite (proj2 (N.eqb_neq ch _)) by assumption). reflexivity.
Qed.

Lemma ar_digits_to_ascii_clean (s : str) :
  Forall (fun ch => arabic_indic_digit ch = false) (_ar_digits_to_ascii s).
Proof.
  unfold _ar_digits_to_ascii, translate. apply Forall_map.
  apply Forall_forall. intros ch _. apply translated_char.
Qed.

Lemma join_Forall (P : char -> Prop) (sep : str) (parts : list str) :
  Forall P sep -> Forall (Forall P) parts -> Forall P (join sep parts).
Proof.
  intros Hsep. induction 1 as [|p parts Hp Hparts IH]; [constructor|].
  destruct parts as [|q parts]; [exact Hp|].
  change (join sep (p :: q :: parts)) with (p ++ sep ++ join sep (q :: parts)).
  apply Forall_app. split; [exact Hp|]. apply Forall_app. split; [exact Hsep | exact IH].
Qed.

Lemma Forall_filter {A} (P : A -> Prop) (f : A -> bool) (l : list A) :
  Forall P l -> Forall P (filter f l).
Proof.
  intros H. apply Forall_forall. intros x Hx. apply filter_In in Hx.
  rewrite Forall_forall in H. apply H. tauto.
Qed.

(** Under [ar] the text handed to the classifiers holds no Arabic-Indic
    digit: each has become its ASCII digit. *)
Theorem arabic_full_text_has_no_arabic_indic_digit (payload : Payload) (c : Canonical) :
  normalize payload (u "ar") = Ret c ->
  Forall (fun ch => arabic_indic_digit ch = false) (full_text c).
Proof.
  intros H. pose proof (normalize_fields _ _ _ H) as (_ & _ & _ & _ & _ & Ef).
  rewrite Ef. unfold full_text_parts.
  change (str_eqb (u "ar") (u "ar")) with true. cbv iota.
  apply join_Forall; [repeat constructor|].
  apply Forall_filter. apply Forall_map. apply Forall_forall.
  intros p _. apply ar_digits_to_ascii_clean.
Qed.

(** *** The exceptions of normalize *)

(** An integer [float()] is sure to take. *)
Definition fits_float (z : Z) : Prop := (Z.abs z <= 2 ^ 1023)%Z.

Definition int_price_fits (raw : RawItem) : Prop :=
  forall z, raw_unit_price raw = Some (VInt z) -> fits_float z.

Lemma float_of_Z_raises (z : Z) (e : exn) :
  float_of_Z z = Raise e -> e = OverflowError /\ ~ fits_float z.
Proof.
  intros H. split.
  - unfold float_of_Z in H.
    destruct (binary_normalize prec emax z 0 false); congruence.
  - intros Hfit. destruct (FloatRounding.float_of_Z_returns z Hfit) as (f & Hf).
    congruence.
Qed.

Lemma item_step_raises (raw : RawItem) (lang : str) (e : exn) :
  item_step raw lang = Raise e ->
  e = OverflowError
  /\ (~ fits_float (item_quantity raw lang) \/ ~ int_price_fits raw).
Proof.
  unfold item_step. intros H.
  destruct (_to_float (match raw_unit_price raw with
                       | Some v => v
                       | None => VFloat zero
                       end) lang) as [p|e'] eqn:Ep.
  - cbn [bind] in H.
    destruct (float_of_Z (item_quantity raw lang)) as [fq|e''] eqn:Eq;
      [discriminate H|].
    cbn [bind] in H. injection H as <-.
    apply float_of_Z_raises in Eq. destruct Eq as [-> Hq].
    split; [reflexivity | left; exact Hq].
  - cbn [bind] in H. injection H as <-.
    destruct (raw_unit_price raw) as [[|z|f|s]|] eqn:Er; try discriminate Ep.
    cbn [_to_float] in Ep.
    destruct (float_of_Z z) as [f|e''] eqn:Ez; [discriminate Ep|].
    cbn [bind] in Ep. injection Ep as <-.
    apply float_of_Z_raises in Ez. destruct Ez as [-> Hz].
    split; [reflexivity|]. right. intros Hfit. apply Hz. apply Hfit. exact Er.
Qed.

Lemma item_step_returns (raw : RawItem) (lang : str) :
  fits_float (item_quantity raw lang) -> int_price_fits raw ->
  exists x, item_step raw lang = Ret x.
Proof.
  intros Hq Hp.
  destruct (item_step raw lang) as [x|e] eqn:E; [exists x; reflexivity|].
  apply item_step_raises in E. destruct E as (_ & [E|E]); contradiction.
Qed.

Lemma items_loop_raise (raw : list RawItem) (lang : str) (e : exn) :
  forall acc tot, items_loop raw lang acc tot = Raise e ->
  Exists (fun r => item_step r lang = Raise e) raw.
Proof.
  induction raw as [|r raw IH]; simpl; intros acc tot H; [discriminate H|].
  destruct (item_step r lang) as [x|e'] eqn:E.
  - cbn [bind] in H. right. eapply IH. exact H.
  - cbn [bind] in H. injection H as <-. left. exact E.
Qed.

(** [normalize] raises nothing but [OverflowError], and only when an item
    holds an integer beyond the range of [float]: a quantity ([int()] of
    the raw one) or an integer price.  With every such integer within
    [2 ^ 1023] in magnitude it returns. *)
Theorem normalize_raises_only_overflow (payload : Payload) (lang : str) :
  (forall e, normalize payload lang = Raise e ->
     e = OverflowError
     /\ Exists (fun raw => ~ fits_float (item_quantity raw lang) \/ ~ int_price_fits raw)
               (raw_items_of payload))
  /\ (Forall (fun raw => fits_float (item_quantity raw lang) /\ int_price_fits raw)
             (raw_items_of payload) ->
      exists c, normalize payload lang = Ret c).
Proof.
  split.
  - intros e H. unfold normalize in H. fold (raw_items_of payload) in H.
    destruct (items_loop (raw_items_of payload) lang [] zero) as [[its t]|e'] eqn:El;
      [discriminate H|].
    cbn [bind] in H. injection H as <-.
    apply items_loop_raise in El. apply Exists_exists in El.
    destruct El as (raw & Hin & Hraw). apply item_step_raises in Hraw.
    destruct Hraw as (-> & Hwhy). split; [reflexivity|].
    apply Exists_exists. exists raw. split; assumption.
  - intros HF. apply normalize_returns_iff.
    eapply Forall_impl; [|exact HF].
    intros raw [Hq Hp]. apply item_step_returns; assumption.
Qed.

End WithRuntime.

(** A quantity of four hundred digits: [normalize] raises. *)
Lemma oversized_quantity_raises :
  normalize (rt := glibc_runtime) oversized_payload (u "en") = Raise OverflowError.
Proof. vm_compute. reflexivity. Qed.

Lemma normalized_text_is_trimmed_witness :
  normalize (rt := glibc_runtime) sample_payload (u "de") = Ret sample_canonical
  /\ strip (vendor_name sample_canonical) = vendor_name sample_canonical
  /\ strip (tax_id sample_canonical) = tax_id sample_canonical.
Proof.
  assert (H : normalize (rt := glibc_runtime) sample_payload (u "de") = Ret sample_canonical)
    by (vm_compute; reflexivity).
  split; [exact H|].
  destruct (normalized_text_is_trimmed (rt := glibc_runtime) _ _ _ H) as (Hv & _ & Ht & _).
  split; [exact Hv | exact Ht].
Defined.

Definition lowercase_currency_payload : Payload := {|
  p_vendor_name := Some (u "Acme");
  p_invoice_number := Some (u "A-6");
  p_date := Some (u "2025-07-10");
  p_tax_id := Some (u "DE123");
  p_items := Some [];
  p_currency := Some (u " aed ");
  p_raw_text := None
|}.

Lemma currency_defaults_to_eur_witness :
  exists c,
    normalize (rt := glibc_runtime) lowercase_currency_payload (u "en") = Ret c
    /\ currency c = u "AED".
Proof.
  eexists. split; [vm_compute; reflexivity|].
  refine (proj1 (proj2 (proj2 (currency_defaults_to_eur (rt := glibc_runtime)
            lowercase_currency_payload (u "en") _ _) (u " aed ") eq_refl _)) _).
  - vm_compute. reflexivity.
  - discriminate.
  - repeat constructor.
Defined.

(** An invoice written with Arabic-Indic digits. *)
Definition arabic_payload : Payload := {|
  p_vendor_name := Some [0x634; 0x631; 0x643; 0x629; 0x20; 0x661; 0x662]%N;
  p_invoice_number := Some [0x661; 0x662; 0x663]%N;
  p_date := Some [0x661; 0x660; 0x2F; 0x660; 0x667; 0x2F; 0x662; 0x660; 0x662; 0x665]%N;
  p_tax_id := Some (u "SA123");
  p_items := Some [];
  p_currency := Some (u "SAR");
  p_raw_text := None
|}.

Lemma arabic_full_text_has_no_arabic_indic_digit_witness :
  exists c,
    normalize (rt := glibc_runtime) arabic_payload (u "ar") = Ret c
    /\ full_text c = [0x634; 0x631; 0x643; 0x629; 0x20; 49; 50; 0x20; 49; 50; 51;
                       0x20; 83; 65; 49; 50; 51; 0x20; 83; 65; 82]%N
    /\ date c = Some (u "2025-07-10")
    /\ Forall (fun ch => arabic_indic_digit ch = false) (full_text c).
Proof.
  eexists. split; [vm_compute; reflexivity|].
  split; [reflexivity|]. split; [reflexivity|].
  eapply (arabic_full_text_has_no_arabic_indic_digit (rt := glibc_runtime) arabic_payload).
  vm_compute. reflexivity.
Defined.

End NormalizeFacts.

(* ================================================================== *)
(** * More properties of the date parser                               *)
(* ================================================================== *)
Module DateFacts.
Import Py Etl EtlFacts TextFacts.

Definition SLASH : char := 47%N.
Definition HYPHEN : char := 45%N.

(** Two numbers and a year, each zero-padded, with a separator. *)
Definition numeric_date (sep : char) (a b y : Z) : str :=
  zero_pad 2 a ++ [sep] ++ zero_pad 2 b ++ [sep] ++ zero_pad 4 y.

(** The same text with its digits Arabic-Indic. *)
Definition to_arabic_indic (s : str) : str :=
  map (fun c => if is_ascii_digit c then (c + 1584)%N else c) s.

Section WithRuntime.
Context {rt : Runtime}.

(** *** Edge: nothing to parse *)

(** A date that is empty or all whitespace parses to [None], whatever the
    language. *)
Theorem blank_date_is_absent (s lang : str) :
  blank s -> _parse_date_localized s lang = None.
Proof.
  intros H. unfold _parse_date_localized.
  replace (_strip (Some s)) with (@nil char); [reflexivity|].
  symmetry. apply _strip_blank. exact H.
Qed.

(** *** What comes out is a date *)

Lemma strptime_valid (s fmt : str) (y m d : Z) :
  strptime s fmt = Some (y, m, d) -> valid_date y m d = true.
Proof.
  unfold strptime.
  destruct (match_directives (parse_format fmt) s (None, None, None))
    as [[[[fy fm] fd] [|c r]]|]; try discriminate.
  destruct (valid_date _ _ _) eqn:E; [|discriminate].
  intros H. injection H as <- <- <-. exact E.
Qed.

Lemma try_formats_valid (raw : str) (fmts : list str) (t : str) :
  try_formats raw fmts = Some t ->
  exists y m d, valid_date y m d = true /\ t = strftime_ymd (y, m, d).
Proof.
  induction fmts as [|fmt fmts IH]; simpl; [discriminate|].
  destruct (strptime raw fmt) as [[[y m] d]|] eqn:E; [|exact IH].
  intros H. injection H as <-. exists y, m, d.
  split; [eapply strptime_valid; exact E | reflexivity].
Qed.

Lemma parse_date_valid (s lang t : str) :
  _parse_date_localized s lang = Some t ->
  exists y m d, valid_date y m d = true /\ t = strftime_ymd (y, m, d).
Proof.
  unfold _parse_date_localized.
  destruct (negb (nonempty (_strip (Some s)))); [discriminate|].
  match goal with
  | |- context [try_formats ?raw (patterns lang)] =>
      destruct (try_formats raw (patterns lang)) as [iso|] eqn:E1
  end.
  - intros H. injection H as <-. eapply try_formats_valid. exact E1.
  - intros H. eapply try_formats_valid. exact H.
Qed.

(** The ISO text of a date parses to itself under each language. *)
Lemma iso_text_parses (y m d : Z) (lang : str) :
  valid_date y m d = true ->
  supported lang ->
  strftime_pads_year = true \/ (1000 <= y)%Z ->
  _parse_date_localized (iso_date_string y m d) lang = Some (iso_date_string y m d).
Proof.
  intros Hv Hlang Hpad.
  pose proof (valid_date_bounds y m d Hv) as (Hy & Hm & Hd).
  assert (Hfmt : strftime_ymd (y, m, d) = iso_date_string y m d).
  { apply strftime_iso. destruct Hpad; [left; assumption | right; lia]. }
  pose proof (strptime_iso y m d Hv) as Hiso.
  assert (Hfail : forall fmt sep ds,
            parse_format fmt = Dd :: DLit sep :: ds -> (sep < 48)%N ->
            strptime (iso_date_string y m d) fmt = None).
  { intros fmt sep ds. apply strptime_day_first; lia. }
  destruct (iso_text_shape y m d) as (a & b & c & e & rest & Hshape & _ & _ & Hplain);
    try lia.
  rewrite parse_date_plain; [|exact Hplain | rewrite Hshape; discriminate].
  destruct Hlang as [-> | [-> | ->]].
  - change (patterns (u "en")) with
      [u "%Y-%m-%d"; u "%m/%d/%Y"; u "%m-%d-%Y"; u "%d/%m/%Y"; u "%d-%m-%Y"].
    cbn [try_formats]. rewrite Hiso, Hfmt. reflexivity.
  - change (patterns (u "de")) with
      [u "%d.%m.%Y"; u "%d/%m/%Y"; u "%d-%m-%Y"; u "%Y-%m-%d"].
    cbn [try_formats].
    rewrite (Hfail (u "%d.%m.%Y") 46%N [Dm; DLit 46%N; DY] eq_refl eq_refl).
    rewrite (Hfail (u "%d/%m/%Y") 47%N [Dm; DLit 47%N; DY] eq_refl eq_refl).
    rewrite (Hfail (u "%d-%m-%Y") 45%N [Dm; DLit 45%N; DY] eq_refl eq_refl).
    rewrite Hiso, Hfmt. reflexivity.
  - change (patterns (u "ar")) with [u "%d/%m/%Y"; u "%Y-%m-%d"; u "%d-%m-%Y"].
    cbn [try_formats].
    rewrite (Hfail (u "%d/%m/%Y") 47%N [Dm; DLit 47%N; DY] eq_refl eq_refl).
    rewrite Hiso, Hfmt. reflexivity.
Qed.

(** Whatever text and language go in, what [_parse_date_localized] returns
    is [strftime] of a date of the calendar; when the year prints with four
    digits this is the text [YYYY-MM-DD] of the date, and parsing it again,
    under any supported language, returns it unchanged. *)
Theorem parsed_date_is_canonical (s lang t : str) :
  _parse_date_localized s lang = Some t ->
  exists y m d,
    valid_date y m d = true
    /\ t = strftime_ymd (y, m, d)
    /\ (strftime_pads_year = true \/ (1000 <= y)%Z ->
        t = iso_date_string y m d
        /\ forall lang', supported lang' -> _parse_date_localized t lang' = Some t).
Proof.
  intros H. destruct (parse_date_valid _ _ _ H) as (y & m & d & Hv & Ht).
  exists y, m, d. split; [exact Hv|]. split; [exact Ht|].
  intros Hpad.
  pose proof (valid_date_bounds y m d Hv) as (Hy & _ & _).
  assert (Hiso : t = iso_date_string y m d).
  { rewrite Ht. apply strftime_iso. destruct Hpad; [left; assumption | right; lia]. }
  split; [exact Hiso|].
  intros lang' Hlang. rewrite Hiso. apply iso_text_parses; assumption.
Qed.

(** *** Numeric dates: which number is the day *)

Lemma year_alts_pad (y : Z) :
  (0 <= y <= 9999)%Z -> year_alts (zero_pad 4 y) = [(y, [])].
Proof.
  intros Hy.
  destruct (year_text y Hy) as (a & b & c & e & -> & Ha & Hb & Hc & He & Hval & _).
  unfold year_alts. rewrite !decimal_value_digit by assumption.
  rewrite Hval. reflexivity.
Qed.

Lemma match_month_first (sep : char) (y m d : Z) :
  (0 <= y <= 9999)%Z -> (1 <= m <= 12)%Z -> (1 <= d <= 31)%Z ->
  match_directives [Dm; DLit sep; Dd; DLit sep; DY] (numeric_date sep m d y)
    (None, None, None) = Some ((Some y, Some m, Some d), []).
Proof.
  intros Hy Hm Hd. unfold numeric_date.
  destruct (month_alts_pad m ([sep] ++ zero_pad 2 d ++ [sep] ++ zero_pad 4 y) Hm)
    as (tlm & Em).
  destruct (day_alts_pad d ([sep] ++ zero_pad 4 y) Hd) as (tld & Ed).
  cbn [match_directives]. rewrite Em. apply first_alt_head.
  cbn [fst snd app match_directives]. rewrite N.eqb_refl.
  change (zero_pad 2 d ++ sep :: zero_pad 4 y)
    with (zero_pad 2 d ++ [sep] ++ zero_pad 4 y).
  rewrite Ed. apply first_alt_head.
  cbn [fst snd app match_directives]. rewrite N.eqb_refl.
  rewrite (year_alts_pad y Hy). reflexivity.
Qed.

Lemma match_day_first (sep : char) (y m d : Z) :
  (0 <= y <= 9999)%Z -> (1 <= m <= 12)%Z -> (1 <= d <= 31)%Z ->
  match_directives [Dd; DLit sep; Dm; DLit sep; DY] (numeric_date sep d m y)
    (None, None, None) = Some ((Some y, Some m, Some d), []).
Proof.
  intros Hy Hm Hd. unfold numeric_date.
  destruct (day_alts_pad d ([sep] ++ zero_pad 2 m ++ [sep] ++ zero_pad 4 y) Hd)
    as (tld & Ed).
  destruct (month_alts_pad m ([sep] ++ zero_pad 4 y) Hm) as (tlm & Em).
  cbn [match_directives]. rewrite Ed. apply first_alt_head.
  cbn [fst snd app match_directives]. rewrite N.eqb_refl.
  change (zero_pad 2 m ++ sep :: zero_pad 4 y)
    with (zero_pad 2 m ++ [sep] ++ zero_pad 4 y).
  rewrite Em. apply first_alt_head.
  cbn [fst snd app match_directives]. rewrite N.eqb_refl.
  rewrite (year_alts_pad y Hy). reflexivity.
Qed.

(** A format that starts with the year rejects text whose third character
    is no digit. *)
Lemma year_first_fails (a b c : char) (rest : str) (ds : list directive) (f : fields) :
  decimal_value c = None ->
  match_directives (DY :: ds) (a :: b :: c :: rest) f = None.
Proof.
  intros Hc. cbn [match_directives]. unfold year_alts.
  destruct rest as [|e rest];
    [destruct f as [[? ?] ?]; reflexivity|].
  rewrite Hc.
  destruct (decimal_value a); destruct (decimal_value b);
    destruct f as [[? ?] ?]; reflexivity.
Qed.

(** A format that starts with a day, or a month, and a separator rejects
    text whose second and third characters are not that separator. *)
Lemma day_then_other (a b c sep : char) (rest : str) (ds : list directive) (f : fields) :
  N.eqb b sep = false -> N.eqb c sep = false ->
  match_directives (Dd :: DLit sep :: ds) (a :: b :: c :: rest) f = None.
Proof.
  intros Eb Ec. destruct f as [[fy fm] fd].
  cbn [match_directives]. unfold day_alts.
  destruct (N.eqb a 51 && in_range 48 49 b);
    destruct (in_range 49 50 a);
    destruct (decimal_value b);
    destruct (N.eqb a 48 && in_range 49 57 b);
    destruct (in_range 49 57 a);
    destruct (N.eqb a 32 && in_range 49 57 b);
    cbn [app first_alt fst snd match_directives]; rewrite ?Eb, ?Ec; reflexivity.
Qed.

Lemma month_then_other (a b c sep : char) (rest : str) (ds : list directive) (f : fields) :
  N.eqb b sep = false -> N.eqb c sep = false ->
  match_directives (Dm :: DLit sep :: ds) (a :: b :: c :: rest) f = None.
Proof.
  intros Eb Ec. destruct f as [[fy fm] fd].
  cbn [match_directives]. unfold month_alts.
  destruct (N.eqb a 49 && in_range 48 50 b);
    destruct (N.eqb a 48 && in_range 49 57 b);
    destruct (in_range 49 57 a);
    cbn [app first_alt fst snd match_directives]; rewrite ?Eb, ?Ec; reflexivity.
Qed.

(** A number above 12 is no month. *)
Lemma month_above_twelve (d : Z) (sep : char) (r : str) (ds : list directive) (f : fields) :
  (12 < d <= 31)%Z -> (sep < 48)%N ->
  match_directives (Dm :: DLit sep :: ds) (zero_pad 2 d ++ r) f = None.
Proof.
  intros Hd Hsep. destruct f as [[fy fm] fd].
  assert (E : (d = 13 \/ d = 14 \/ d = 15 \/ d = 16 \/ d = 17 \/ d = 18 \/ d = 19
              \/ d = 20 \/ d = 21 \/ d = 22 \/ d = 23 \/ d = 24 \/ d = 25
              \/ d = 26 \/ d = 27 \/ d = 28 \/ d = 29 \/ d = 30 \/ d = 31)%Z) by lia.
  assert (Hne : forall k, (48 <= k)%N -> N.eqb k sep = false)
    by (intros k Hk; apply N.eqb_neq; lia).
  cbn [match_directives].
  repeat (destruct E as [E|E];
          [subst d;
           match goal with
           | |- context [month_alts ?t] =>
               let v := eval cbn in (month_alts t) in
               change (month_alts t) with v
           end;
           cbn [first_alt fst snd]; rewrite Hne by lia; reflexivity|]).
  subst d.
  match goal with
  | |- context [month_alts ?t] =>
      let v := eval cbn in (month_alts t) in
      change (month_alts t) with v
  end.
  cbn [first_alt fst snd]. rewrite Hne by lia. reflexivity.
Qed.

(** The shape of a numeric date. *)
Lemma numeric_date_shape (sep : char) (a b y : Z) :
  (1 <= a <= 31)%Z -> (1 <= b <= 31)%Z -> (0 <= y <= 9999)%Z ->
  exists a1 a2 rest,
    numeric_date sep a b y = a1 :: a2 :: sep :: rest
    /\ is_ascii_digit a1 = true /\ is_ascii_digit a2 = true
    /\ (plain sep -> Forall plain (numeric_date sep a b y)).
Proof.
  intros Ha Hb Hy. unfold numeric_date.
  destruct (year_text y Hy) as (y1 & y2 & y3 & y4 & -> & ? & ? & ? & ? & _).
  destruct (two_digit_text a Ha) as (a1 & a2 & -> & Ha1 & Ha2).
  destruct (two_digit_text b Hb) as (b1 & b2 & -> & Hb1 & Hb2).
  exists a1, a2. eexists. split; [reflexivity|].
  split; [exact Ha1|]. split; [exact Ha2|].
  intros Hsep. cbn [app].
  repeat constructor; try (apply digit_plain; assumption); apply Hsep.
Qed.

Lemma sep_not_digit (c sep : char) :
  is_ascii_digit c = true -> (sep < 48)%N -> N.eqb c sep = false.
Proof. intros Hc Hsep. apply digit_neq; [exact Hc | left; exact Hsep]. Qed.

Lemma sep_no_decimal (sep : char) : (sep < 48)%N -> decimal_value sep = None.
Proof.
  intros H. unfold decimal_value, is_ascii_digit.
  replace (48 <=? sep)%N with false by (symmetry; apply N.leb_gt; exact H).
  replace (sep <? 127)%N with true by (symmetry; apply N.ltb_lt; lia).
  reflexivity.
Qed.

Lemma sep_plain (sep : char) : (44 < sep < 48)%N -> plain sep.
Proof.
  intros H. split; [lia|].
  assert (E : (sep = 45 \/ sep = 46 \/ sep = 47)%N) by lia.
  destruct E as [->|[->| ->]]; reflexivity.
Qed.

(** *** Arabic-Indic digits in a date *)

Lemma strip_no_space (s : str) :
  Forall (fun c => is_space c = false) s -> strip s = s.
Proof.
  intros H. apply trimmed_strip_with. split; apply lstrip_fixed.
  - destruct H; [exact I | assumption].
  - apply Forall_rev in H. destruct H; [exact I | assumption].
Qed.

Lemma to_arabic_indic_char (c : char) :
  plain c ->
  is_space (if is_ascii_digit c then (c + 1584)%N else c) = false
  /\ (match table_get ARABIC_INDIC (if is_ascii_digit c then (c + 1584)%N else c) with
      | Some d => d
      | None => if is_ascii_digit c then (c + 1584)%N else c
      end) = c
  /\ (is_ascii_digit c = true ->
      existsb (N.eqb (c + 1584)%N) ARABIC_INDIC_CHARS = true).
Proof.
  intros [Hc Hs]. destruct (is_ascii_digit c) eqn:Ed.
  - apply digit_bounds in Ed.
    assert (E : (c = 48 \/ c = 49 \/ c = 50 \/ c = 51 \/ c = 52 \/ c = 53
                 \/ c = 54 \/ c = 55 \/ c = 56 \/ c = 57)%N) by lia.
    repeat (destruct E as [E|E]; [subst c; repeat split; reflexivity|]).
    subst c; repeat split; reflexivity.
  - split; [exact Hs|]. split; [|discriminate].
    unfold ARABIC_INDIC, ARABIC_INDIC_CHARS.
    cbn [combine u list_ascii_of_string map table_get].
    repeat (rewrite (proj2 (N.eqb_neq c _)) by lia). reflexivity.
Qed.

(** A date written with Arabic-Indic digits is read as the same date in
    ASCII digits, under every language. *)
Lemma parse_date_arabic_indic (s lang : str) :
  Forall plain s -> Exists (fun c => is_ascii_digit c = true) s ->
  _parse_date_localized (to_arabic_indic s) lang = _parse_date_localized s lang.
Proof.
  intros Hp Hd.
  assert (Hne : s <> []) by (intros ->; inversion Hd).
  rewrite (parse_date_plain s lang Hp Hne).
  unfold _parse_date_localized. rewrite _strip_some.
  assert (Hstrip : strip (to_arabic_indic s) = to_arabic_indic s).
  { apply strip_no_space. unfold to_arabic_indic. apply Forall_map.
    eapply Forall_impl; [|exact Hp]. intros c Hc.
    apply (to_arabic_indic_char c Hc). }
  rewrite Hstrip.
  assert (Hnon : nonempty (to_arabic_indic s) = true)
    by (destruct s; [contradiction Hne; reflexivity | reflexivity]).
  rewrite Hnon. cbn [negb].
  assert (Hex : existsb (fun c => existsb (N.eqb c) ARABIC_INDIC_CHARS)
                        (to_arabic_indic s) = true).
  { apply existsb_exists. apply Exists_exists in Hd. destruct Hd as (c & Hin & Hc).
    exists (c + 1584)%N. split.
    - unfold to_arabic_indic. apply in_map_iff. exists c. rewrite Hc.
      split; [reflexivity | exact Hin].
    - rewrite Forall_forall in Hp.
      apply (to_arabic_indic_char c (Hp c Hin)). exact Hc. }
  rewrite Hex.
  assert (Hback : _ar_digits_to_ascii (to_arabic_indic s) = s).
  { unfold _ar_digits_to_ascii, translate, to_arabic_indic. rewrite map_map.
    rewrite <- (map_id s) at 2. apply map_ext_in. intros c Hin.
    rewrite Forall_forall in Hp. apply (to_arabic_indic_char c (Hp c Hin)). }
  rewrite Hback.
  rewrite (replace1_absent ARABIC_DECIMAL), (replace1_absent ARABIC_THOUSANDS);
    [reflexivity | |];
    (eapply Forall_impl; [|exact Hp]); intros x [Hx _];
    unfold ARABIC_DECIMAL, ARABIC_THOUSANDS; lia.
Qed.

(** *** [strptime] on numeric dates *)

Lemma strptime_month_first (sep : char) (fmt : str) (y m d : Z) :
  valid_date y m d = true ->
  parse_format fmt = [Dm; DLit sep; Dd; DLit sep; DY] ->
  strptime (numeric_date sep m d y) fmt = Some (y, m, d).
Proof.
  intros Hv Hfmt. pose proof (valid_date_bounds y m d Hv) as Hr.
  unfold strptime. rewrite Hfmt, match_month_first by lia.
  rewrite Hv. reflexivity.
Qed.

Lemma strptime_day_first_numeric (sep : char) (fmt : str) (y m d : Z) :
  valid_date y m d = true ->
  parse_format fmt = [Dd; DLit sep; Dm; DLit sep; DY] ->
  strptime (numeric_date sep d m y) fmt = Some (y, m, d).
Proof.
  intros Hv Hfmt. pose proof (valid_date_bounds y m d Hv) as Hr.
  unfold strptime. rewrite Hfmt, match_day_first by lia.
  rewrite Hv. reflexivity.
Qed.

Lemma strptime_year_first (sep : char) (fmt : str) (ds : list directive) (a b y : Z) :
  (1 <= a <= 31)%Z -> (1 <= b <= 31)%Z -> (0 <= y <= 9999)%Z ->
  parse_format fmt = DY :: ds -> (sep < 48)%N ->
  strptime (numeric_date sep a b y) fmt = None.
Proof.
  intros Ha Hb Hy Hfmt Hsep. unfold strptime. rewrite Hfmt.
  destruct (numeric_date_shape sep a b y Ha Hb Hy) as (a1 & a2 & rest & -> & _).
  rewrite year_first_fails by (apply sep_no_decimal; exact Hsep). reflexivity.
Qed.

Lemma strptime_other_separator (sep sep' : char) (fmt : str) (dir : directive)
    (ds : list directive) (a b y : Z) :
  (1 <= a <= 31)%Z -> (1 <= b <= 31)%Z -> (0 <= y <= 9999)%Z ->
  parse_format fmt = dir :: DLit sep' :: ds -> dir = Dd \/ dir = Dm ->
  (sep' < 48)%N -> sep <> sep' ->
  strptime (numeric_date sep a b y) fmt = None.
Proof.
  intros Ha Hb Hy Hfmt Hdir Hsep Hne. unfold strptime. rewrite Hfmt.
  destruct (numeric_date_shape sep a b y Ha Hb Hy) as (a1 & a2 & rest & -> & H1 & H2 & _).
  assert (E2 : N.eqb a2 sep' = false) by (apply sep_not_digit; assumption).
  assert (E3 : N.eqb sep sep' = false) by (apply N.eqb_neq; exact Hne).
  destruct Hdir as [-> | ->];
    [rewrite day_then_other by assumption | rewrite month_then_other by assumption];
    reflexivity.
Qed.

Lemma strptime_month_above_twelve (sep sep' : char) (fmt : str)
    (ds : list directive) (d b y : Z) :
  (12 < d <= 31)%Z ->
  parse_format fmt = Dm :: DLit sep' :: ds -> (sep' < 48)%N ->
  strptime (numeric_date sep d b y) fmt = None.
Proof.
  intros Hd Hfmt Hsep. unfold strptime, numeric_date. rewrite Hfmt.
  rewrite month_above_twelve by assumption. reflexivity.
Qed.

Lemma numeric_date_plain (sep : char) (a b y : Z) :
  (1 <= a <= 31)%Z -> (1 <= b <= 31)%Z -> (0 <= y <= 9999)%Z -> (44 < sep < 48)%N ->
  Forall plain (numeric_date sep a b y)
  /\ numeric_date sep a b y <> []
  /\ Exists (fun c => is_ascii_digit c = true) (numeric_date sep a b y).
Proof.
  intros Ha Hb Hy Hsep.
  destruct (numeric_date_shape sep a b y Ha Hb Hy) as (a1 & a2 & rest & E & H1 & _ & Hp).
  split; [apply Hp; apply sep_plain; exact Hsep|].
  rewrite E. split; [discriminate | left; exact H1].
Qed.

(** Which number is the day follows the language.  For a date of the
    calendar whose year prints with four digits: under [en] the text
    [MM/DD/YYYY] (or with hyphens) is that date, and so is [DD/MM/YYYY] when
    the day is above 12; under [de] the text [DD.MM.YYYY] (or with slashes)
    is that date; under [ar] the text [DD/MM/YYYY] is, in ASCII or in
    Arabic-Indic digits. *)
Theorem day_month_order_follows_language (y m d : Z) :
  valid_date y m d = true ->
  strftime_pads_year = true \/ (1000 <= y)%Z ->
  _parse_date_localized (numeric_date SLASH m d y) (u "en")
    = Some (iso_date_string y m d)
  /\ _parse_date_localized (numeric_date HYPHEN m d y) (u "en")
     = Some (iso_date_string y m d)
  /\ ((12 < d)%Z ->
      _parse_date_localized (numeric_date SLASH d m y) (u "en")
      = Some (iso_date_string y m d))
  /\ _parse_date_localized (numeric_date DOT d m y) (u "de")
     = Some (iso_date_string y m d)
  /\ _parse_date_localized (numeric_date SLASH d m y) (u "de")
     = Some (iso_date_string y m d)
  /\ _parse_date_localized (numeric_date SLASH d m y) (u "ar")
     = Some (iso_date_string y m d)
  /\ _parse_date_localized (to_arabic_indic (numeric_date SLASH d m y)) (u "ar")
     = Some (iso_date_string y m d).
Proof.
  intros Hv Hpad.
  pose proof (valid_date_bounds y m d Hv) as (Hy & Hm & Hd).
  assert (Hfmt : strftime_ymd (y, m, d) = iso_date_string y m d).
  { apply strftime_iso. destruct Hpad; [left; assumption | right; lia]. }
  assert (Hmd : forall sep, (44 < sep < 48)%N ->
            Forall plain (numeric_date sep m d y) /\ numeric_date sep m d y <> []
            /\ Exists (fun c => is_ascii_digit c = true) (numeric_date sep m d y))
    by (intros sep Hsep; apply numeric_date_plain; lia).
  assert (Hdm : forall sep, (44 < sep < 48)%N ->
            Forall plain (numeric_date sep d m y) /\ numeric_date sep d m y <> []
            /\ Exists (fun c => is_ascii_digit c = true) (numeric_date sep d m y))
    by (intros sep Hsep; apply numeric_date_plain; lia).
  assert (Hde_slash :
            _parse_date_localized (numeric_date SLASH d m y) (u "ar")
            = Some (iso_date_string y m d)).
  { destruct (Hdm SLASH) as (Hp & Hne & _); [unfold SLASH; lia|].
    rewrite parse_date_plain by assumption.
    change (patterns (u "ar")) with [u "%d/%m/%Y"; u "%Y-%m-%d"; u "%d-%m-%Y"].
    cbn [try_formats].
    rewrite (strptime_day_first_numeric SLASH (u "%d/%m/%Y") y m d Hv eq_refl).
    rewrite Hfmt. reflexivity. }
  repeat split.
  - destruct (Hmd SLASH) as (Hp & Hne & _); [unfold SLASH; lia|].
    rewrite parse_date_plain by assumption.
    change (patterns (u "en")) with
      [u "%Y-%m-%d"; u "%m/%d/%Y"; u "%m-%d-%Y"; u "%d/%m/%Y"; u "%d-%m-%Y"].
    cbn [try_formats].
    rewrite (strptime_year_first SLASH (u "%Y-%m-%d") [DLit 45%N; Dm; DLit 45%N; Dd])
      by (first [lia | reflexivity]).
    rewrite (strptime_month_first SLASH (u "%m/%d/%Y") y m d Hv eq_refl).
    rewrite Hfmt. reflexivity.
  - destruct (Hmd HYPHEN) as (Hp & Hne & _); [unfold HYPHEN; lia|].
    rewrite parse_date_plain by assumption.
    change (patterns (u "en")) with
      [u "%Y-%m-%d"; u "%m/%d/%Y"; u "%m-%d-%Y"; u "%d/%m/%Y"; u "%d-%m-%Y"].
    cbn [try_formats].
    rewrite (strptime_year_first HYPHEN (u "%Y-%m-%d") [DLit 45%N; Dm; DLit 45%N; Dd])
      by (first [lia | reflexivity]).
    rewrite (strptime_other_separator HYPHEN 47%N (u "%m/%d/%Y") Dm
               [Dd; DLit 47%N; DY])
      by (first [lia | reflexivity | right; reflexivity | discriminate]).
    rewrite (strptime_month_first HYPHEN (u "%m-%d-%Y") y m d Hv eq_refl).
    rewrite Hfmt. reflexivity.
  - intros Hd12.
    destruct (Hdm SLASH) as (Hp & Hne & _); [unfold SLASH; lia|].
    rewrite parse_date_plain by assumption.
    change (patterns (u "en")) with
      [u "%Y-%m-%d"; u "%m/%d/%Y"; u "%m-%d-%Y"; u "%d/%m/%Y"; u "%d-%m-%Y"].
    cbn [try_formats].
    rewrite (strptime_year_first SLASH (u "%Y-%m-%d") [DLit 45%N; Dm; DLit 45%N; Dd])
      by (first [lia | reflexivity]).
    rewrite (strptime_month_above_twelve SLASH 47%N (u "%m/%d/%Y") [Dd; DLit 47%N; DY])
      by (first [lia | reflexivity]).
    rewrite (strptime_month_above_twelve SLASH 45%N (u "%m-%d-%Y") [Dd; DLit 45%N; DY])
      by (first [lia | reflexivity]).
    rewrite (strptime_day_first_numeric SLASH (u "%d/%m/%Y") y m d Hv eq_refl).
    rewrite Hfmt. reflexivity.
  - destruct (Hdm DOT) as (Hp & Hne & _); [unfold DOT; lia|].
    rewrite parse_date_plain by assumption.
    change (patterns (u "de")) with
      [u "%d.%m.%Y"; u "%d/%m/%Y"; u "%d-%m-%Y"; u "%Y-%m-%d"].
    cbn [try_formats].
    rewrite (strptime_day_first_numeric DOT (u "%d.%m.%Y") y m d Hv eq_refl).
    rewrite Hfmt. reflexivity.
  - destruct (Hdm SLASH) as (Hp & Hne & _); [unfold SLASH; lia|].
    rewrite parse_date_plain by assumption.
    change (patterns (u "de")) with
      [u "%d.%m.%Y"; u "%d/%m/%Y"; u "%d-%m-%Y"; u "%Y-%m-%d"].
    cbn [try_formats].
    rewrite (strptime_other_separator SLASH 46%N (u "%d.%m.%Y") Dd
               [Dm; DLit 46%N; DY])
      by (first [lia | reflexivity | left; reflexivity | discriminate]).
    rewrite (strptime_day_first_numeric SLASH (u "%d/%m/%Y") y m d Hv eq_refl).
    rewrite Hfmt. reflexivity.
  - exact Hde_slash.
  - destruct (Hdm SLASH) as (Hp & Hne & Hex); [unfold SLASH; lia|].
    rewrite parse_date_arabic_indic by assumption. exact Hde_slash.
Qed.

End WithRuntime.

(** The tenth of July 2025, as written in three places; and [07/10/2025],
    which is the seventh of October to a German reader. *)
Lemma day_month_order_follows_language_witness :
  valid_date 2025 7 10 = true
  /\ _parse_date_localized (rt := glibc_runtime) (u "07/10/2025") (u "en")
     = Some (u "2025-07-10")
  /\ _parse_date_localized (rt := glibc_runtime) (u "10.07.2025") (u "de")
     = Some (u "2025-07-10")
  /\ _parse_date_localized (rt := glibc_runtime) (u "07/10/2025") (u "de")
     = Some (u "2025-10-07")
  /\ _parse_date_localized (rt := glibc_runtime)
       [0x661; 0x660; 0x2F; 0x660; 0x667; 0x2F; 0x662; 0x660; 0x662; 0x665]%N (u "ar")
     = Some (u "2025-07-10").
Proof.
  assert (H1 : valid_date 2025 7 10 = true) by reflexivity.
  assert (H2 : valid_date 2025 10 7 = true) by reflexivity.
  assert (P : strftime_pads_year (Runtime := glibc_runtime) = true \/ (1000 <= 2025)%Z)
    by (right; lia).
  destruct (day_month_order_follows_language (rt := glibc_runtime) 2025 7 10 H1 P)
    as (Hen & _ & _ & Hde & _ & _ & Har).
  destruct (day_month_order_follows_language (rt := glibc_runtime) 2025 10 7 H2 P)
    as (_ & _ & _ & _ & Hde' & _).
  split; [exact H1|]. split; [exact Hen|]. split; [exact Hde|].
  split; [exact Hde' | exact Har].
Defined.

Lemma parsed_date_is_canonical_witness :
  _parse_date_localized (rt := glibc_runtime) (u " 10.07.2025 ") (u "de")
    = Some (u "2025-07-10")
  /\ exists y m d,
       valid_date y m d = true
       /\ u "2025-07-10" = strftime_ymd (rt := glibc_runtime) (y, m, d).
Proof.
  assert (H : _parse_date_localized (rt := glibc_runtime) (u " 10.07.2025 ") (u "de")
              = Some (u "2025-07-10")) by (vm_compute; reflexivity).
  split; [exact H|].
  destruct (parsed_date_is_canonical (rt := glibc_runtime) _ _ _ H)
    as (y & m & d & Hv & Ht & _).
  exists y, m, d. split; [exact Hv | exact Ht].
Defined.

Lemma blank_date_is_absent_witness :
  blank (u "   ")
  /\ _parse_date_localized (rt := glibc_runtime) (u "   ") (u "en") = None.
Proof.
  assert (H : blank (u "   ")) by (repeat constructor).
  split; [exact H|].
  apply (blank_date_is_absent (rt := glibc_runtime) _ _ H).
Defined.

End DateFacts.

(* ================================================================== *)
(** * Properties of the missing-field count                            *)
(* ================================================================== *)
Module UtilsFacts.
Import Py Etl Utils TextFacts.

Lemma count_from (d : list (str * obj)) (keys : list str) :
  forall acc,
    fold_left (fun acc k => if _is_missing (get d k) then (acc + 1)%Z else acc) keys acc
    = (acc + Z.of_nat (length (filter (fun k => _is_missing (get d k)) keys)))%Z.
Proof.
  induction keys as [|k keys IH]; intros acc; simpl; [lia|].
  rewrite IH. destruct (_is_missing (get d k)); simpl length; lia.
Qed.

Lemma count_missing_filter (d : list (str * obj)) (keys : list str) :
  count_missing d keys
  = Z.of_nat (length (filter (fun k => _is_missing (get d k)) keys)).
Proof. unfold count_missing. rewrite count_from. lia. Qed.

Lemma filter_none {A} (f : A -> bool) (l : list A) :
  length (filter f l) = 0%nat <-> Forall (fun x => f x = false) l.
Proof.
  induction l as [|x l IH]; simpl; [split; [constructor | reflexivity]|].
  destruct (f x) eqn:E; simpl.
  - split; [discriminate | intros H; inversion H; congruence].
  - rewrite IH. split; [intros H; constructor; assumption | intros H; inversion H; assumption].
Qed.

Lemma filter_all {A} (f : A -> bool) (l : list A) :
  length (filter f l) = length l <-> Forall (fun x => f x = true) l.
Proof.
  induction l as [|x l IH]; simpl; [split; [constructor | reflexivity]|].
  pose proof (filter_length_le f l) as Hle.
  destruct (f x) eqn:E; simpl.
  - split.
    + intros H. constructor; [exact E | apply IH; lia].
    + intros H. inversion H; subst. f_equal. apply IH. assumption.
  - split; [lia | intros H; inversion H; congruence].
Qed.

(** [count_missing] counts every listed key once, whether the dictionary
    holds it or not: the count lies between 0 and the number of keys, is 0
    exactly when no listed key is missing and is the number of keys exactly
    when all are; a key the dictionary does not hold counts as missing and
    so does a text of nothing but whitespace, while a number never does. *)
Theorem count_missing_counts_keys (d : list (str * obj)) (keys : list str) :
  (0 <= count_missing d keys <= Z.of_nat (length keys))%Z
  /\ (count_missing d keys = 0%Z
      <-> Forall (fun k => _is_missing (get d k) = false) keys)
  /\ (count_missing d keys = Z.of_nat (length keys)
      <-> Forall (fun k => _is_missing (get d k) = true) keys)
  /\ (forall k, Tax.dict_get d k = None -> _is_missing (get d k) = true)
  /\ (forall s, _is_missing (OStr s) = true <-> blank s)
  /\ _is_missing OOther = false.
Proof.
  rewrite count_missing_filter.
  pose proof (filter_length_le (fun k => _is_missing (get d k)) keys) as Hle.
  split; [lia|]. split; [|split; [|split; [|split]]].
  - rewrite <- filter_none. lia.
  - rewrite <- filter_all. lia.
  - intros k Hk. unfold get. rewrite Hk. reflexivity.
  - intros s. simpl. rewrite str_eqb_nil. apply strip_blank.
  - reflexivity.
Qed.

End UtilsFacts.


(* ================================================================== *)
(** * Properties of the language detection                             *)
(* ================================================================== *)
Module LanguageFacts.
Import Py Language TextFacts.

Section Detector.
Context {rt : Runtime}.
Variable detect : str -> option str.

Lemma _whitelist_supported (code : str) : In (_whitelist code) SUPPORTED.
Proof.
  unfold _whitelist.
  destruct (existsb (str_eqb (lower (str_or (Some code) []))) SUPPORTED) eqn:E.
  - apply existsb_exists in E. destruct E as (x & Hx & Hq).
    apply str_eqb_true in Hq. rewrite Hq. exact Hx.
  - left. reflexivity.
Qed.

Lemma _whitelist_fixes_supported (code : str) :
  In code SUPPORTED -> _whitelist code = code.
Proof.
  intros [<- | [<- | [<- | []]]]; reflexivity.
Qed.

Lemma detect_language_in_supported (payload : Submission) :
  In (detect_language detect payload) SUPPORTED.
Proof.
  unfold detect_language.
  destruct (nonempty (str_or (language payload) [])); [apply _whitelist_supported|].
  destruct (negb (nonempty _)); [left; reflexivity|].
  destruct (detect _); [apply _whitelist_supported | left; reflexivity].
Qed.

(** [detect_language] answers [en], [de] or [ar], whatever the request holds
    and whatever the detector does, raising included; whitelisting the
    answer again changes nothing.  When the request names a language the
    detector is not consulted: the answer is the lowercased name when that
    is supported and [en] otherwise. *)
Theorem detect_language_is_supported (payload : Submission) :
  In (detect_language detect payload) SUPPORTED
  /\ _whitelist (detect_language detect payload) = detect_language detect payload
  /\ (forall l, language payload = Some l -> l <> [] ->
        (forall detect', detect_language detect' payload = detect_language detect payload)
        /\ (In (lower l) SUPPORTED -> detect_language detect payload = lower l)
        /\ (~ In (lower l) SUPPORTED -> detect_language detect payload = u "en")).
Proof.
  pose proof (detect_language_in_supported payload) as H.
  split; [exact H|]. split; [apply _whitelist_fixes_supported; exact H|].
  intros l Hl Hne. unfold detect_language. rewrite Hl.
  destruct l as [|c l]; [contradiction Hne; reflexivity|].
  cbn [str_or nonempty]. split; [reflexivity|].
  unfold _whitelist. cbn [str_or nonempty].
  destruct (existsb (str_eqb (lower (c :: l))) SUPPORTED) eqn:E.
  - split; [reflexivity|]. intros Hnot. exfalso. apply Hnot.
    apply existsb_exists in E. destruct E as (x & Hx & Hq).
    apply str_eqb_true in Hq. rewrite Hq. exact Hx.
  - split; [|reflexivity]. intros Hin. exfalso.
    assert (E' : existsb (str_eqb (lower (c :: l))) SUPPORTED = true).
    { apply existsb_exists. exists (lower (c :: l)).
      split; [exact Hin | apply str_eqb_same]. }
    congruence.
Qed.

End Detector.
End LanguageFacts.


(* ================================================================== *)
(** * Properties of the validators                                     *)
(* ================================================================== *)
Module SchemaFacts.
Import Py Etl EtlFacts Schema TextFacts FloatFacts.

Section WithRuntime.
Context {rt : Runtime}.

Definition numeric (v : value) : Prop := forall s, v <> VStr s.

Lemma max2_zero (f : float) : PrimFloat.leb zero (max2 zero f) = true.
Proof.
  unfold max2. destruct (PrimFloat.ltb zero f) eqn:E.
  - apply ltb_leb. exact E.
  - reflexivity.
Qed.

Lemma max2_zero_idempotent (f : float) : max2 zero (max2 zero f) = max2 zero f.
Proof.
  unfold max2. destruct (PrimFloat.ltb zero f) eqn:E; [rewrite E|]; reflexivity.
Qed.

Lemma not_nan_above_zero (f : float) :
  PrimFloat.leb zero f = true -> PrimFloat.is_nan f = false.
Proof.
  rewrite is_nan_spec, leb_spec. unfold SFleb.
  change (Prim2SF zero) with (S754_zero false).
  destruct (Prim2SF f); simpl; congruence.
Qed.

Lemma validated_shape (v : value) :
  match _quantity_ok v with
  | VInt z => (1 <= z)%Z /\ (forall z', v = VInt z' -> z = Z.max 1 z')
  | VStr s => strip s = s /\ exists s', v = VStr s'
  | _ => False
  end
  /\ match _unit_price_ok v with
     | VFloat f => PrimFloat.leb zero f = true /\ PrimFloat.is_nan f = false
     | VStr s => strip s = s /\ exists s', v = VStr s'
     | _ => False
     end.
Proof.
  destruct v as [|z|f|s]; cbn [_quantity_ok _unit_price_ok].
  - repeat split; try lia; try discriminate; try reflexivity.
  - repeat split; try lia.
    + intros z' E. injection E as <-. reflexivity.
    + apply max2_zero.
    + apply not_nan_above_zero. apply max2_zero.
  - repeat split; try lia; try discriminate.
    + apply max2_zero.
    + apply not_nan_above_zero. apply max2_zero.
  - repeat split; try apply strip_idempotent; exists s; reflexivity.
Qed.

(** The validators never raise and clamp every number: what [_quantity_ok]
    returns is stripped text or an integer of at least 1, what
    [_unit_price_ok] returns is stripped text or a float of at least 0.0 (a
    NaN becomes 0.0); values that satisfy this already are returned as they
    are, so validating twice is the same as once. *)
Theorem validators_clamp_numbers (v : value) :
  match _quantity_ok v with
  | VInt z => (1 <= z)%Z /\ (forall z', v = VInt z' -> z = Z.max 1 z')
  | VStr s => strip s = s /\ exists s', v = VStr s'
  | _ => False
  end
  /\ match _unit_price_ok v with
     | VFloat f => PrimFloat.leb zero f = true /\ PrimFloat.is_nan f = false
     | VStr s => strip s = s /\ exists s', v = VStr s'
     | _ => False
     end
  /\ _quantity_ok (_quantity_ok v) = _quantity_ok v
  /\ _unit_price_ok (_unit_price_ok v) = _unit_price_ok v.
Proof.
  destruct (validated_shape v) as [Hq Hp].
  split; [exact Hq|]. split; [exact Hp|].
  destruct v as [|z|f|s]; cbn [_quantity_ok _unit_price_ok int_of_value
                                float_of_value try_except];
    rewrite ?max2_zero_idempotent, ?strip_idempotent;
    split; try reflexivity; f_equal; lia.
Qed.

(** A number that went through the validators keeps its range through
    [normalize]: the canonical quantity is at least 1 and the canonical
    price at least 0.0.  (Text is only stripped by the validators, and is
    not covered.) *)
Theorem validated_numbers_stay_in_range (payload : Payload) (lang : str) (c : Canonical) :
  normalize payload lang = Ret c ->
  Forall2 (fun raw it =>
      (forall v, numeric v -> raw_quantity raw = Some (_quantity_ok v) ->
         (1 <= quantity it)%Z)
      /\ (forall v, numeric v -> raw_unit_price raw = Some (_unit_price_ok v) ->
            PrimFloat.leb zero (unit_price it) = true))
    (raw_items_of payload) (items c).
Proof.
  intros H. eapply Forall2_impl; [|apply (normalize_items _ _ _ H)].
  intros raw it Hc. apply canonical_of_degrades in Hc.
  destruct Hc as (_ & _ & Hq & p & Hp & Hu). split.
  - intros v Hv Er. rewrite Hq. unfold localized_quantity. rewrite Er.
    pose proof (validated_shape v) as (Hok & _).
    destruct (_quantity_ok v) as [|z|f|s]; try contradiction.
    + cbn [int_of_value try_except]. apply Hok.
    + destruct Hok as (_ & s' & ->). exfalso. apply (Hv s'). reflexivity.
  - intros v Hv Er. rewrite Hu. unfold raw_price in Hp. rewrite Er in Hp.
    pose proof (validated_shape v) as (_ & Hok).
    destruct (_unit_price_ok v) as [|z|f|s]; try contradiction.
    + cbn [_to_float] in Hp. injection Hp as <-.
      unfold float_or_zero. destruct (float_truthy f); [apply Hok | reflexivity].
    + destruct Hok as (_ & s' & ->). exfalso. apply (Hv s'). reflexivity.
Qed.

End WithRuntime.

(** A submission whose numbers validation had to clamp. *)
Definition clamped_payload : Payload := {|
  p_vendor_name := Some (u "Acme");
  p_invoice_number := Some (u "A-4");
  p_date := Some (u "2025-07-10");
  p_tax_id := Some (u "DE123");
  p_items := Some [ {| raw_description := Some (u "Refund");
                       raw_quantity := Some (_quantity_ok (rt := glibc_runtime) (VInt (-2)));
                       raw_unit_price :=
                         Some (_unit_price_ok (rt := glibc_runtime) (VFloat (-5)));
                       raw_category := None |} ];
  p_currency := Some (u "EUR");
  p_raw_text := None
|}.

Lemma validated_numbers_stay_in_range_witness :
  exists c,
    normalize (rt := glibc_runtime) clamped_payload (u "en") = Ret c
    /\ map quantity (items c) = [1%Z]
    /\ map unit_price (items c) = [zero]
    /\ Forall2 (fun raw it =>
          (forall v, numeric v ->
             raw_quantity raw = Some (_quantity_ok (rt := glibc_runtime) v) ->
             (1 <= quantity it)%Z)
          /\ (forall v, numeric v ->
                raw_unit_price raw = Some (_unit_price_ok (rt := glibc_runtime) v) ->
                PrimFloat.leb zero (unit_price it) = true))
       (raw_items_of clamped_payload) (items c).
Proof.
  eexists. split; [vm_compute; reflexivity|].
  split; [reflexivity|]. split; [reflexivity|].
  apply (validated_numbers_stay_in_range (rt := glibc_runtime) clamped_payload (u "en")).
  vm_compute. reflexivity.
Defined.

End SchemaFacts.

(* ================================================================== *)
(** * Properties of the type prediction                                *)
(* ================================================================== *)
Module ClassifyFacts.
Import Py Classify TextFacts FloatFacts FloatRounding.

(** *** Substrings *)

Lemma starts_with_app (w t : str) : starts_with w (w ++ t) = true.
Proof. induction w as [|x w IH]; simpl; [|rewrite N.eqb_refl, IH]; reflexivity. Qed.

Lemma starts_with_prefix (w t : str) :
  starts_with w t = true -> exists b, t = w ++ b.
Proof.
  revert t. induction w as [|x w IH]; intros t; simpl.
  - intros _. exists t. reflexivity.
  - destruct t as [|y t]; [discriminate|].
    intros H. apply andb_true_iff in H. destruct H as [H1 H2].
    apply N.eqb_eq in H1. subst y.
    destruct (IH t H2) as (b & ->). exists b. reflexivity.
Qed.

(** [w in t] holds exactly when [t] is some text, [w], and some text. *)
Lemma contains_spec (w t : str) :
  contains w t = true <-> exists a b, t = a ++ w ++ b.
Proof.
  split.
  - induction t as [|c t IH]; simpl; intros H.
    + rewrite orb_false_r in H. apply starts_with_prefix in H.
      destruct H as (b & E). exists [], b. exact E.
    + apply orb_true_iff in H. destruct H as [H|H].
      * apply starts_with_prefix in H. destruct H as (b & E). exists [], b. exact E.
      * destruct (IH H) as (a & b & ->). exists (c :: a), b. reflexivity.
  - intros (a & b & ->). induction a as [|c a IH].
    + simpl app. destruct (w ++ b) eqn:E; simpl.
      * destruct w; [reflexivity | discriminate E].
      * rewrite <- E. rewrite starts_with_app. reflexivity.
    + simpl. rewrite IH. apply orb_true_r.
Qed.

(** *** Lowercasing around a word of Basic Latin *)

Section WithRuntime.
Context {rt : Runtime}.

Lemma lower_from_prefix (a rest : str) :
  forall before, exists p, lower_from before (a ++ rest) = p ++ lower_from (before ++ a) rest.
Proof.
  induction a as [|c a IH]; intros before.
  - exists []. rewrite app_nil_r. reflexivity.
  - destruct (IH (before ++ [c])) as (p & Hp).
    simpl. rewrite Hp, <- app_assoc. simpl.
    eexists. rewrite app_assoc. reflexivity.
Qed.

Lemma lower_from_latin (x rest : str) :
  Forall (fun c => (c < 128)%N) x ->
  forall before,
    lower_from before (x ++ rest)
    = map ascii_lower x ++ lower_from (before ++ x) rest.
Proof.
  induction 1 as [|c x Hc _ IH]; intros before.
  - rewrite app_nil_r. reflexivity.
  - simpl. apply N.ltb_lt in Hc. rewrite Hc. simpl. f_equal.
    rewrite IH, <- app_assoc. reflexivity.
Qed.

Lemma ascii_lower_latin (c : char) : (ascii_lower c < 128)%N -> (c < 128)%N.
Proof.
  unfold ascii_lower, is_ascii_upper.
  destruct ((65 <=? c) && (c <=? 90))%N eqn:E; [|trivial].
  apply andb_true_iff in E. destruct E as [_ E]. apply N.leb_le in E. lia.
Qed.

(** The text holds the word in some mix of capitals and small letters,
    possibly inside a longer word. *)
Definition mentions (w text : str) : Prop :=
  exists a x b, text = a ++ x ++ b /\ map ascii_lower x = w.

Lemma mentions_contains (w text : str) :
  Forall (fun c => (c < 128)%N) w ->
  mentions w text -> contains w (lower text) = true.
Proof.
  intros Hw (a & x & b & -> & Ex).
  assert (Hx : Forall (fun c => (c < 128)%N) x).
  { subst w. rewrite Forall_map in Hw.
    eapply Forall_impl; [|exact Hw]. intros c. apply ascii_lower_latin. }
  apply contains_spec. unfold lower.
  destruct (lower_from_prefix a (x ++ b) []) as (p & ->).
  rewrite (lower_from_latin x b Hx), Ex.
  exists p. eexists. reflexivity.
Qed.

Lemma keywords_latin :
  Forall (Forall (fun c => (c < 128)%N)) (PRODUCT_WORDS ++ SERVICE_WORDS).
Proof. repeat constructor. Qed.

Definition PRODUCT : str * float * list (str * float) :=
  (u "product-based", 0.7%float, [(u "product-based", 0.7%float)]).
Definition SERVICE : str * float * list (str * float) :=
  (u "service-based", 0.7%float, [(u "service-based", 0.7%float)]).
Definition OTHER : str * float * list (str * float) :=
  (u "other", 0.5%float, [(u "other", 0.5%float)]).

(** Without the models, [predict_type] never raises and gives one of three
    answers.  A text that mentions a product word, in any mix of capitals
    and small letters and even inside a longer word, is product-based; one
    that mentions a service word is never [other], and is service-based
    when the lowercased text holds no product word. *)
Theorem heuristic_type_by_keyword (text : str) :
  (predict_type None text = Some PRODUCT
   \/ predict_type None text = Some SERVICE
   \/ predict_type None text = Some OTHER)
  /\ ((exists w, In w PRODUCT_WORDS /\ mentions w text) ->
      predict_type None text = Some PRODUCT)
  /\ ((exists w, In w SERVICE_WORDS /\ mentions w text) ->
      predict_type None text <> Some OTHER
      /\ (existsb (fun w => contains w (lower text)) PRODUCT_WORDS = false ->
          predict_type None text = Some SERVICE)).
Proof.
  pose proof keywords_latin as Hlatin. rewrite Forall_app in Hlatin.
  destruct Hlatin as [Hprod Hserv]. rewrite Forall_forall in Hprod, Hserv.
  unfold predict_type. cbn [str_or].
  replace (if nonempty text then text else []) with text by (destruct text; reflexivity).
  split; [|split].
  - destruct (existsb _ PRODUCT_WORDS); [left; reflexivity|].
    destruct (existsb _ SERVICE_WORDS); [right; left | right; right]; reflexivity.
  - intros (w & Hin & Hm).
    replace (existsb (fun w => contains w (lower text)) PRODUCT_WORDS) with true;
      [reflexivity|].
    symmetry. apply existsb_exists. exists w. split; [exact Hin|].
    apply mentions_contains; [apply Hprod; exact Hin | exact Hm].
  - intros (w & Hin & Hm).
    assert (E : existsb (fun w => contains w (lower text)) SERVICE_WORDS = true).
    { apply existsb_exists. exists w. split; [exact Hin|].
      apply mentions_contains; [apply Hserv; exact Hin | exact Hm]. }
    rewrite E. split.
    + destruct (existsb _ PRODUCT_WORDS); discriminate.
    + intros ->. reflexivity.
Qed.

(** *** With the models: the most probable class *)

Lemma argmax_from_spec (l : list float) :
  forall best_i best i,
    nonneg best = true -> Forall (fun p => nonneg p = true) l ->
    (Explain.argmax_from best_i best i l = best_i
     /\ Forall (fun p => PrimFloat.leb p best = true) l)
    \/ exists k v,
         Explain.argmax_from best_i best i l = (i + k)%nat
         /\ nth_error l k = Some v
         /\ PrimFloat.leb best v = true
         /\ Forall (fun p => PrimFloat.leb p v = true) l.
Proof.
  induction l as [|x l IH]; intros best_i best i Hb Hl.
  - left. split; [reflexivity | constructor].
  - inversion Hl as [|? ? Hx Hl']; subst. simpl.
    destruct (PrimFloat.leb x best) eqn:Exb; simpl.
    + destruct (IH best_i best (S i) Hb Hl') as [(E & Hall) | (k & v & E & Hn & Hbv & Hall)].
      * left. split; [exact E | constructor; assumption].
      * right. exists (S k), v. split; [rewrite E; lia|].
        split; [exact Hn|]. split; [exact Hbv|].
        constructor; [|exact Hall].
        apply (leb_nonneg_trans x best v); try assumption.
        rewrite Forall_forall in Hl'. apply Hl'. eapply nth_error_In. exact Hn.
    + rewrite (finite_not_nan x (nonneg_finite x Hx)).
      assert (Hbx : PrimFloat.leb best x = true).
      { destruct (PrimFloat.ltb best x) eqn:Elt; [apply ltb_leb; exact Elt|].
        pose proof (leb_nonneg_total best x Hb Hx Elt). congruence. }
      assert (Hxx : PrimFloat.leb x x = true)
        by (apply leb_refl, finite_not_nan, nonneg_finite; exact Hx).
      right.
      destruct (IH i x (S i) Hx Hl') as [(E & Hall) | (k & v & E & Hn & Hxv & Hall)].
      * exists 0%nat, x. split; [rewrite E; lia|]. split; [reflexivity|].
        split; [exact Hbx|]. constructor; assumption.
      * exists (S k), v. split; [rewrite E; lia|]. split; [exact Hn|].
        assert (Hv : nonneg v = true).
        { rewrite Forall_forall in Hl'. apply Hl'. eapply nth_error_In. exact Hn. }
        split; [apply (leb_nonneg_trans best x v); assumption|].
        constructor; assumption.
Qed.

Lemma np_argmax_spec (l : list float) :
  l <> [] -> Forall (fun p => nonneg p = true) l ->
  exists v, nth_error l (Explain.np_argmax l) = Some v
            /\ Forall (fun p => PrimFloat.leb p v = true) l.
Proof.
  intros Hne Hl. destruct l as [|x l]; [contradiction Hne; reflexivity|].
  inversion Hl as [|? ? Hx Hl']; subst. unfold Explain.np_argmax.
  rewrite (finite_not_nan x (nonneg_finite x Hx)).
  assert (Hxx : PrimFloat.leb x x = true)
    by (apply leb_refl, finite_not_nan, nonneg_finite; exact Hx).
  destruct (argmax_from_spec l 0%nat x 1%nat Hx Hl')
    as [(E & Hall) | (k & v & E & Hn & Hxv & Hall)].
  - exists x. rewrite E. split; [reflexivity | constructor; assumption].
  - exists v. rewrite E. split; [exact Hn | constructor; assumption].
Qed.

Lemma dict_set_fresh {V} (d : list (str * V)) (k : str) (v : V) :
  ~ In k (map fst d) -> dict_set d k v = d ++ [(k, v)].
Proof.
  induction d as [|[k' v'] d IH]; simpl; intros Hk; [reflexivity|].
  destruct (str_eqb k k') eqn:E.
  - apply str_eqb_true in E. subst k'. exfalso. apply Hk. left. reflexivity.
  - rewrite IH; [reflexivity|]. intros H. apply Hk. right. exact H.
Qed.

Lemma dict_of_zip_distinct (classes : list str) (probs : list float) :
  NoDup classes -> dict_of_zip classes probs = combine classes probs.
Proof.
  intros Hnd. unfold dict_of_zip.
  assert (H : forall acc,
            (forall c, In c (map fst acc) -> ~ In c classes) ->
            fold_left (fun d cp => dict_set d (fst cp) (snd cp)) (combine classes probs) acc
            = acc ++ combine classes probs).
  { revert probs. induction Hnd as [|c classes Hc Hnd IH]; intros probs acc Hacc.
    - simpl. rewrite app_nil_r. reflexivity.
    - destruct probs as [|p probs]; [simpl; rewrite app_nil_r; reflexivity|].
      simpl. rewrite dict_set_fresh.
      + rewrite IH; [rewrite <- app_assoc; reflexivity|].
        intros c' Hin. rewrite map_app, in_app_iff in Hin. simpl in Hin.
        destruct Hin as [Hin | [<- | []]].
        * intros Hc'. apply (Hacc c' Hin). right. exact Hc'.
        * exact Hc.
      + intros Hin. apply (Hacc c Hin). left. reflexivity. }
  apply (H []). intros c [].
Qed.

Lemma dict_get_combine (classes : list str) (probs : list float) (i : nat)
    (c : str) (p : float) :
  NoDup classes -> nth_error classes i = Some c -> nth_error probs i = Some p ->
  Tax.dict_get (combine classes probs) c = Some p.
Proof.
  intros Hnd. revert probs i.
  induction Hnd as [|c0 classes Hc0 Hnd IH]; intros probs i Hc Hp.
  - destruct i; discriminate Hc.
  - destruct probs as [|p0 probs]; [destruct i; discriminate Hp|].
    destruct i as [|i]; simpl in Hc, Hp.
    + injection Hc as <-. injection Hp as <-. simpl.
      rewrite str_eqb_same. reflexivity.
    + simpl. destruct (str_eqb c c0) eqn:E.
      * apply str_eqb_true in E. subst c0. exfalso. apply Hc0.
        eapply nth_error_In. exact Hc.
      * eapply IH; eassumption.
Qed.

(** With the models loaded and a classifier that gives one probability (a
    finite number, not negative) to each of its classes, [predict_type]
    returns: the confidence is the largest of the probabilities and belongs
    to the class returned; with classes that are distinct, it is what the
    returned dictionary holds for that class. *)
Theorem most_probable_class (vec : Explain.Vectorizer) (cls : TypeClassifier)
    (proba : Explain.sparse_row -> list float) (text : str) :
  predict_proba cls = Some proba ->
  let probs := proba (Explain.transform vec (str_or (Some text) [])) in
  probs <> [] ->
  length (classes_ cls) = length probs ->
  Forall (fun p => nonneg p = true) probs ->
  exists label conf by_class i,
    predict_type (Some (vec, cls)) text = Some (label, conf, by_class)
    /\ nth_error (classes_ cls) i = Some label
    /\ nth_error probs i = Some conf
    /\ Forall (fun p => PrimFloat.leb p conf = true) probs
    /\ (NoDup (classes_ cls) -> Tax.dict_get by_class label = Some conf).
Proof.
  intros Hproba probs Hne Hlen Hnonneg.
  destruct (np_argmax_spec probs Hne Hnonneg) as (conf & Hconf & Hall).
  assert (Hi : (Explain.np_argmax probs < length (classes_ cls))%nat).
  { rewrite Hlen. apply nth_error_Some. congruence. }
  destruct (nth_error (classes_ cls) (Explain.np_argmax probs)) as [label|] eqn:Hlabel;
    [|apply nth_error_None in Hlabel; lia].
  exists label, conf, (dict_of_zip (classes_ cls) probs), (Explain.np_argmax probs).
  split; [|split; [exact Hlabel | split; [exact Hconf | split; [exact Hall|]]]].
  - unfold predict_type. rewrite Hproba. fold probs.
    destruct probs as [|p0 ps] eqn:Ep; [contradiction Hne; reflexivity|].
    rewrite Hlabel, Hconf. reflexivity.
  - intros Hnd. rewrite dict_of_zip_distinct by exact Hnd.
    eapply dict_get_combine; eassumption.
Qed.

End WithRuntime.

Lemma heuristic_examples :
  predict_type (rt := glibc_runtime) None (u "3 KEYBOARDS, support included")
    = Some PRODUCT
  /\ predict_type (rt := glibc_runtime) None (u "Cloud Support, 10 Hours")
     = Some SERVICE
  /\ predict_type (rt := glibc_runtime) None [] = Some OTHER.
Proof. repeat split; vm_compute; reflexivity. Qed.

Definition any_vectorizer : Explain.Vectorizer :=
  {| Explain.transform := fun _ => [(0%nat, 0.5%float)];
     Explain.get_feature_names_out := None |}.

Definition sample_type_classifier : TypeClassifier :=
  {| predict_proba := Some (fun _ => [0.125; 0.625; 0.25]%float);
     classes_ := [u "medical"; u "product-based"; u "service-based"];
     predict := fun _ => u "product-based" |}.

Lemma most_probable_class_witness :
  predict_type (rt := glibc_runtime) (Some (any_vectorizer, sample_type_classifier))
    (u "Keyboard")
    = Some (u "product-based", 0.625%float,
            [(u "medical", 0.125%float); (u "product-based", 0.625%float);
             (u "service-based", 0.25%float)])
  /\ exists label conf by_class i,
       predict_type (rt := glibc_runtime)
         (Some (any_vectorizer, sample_type_classifier)) (u "Keyboard")
       = Some (label, conf, by_class)
       /\ nth_error (classes_ sample_type_classifier) i = Some label
       /\ nth_error [0.125; 0.625; 0.25]%float i = Some conf
       /\ Forall (fun p => PrimFloat.leb p conf = true) [0.125; 0.625; 0.25]%float.
Proof.
  split; [vm_compute; reflexivity|].
  destruct (most_probable_class (rt := glibc_runtime) any_vectorizer
              sample_type_classifier (fun _ => [0.125; 0.625; 0.25]%float) (u "Keyboard")
              eq_refl)
    as (label & conf & by_class & i & H1 & H2 & H3 & H4 & _).
  - discriminate.
  - reflexivity.
  - repeat constructor.
  - exists label, conf, by_class, i. repeat split; assumption.
Defined.

End ClassifyFacts.

(* ================================================================== *)
(** * The critical fields of a canonical invoice                       *)
(* ================================================================== *)
Module MissingFacts.
Import Py Etl EtlFacts Utils Api TextFacts NormalizeFacts DateFacts UtilsFacts.

(** A raw text field that is [None], empty or all whitespace. *)
Definition absent (x : option str) : bool :=
  match x with
  | Some s => forallb is_space s
  | None => true
  end.

Lemma absent_spec (x : option str) : str_eqb (_strip x) [] = absent x.
Proof.
  destruct (absent x) eqn:E.
  - apply str_eqb_nil. apply _strip_blank. destruct x as [s|]; [|exact I].
    simpl in E. unfold blank. rewrite forallb_forall in E.
    apply Forall_forall. exact E.
  - destruct (str_eqb (_strip x) []) eqn:E'; [|reflexivity].
    apply str_eqb_nil in E'. apply _strip_blank in E'.
    destruct x as [s|]; [|discriminate E]. simpl in E.
    unfold blank in E'. rewrite Forall_forall in E'.
    rewrite <- forallb_forall in E'. congruence.
Qed.

Section WithRuntime.
Context {rt : Runtime}.

Lemma strftime_not_blank (dt : Z * Z * Z) : str_eqb (strip (strftime_ymd dt)) [] = false.
Proof.
  destruct (str_eqb (strip (strftime_ymd dt)) []) eqn:E; [|reflexivity].
  apply str_eqb_nil in E. apply strip_blank in E.
  destruct dt as [[y m] d]. unfold strftime_ymd, blank in E.
  rewrite Forall_app in E. destruct E as [_ E]. inversion E; discriminate.
Qed.

(** How many of the five critical fields [predict] finds missing in a
    canonical invoice: one for each of vendor name, invoice number and tax
    identifier that was [None], empty or all whitespace in the submission,
    one for a date that did not parse, one for a blank currency; hence at
    most five, so that the cap of [score_anomaly] at five never bites. *)
Theorem missing_fields_of_normalized (payload : Payload) (lang : str) (c : Canonical) :
  normalize payload lang = Ret c ->
  count_missing (as_dict c) CRITICAL_FIELDS
  = (Z.b2z (absent (p_vendor_name payload))
     + Z.b2z (absent (p_invoice_number payload))
     + Z.b2z (match date c with Some _ => false | None => true end)
     + Z.b2z (absent (p_tax_id payload))
     + Z.b2z (str_eqb (strip (currency c)) []))%Z
  /\ (0 <= count_missing (as_dict c) CRITICAL_FIELDS <= 5)%Z
  /\ Z.min (count_missing (as_dict c) CRITICAL_FIELDS) 5
     = count_missing (as_dict c) CRITICAL_FIELDS.
Proof.
  intros H. pose proof (normalize_fields _ _ _ H) as (Ev & En & Ed & Et & _).
  assert (E : count_missing (as_dict c) CRITICAL_FIELDS
              = (Z.b2z (absent (p_vendor_name payload))
                 + Z.b2z (absent (p_invoice_number payload))
                 + Z.b2z (match date c with Some _ => false | None => true end)
                 + Z.b2z (absent (p_tax_id payload))
                 + Z.b2z (str_eqb (strip (currency c)) []))%Z).
  { rewrite count_missing_filter. unfold CRITICAL_FIELDS. cbn [filter].
    change (get (as_dict c) (u "vendor_name")) with (OStr (vendor_name c)).
    change (get (as_dict c) (u "invoice_number")) with (OStr (invoice_number c)).
    change (get (as_dict c) (u "date"))
      with (match date c with Some d => OStr d | None => ONone end).
    change (get (as_dict c) (u "tax_id")) with (OStr (tax_id c)).
    change (get (as_dict c) (u "currency")) with (OStr (currency c)).
    cbn [_is_missing].
    rewrite Ev, En, Et, !_strip_idempotent, !absent_spec.
    assert (Hd : _is_missing (match date c with Some d => OStr d | None => ONone end)
                 = match date c with Some _ => false | None => true end).
    { destruct (date c) as [d|] eqn:Edate; [|reflexivity].
      symmetry in Ed. destruct (parse_date_valid _ _ _ Ed) as (y & m & d' & _ & ->).
      apply strftime_not_blank. }
    rewrite Hd.
    destruct (absent (p_vendor_name payload)), (absent (p_invoice_number payload)),
      (match date c with Some _ => false | None => true end),
      (absent (p_tax_id payload)), (str_eqb (strip (currency c)) []);
      reflexivity. }
  split; [exact E|].
  assert (Hb : forall b, (0 <= Z.b2z b <= 1)%Z) by (intros []; simpl; lia).
  pose proof (Hb (absent (p_vendor_name payload))).
  pose proof (Hb (absent (p_invoice_number payload))).
  pose proof (Hb (match date c with Some _ => false | None => true end)).
  pose proof (Hb (absent (p_tax_id payload))).
  pose proof (Hb (str_eqb (strip (currency c)) [])).
  split; lia.
Qed.

End WithRuntime.

(** A submission with a blank vendor name, no tax identifier and a date
    that is no date. *)
Definition sparse_payload : Payload := {|
  p_vendor_name := Some (u "   ");
  p_invoice_number := Some (u "A-5");
  p_date := Some (u "31/02/2025");
  p_tax_id := None;
  p_items := Some [];
  p_currency := None;
  p_raw_text := None
|}.

Lemma missing_fields_of_normalized_witness :
  exists c,
    normalize (rt := glibc_runtime) sparse_payload (u "en") = Ret c
    /\ currency c = u "EUR"
    /\ date c = None
    /\ count_missing (as_dict c) CRITICAL_FIELDS = 3%Z
    /\ (0 <= count_missing (as_dict c) CRITICAL_FIELDS <= 5)%Z.
Proof.
  eexists. split; [vm_compute; reflexivity|].
  split; [reflexivity|]. split; [reflexivity|]. split; [reflexivity|].
  apply (missing_fields_of_normalized (rt := glibc_runtime) sparse_payload (u "en")).
  vm_compute. reflexivity.
Defined.

End MissingFacts.

(* ================================================================== *)
(** * More properties of the VAT cascade                               *)
(* ================================================================== *)
Module VatFacts.
Import Py Tax TaxFacts TextFacts.

(** Every rate of the demo tables, and the default. *)
Definition STANDARD_RATES : list float :=
  map snd EU_STANDARD ++ map snd GCC_STANDARD ++ [0.15%float].

Lemma dict_get_In {V} (d : list (str * V)) (k : str) (v : V) :
  dict_get d k = Some v -> In v (map snd d).
Proof.
  induction d as [|[k' v'] d IH]; simpl; [discriminate|].
  destruct (str_eqb k k'); [intros E; injection E as <-; left; reflexivity|].
  intros E. right. apply IH. exact E.
Qed.

Lemma standard_rates_bounds :
  Forall (fun r => PrimFloat.leb 0.05 r = true /\ PrimFloat.leb r 0.25 = true)
         STANDARD_RATES.
Proof. repeat constructor. Qed.

Section WithRuntime.
Context {rt : Runtime}.

(** What [_decide_region_and_rate] returns: the rate belongs to the tables
    (or is the default), and the hint is a key of the table of the region
    whenever the region was read off a table. *)
Lemma decided (norm : Norm) :
  let '(rg, sr, cc) := _decide_region_and_rate norm in
  In sr STANDARD_RATES
  /\ match rg with
     | EU => dict_get EU_STANDARD cc = Some sr
     | GCC => dict_get GCC_STANDARD cc = Some sr
              \/ (dict_get GCC_STANDARD cc = None /\ sr = 0.15%float)
     | Unknown => sr = 0.15%float
     end.
Proof.
  unfold _decide_region_and_rate.
  destruct (dict_get EU_STANDARD _) as [r|] eqn:Eeu.
  { split; [|exact Eeu]. unfold STANDARD_RATES. apply in_or_app. left.
    eapply dict_get_In. exact Eeu. }
  destruct (dict_get GCC_STANDARD _) as [r|] eqn:Egcc.
  { split; [|left; exact Egcc]. unfold STANDARD_RATES.
    apply in_or_app. right. apply in_or_app. left. eapply dict_get_In. exact Egcc. }
  destruct (dict_get CURRENCY_TO_GCC _) as [country|] eqn:Ecur.
  { destruct (hinted_country_has_rate _ _ Ecur) as (r & Er). rewrite Er.
    split; [|left; reflexivity]. unfold STANDARD_RATES.
    apply in_or_app. right. apply in_or_app. left. eapply dict_get_In. exact Er. }
  destruct (str_eqb _ (u "ar")).
  - split; [|right; split; reflexivity].
    unfold STANDARD_RATES. apply in_or_app. right. apply in_or_app. right.
    left. reflexivity.
  - split; [|reflexivity].
    unfold STANDARD_RATES. apply in_or_app. right. apply in_or_app. right.
    left. reflexivity.
Qed.

(** The cues change the classification and the rate, never the region: the
    region returned is always the one resolved from tax identifier,
    currency and language.  The rate is 0.0 exactly for [exempt] and
    [zero_rated]; for [standard] it is the rate that was resolved, a rate of
    the demo tables or the default, between 0.05 and 0.25. *)
Theorem vat_rate_invariants (norm : Norm) :
  region (classify_vat norm) = fst (fst (_decide_region_and_rate norm))
  /\ (vat (classify_vat norm) <> standard -> rate (classify_vat norm) = 0%float)
  /\ (vat (classify_vat norm) = standard ->
      rate (classify_vat norm) = snd (fst (_decide_region_and_rate norm))
      /\ In (rate (classify_vat norm)) STANDARD_RATES
      /\ PrimFloat.leb 0.05 (rate (classify_vat norm)) = true
      /\ PrimFloat.leb (rate (classify_vat norm)) 0.25 = true).
Proof.
  pose proof (decided norm) as Hd. unfold classify_vat.
  destruct (_decide_region_and_rate norm) as [[rg sr] cc].
  destruct Hd as [Hin Hrg].
  pose proof standard_rates_bounds as Hb. rewrite Forall_forall in Hb.
  destruct (first_match EXEMPT_PATTERNS (cue_text norm)) as [m|].
  { cbn. repeat split; try discriminate. }
  destruct (first_match ZERO_RATED_PATTERNS (cue_text norm)) as [m|].
  { cbn. split; [destruct rg; reflexivity|]. split; [reflexivity | discriminate]. }
  destruct rg; cbn [Region_eqb fst snd].
  - rewrite Hrg. cbn.
    split; [reflexivity|]. split; [intros H; contradiction H; reflexivity|].
    intros _. split; [reflexivity|]. split; [exact Hin | apply Hb; exact Hin].
  - destruct Hrg as [Hrg | [Hrg ->]]; rewrite Hrg; cbn;
      (split; [reflexivity|]; split; [intros H; contradiction H; reflexivity|];
       intros _; split; [reflexivity|]; split;
         [exact Hin | first [apply Hb; exact Hin | split; reflexivity]]).
  - cbn. split; [reflexivity|]. split; [intros H; contradiction H; reflexivity|].
    intros _. split; [reflexivity|].
    split; [exact Hin | first [apply Hb; exact Hin | split; reflexivity]].
Qed.

(** *** Soundness of the matcher *)

Lemma star_greedy_sound (p : char -> bool) (s : str) :
  forall prev k x,
    star_greedy p prev s k = Some x ->
    exists prev' rest, matches (Star p) prev s prev' rest /\ k prev' rest = Some x.
Proof.
  induction s as [|c s IH]; intros prev k x; simpl.
  - intros H. exists prev, []. split; [apply M_Star_stop | exact H].
  - destruct (p c) eqn:Ec.
    + destruct (star_greedy p (Some c) s k) as [r|] eqn:E.
      * intros H. injection H as <-.
        destruct (IH _ _ _ E) as (prev' & rest & Hm & Hk).
        exists prev', rest. split; [apply M_Star_step; assumption | exact Hk].
      * intros H. exists prev, (c :: s). split; [apply M_Star_stop | exact H].
    + intros H. exists prev, (c :: s). split; [apply M_Star_stop | exact H].
Qed.

(** Whatever the matcher finds is a match. *)
Lemma rmatch_sound (r : regex) :
  forall prev s k x,
    rmatch r prev s k = Some x ->
    exists prev' rest, matches r prev s prev' rest /\ k prev' rest = Some x.
Proof.
  induction r as [| c | p | p | | r1 IH1 r2 IH2 | r1 IH1 r2 IH2 | r1 IH1];
    intros prev s k x; simpl.
  - intros H. exists prev, s. split; [apply M_Eps | exact H].
  - destruct s as [|y s]; [discriminate|].
    destruct (ci_eq c y) eqn:E; [|discriminate].
    intros H. exists (Some y), s. split; [apply M_Lit; exact E | exact H].
  - destruct s as [|y s]; [discriminate|].
    destruct (p y) eqn:E; [|discriminate].
    intros H. exists (Some y), s. split; [apply M_Cls; exact E | exact H].
  - apply star_greedy_sound.
  - destruct (word_boundary prev s) eqn:E; [|discriminate].
    intros H. exists prev, s. split; [apply M_WordB; exact E | exact H].
  - intros H. destruct (IH1 _ _ _ _ H) as (p1 & s1 & Hm1 & H1).
    destruct (IH2 _ _ _ _ H1) as (p2 & s2 & Hm2 & H2).
    exists p2, s2. split; [eapply M_Seq; eassumption | exact H2].
  - destruct (rmatch r1 prev s k) as [y|] eqn:E.
    + intros H. injection H as <-.
      destruct (IH1 _ _ _ _ E) as (p1 & s1 & Hm & Hk).
      exists p1, s1. split; [apply M_Alt_l; exact Hm | exact Hk].
    + intros H. destruct (IH2 _ _ _ _ H) as (p1 & s1 & Hm & Hk).
      exists p1, s1. split; [apply M_Alt_r; exact Hm | exact Hk].
  - destruct (rmatch r1 prev s k) as [y|] eqn:E.
    + intros H. injection H as <-.
      destruct (IH1 _ _ _ _ E) as (p1 & s1 & Hm & Hk).
      exists p1, s1. split; [apply M_Opt_some; exact Hm | exact Hk].
    + intros H. exists prev, s. split; [apply M_Opt_none | exact H].
Qed.

(** A match covers a piece at the start of the text. *)
Lemma matches_covers (r : regex) (prev : option char) (s : str)
    (prev' : option char) (rest : str) :
  matches r prev s prev' rest ->
  exists m, s = m ++ rest /\ prev' = last_of prev m.
Proof.
  induction 1 as
    [ prev s | c x prev s Hc | p x prev s Hp | p prev s
    | p x prev s prev' rest Hp _ IH | prev s Hb
    | r1 r2 prev s prev1 s1 prev2 s2 _ IH1 _ IH2
    | r1 r2 prev s prev' rest _ IH | r1 r2 prev s prev' rest _ IH
    | r prev s prev' rest _ IH | r prev s ];
    try (exists []; split; reflexivity);
    try (exists [x]; split; reflexivity);
    try exact IH.
  - destruct IH as (m & -> & ->). exists (x :: m).
    split; [reflexivity | rewrite last_of_cons; reflexivity].
  - destruct IH1 as (m1 & -> & ->). destruct IH2 as (m2 & -> & ->).
    exists (m1 ++ m2). split; [rewrite app_assoc; reflexivity|].
    unfold last_of. rewrite rev_app_distr.
    destruct (rev m2) as [|c l]; [rewrite app_nil_l|]; reflexivity.
Qed.

Lemma firstn_covered (m rest : str) :
  firstn (length (m ++ rest) - length rest) (m ++ rest) = m.
Proof.
  rewrite length_app. replace (length m + length rest - length rest)%nat
    with (length m + 0)%nat by lia.
  rewrite firstn_app_2, app_nil_r. reflexivity.
Qed.

Lemma rmatch_hit (r : regex) (prev : option char) (s rest : str) :
  rmatch r prev s (fun _ rest => Some rest) = Some rest ->
  exists prev',
    s = firstn (length s - length rest) s ++ rest
    /\ matches r prev (firstn (length s - length rest) s ++ rest) prev' rest.
Proof.
  intros E. destruct (rmatch_sound r _ _ _ _ E) as (prev' & rest' & Hm & Hk).
  injection Hk as ->.
  destruct (matches_covers _ _ _ _ _ Hm) as (m & -> & _).
  exists prev'. rewrite firstn_covered. split; [reflexivity | exact Hm].
Qed.

Lemma search_at_eq (r : regex) (prev : option char) (s : str) :
  search_at r prev s
  = match rmatch r prev s (fun _ rest => Some rest) with
    | Some rest => Some (firstn (length s - length rest) s)
    | None =>
        match s with
        | [] => None
        | c :: s' => search_at r (Some c) s'
        end
    end.
Proof. destruct s; reflexivity. Qed.

(** What [search] returns is a piece of the text, and a match of the
    pattern at its place. *)
Lemma search_at_sound (r : regex) (s : str) :
  forall prev m,
    search_at r prev s = Some m ->
    exists pre rest prev',
      s = pre ++ m ++ rest
      /\ matches r (last_of prev pre) (m ++ rest) prev' rest.
Proof.
  induction s as [|c s IH]; intros prev m H; rewrite search_at_eq in H;
    destruct (rmatch r prev _ (fun _ rest => Some rest)) as [rest|] eqn:E;
    try discriminate H.
  - injection H as <-.
    destruct (rmatch_hit _ _ _ _ E) as (prev' & Es & Hm).
    exists [], rest, prev'. split; [exact Es | exact Hm].
  - injection H as <-.
    destruct (rmatch_hit _ _ _ _ E) as (prev' & Es & Hm).
    exists [], rest, prev'. split; [exact Es | exact Hm].
  - destruct (IH _ _ H) as (pre & rest & prev' & -> & Hm).
    exists (c :: pre), rest, prev'. split; [reflexivity|].
    rewrite last_of_cons. exact Hm.
Qed.

(** *** What a cue pattern matches *)

Lemma matches_lit_inv (w : str) :
  forall prev s prev' rest,
    matches (lit w) prev s prev' rest ->
    exists piece, s = piece ++ rest /\ ci_word w piece /\ prev' = last_of prev piece.
Proof.
  induction w as [|p w IH]; intros prev s prev' rest H; simpl in H.
  - inversion H; subst. exists []. repeat split. constructor.
  - inversion H as [| | | | | | r1 r2 pv s0 prev1 s1 prev2 s2 H1 H2 | | | |]; subst.
    inversion H1; subst.
    destruct (IH _ _ _ _ H2) as (piece & -> & Hw & ->).
    exists (x :: piece). split; [reflexivity|].
    split; [constructor; assumption | rewrite last_of_cons; reflexivity].
Qed.

Lemma matches_star_inv (p : char -> bool) (prev : option char) (s : str)
    (prev' : option char) (rest : str) :
  matches (Star p) prev s prev' rest ->
  exists ws, s = ws ++ rest /\ Forall (fun c => p c = true) ws
             /\ prev' = last_of prev ws.
Proof.
  remember (Star p) as r eqn:Er. induction 1; try discriminate; injection Er as ->.
  - exists []. repeat split. constructor.
  - destruct (IHmatches eq_refl) as (ws & -> & Hws & ->).
    exists (x :: ws). split; [reflexivity|].
    split; [constructor; assumption | rewrite last_of_cons; reflexivity].
Qed.

(** A phrase of two words with separators between them, at word
    boundaries. *)
Definition phrase (w1 : str) (sep : char -> bool) (w2 : str) : regex :=
  seq [WordB; lit w1; Star sep; lit w2; WordB].

(** The text [m] is the phrase: the first word, separators, the second
    word, in any letter case. *)
Definition is_phrase (w1 : str) (sep : char -> bool) (w2 : str) (m : str) : Prop :=
  exists x1 ws x2,
    m = x1 ++ ws ++ x2
    /\ ci_word w1 x1 /\ Forall (fun c => sep c = true) ws /\ ci_word w2 x2.

Lemma phrase_inv (w1 : str) (sep : char -> bool) (w2 : str)
    (prev : option char) (m rest : str) (prev' : option char) :
  matches (phrase w1 sep w2) prev (m ++ rest) prev' rest ->
  is_phrase w1 sep w2 m
  /\ word_boundary prev (m ++ rest) = true
  /\ word_boundary (last_of prev m) rest = true.
Proof.
  unfold phrase. cbn [seq]. intros H.
  inversion H as [| | | | | | ? ? ? ? p0 s0 ? ? Hb H0 | | | |]; subst. clear H.
  inversion Hb; subst. clear Hb.
  inversion H0 as [| | | | | | ? ? ? ? p1 s1 ? ? Hl1 H1 | | | |]; subst. clear H0.
  inversion H1 as [| | | | | | ? ? ? ? p2 s2 ? ? Hst H2 | | | |]; subst. clear H1.
  inversion H2 as [| | | | | | ? ? ? ? p3 s3 ? ? Hl2 H3 | | | |]; subst. clear H2.
  inversion H3 as [| | | | | | ? ? ? ? p4 s4 ? ? Hb2 H4 | | | |]; subst. clear H3.
  inversion Hb2; subst. clear Hb2. inversion H4; subst. clear H4.
  destruct (matches_lit_inv _ _ _ _ _ Hl1) as (x1 & E1 & Hw1 & ->).
  destruct (matches_star_inv _ _ _ _ _ Hst) as (ws & -> & Hws & ->).
  destruct (matches_lit_inv _ _ _ _ _ Hl2) as (x2 & -> & Hw2 & ->).
  assert (Em : m = x1 ++ ws ++ x2).
  { apply (app_inv_tail rest). rewrite E1, <- !app_assoc. reflexivity. }
  split; [exists x1, ws, x2; repeat split; assumption|].
  split; [assumption|].
  subst m.
  match goal with
  | Hb : word_boundary ?p rest = true |- word_boundary ?q rest = true =>
      replace q with p; [exact Hb|]
  end.
  unfold last_of. rewrite !rev_app_distr.
  destruct (rev x2) as [|a l]; simpl; [|reflexivity].
  destruct (rev ws) as [|a l]; simpl; reflexivity.
Qed.

(** The three exemption cues. *)
Definition exemption_cue (m : str) : Prop :=
  is_phrase (u "reverse") cls_space (u "charge") m
  \/ is_phrase (u "article") cls_space (u "196") m
  \/ is_phrase (u "vat") cls_hyphen_space (u "exempt") m.

(** [exempt] is never answered without a cue: the text searched then holds
    "reverse charge", "article 196" or "vat exempt" (in any letter case,
    the two words separated by whitespace, for the last one hyphens too, or
    by nothing) between word boundaries, and the reason quotes that piece
    of the text as it stands. *)
Theorem exempt_only_with_cue (norm : Norm) :
  vat (classify_vat norm) = exempt ->
  exists pre m post,
    cue_text norm = pre ++ m ++ post
    /\ exemption_cue m
    /\ word_boundary (last_of None pre) (m ++ post) = true
    /\ word_boundary (last_of (last_of None pre) m) post = true
    /\ reason (classify_vat norm)
       = u "Detected exemption keyword (" ++ [LQUOTE] ++ m ++ [RQUOTE] ++ u ").".
Proof.
  unfold classify_vat.
  destruct (_decide_region_and_rate norm) as [[rg sr] cc].
  destruct (first_match EXEMPT_PATTERNS (cue_text norm)) as [m|] eqn:E.
  - intros _. cbn [reason].
    change EXEMPT_PATTERNS
      with [phrase (u "reverse") cls_space (u "charge");
            phrase (u "article") cls_space (u "196");
            phrase (u "vat") cls_hyphen_space (u "exempt")] in E.
    cbn [first_match] in E. unfold search in E.
    destruct (search_at (phrase (u "reverse") cls_space (u "charge")) None _)
      as [m1|] eqn:E1.
    { injection E as <-.
      destruct (search_at_sound _ _ _ _ E1) as (pre & post & prev' & Et & Hm).
      apply phrase_inv in Hm. destruct Hm as (Hp & Hb1 & Hb2).
      exists pre, m1, post. repeat split; try assumption. left. exact Hp. }
    destruct (search_at (phrase (u "article") cls_space (u "196")) None _)
      as [m2|] eqn:E2.
    { injection E as <-.
      destruct (search_at_sound _ _ _ _ E2) as (pre & post & prev' & Et & Hm).
      apply phrase_inv in Hm. destruct Hm as (Hp & Hb1 & Hb2).
      exists pre, m2, post. repeat split; try assumption. right. left. exact Hp. }
    destruct (search_at (phrase (u "vat") cls_hyphen_space (u "exempt")) None _)
      as [m3|] eqn:E3; [|discriminate E].
    injection E as <-.
    destruct (search_at_sound _ _ _ _ E3) as (pre & post & prev' & Et & Hm).
    apply phrase_inv in Hm. destruct Hm as (Hp & Hb1 & Hb2).
    exists pre, m3, post. repeat split; try assumption. right. right. exact Hp.
  - destruct (first_match ZERO_RATED_PATTERNS (cue_text norm)); [discriminate|].
    destruct (if Region_eqb rg EU then dict_get EU_STANDARD cc else None);
      [discriminate|].
    destruct (Region_eqb rg GCC); discriminate.
Qed.

(** *** Zero-rating *)

(** The text holds the phrase "zero rated" as words of their own: [zero],
    any number of hyphens and whitespace characters (none included),
    [rated], in any letter case, with no word character right before or
    right after. *)
Definition has_zero_rated_phrase (text : str) : Prop :=
  exists pre x1 ws x2 post,
    text = pre ++ x1 ++ ws ++ x2 ++ post
    /\ ci_word (u "zero") x1
    /\ Forall (fun c => cls_hyphen_space c = true) ws
    /\ ci_word (u "rated") x2
    /\ is_word_opt (last_of None pre) = false
    /\ is_word_opt (hd_error post) = false.

Definition ZERO_RATED : regex := phrase (u "zero") cls_hyphen_space (u "rated").

Lemma zero_rated_is_found (text : str) :
  has_zero_rated_phrase text -> search ZERO_RATED text <> None.
Proof.
  intros (pre & x1 & ws & x2 & post & -> & Hw1 & Hws & Hw2 & Hpre & Hpost).
  unfold search.
  eapply (search_at_complete ZERO_RATED pre _ None _ post).
  assert (Hfirst : exists x w, x1 = x :: w /\ is_word x = true).
  { unfold ci_word in Hw1.
    change (u "zero") with [122; 101; 114; 111]%N in Hw1.
    inversion Hw1 as [|p x w piece Hpx _]; subst. exists x, piece.
    split; [reflexivity|]. eapply ci_eq_letter_is_word; [| |exact Hpx]; reflexivity. }
  assert (Hlast : forall prev, exists x, last_of prev x2 = Some x /\ is_word x = true).
  { intros prev. unfold ci_word in Hw2.
    change (u "rated") with [114; 97; 116; 101; 100]%N in Hw2.
    repeat match goal with
    | H : Forall2 _ (_ :: _) _ |- _ => inversion H; clear H; subst
    | H : Forall2 _ [] _ |- _ => inversion H; clear H; subst
    end.
    eexists. split; [reflexivity|].
    eapply ci_eq_letter_is_word; [| |eassumption]; reflexivity. }
  destruct Hfirst as (x & w & -> & Hx).
  destruct (Hlast (last_of (last_of (last_of None pre) (x :: w)) ws)) as (y & Ey & Hy).
  unfold ZERO_RATED, phrase. cbn [seq].
  eapply M_Seq.
  { apply M_WordB. unfold word_boundary. rewrite Hpre. simpl. rewrite Hx. reflexivity. }
  eapply M_Seq; [apply matches_lit; exact Hw1|].
  eapply M_Seq; [apply matches_star; exact Hws|].
  eapply M_Seq; [apply matches_lit; exact Hw2|].
  eapply M_Seq; [|apply M_Eps].
  apply M_WordB. unfold word_boundary. rewrite Ey. simpl. rewrite Hy, Hpost. reflexivity.
Qed.

(** Exemption has precedence over zero-rating, and zero-rating over the
    standard rate: [zero_rated] is answered only when no exemption pattern
    matches the text, and then whenever the text holds "zero rated" (also
    "zero-rated", "ZERO  RATED", "zerorated") as words of their own.  The
    rate is then 0.0, the region the one resolved from tax identifier,
    currency and language, and the reason quotes the phrase as the text has
    it. *)
Theorem zero_rated_after_exemption (norm : Norm) :
  (vat (classify_vat norm) = zero_rated ->
   first_match EXEMPT_PATTERNS (cue_text norm) = None)
  /\ (first_match EXEMPT_PATTERNS (cue_text norm) = None ->
      has_zero_rated_phrase (cue_text norm) ->
      vat (classify_vat norm) = zero_rated
      /\ rate (classify_vat norm) = 0%float
      /\ region (classify_vat norm) = fst (fst (_decide_region_and_rate norm))
      /\ exists m,
           is_phrase (u "zero") cls_hyphen_space (u "rated") m
           /\ reason (classify_vat norm)
              = u "Detected zero-rated cue (" ++ [LQUOTE] ++ m ++ [RQUOTE] ++ u ").").
Proof.
  unfold classify_vat.
  destruct (_decide_region_and_rate norm) as [[rg sr] cc].
  split.
  - destruct (first_match EXEMPT_PATTERNS (cue_text norm)); [discriminate | reflexivity].
  - intros -> H. apply zero_rated_is_found in H.
    destruct (search ZERO_RATED (cue_text norm)) as [m|] eqn:E; [clear H | contradiction].
    change (first_match ZERO_RATED_PATTERNS (cue_text norm))
      with (match search ZERO_RATED (cue_text norm) with
            | Some m => Some m
            | None => first_match (tl ZERO_RATED_PATTERNS) (cue_text norm)
            end).
    rewrite E. cbn [vat rate region reason fst].
    split; [reflexivity|]. split; [reflexivity|].
    split; [destruct rg; reflexivity|].
    exists m. split; [|reflexivity].
    unfold search in E.
    destruct (search_at_sound _ _ _ _ E) as (pre & post & prev' & Et & Hm).
    apply phrase_inv in Hm. apply Hm.
Qed.

End WithRuntime.

Lemma zero_rated_after_exemption_witness :
  vat (classify_vat (rt := glibc_runtime)
         (german_norm (u "Export goods, Zero - Rated supply"))) = zero_rated
  /\ reason (classify_vat (rt := glibc_runtime)
               (german_norm (u "Export goods, Zero - Rated supply")))
     = u "Detected zero-rated cue (" ++ [LQUOTE] ++ u "Zero - Rated" ++ [RQUOTE]
       ++ u ").".
Proof.
  assert (Hp : has_zero_rated_phrase (rt := glibc_runtime)
                 (cue_text (german_norm (u "Export goods, Zero - Rated supply")))).
  { exists (u " Export goods, "), (u "Zero"), (u " - "), (u "Rated"), (u " supply").
    split; [reflexivity|]. repeat split; repeat constructor. }
  destruct (proj2 (zero_rated_after_exemption (rt := glibc_runtime)
                     (german_norm (u "Export goods, Zero - Rated supply")))
              eq_refl Hp) as (Hv & _).
  split; [exact Hv|]. vm_compute. reflexivity.
Defined.

Lemma exempt_only_with_cue_witness :
  vat (classify_vat (rt := glibc_runtime)
         (german_norm (u "Services under Article  196, VAT-exempt"))) = exempt
  /\ reason (classify_vat (rt := glibc_runtime)
               (german_norm (u "Services under Article  196, VAT-exempt")))
     = u "Detected exemption keyword (" ++ [LQUOTE] ++ u "Article  196" ++ [RQUOTE]
       ++ u ")."
  /\ exists pre m post,
       cue_text (german_norm (u "Services under Article  196, VAT-exempt"))
       = pre ++ m ++ post
       /\ exemption_cue m.
Proof.
  assert (H : vat (classify_vat (rt := glibc_runtime)
                     (german_norm (u "Services under Article  196, VAT-exempt")))
              = exempt) by (vm_compute; reflexivity).
  split; [exact H|]. split; [vm_compute; reflexivity|].
  destruct (exempt_only_with_cue (rt := glibc_runtime) _ H)
    as (pre & m & post & Ht & Hc & _).
  exists pre, m, post. split; [exact Ht | exact Hc].
Defined.

End VatFacts.

(* ================================================================== *)
(** * More properties of the explanation                               *)
(* ================================================================== *)
Module AttributionFacts.
Import Py Explain FloatFacts FloatRounding EtlFacts ExplainFacts TextFacts.

Section WithRuntime.
Context {rt : Runtime}.

(** *** The contributions kept are the largest *)

(** With the artifacts loaded and finite contributions,
    [_top_token_contributions] keeps the [top_k] contributions of largest
    magnitude (all of them when there are fewer): what it keeps and what it
    leaves out are together a permutation of the contributions, the kept
    ones come in descending order of magnitude, no contribution left out
    outweighs one that is kept, and the tokens returned are those of the
    kept contributions, in that order, with the weights
    [normalize_weights] makes of them. *)
Theorem strongest_contributions_are_kept (vec : Vectorizer) (cls : Classifier)
    (text : str) (top_k : nat) :
  sorts_as_documented ->
  Forall (fun t => finite (snd t) = true) (contribs_of vec cls text) ->
  exists kept dropped,
    Permutation (contribs_of vec cls text) (kept ++ dropped)
    /\ length kept = Nat.min top_k (length (transform vec text))
    /\ StronglySorted outweighs kept
    /\ (forall k d, In k kept -> In d dropped -> outweighs k d)
    /\ _top_token_contributions (Some (vec, cls)) text top_k = normalize_weights kept
    /\ map fst (_top_token_contributions (Some (vec, cls)) text top_k) = map fst kept.
Proof.
  intros Hsort Hfin.
  destruct (kept_and_dropped vec cls text top_k Hsort)
    as (kept & dropped & Ek & Hperm & Hk & Hdesc).
  destruct (sorted_app _ _ _ (Hdesc Hfin)) as [Hs Hdom].
  exists kept, dropped. split; [exact Hperm|].
  split; [rewrite Hk; unfold contribs_of; rewrite length_map; reflexivity|].
  split; [exact Hs|]. split; [exact Hdom|]. split; [exact Ek|].
  rewrite Ek. destruct kept as [|c0 l0]; [reflexivity|].
  unfold normalize_weights. rewrite map_map. reflexivity.
Qed.

(** *** The fallback lists each token once *)

Lemma insert_desc_keys {V} (lt : str * V -> str * V -> bool) (x : str * V)
    (l : list (str * V)) :
  NoDup (map fst (x :: l)) -> NoDup (map fst (insert_desc lt x l)).
Proof.
  induction l as [|z l IH]; simpl; intros H; [exact H|].
  destruct (lt x z); [|exact H].
  inversion H as [|? ? Hx Hzl]; subst. inversion Hzl as [|? ? Hz Hl]; subst.
  simpl. constructor.
  - intros Hin. apply in_map_iff in Hin. destruct Hin as (y & Ey & Hy).
    apply insert_desc_perm in Hy. destruct Hy as [->|Hy].
    + apply Hx. left. symmetry. exact Ey.
    + apply Hz. rewrite <- Ey. apply in_map. exact Hy.
  - apply IH. simpl. constructor; [|exact Hl].
    intros Hin. apply Hx. right. exact Hin.
Qed.

Lemma sort_desc_keys {V} (lt : str * V -> str * V -> bool) (l : list (str * V)) :
  NoDup (map fst l) -> NoDup (map fst (sort_desc lt l)).
Proof.
  induction l as [|x l IH]; simpl; intros H; [constructor|].
  inversion H as [|? ? Hx Hl]; subst.
  apply insert_desc_keys. simpl. constructor; [|apply IH; exact Hl].
  intros Hin. apply Hx. apply in_map_iff in Hin. destruct Hin as (y & Ey & Hy).
  apply sort_desc_in in Hy. rewrite <- Ey. apply in_map. exact Hy.
Qed.

Lemma firstn_NoDup {A} (n : nat) (l : list A) : NoDup l -> NoDup (firstn n l).
Proof.
  intros H. revert n. induction H as [|x l Hx Hl IH]; intros [|n]; simpl;
    try constructor; [|apply IH].
  intros Hin. apply Hx. eapply in_firstn. exact Hin.
Qed.

Lemma most_common_keys (n : nat) (tokens : list str) :
  NoDup (map fst (most_common n (Counter tokens))).
Proof.
  unfold most_common. rewrite <- firstn_map. apply firstn_NoDup.
  apply sort_desc_keys. apply (Counter_counts tokens).
Qed.

Lemma mapM_keys {V W} (f : str * V -> result (str * W)) (l : list (str * V))
    (out : list (str * W)) :
  (forall e p, f e = Ret p -> fst p = fst e) ->
  mapM f l = Ret out -> map fst out = map fst l.
Proof.
  intros Hf H. apply mapM_ret in H.
  induction H as [|e p l out Hep _ IH]; simpl; [reflexivity|].
  rewrite (Hf _ _ Hep), IH. reflexivity.
Qed.

Lemma split_acc_tokens (s : str) :
  forall cur t,
    Forall (fun c => is_space c = false) cur ->
    In t (split_acc cur s) ->
    t <> [] /\ Forall (fun c => is_space c = false) t.
Proof.
  induction s as [|c s IH]; intros cur t Hcur Hin; simpl in Hin.
  - destruct cur as [|x cur]; [contradiction|]. simpl in Hin.
    destruct Hin as [<-|[]]. split.
    + intros E. apply (f_equal (@length char)) in E.
      rewrite length_app, length_rev in E. simpl in E. lia.
    + apply Forall_rev in Hcur. exact Hcur.
  - destruct (is_space c) eqn:Ec.
    + destruct cur as [|x cur]; simpl in Hin.
      * eapply IH; [constructor | exact Hin].
      * destruct Hin as [<-|Hin]; [|eapply IH; [constructor | exact Hin]].
        split.
        -- intros E. apply (f_equal (@length char)) in E.
           rewrite length_app, length_rev in E. simpl in E. lia.
        -- apply Forall_rev in Hcur. exact Hcur.
    + eapply IH; [|exact Hin]. constructor; assumption.
Qed.

(** On the fallback path no token is listed twice, and every token listed
    is a word of the lowercased text: longer than two characters, with no
    whitespace in it. *)
Theorem fallback_tokens_are_distinct_words
    (_load_artifacts : option (Vectorizer * Classifier))
    (norm : Etl.Canonical) (e : Explanation) :
  explain_for_payload _load_artifacts norm = Ret e ->
  method e = feature_importances ->
  NoDup (map fst (top_tokens e))
  /\ Forall (fun p => In (fst p) (split (lower (Etl.full_text norm)))
                      /\ (2 < length (fst p))%nat
                      /\ Forall (fun c => is_space c = false) (fst p))
            (top_tokens e).
Proof.
  unfold explain_for_payload.
  destruct (_top_token_contributions _load_artifacts (lower (Etl.full_text norm)) 5)
    as [|p top]; [|intros H; injection H as <-; discriminate].
  intros H _. apply bind_ret in H. destruct H as (tt & Htt & H). injection H as <-.
  cbn [top_tokens].
  assert (Hkeys : map fst tt
                  = map fst (most_common 3 (Counter (long_tokens (lower (Etl.full_text norm)))))).
  { eapply mapM_keys; [|exact Htt]. intros en q Hq. simpl in Hq.
    apply bind_ret in Hq. destruct Hq as (w & _ & Hq). injection Hq as <-. reflexivity. }
  assert (Hnd : NoDup (map fst tt)) by (rewrite Hkeys; apply most_common_keys).
  split; [exact Hnd|].
  apply Forall_forall. intros q Hq.
  assert (Hin : In (fst q) (map fst tt)) by (apply in_map; exact Hq).
  rewrite Hkeys in Hin. apply in_map_iff in Hin. destruct Hin as ([t c] & Et & Hin).
  simpl in Et. subst t.
  destruct (most_common_spec 3 (long_tokens (lower (Etl.full_text norm))))
    as (_ & Hval & _).
  destruct (Hval _ _ Hin) as (Htok & _).
  unfold long_tokens in Htok. apply filter_In in Htok. destruct Htok as (Hsplit & Hlen).
  split; [exact Hsplit|]. split; [apply Nat.ltb_lt; exact Hlen|].
  eapply split_acc_tokens; [constructor | exact Hsplit].
Qed.

End WithRuntime.

Lemma fallback_tokens_are_distinct_words_witness :
  explain_for_payload (rt := glibc_runtime) None cable_invoice
  = Ret {| method := feature_importances;
           top_tokens := [(u "usb", 0.4%float); (u "hub", 0.2%float);
                          (u "acme", 0.1%float)] |}
  /\ NoDup [u "usb"; u "hub"; u "acme"].
Proof.
  assert (H : explain_for_payload (rt := glibc_runtime) None cable_invoice
              = Ret {| method := feature_importances;
                       top_tokens := [(u "usb", 0.4%float); (u "hub", 0.2%float);
                                      (u "acme", 0.1%float)] |})
    by (vm_compute; reflexivity).
  split; [exact H|].
  apply (fallback_tokens_are_distinct_words (rt := glibc_runtime) _ _ _ H eq_refl).
Defined.

(** Contributions of seven features, two more than are kept; two of them
    have the same magnitude. *)
Definition seven_features : Vectorizer :=
  {| transform := fun _ =>
       [(0%nat, 0.5%float); (1%nat, 0.25%float); (2%nat, 1%float); (3%nat, 3%float);
        (4%nat, 0.125%float); (5%nat, 6%float); (6%nat, 0.25%float)];
     get_feature_names_out := None |}.

Definition two_class_model : Classifier :=
  {| decision_function := Some (fun _ => [0.5%float; 1.5%float]);
     predict := fun _ => u "service-based";
     classes_ := Some [u "product-based"; u "service-based"];
     coef_ := fun c idx =>
       match c, idx with
       | S O, O => (-1)%float
       | S O, S O => 8%float
       | S O, _ => 0.5%float
       | _, _ => 0%float
       end |}.

Lemma strongest_contributions_are_kept_witness :
  sorts_as_documented (rt := glibc_runtime)
  /\ Forall (fun t => finite (snd t) = true)
            (contribs_of seven_features two_class_model (u "hub"))
  /\ contribs_of seven_features two_class_model (u "hub")
  = [(u "feat_0", (-0.5)%float); (u "feat_1", 2%float); (u "feat_2", 0.5%float);
     (u "feat_3", 1.5%float); (u "feat_4", 0.0625%float); (u "feat_5", 3%float);
     (u "feat_6", 0.125%float)]
  /\ _top_token_contributions (rt := glibc_runtime)
       (Some (seven_features, two_class_model)) (u "hub") 5
     = [(u "feat_5", 1%float); (u "feat_1", (2 / 3)%float); (u "feat_3", 0.5%float);
        (u "feat_0", (-0.5 / 3)%float); (u "feat_2", (0.5 / 3)%float)]
  /\ exists kept dropped,
       Permutation (contribs_of seven_features two_class_model (u "hub"))
                   (kept ++ dropped)
       /\ length kept = 5%nat
       /\ (forall k d, In k kept -> In d dropped -> outweighs k d).
Proof.
  assert (Hfin : Forall (fun t => finite (snd t) = true)
                        (contribs_of seven_features two_class_model (u "hub")))
    by (repeat constructor).
  split; [exact glibc_sorts_as_documented|]. split; [exact Hfin|].
  split; [vm_compute; reflexivity|]. split; [vm_compute; reflexivity|].
  destruct (strongest_contributions_are_kept (rt := glibc_runtime)
              seven_features two_class_model (u "hub") 5
              glibc_sorts_as_documented Hfin)
    as (kept & dropped & Hperm & Hk & _ & Hdom & _).
  exists kept, dropped. split; [exact Hperm|]. split; [exact Hk | exact Hdom].
Defined.

End AttributionFacts.

(* ================================================================== *)
(** * Properties of the invoice table                                  *)
(* ================================================================== *)
Module StorageFacts.
Import Py Storage TextFacts ExplainFacts.

(** The unique pair of a row. *)
Definition row_key (r : InvoiceRow) : str * str := (vendor_name r, invoice_number r).

(** The constraints of the table: the primary key and the unique pair. *)
Definition well_formed (table : Table) : Prop :=
  NoDup (map id table) /\ NoDup (map row_key table).

Lemma same_invoice_spec (v n : str) (r : InvoiceRow) :
  same_invoice v n r = true <-> row_key r = (v, n).
Proof.
  unfold same_invoice, row_key. rewrite andb_true_iff, !str_eqb_true.
  split; [intros [-> ->]; reflexivity | intros E; injection E; auto].
Qed.

Lemma find_app {A} (f : A -> bool) (l l' : list A) :
  find f (l ++ l') = match find f l with Some x => Some x | None => find f l' end.
Proof. induction l as [|x l IH]; simpl; [|destruct (f x)]; auto. Qed.

Lemma find_none_iff {A} (f : A -> bool) (l : list A) :
  find f l = None <-> forall x, In x l -> f x = false.
Proof.
  split; [apply find_none|].
  induction l as [|x l IH]; simpl; intros H; [reflexivity|].
  rewrite (H x (or_introl eq_refl)). apply IH. intros y Hy. apply H. right. exact Hy.
Qed.

Section Store.
Context {rt : Runtime}.
Variable Request : Type.
Variable Processed : Type.
Variable request_vendor_name : Request -> option str.
Variable request_invoice_number : Request -> option str.
Variable dumps_request : Request -> str.
Variable dumps_processed : Processed -> str.
Variable fraud_score_of : str -> option float.

Local Abbreviation insert :=
  (insert_raw_or_get Request request_vendor_name request_invoice_number dumps_request).
Local Abbreviation upsert := (upsert_processed Processed dumps_processed).

(** The pair a request is stored under. *)
Definition request_key (data : Request) : str * str :=
  (str_or (request_vendor_name data) [], str_or (request_invoice_number data) []).

(** The row [insert_raw_or_get] builds. *)
Definition new_row (iid : str) (now : datetime) (data : Request) : InvoiceRow :=
  {| id := iid;
     vendor_name := str_or (request_vendor_name data) [];
     invoice_number := str_or (request_invoice_number data) [];
     raw_json := dumps_request data;
     processed_json := None;
     created_at := Some now |}.

Lemma no_conflict (row : InvoiceRow) (table : Table) :
  conflicts row table = false <->
  forall r, In r table -> id r <> id row /\ row_key r <> row_key row.
Proof.
  unfold conflicts. split.
  - intros H r Hr.
    assert (E : str_eqb (id r) (id row)
                || same_invoice (vendor_name row) (invoice_number row) r = false).
    { destruct (_ || _) eqn:E; [|reflexivity].
      assert (existsb (fun r => str_eqb (id r) (id row)
                || same_invoice (vendor_name row) (invoice_number row) r) table = true)
        by (apply existsb_exists; exists r; split; assumption).
      congruence. }
    apply orb_false_iff in E. destruct E as [E1 E2]. split.
    + intros Eid. rewrite Eid, str_eqb_same in E1. discriminate.
    + intros Ek. apply same_invoice_spec in Ek. congruence.
  - intros H. destruct (existsb _ table) eqn:E; [|reflexivity].
    apply existsb_exists in E. destruct E as (r & Hr & E).
    destruct (H r Hr) as [H1 H2]. apply orb_true_iff in E. destruct E as [E|E].
    + apply str_eqb_true in E. contradiction.
    + apply same_invoice_spec in E. contradiction.
Qed.

(** What [insert_raw_or_get] does, case by case. *)
Lemma insert_cases (iid : str) (now : datetime) (data : Request) (table : Table) :
  match insert iid now data table with
  | (Some (i, true), table') =>
      i = iid /\ table' = table ++ [new_row iid now data]
      /\ forall r, In r table -> id r <> iid /\ row_key r <> request_key data
  | (Some (i, false), table') =>
      table' = table
      /\ find (same_invoice (fst (request_key data)) (snd (request_key data))) table
         <> None
      /\ exists r, In r table /\ id r = i /\ row_key r = request_key data
  | (None, table') =>
      table' = table
      /\ (exists r, In r table /\ id r = iid)
      /\ forall r, In r table -> row_key r <> request_key data
  end.
Proof.
  unfold insert_raw_or_get. fold (new_row iid now data).
  destruct (conflicts (new_row iid now data) table) eqn:Ec.
  - change (str_or (request_vendor_name data) []) with (fst (request_key data)).
    change (str_or (request_invoice_number data) []) with (snd (request_key data)).
    destruct (find _ table) as [existing|] eqn:Ef.
    + split; [reflexivity|]. split; [discriminate|].
      apply find_some in Ef. destruct Ef as [Hin Hk].
      exists existing. split; [exact Hin|]. split; [reflexivity|].
      apply same_invoice_spec in Hk. rewrite Hk. destruct (request_key data); reflexivity.
    + split; [reflexivity|].
      pose proof (proj1 (find_none_iff _ _) Ef) as Hnone.
      assert (Hkeys : forall r, In r table -> row_key r <> request_key data).
      { intros r Hr Ek. specialize (Hnone r Hr).
        assert (same_invoice (fst (request_key data)) (snd (request_key data)) r = true)
          by (apply same_invoice_spec; rewrite Ek; destruct (request_key data); reflexivity).
        congruence. }
      split; [|exact Hkeys].
      unfold conflicts in Ec. apply existsb_exists in Ec.
      destruct Ec as (r & Hr & E). exists r. split; [exact Hr|].
      apply orb_true_iff in E. destruct E as [E|E].
      * apply str_eqb_true in E. exact E.
      * exfalso. apply same_invoice_spec in E. apply (Hkeys r Hr). exact E.
  - split; [reflexivity|]. split; [reflexivity|].
    apply (proj1 (no_conflict _ _) Ec).
Qed.

(** [insert_raw_or_get] answers [created = True] exactly when no row holds
    the pair (vendor name, invoice number) yet, and then appends one row
    under the new identifier; for a pair already stored it answers the
    identifier of that row and leaves the table as it is (the stored
    request is not overwritten); it raises only when the new identifier is
    taken by a row of another pair.  A table that satisfies the two
    uniqueness constraints still does afterwards. *)
Theorem insert_respects_uniqueness (iid : str) (now : datetime) (data : Request)
    (table : Table) :
  match insert iid now data table with
  | (Some (i, true), table') =>
      i = iid /\ table' = table ++ [new_row iid now data]
      /\ forall r, In r table -> id r <> iid /\ row_key r <> request_key data
  | (Some (i, false), table') =>
      table' = table
      /\ exists r, In r table /\ id r = i /\ row_key r = request_key data
  | (None, table') =>
      table' = table
      /\ (exists r, In r table /\ id r = iid)
      /\ forall r, In r table -> row_key r <> request_key data
  end
  /\ (well_formed table -> well_formed (snd (insert iid now data table))).
Proof.
  pose proof (insert_cases iid now data table) as H.
  destruct (insert iid now data table) as [[[i [|]]|] table'].
  - split; [exact H|]. destruct H as (-> & -> & Hnew). intros [Hid Hkey].
    cbn [snd]. unfold well_formed. rewrite !map_app. cbn [map].
    assert (Hone : forall {K} (k : K), NoDup [k])
      by (intros K k; constructor; [intros [] | constructor]).
    split; (apply NoDup_app; [assumption | apply Hone |]).
    + intros x Hx [E|[]]. apply in_map_iff in Hx. destruct Hx as (r & Er & Hr).
      destruct (Hnew r Hr) as [H1 _]. apply H1. rewrite Er, <- E. reflexivity.
    + intros x Hx [E|[]]. apply in_map_iff in Hx. destruct Hx as (r & Er & Hr).
      destruct (Hnew r Hr) as [_ H2]. apply H2. rewrite Er, <- E. reflexivity.
  - destruct H as (-> & _ & Hr). split; [split; [reflexivity | exact Hr]|].
    intros Hw. exact Hw.
  - destruct H as (-> & H). split; [split; [reflexivity | exact H]|].
    intros Hw. exact Hw.
Qed.

(** After a call that returned, the pair is found, under the identifier
    returned. *)
Lemma inserted_is_found (iid : str) (now : datetime) (data : Request)
    (table table' : Table) (i : str) (created : bool) :
  insert iid now data table = (Some (i, created), table') ->
  exists r,
    find (same_invoice (str_or (request_vendor_name data) [])
                       (str_or (request_invoice_number data) [])) table' = Some r
    /\ id r = i.
Proof.
  intros H. pose proof (insert_cases iid now data table) as Hc. rewrite H in Hc.
  destruct created.
  - destruct Hc as (-> & -> & Hnew). exists (new_row iid now data).
    rewrite find_app.
    replace (find _ table) with (@None InvoiceRow).
    + cbn [find].
      rewrite (proj2 (same_invoice_spec (str_or (request_vendor_name data) [])
                        (str_or (request_invoice_number data) [])
                        (new_row iid now data)) eq_refl).
      split; reflexivity.
    + symmetry. apply find_none_iff. intros r Hr.
      destruct (same_invoice _ _ r) eqn:E; [|reflexivity].
      apply same_invoice_spec in E. exfalso. destruct (Hnew r Hr) as [_ H2].
      apply H2. exact E.
  - destruct Hc as (-> & Hsome & _).
    change (fst (request_key data)) with (str_or (request_vendor_name data) []) in Hsome.
    change (snd (request_key data)) with (str_or (request_invoice_number data) []) in Hsome.
    destruct (find _ table) as [r|] eqn:Ef; [|contradiction Hsome; reflexivity].
    exists r. split; [reflexivity|].
    unfold insert_raw_or_get in H. fold (new_row iid now data) in H.
    destruct (conflicts (new_row iid now data) table); [|discriminate H].
    rewrite Ef in H. injection H as <-. reflexivity.
Qed.

(** A pair that is found is answered with the identifier of its row. *)
Lemma insert_known (iid : str) (now : datetime) (data : Request) (table : Table)
    (r : InvoiceRow) :
  find (same_invoice (str_or (request_vendor_name data) [])
                     (str_or (request_invoice_number data) [])) table = Some r ->
  insert iid now data table = (Some (id r, false), table).
Proof.
  intros Hf. unfold insert_raw_or_get. rewrite Hf.
  replace (conflicts _ table) with true; [reflexivity|].
  symmetry. unfold conflicts. apply existsb_exists.
  apply find_some in Hf. destruct Hf as [Hin Hs].
  exists r. split; [exact Hin|]. cbn [vendor_name invoice_number].
  rewrite Hs. apply orb_true_r.
Qed.

Lemma find_key_upsert (v n k : str) (p : Processed) (table : Table) (r : InvoiceRow) :
  find (same_invoice v n) table = Some r ->
  exists r', find (same_invoice v n) (upsert k p table) = Some r' /\ id r' = id r.
Proof.
  induction table as [|x table IH]; intros H; [discriminate H|].
  cbn [find] in H. cbn [upsert_processed].
  destruct (str_eqb (id x) k).
  - match goal with |- context [find _ (?row :: _)] => set (x' := row) end.
    cbn [find].
    assert (E : same_invoice v n x' = same_invoice v n x) by reflexivity.
    rewrite E. destruct (same_invoice v n x).
    + injection H as <-. exists x'. split; reflexivity.
    + exists r. split; [exact H | reflexivity].
  - cbn [find]. destruct (same_invoice v n x).
    + injection H as <-. exists x. split; reflexivity.
    + apply IH. exact H.
Qed.

(** Once a pair (vendor name, invoice number) is stored, every later
    [insert_raw_or_get] of a request with that pair answers the identifier
    it was stored under, with [created = False], and changes nothing. *)
Theorem insert_is_idempotent (iid : str) (now : datetime) (data : Request)
    (table table' : Table) (i : str) (created : bool) :
  insert iid now data table = (Some (i, created), table') ->
  forall iid' now' data',
    request_key data' = request_key data ->
    insert iid' now' data' table' = (Some (i, false), table').
Proof.
  intros H iid' now' data' Hk. injection Hk as Hv Hn.
  destruct (inserted_is_found _ _ _ _ _ _ _ H) as (r & Hf & <-).
  apply insert_known. rewrite Hv, Hn. exact Hf.
Qed.

(** *** Reading back and attaching the result *)

Lemma upsert_columns (iid : str) (p : Processed) (table : Table) :
  map id (upsert iid p table) = map id table
  /\ map row_key (upsert iid p table) = map row_key table
  /\ map raw_json (upsert iid p table) = map raw_json table
  /\ map created_at (upsert iid p table) = map created_at table.
Proof.
  induction table as [|r table (H1 & H2 & H3 & H4)]; simpl; [repeat split|].
  destruct (str_eqb (id r) iid); simpl; [repeat split; reflexivity|].
  rewrite H1, H2, H3, H4. repeat split; reflexivity.
Qed.

Lemma get_raw_upsert (iid j : str) (p : Processed) (table : Table) :
  get_raw j (upsert iid p table) = get_raw j table.
Proof.
  unfold get_raw. induction table as [|r table IH]; simpl; [reflexivity|].
  destruct (str_eqb (id r) iid) eqn:E; simpl.
  - destruct (str_eqb (id r) j); reflexivity.
  - destruct (str_eqb (id r) j); [reflexivity | exact IH].
Qed.

(** What [insert_raw_or_get] stores under a new identifier is what
    [get_raw] reads back under it, and attaching a result to any row does
    not change what [get_raw] reads; [upsert_processed] leaves identifiers,
    pairs, requests and times of all rows as they are, changes nothing when
    no row has the identifier, and keeps the constraints. *)
Theorem stored_request_reads_back (iid : str) (now : datetime) (data : Request)
    (table : Table) :
  (forall table', insert iid now data table = (Some (iid, true), table') ->
     get_raw iid table' = Some (dumps_request data))
  /\ (forall j k p, get_raw j (upsert k p table) = get_raw j table)
  /\ (forall k p,
        map id (upsert k p table) = map id table
        /\ map row_key (upsert k p table) = map row_key table
        /\ map raw_json (upsert k p table) = map raw_json table
        /\ map created_at (upsert k p table) = map created_at table
        /\ length (upsert k p table) = length table
        /\ ((forall r, In r table -> id r <> k) -> upsert k p table = table)
        /\ (well_formed table -> well_formed (upsert k p table))).
Proof.
  split; [|split].
  - intros table' H. pose proof (insert_cases iid now data table) as Hc.
    rewrite H in Hc. destruct Hc as (_ & -> & Hnew).
    unfold get_raw. rewrite find_app.
    replace (find _ table) with (@None InvoiceRow).
    + cbn [find new_row id]. rewrite str_eqb_same. reflexivity.
    + symmetry. apply find_none_iff. intros r Hr.
      destruct (str_eqb (id r) iid) eqn:E; [|reflexivity].
      apply str_eqb_true in E. exfalso. destruct (Hnew r Hr) as [H1 _].
      apply H1. exact E.
  - intros j k p. apply get_raw_upsert.
  - intros k p. destruct (upsert_columns k p table) as (H1 & H2 & H3 & H4).
    repeat split; try assumption.
    + rewrite <- (length_map id), H1, length_map. reflexivity.
    + intros Hno. induction table as [|r table IH]; simpl; [reflexivity|].
      destruct (str_eqb (id r) k) eqn:E.
      * apply str_eqb_true in E. exfalso. apply (Hno r (or_introl eq_refl)). exact E.
      * f_equal. apply IH; try apply upsert_columns.
        intros r' Hr'. apply Hno. right. exact Hr'.
    + rewrite H1. apply H.
    + rewrite H2. apply H.
Qed.

(** *** The summary *)

(** The month a row is counted under. *)
Definition month_key (row : InvoiceRow) : str :=
  match created_at row with
  | Some dt => strftime_ym dt
  | None => u "unknown"
  end.

(** Does the row count as an anomaly?  It has a result whose score reads
    as a float above the threshold. *)
Definition over_threshold (threshold : float) (row : InvoiceRow) : bool :=
  match processed_json row with
  | Some pjson =>
      if nonempty pjson then
        match fraud_score_of pjson with
        | Some score => PrimFloat.ltb threshold score
        | None => false
        end
      else false
  | None => false
  end.

Definition count_into (c : list (str * Z)) (keys : list str) : list (str * Z) :=
  fold_left (fun c t => Explain.counter_add t c) keys c.

Lemma summary_loop (threshold : float) (rows : list InvoiceRow) :
  forall anomalies vendors monthly_totals monthly_anoms,
    fold_left (summary_step fraud_score_of threshold) rows
      (anomalies, vendors, monthly_totals, monthly_anoms)
    = ((anomalies + Z.of_nat (length (filter (over_threshold threshold) rows)))%Z,
       count_into vendors (map vendor_name rows),
       count_into monthly_totals (map month_key rows),
       count_into monthly_anoms (map month_key (filter (over_threshold threshold) rows))).
Proof.
  induction rows as [|r rows IH]; intros a v mt ma.
  - simpl. rewrite Z.add_0_r. reflexivity.
  - cbn [fold_left]. unfold summary_step at 2.
    fold (month_key r). fold (over_threshold threshold r).
    destruct (over_threshold threshold r) eqn:E.
    + rewrite IH. cbn [filter map]. rewrite E. cbn [map length].
      unfold count_into. cbn [fold_left]. do 3 f_equal. lia.
    + rewrite IH. cbn [filter map]. rewrite E. reflexivity.
Qed.

Definition total_count (c : list (str * Z)) : Z := fold_right Z.add 0%Z (map snd c).

Lemma total_count_add (t : str) (c : list (str * Z)) :
  total_count (Explain.counter_add t c) = (total_count c + 1)%Z.
Proof.
  unfold total_count. induction c as [|[k n] c IH]; simpl; [reflexivity|].
  destruct (str_eqb t k); simpl; [lia | rewrite IH; lia].
Qed.

Lemma total_count_Counter (keys : list str) :
  total_count (Explain.Counter keys) = Z.of_nat (length keys).
Proof.
  unfold Explain.Counter.
  assert (H : forall c, total_count (fold_left (fun c t => Explain.counter_add t c) keys c)
                        = (total_count c + Z.of_nat (length keys))%Z).
  { induction keys as [|k keys IH]; intros c; simpl fold_left.
    - simpl. lia.
    - rewrite IH, total_count_add. simpl length. lia. }
  rewrite H. reflexivity.
Qed.

Lemma insert_asc_in {A} (lt : A -> A -> bool) (x : A) (l : list A) :
  forall y, In y (insert_asc lt x l) <-> y = x \/ In y l.
Proof.
  induction l as [|z l IH]; simpl; intros y; [intuition|].
  destruct (lt z x); simpl; [rewrite IH|]; intuition.
Qed.

Lemma sort_asc_in {A} (lt : A -> A -> bool) (l : list A) :
  forall y, In y (sort_asc lt l) <-> In y l.
Proof.
  induction l as [|x l IH]; simpl; intros y; [tauto|].
  rewrite insert_asc_in, IH. intuition.
Qed.

Lemma total_count_sort (c : list (str * Z)) :
  total_count (sort_asc item_ltb c) = total_count c.
Proof.
  assert (Hins : forall x l, total_count (insert_asc item_ltb x l)
                             = (snd x + total_count l)%Z).
  { intros x l. unfold total_count. induction l as [|z l IH]; simpl; [reflexivity|].
    destruct (item_ltb z x); simpl; [rewrite IH|]; lia. }
  induction c as [|x c IH]; simpl; [reflexivity|].
  rewrite Hins, IH. reflexivity.
Qed.

(** The order of strings. *)
Lemma str_ltb_trans (a : str) :
  forall b c, str_ltb a b = true -> str_ltb b c = true -> str_ltb a c = true.
Proof.
  induction a as [|x a IH]; intros [|y b] [|z c]; simpl; try discriminate; auto.
  intros H1 H2. apply orb_true_iff in H1, H2. apply orb_true_iff.
  destruct H1 as [H1|H1]; destruct H2 as [H2|H2];
    try apply andb_true_iff in H1; try apply andb_true_iff in H2.
  - left. apply N.ltb_lt in H1, H2. apply N.ltb_lt. lia.
  - destruct H2 as [H2 _]. apply N.eqb_eq in H2. subst z. left. exact H1.
  - destruct H1 as [H1 _]. apply N.eqb_eq in H1. subst y. left. exact H2.
  - destruct H1 as [H1 H1'], H2 as [H2 H2']. apply N.eqb_eq in H1, H2. subst y z.
    right. rewrite N.eqb_refl. simpl. eapply IH; eassumption.
Qed.

Lemma str_ltb_total (a : str) :
  forall b, a <> b -> str_ltb a b = false -> str_ltb b a = true.
Proof.
  induction a as [|x a IH]; intros [|y b] Hne H; simpl in *;
    try reflexivity; try discriminate; [contradiction Hne; reflexivity|].
  apply orb_false_iff in H. destruct H as [H1 H2]. apply N.ltb_ge in H1.
  destruct (N.eqb_spec x y) as [->|Hxy].
  - simpl in H2. rewrite N.eqb_refl. simpl.
    rewrite (IH b); [apply orb_true_r | congruence | exact H2].
  - replace (y <? x)%N with true by (symmetry; apply N.ltb_lt; lia). reflexivity.
Qed.

(** Keys in strictly ascending order. *)
Definition key_lt (a b : str * Z) : Prop := str_ltb (fst a) (fst b) = true.

Lemma insert_asc_keys (x : str * Z) (l : list (str * Z)) :
  StronglySorted key_lt l -> ~ In (fst x) (map fst l) ->
  StronglySorted key_lt (insert_asc item_ltb x l).
Proof.
  induction 1 as [|z l Hs IH Hz]; intros Hx; simpl.
  - repeat constructor.
  - assert (Hzx : fst z <> fst x) by (intros E; apply Hx; left; exact E).
    assert (Ei : item_ltb z x = str_ltb (fst z) (fst x)).
    { unfold item_ltb. destruct (str_eqb (fst z) (fst x)) eqn:E; [|reflexivity].
      apply str_eqb_true in E. contradiction. }
    rewrite Ei. destruct (str_ltb (fst z) (fst x)) eqn:E.
    + constructor; [apply IH; intros H; apply Hx; right; exact H|].
      apply Forall_forall. intros y Hy. apply insert_asc_in in Hy.
      destruct Hy as [->|Hy]; [exact E|].
      rewrite Forall_forall in Hz. apply Hz. exact Hy.
    + assert (Hxz : key_lt x z).
      { apply str_ltb_total; [congruence | exact E]. }
      constructor; [constructor; assumption|].
      constructor; [exact Hxz|].
      eapply Forall_impl; [|exact Hz]. intros y Hy.
      eapply str_ltb_trans; [exact Hxz | exact Hy].
Qed.

Lemma sort_asc_keys (c : list (str * Z)) :
  NoDup (map fst c) -> StronglySorted key_lt (sort_asc item_ltb c).
Proof.
  induction c as [|x c IH]; simpl; intros H; [constructor|].
  inversion H as [|? ? Hx Hc]; subst.
  apply insert_asc_keys; [apply IH; exact Hc|].
  intros Hin. apply Hx. apply in_map_iff in Hin. destruct Hin as (y & Ey & Hy).
  apply sort_asc_in in Hy. rewrite <- Ey. apply in_map. exact Hy.
Qed.

(** The summary adds up.  [total] is the number of rows, and so is the sum
    of the monthly totals; the anomaly count is the number of rows whose
    stored score reads as a float above the threshold, it is the sum of the
    monthly anomaly counts and never exceeds [total]; both monthly
    dictionaries count by month key and come out with their keys in
    strictly ascending order; [top_vendors] are the (at most) ten vendors
    with the most rows, each with its number of rows, most rows first. *)
Theorem summary_adds_up (threshold : float) (table : Table) :
  let s := summaries fraud_score_of threshold table in
  total s = Z.of_nat (length table)
  /\ anomalies_over_0_7 s
     = Z.of_nat (length (filter (over_threshold threshold) table))
  /\ (0 <= anomalies_over_0_7 s <= total s)%Z
  /\ total_count (monthly_totals s) = total s
  /\ total_count (monthly_anomalies_over_threshold s) = anomalies_over_0_7 s
  /\ monthly_totals s
     = sort_asc item_ltb (Explain.Counter (map month_key table))
  /\ monthly_anomalies_over_threshold s
     = sort_asc item_ltb
         (Explain.Counter (map month_key (filter (over_threshold threshold) table)))
  /\ StronglySorted key_lt (monthly_totals s)
  /\ StronglySorted key_lt (monthly_anomalies_over_threshold s)
  /\ top_vendors s = Explain.most_common 10 (Explain.Counter (map vendor_name table))
  /\ (length (top_vendors s) <= 10)%nat
  /\ (forall v c, In (v, c) (top_vendors s) ->
        c = occurrences v (map vendor_name table))
  /\ StronglySorted count_ge (top_vendors s).
Proof.
  cbv zeta. unfold summaries. rewrite summary_loop.
  cbn [total anomalies_over_0_7 top_vendors monthly_totals
       monthly_anomalies_over_threshold].
  rewrite Z.add_0_l.
  fold (Explain.most_common 10 (count_into [] (map vendor_name table))).
  change (count_into [] (map vendor_name table))
    with (Explain.Counter (map vendor_name table)).
  change (count_into [] (map month_key table))
    with (Explain.Counter (map month_key table)).
  change (count_into [] (map month_key (filter (over_threshold threshold) table)))
    with (Explain.Counter (map month_key (filter (over_threshold threshold) table))).
  pose proof (filter_length_le (over_threshold threshold) table) as Hle.
  destruct (most_common_spec 10 (map vendor_name table))
    as (Hlen & Hval & Hsorted & _).
  split; [reflexivity|]. split; [reflexivity|]. split; [lia|].
  split; [rewrite total_count_sort, total_count_Counter, length_map; reflexivity|].
  split; [rewrite total_count_sort, total_count_Counter, length_map; reflexivity|].
  split; [reflexivity|]. split; [reflexivity|].
  split; [apply sort_asc_keys; apply (Counter_counts (map month_key table))|].
  split; [apply sort_asc_keys; apply (Counter_counts _)|].
  split; [reflexivity|]. split; [exact Hlen|].
  split; [|exact Hsorted].
  intros v c Hin. apply (Hval v c Hin).
Qed.

End Store.
End StorageFacts.

(* ================================================================== *)
(** * Properties of the endpoints                                      *)
(* ================================================================== *)
Module ApiFacts.
Import Py Api TextFacts EtlFacts FloatFacts AnomalyFacts LanguageFacts StorageFacts.

Lemma missing_reason_is_not_the_duplicate_one (n : Z) :
  Anomaly.missing_reason n <> Anomaly.DUPLICATE_REASON.
Proof.
  unfold Anomaly.missing_reason. intros E.
  apply (f_equal (fun s => firstn 2 (rev s))) in E.
  rewrite rev_app_distr in E. vm_compute in E. discriminate E.
Qed.

Lemma duplicate_reason_iff (F : Anomaly.IsolationForest) (norm : Etl.Canonical)
    (is_duplicate : bool) (missing : Z) (risk : float) (reasons : list str) :
  Anomaly.score_anomaly F norm is_duplicate missing = Ret (risk, reasons) ->
  (In Anomaly.DUPLICATE_REASON reasons <-> is_duplicate = true).
Proof.
  intros H. apply score_anomaly_ret in H.
  destruct H as (flc & raw & risk0 & reasons0 & _ & _ & Hb & _ & ->).
  assert (Hc : Anomaly.CONSISTENT_REASON <> Anomaly.DUPLICATE_REASON)
    by (vm_compute; discriminate).
  pose proof (missing_reason_is_not_the_duplicate_one missing) as Hm.
  assert (H0 : In Anomaly.DUPLICATE_REASON reasons0 <-> is_duplicate = true).
  { unfold bumped in Hb. destruct is_duplicate; destruct (0 <? missing)%Z.
    - destruct Hb as (k & _ & _ & ->). split; [reflexivity | intros _; left; reflexivity].
    - destruct Hb as (_ & ->). split; [reflexivity | intros _; left; reflexivity].
    - destruct Hb as (k & _ & _ & ->). split; [|discriminate].
      intros [E|[]]. contradiction.
    - destruct Hb as (_ & ->). split; [intros [] | discriminate]. }
  destruct (_ && _); [|exact H0].
  rewrite in_app_iff, H0. split; [|tauto].
  intros [E|[E|[]]]; [exact E | contradiction].
Qed.

Section Endpoints.
Context {rt : Runtime}.
Variable detect : str -> option str.
Variable _IFOREST : Anomaly.IsolationForest.
Variable _load_models : option (Explain.Vectorizer * Classify.TypeClassifier).
Variable _load_artifacts : option (Explain.Vectorizer * Explain.Classifier).
Variable dumps_request : Language.Submission -> str.
Variable dumps_processed : Output -> str.

Local Abbreviation run := (pipeline detect _IFOREST _load_models _load_artifacts).
Local Abbreviation post :=
  (predict detect _IFOREST _load_models _load_artifacts dumps_request dumps_processed).
Local Abbreviation store := (storage_insert_raw_or_get dumps_request).
Local Abbreviation attach := (Storage.upsert_processed Output dumps_processed).

(** The pair a submission is stored under. *)
Definition invoice_key (inv : Language.Submission) : str * str :=
  (str_or (Etl.p_vendor_name (Language.fields inv)) [],
   str_or (Etl.p_invoice_number (Language.fields inv)) []).

(** What an answer of the pipeline is made of. *)
Lemma pipeline_ok (iid : str) (created : bool) (payload : Language.Submission)
    (out : Output) :
  run iid created payload = OK out ->
  exists norm label conf by_class,
    Etl.normalize (Language.fields payload) (Language.detect_language detect payload)
      = Ret norm
    /\ Classify.predict_type _load_models (Etl.full_text norm)
       = Some (label, conf, by_class)
    /\ Anomaly.score_anomaly _IFOREST norm (negb created)
         (Utils.count_missing (as_dict norm) CRITICAL_FIELDS)
       = Ret (fraud_score out, fraud_reasons out)
    /\ Explain.explain_for_payload _load_artifacts norm = Ret (type_explanation out)
    /\ o_id out = iid
    /\ o_language out = Language.detect_language detect payload
    /\ warnings out = (if negb created then [DUPLICATE_WARNING] else [])
    /\ e_date (extracted_fields out) = Etl.date norm
    /\ e_total_amount (extracted_fields out) = Etl.total_amount norm
    /\ e_line_count (extracted_fields out) = Etl.line_count norm
    /\ tax_classification out
       = Tax.classify_vat
           (Tax.with_language norm (Language.detect_language detect payload)).
Proof.
  unfold pipeline.
  destruct (Etl.normalize _ _) as [norm|e] eqn:En; [|discriminate].
  destruct (Classify.predict_type _ _) as [[[label conf] by_class]|] eqn:Ep;
    [|discriminate].
  destruct (Anomaly.score_anomaly _ _ _ _) as [[risk reasons]|e] eqn:Es; [|discriminate].
  destruct (Explain.explain_for_payload _ _) as [expl|e] eqn:Ee; [|discriminate].
  intros H. injection H as <-. exists norm, label, conf, by_class.
  cbn [fraud_score fraud_reasons type_explanation o_id o_language warnings
       extracted_fields e_date e_total_amount e_line_count tax_classification].
  repeat split; try reflexivity; assumption.
Qed.

(** Whether the pipeline answers does not depend on the identifier or on
    the flag. *)
Lemma pipeline_answers (iid iid' : str) (created created' : bool)
    (payload : Language.Submission) (out : Output) :
  run iid created payload = OK out ->
  exists out', run iid' created' payload = OK out'.
Proof.
  intros H.
  destruct (pipeline_ok _ _ _ _ H)
    as (norm & label & conf & by_class & Hn & Hp & Hs & He & _).
  apply score_anomaly_ret in Hs.
  destruct Hs as (flc & raw & _ & _ & Hflc & Hraw & _).
  destruct (score_anomaly_returns _IFOREST norm (negb created')
              (Utils.count_missing (as_dict norm) CRITICAL_FIELDS) flc raw Hflc Hraw)
    as (risk' & reasons' & Hs').
  unfold pipeline. rewrite Hn, Hp, Hs', He. eexists. reflexivity.
Qed.

(** The answers of [predict] tell a known invoice from a new one.  The
    invoice is flagged, by the warning and by the duplicate reason alike,
    exactly when a row with its vendor name and invoice number was stored
    before the request, and the identifier answered is then that row's;
    otherwise it is the new one.  The language answered is [en], [de] or
    [ar], and with a detector that scores with a number the fraud score lies
    in [[0, 0.99]]. *)
Theorem predict_flags_known_invoices (iid : str) (now : Storage.datetime)
    (inv : Language.Submission) (table table' : Storage.Table) (out : Output) :
  post iid now inv table = (OK out, table') ->
  ((warnings out = [DUPLICATE_WARNING]
    /\ In Anomaly.DUPLICATE_REASON (fraud_reasons out)
    /\ exists r, In r table /\ Storage.id r = o_id out /\ row_key r = invoice_key inv)
   \/ (warnings out = []
       /\ ~ In Anomaly.DUPLICATE_REASON (fraud_reasons out)
       /\ o_id out = iid
       /\ forall r, In r table -> row_key r <> invoice_key inv))
  /\ In (o_language out) Language.SUPPORTED
  /\ ((forall amt lc raw,
         Anomaly.decision_function _IFOREST amt lc = Ret raw ->
         PrimFloat.is_nan raw = false) ->
      PrimFloat.leb 0 (fraud_score out) = true
      /\ PrimFloat.leb (fraud_score out) 0.99 = true).
Proof.
  unfold predict. intros H.
  pose proof (insert_cases Language.Submission
                (fun data => Etl.p_vendor_name (Language.fields data))
                (fun data => Etl.p_invoice_number (Language.fields data))
                dumps_request iid now inv table) as Hc.
  unfold Api.storage_insert_raw_or_get in H.
  destruct (Storage.insert_raw_or_get _ _ _ _ iid now inv table)
    as [[[i created]|] t1]; [|discriminate H].
  destruct (run i created inv) as [out1|] eqn:Ep; [|discriminate H].
  injection H as <- <-.
  destruct (pipeline_ok _ _ _ _ Ep)
    as (norm & label & conf & by_class & Hn & Hp & Hs & He & Hid & Hl & Hw & _).
  pose proof (duplicate_reason_iff _ _ _ _ _ _ Hs) as Hdup.
  split; [|split].
  - destruct created; cbn [negb] in Hw, Hdup.
    + right. destruct Hc as (-> & _ & Hnew).
      split; [exact Hw|]. split; [rewrite Hdup; discriminate|].
      split; [exact Hid|]. intros r Hr. apply (Hnew r Hr).
    + left. destruct Hc as (_ & _ & r & Hr & Hri & Hrk).
      split; [exact Hw|]. split; [apply Hdup; reflexivity|].
      exists r. split; [exact Hr|]. split; [rewrite Hid; exact Hri | exact Hrk].
  - rewrite Hl. apply detect_language_in_supported.
  - intros Hnum. apply score_anomaly_ret in Hs.
    destruct Hs as (flc & raw & risk0 & reasons0 & _ & Hraw & Hb & -> & _).
    apply clip_in_range; try reflexivity.
    eapply bumped_not_nan; [|exact Hb].
    eapply Hnum. exact Hraw.
Qed.

(** Posting an invoice that was answered once is answered again, under the
    same identifier and flagged as a duplicate; so is every later invoice
    with the same vendor name and invoice number that the pipeline can
    answer; and neither adds a row. *)
Theorem resubmission_is_flagged (iid : str) (now : Storage.datetime)
    (inv : Language.Submission) (table table' : Storage.Table) (out : Output) :
  post iid now inv table = (OK out, table') ->
  forall iid2 now2,
    (exists out2 table2,
       post iid2 now2 inv table' = (OK out2, table2)
       /\ o_id out2 = o_id out
       /\ warnings out2 = [DUPLICATE_WARNING]
       /\ In Anomaly.DUPLICATE_REASON (fraud_reasons out2)
       /\ map Storage.id table2 = map Storage.id table'
       /\ map row_key table2 = map row_key table')
    /\ (forall inv2 out2 table2,
          invoice_key inv2 = invoice_key inv ->
          post iid2 now2 inv2 table' = (OK out2, table2) ->
          o_id out2 = o_id out
          /\ warnings out2 = [DUPLICATE_WARNING]
          /\ In Anomaly.DUPLICATE_REASON (fraud_reasons out2)
          /\ map Storage.id table2 = map Storage.id table'
          /\ map row_key table2 = map row_key table').
Proof.
  unfold predict. intros H iid2 now2. unfold Api.storage_insert_raw_or_get in *.
  destruct (Storage.insert_raw_or_get _ _ _ _ iid now inv table)
    as [[[i created]|] t1] eqn:Ei; [|discriminate H].
  destruct (run i created inv) as [out1|] eqn:Ep; [|discriminate H].
  injection H as <- <-.
  destruct (pipeline_ok _ _ _ _ Ep) as (_ & _ & _ & _ & _ & _ & _ & _ & Hid & _).
  destruct (inserted_is_found _ _ _ _ _ _ _ _ _ _ _ Ei) as (r & Hf & Hri).
  destruct (find_key_upsert Output dumps_processed _ _ i out1 _ _ Hf)
    as (r' & Hf' & Hri').
  assert (Hknown : forall inv2,
            invoice_key inv2 = invoice_key inv ->
            Storage.insert_raw_or_get Language.Submission
              (fun data => Etl.p_vendor_name (Language.fields data))
              (fun data => Etl.p_invoice_number (Language.fields data))
              dumps_request iid2 now2 inv2 (attach i out1 t1)
            = (Some (i, false), attach i out1 t1)).
  { intros inv2 Hk. injection Hk as Hv Hn.
    assert (Hf2 : find (Storage.same_invoice
                          (str_or (Etl.p_vendor_name (Language.fields inv2)) [])
                          (str_or (Etl.p_invoice_number (Language.fields inv2)) []))
                       (attach i out1 t1) = Some r')
      by (rewrite Hv, Hn; exact Hf').
    pose proof (insert_known Language.Submission
                  (fun data => Etl.p_vendor_name (Language.fields data))
                  (fun data => Etl.p_invoice_number (Language.fields data))
                  dumps_request iid2 now2 inv2 _ r' Hf2) as Hk'.
    rewrite Hri', Hri in Hk'. exact Hk'. }
  assert (Hflag : forall inv2 out2,
            run i false inv2 = OK out2 ->
            o_id out2 = o_id out1
            /\ warnings out2 = [DUPLICATE_WARNING]
            /\ In Anomaly.DUPLICATE_REASON (fraud_reasons out2)).
  { intros inv2 out2 H2.
    destruct (pipeline_ok _ _ _ _ H2)
      as (norm & label & conf & by_class & _ & _ & Hs & _ & Hid2 & _ & Hw & _).
    split; [rewrite Hid2, Hid; reflexivity|]. split; [exact Hw|].
    apply (duplicate_reason_iff _ _ _ _ _ _ Hs). reflexivity. }
  assert (Hcols : forall k p t,
            map Storage.id (attach k p t) = map Storage.id t
            /\ map row_key (attach k p t) = map row_key t).
  { intros k p t. destruct (upsert_columns Output dumps_processed k p t) as (H1 & H2 & _).
    split; assumption. }
  split.
  - destruct (pipeline_answers i i created false inv out1 Ep) as (out2 & H2).
    exists out2, (attach i out2 (attach i out1 t1)).
    rewrite (Hknown inv eq_refl), H2.
    split; [reflexivity|].
    destruct (Hflag inv out2 H2) as (Ha & Hb & Hc).
    split; [exact Ha|]. split; [exact Hb|]. split; [exact Hc|]. apply Hcols.
  - intros inv2 out2 table2 Hk H2. rewrite (Hknown inv2 Hk) in H2.
    destruct (run i false inv2) as [out2'|] eqn:E2; [|discriminate H2].
    injection H2 as <- <-.
    destruct (Hflag inv2 out2' E2) as (Ha & Hb & Hc).
    split; [exact Ha|]. split; [exact Hb|]. split; [exact Hc|]. apply Hcols.
Qed.

(** A request stores at most one row, the submission as it came, under the
    new identifier and only when its pair is new; this row stays even when
    the pipeline then fails with status 400: for an invoice whose identifier
    and pair no row has, the table after a failed request is the table
    before with the new row, without a result, at its end.  No row is
    removed, no identifier, pair or stored request is changed, and the
    uniqueness constraints of the table are kept. *)
Theorem predict_stores_at_most_one_row (iid : str) (now : Storage.datetime)
    (inv : Language.Submission) (table : Storage.Table) :
  let table' := snd (post iid now inv table) in
  ((map Storage.id table' = map Storage.id table
    /\ map row_key table' = map row_key table
    /\ map Storage.raw_json table' = map Storage.raw_json table)
   \/ ((forall r, In r table -> row_key r <> invoice_key inv)
       /\ map Storage.id table' = map Storage.id table ++ [iid]
       /\ map row_key table' = map row_key table ++ [invoice_key inv]
       /\ map Storage.raw_json table'
          = map Storage.raw_json table ++ [dumps_request inv]))
  /\ (well_formed table -> well_formed table')
  /\ ((forall r, In r table -> Storage.id r <> iid /\ row_key r <> invoice_key inv) ->
      map Storage.id table' = map Storage.id table ++ [iid]
      /\ (fst (post iid now inv table) = BadRequest ->
          table' = table ++ [new_row Language.Submission
                               (fun data => Etl.p_vendor_name (Language.fields data))
                               (fun data => Etl.p_invoice_number (Language.fields data))
                               dumps_request iid now inv])).
Proof.
  cbv zeta. apply and_assoc. split.
  { unfold predict.
      pose proof (insert_cases Language.Submission
                    (fun data => Etl.p_vendor_name (Language.fields data))
                    (fun data => Etl.p_invoice_number (Language.fields data))
                    dumps_request iid now inv table) as Hc.
      unfold Api.storage_insert_raw_or_get.
      destruct (Storage.insert_raw_or_get _ _ _ _ iid now inv table)
        as [[[i created]|] t1].
      - assert (Ht1 : ((map Storage.id t1 = map Storage.id table
                        /\ map row_key t1 = map row_key table
                        /\ map Storage.raw_json t1 = map Storage.raw_json table)
                       \/ ((forall r, In r table -> row_key r <> invoice_key inv)
                           /\ map Storage.id t1 = map Storage.id table ++ [iid]
                           /\ map row_key t1 = map row_key table ++ [invoice_key inv]
                           /\ map Storage.raw_json t1
                              = map Storage.raw_json table ++ [dumps_request inv]))
                      /\ (well_formed table -> well_formed t1)).
        { destruct created.
          - destruct Hc as (-> & -> & Hnew). split.
            + right. split; [intros r Hr; apply (Hnew r Hr)|].
              rewrite !map_app. repeat split; reflexivity.
            + intros [Hid Hkey]. unfold well_formed. rewrite !map_app. cbn [map].
              assert (Hone : forall {K} (k : K), NoDup [k])
                by (intros K k; constructor; [intros [] | constructor]).
              split; (apply NoDup_app; [assumption | apply Hone |]).
              * intros x Hx [E|[]]. apply in_map_iff in Hx. destruct Hx as (r & Er & Hr).
                destruct (Hnew r Hr) as [H1 _]. apply H1. rewrite Er, <- E. reflexivity.
              * intros x Hx [E|[]]. apply in_map_iff in Hx. destruct Hx as (r & Er & Hr).
                destruct (Hnew r Hr) as [_ H2]. apply H2. rewrite Er, <- E. reflexivity.
          - destruct Hc as (-> & _). split; [left; repeat split | trivial]. }
        destruct (run i created inv) as [out|]; cbn [snd]; [|exact Ht1].
        destruct (upsert_columns Output dumps_processed i out t1) as (H1 & H2 & H3 & _).
        unfold well_formed. rewrite H1, H2, H3. exact Ht1.
      - cbn [snd]. destruct Hc as (-> & _). split; [left; repeat split | trivial]. }
  intros Hfresh. unfold predict.
  pose proof (insert_cases Language.Submission
                (fun data => Etl.p_vendor_name (Language.fields data))
                (fun data => Etl.p_invoice_number (Language.fields data))
                dumps_request iid now inv table) as Hc.
  unfold Api.storage_insert_raw_or_get.
  destruct (Storage.insert_raw_or_get _ _ _ _ iid now inv table)
    as [[[i [|]]|] t1].
  - destruct Hc as (-> & -> & _).
    destruct (run iid true inv) as [out|]; cbn [fst snd].
    + destruct (upsert_columns Output dumps_processed iid out
                  (table ++ [new_row Language.Submission
                               (fun data => Etl.p_vendor_name (Language.fields data))
                               (fun data => Etl.p_invoice_number (Language.fields data))
                               dumps_request iid now inv])) as (H1 & _).
      rewrite H1, map_app. split; [reflexivity | discriminate].
    + rewrite map_app. split; [reflexivity | intros _; reflexivity].
  - exfalso. destruct Hc as (_ & _ & r & Hr & _ & Hk).
    apply (proj2 (Hfresh r Hr)). exact Hk.
  - exfalso. destruct Hc as (_ & (r & Hr & Hi) & _).
    apply (proj1 (Hfresh r Hr)). exact Hi.
Qed.

(** An invoice stored by [POST /upload] counts as known: a later
    [POST /predict] of an invoice with the same vendor name and invoice
    number, when it is answered, is answered under the identifier the upload
    returned and flagged as a duplicate, although the invoice was never
    processed before, and it adds no row. *)
Theorem uploaded_invoice_is_flagged_on_predict (iid : str) (now : Storage.datetime)
    (inv : Language.Submission) (table table1 : Storage.Table) (i : str) :
  upload_invoice dumps_request iid now inv table = (Some i, table1) ->
  forall iid2 now2 inv2 out2 table2,
    invoice_key inv2 = invoice_key inv ->
    post iid2 now2 inv2 table1 = (OK out2, table2) ->
    o_id out2 = i
    /\ warnings out2 = [DUPLICATE_WARNING]
    /\ In Anomaly.DUPLICATE_REASON (fraud_reasons out2)
    /\ map Storage.id table2 = map Storage.id table1
    /\ map row_key table2 = map row_key table1.
Proof.
  unfold upload_invoice, Storage.insert_raw, predict, Api.storage_insert_raw_or_get.
  intros H iid2 now2 inv2 out2 table2 Hk H2.
  destruct (Storage.insert_raw_or_get _ _ _ _ iid now inv table)
    as [[[i' created]|] t1] eqn:Ei; [|discriminate H].
  injection H as <- <-.
  destruct (inserted_is_found _ _ _ _ _ _ _ _ _ _ _ Ei) as (r & Hf & Hri).
  injection Hk as Hv Hn.
  assert (Hf2 : find (Storage.same_invoice
                        (str_or (Etl.p_vendor_name (Language.fields inv2)) [])
                        (str_or (Etl.p_invoice_number (Language.fields inv2)) []))
                     t1 = Some r)
    by (rewrite Hv, Hn; exact Hf).
  pose proof (insert_known Language.Submission
                (fun data => Etl.p_vendor_name (Language.fields data))
                (fun data => Etl.p_invoice_number (Language.fields data))
                dumps_request iid2 now2 inv2 _ r Hf2) as Hk'.
  rewrite Hri in Hk'. rewrite Hk' in H2.
  destruct (run i' false inv2) as [out|] eqn:E2; [|discriminate H2].
  injection H2 as <- <-.
  destruct (pipeline_ok _ _ _ _ E2)
    as (norm & label & conf & by_class & _ & _ & Hs & _ & Hid2 & _ & Hw & _).
  split; [exact Hid2|]. split; [exact Hw|].
  split; [apply (duplicate_reason_iff _ _ _ _ _ _ Hs); reflexivity|].
  destruct (upsert_columns Output dumps_processed i' out t1) as (H1 & H2 & _).
  split; assumption.
Qed.

End Endpoints.

(** *** A run of the service *)

Definition no_detector : str -> option str := fun _ => None.

Definition toy_dumps_request (inv : Language.Submission) : str :=
  str_or (Etl.p_invoice_number (Language.fields inv)) [].

Definition toy_dumps_processed (out : Output) : str := o_id out.

Definition first_submission : Language.Submission :=
  {| Language.fields := sample_payload; Language.language := Some (u "DE") |}.

Definition a_moment : Storage.datetime := (2025, 7, 10)%Z.

Definition toy_predict :=
  predict (rt := glibc_runtime) no_detector steady_forest None None
    toy_dumps_request toy_dumps_processed.

Lemma first_post_example :
  exists out table',
    toy_predict (u "id-1") a_moment first_submission [] = (OK out, table')
    /\ o_id out = u "id-1" /\ o_language out = u "de"
    /\ warnings out = [] /\ fraud_score out = 0.4%float
    /\ Tax.rate (tax_classification out) = 0.19%float
    /\ map Storage.id table' = [u "id-1"].
Proof. eexists. eexists. split; [vm_compute; reflexivity|]. repeat split. Qed.

Lemma predict_flags_known_invoices_witness :
  exists out table',
    toy_predict (u "id-1") a_moment first_submission [] = (OK out, table')
    /\ warnings out = []
    /\ In (o_language out) Language.SUPPORTED
    /\ PrimFloat.leb (fraud_score out) 0.99 = true.
Proof.
  destruct first_post_example as (out & table' & H & _).
  exists out, table'. split; [exact H|].
  destruct (predict_flags_known_invoices (rt := glibc_runtime) _ _ _ _ _ _ _ _ _ _ _ _ H)
    as (Hflag & Hlang & Hscore).
  split.
  - destruct Hflag as [(_ & _ & r & [] & _) | (Hw & _)]. exact Hw.
  - split; [exact Hlang|]. apply Hscore. apply steady_forest_is_a_number.
Defined.

Lemma resubmission_is_flagged_witness :
  exists out table' out2 table2,
    toy_predict (u "id-1") a_moment first_submission [] = (OK out, table')
    /\ toy_predict (u "id-2") a_moment first_submission table' = (OK out2, table2)
    /\ o_id out2 = u "id-1"
    /\ warnings out2 = [DUPLICATE_WARNING]
    /\ fraud_score out2 = 0.65%float
    /\ map Storage.id table2 = [u "id-1"].
Proof.
  destruct first_post_example as (out & table' & H & Hid & _ & _ & _ & _ & Hrows).
  destruct (resubmission_is_flagged (rt := glibc_runtime) _ _ _ _ _ _ _ _ _ _ _ _ H
              (u "id-2") a_moment)
    as ((out2 & table2 & H2 & Hid2 & Hw & _ & Hids & _) & _).
  exists out, table', out2, table2.
  split; [exact H|]. split; [exact H2|].
  split; [rewrite Hid2; exact Hid|]. split; [exact Hw|].
  split; [|rewrite Hids; exact Hrows].
  revert H2. revert H. vm_compute. intros H. injection H as <- <-.
  intros H2. injection H2 as <- _. reflexivity.
Defined.

Lemma uploaded_invoice_is_flagged_on_predict_witness :
  exists table1 out2 table2,
    upload_invoice toy_dumps_request (u "id-1") a_moment first_submission []
      = (Some (u "id-1"), table1)
    /\ toy_predict (u "id-2") a_moment first_submission table1 = (OK out2, table2)
    /\ o_id out2 = u "id-1"
    /\ warnings out2 = [DUPLICATE_WARNING].
Proof.
  assert (H1 : upload_invoice toy_dumps_request (u "id-1") a_moment first_submission []
               = (Some (u "id-1"),
                  snd (upload_invoice toy_dumps_request (u "id-1") a_moment
                         first_submission [])))
    by (vm_compute; reflexivity).
  destruct (toy_predict (u "id-2") a_moment first_submission
              (snd (upload_invoice toy_dumps_request (u "id-1") a_moment
                      first_submission [])))
    as [[out2|] table2] eqn:H2; [|exfalso; revert H2; vm_compute; discriminate].
  exists (snd (upload_invoice toy_dumps_request (u "id-1") a_moment first_submission [])),
         out2, table2.
  split; [exact H1|]. split; [exact H2|].
  destruct (uploaded_invoice_is_flagged_on_predict (rt := glibc_runtime)
              _ _ _ _ _ _ _ _ _ _ _ _ H1 _ _ _ _ _ eq_refl H2)
    as (Hid & Hw & _).
  split; assumption.
Defined.

(** A submission whose only item overflows: the request fails, and the row
    is in the table. *)
Definition overflowing_submission : Language.Submission :=
  {| Language.fields := oversized_payload; Language.language := Some (u "en") |}.

Lemma predict_stores_at_most_one_row_witness :
  fst (toy_predict (u "id-9") a_moment overflowing_submission []) = BadRequest
  /\ snd (toy_predict (u "id-9") a_moment overflowing_submission [])
     = [new_row Language.Submission
          (fun data => Etl.p_vendor_name (Language.fields data))
          (fun data => Etl.p_invoice_number (Language.fields data))
          toy_dumps_request (u "id-9") a_moment overflowing_submission]
  /\ map Storage.id (snd (toy_predict (u "id-9") a_moment overflowing_submission []))
     = [u "id-9"].
Proof.
  assert (H : fst (toy_predict (u "id-9") a_moment overflowing_submission [])
              = BadRequest) by (vm_compute; reflexivity).
  destruct (proj2 (proj2 (predict_stores_at_most_one_row (rt := glibc_runtime)
              no_detector steady_forest None None toy_dumps_request
              toy_dumps_processed (u "id-9") a_moment overflowing_submission []))
              (fun r (Hr : In r []) => match Hr with end)) as [Hids Hrow].
  split; [exact H|]. split; [exact (Hrow H) | exact Hids].
Defined.

Lemma insert_is_idempotent_witness :
  storage_insert_raw_or_get toy_dumps_request (u "id-1") a_moment first_submission []
    = (Some (u "id-1", true),
       [new_row Language.Submission
          (fun data => Etl.p_vendor_name (Language.fields data))
          (fun data => Etl.p_invoice_number (Language.fields data))
          toy_dumps_request (u "id-1") a_moment first_submission])
  /\ storage_insert_raw_or_get toy_dumps_request (u "id-2") a_moment first_submission
       [new_row Language.Submission
          (fun data => Etl.p_vendor_name (Language.fields data))
          (fun data => Etl.p_invoice_number (Language.fields data))
          toy_dumps_request (u "id-1") a_moment first_submission]
     = (Some (u "id-1", false),
        [new_row Language.Submission
           (fun data => Etl.p_vendor_name (Language.fields data))
           (fun data => Etl.p_invoice_number (Language.fields data))
           toy_dumps_request (u "id-1") a_moment first_submission]).
Proof.
  assert (H : storage_insert_raw_or_get toy_dumps_request (u "id-1") a_moment first_submission []
              = (Some (u "id-1", true),
                 [new_row Language.Submission
                    (fun data => Etl.p_vendor_name (Language.fields data))
                    (fun data => Etl.p_invoice_number (Language.fields data))
                    toy_dumps_request (u "id-1") a_moment first_submission]))
    by reflexivity.
  split; [exact H|].
  apply (insert_is_idempotent _ _ _ _ _ _ _ _ _ _ _ H (u "id-2") a_moment
           first_submission eq_refl).
Defined.

End ApiFacts.

(* ================================================================== *)
(** * Rounding to nearest from below, and the floor of the risk score  *)
(* ================================================================== *)
Module RiskFloorFacts.
Import Py Etl Anomaly FloatFacts FloatRounding EtlFacts AnomalyFacts.
Local Open Scope Z_scope.

(** ** A sum is not below its terms *)

(** [mc * 2 ^ ec <= m * 2 ^ e], on integers: both sides scaled to any
    exponent below the two. *)
Definition val_le (mc ec m e : Z) : Prop :=
  forall lo, lo <= ec -> lo <= e -> mc * 2 ^ (ec - lo) <= m * 2 ^ (e - lo).

Lemma val_le_intro (lo mc ec m e : Z) :
  lo <= ec -> lo <= e -> mc * 2 ^ (ec - lo) <= m * 2 ^ (e - lo) -> val_le mc ec m e.
Proof.
  intros H1 H2 H lo' L1 L2.
  destruct (Z_le_gt_dec lo' lo) as [D|D].
  - replace (ec - lo') with ((ec - lo) + (lo - lo')) by lia.
    replace (e - lo') with ((e - lo) + (lo - lo')) by lia.
    rewrite !Z.pow_add_r, !Z.mul_assoc by lia.
    apply Z.mul_le_mono_nonneg_r; [apply Z.pow_nonneg; lia | exact H].
  - replace (ec - lo) with ((ec - lo') + (lo' - lo)) in H by lia.
    replace (e - lo) with ((e - lo') + (lo' - lo)) in H by lia.
    rewrite !Z.pow_add_r, !Z.mul_assoc in H by lia.
    apply Z.mul_le_mono_pos_r in H; [exact H | apply Z.pow_pos_nonneg; lia].
Qed.

Lemma val_le_refl (m e : Z) : val_le m e m e.
Proof. intros lo _ _. lia. Qed.

Lemma val_le_mono (mc ec m m' e : Z) :
  m <= m' -> val_le mc ec m e -> val_le mc ec m' e.
Proof.
  intros Hm H lo L1 L2. specialize (H lo L1 L2).
  assert (0 <= 2 ^ (e - lo)) by (apply Z.pow_nonneg; lia). nia.
Qed.

(** The same number on a smaller exponent. *)
Lemma val_le_shift (mc ec m e d : Z) :
  0 <= d -> val_le mc ec m e -> val_le mc ec (m * 2 ^ d) (e - d).
Proof.
  intros Hd H lo L1 L2. specialize (H lo L1 ltac:(lia)).
  replace (e - lo) with (d + (e - d - lo)) in H by lia.
  rewrite Z.pow_add_r, Z.mul_assoc in H by lia. exact H.
Qed.

Lemma val_le_positive (mc ec m e : Z) : 0 < mc -> val_le mc ec m e -> 0 < m.
Proof.
  intros Hc H. specialize (H (Z.min ec e) ltac:(lia) ltac:(lia)).
  assert (0 < 2 ^ (ec - Z.min ec e)) by (apply Z.pow_pos_nonneg; lia).
  assert (0 <= 2 ^ (e - Z.min ec e)) by (apply Z.pow_nonneg; lia).
  nia.
Qed.

(** What a bound has to be: a mantissa of at most 53 bits on an exponent
    the format has. *)
Definition fits (mc ec : Z) : Prop := 0 < mc < 2 ^ 53 /\ -1074 <= ec.

(** Dropping the low bits of a number not below a float leaves it not below
    the float. *)
Lemma shr_fexp_above (mc ec m e : Z) (l : location) :
  fits mc ec -> val_le mc ec m e ->
  val_le mc ec (shr_m (fst (shr_fexp prec emax m e l))) (snd (shr_fexp prec emax m e l)).
Proof.
  intros [Hc Hec] H. pose proof (val_le_positive _ _ _ _ (proj1 Hc) H) as Hm.
  unfold shr_fexp, shr.
  destruct (loc_of_record_of m l) as [_ Hrec].
  destruct (fexp prec emax (Zdigits2 m + e) - e) as [|p|p] eqn:En; simpl;
    try (rewrite Hrec; exact H).
  assert (Hrec0 : 0 <= shr_m (shr_record_of_loc m l)) by (rewrite Hrec; lia).
  destruct (iter_shr_1_m p _ Hrec0) as [Eq _]. rewrite Hrec in Eq. rewrite Eq.
  assert (Hp2 : 0 < 2 ^ Zpos p) by (apply Z.pow_pos_nonneg; lia).
  destruct (Z_le_gt_dec (e + Zpos p) ec) as [D|D].
  - apply (val_le_intro (e + Zpos p)); [lia | lia |].
    rewrite Z.sub_diag, Z.mul_1_r.
    apply Z.div_le_lower_bound; [exact Hp2|].
    specialize (H e ltac:(lia) ltac:(lia)). rewrite Z.sub_diag, Z.mul_1_r in H.
    replace (ec - e) with (Zpos p + (ec - (e + Zpos p))) in H by lia.
    rewrite Z.pow_add_r in H by lia. lia.
  - destruct m as [|q|q]; try lia. simpl Zdigits2 in En.
    unfold fexp, emin, prec, emax in En.
    assert (Ep : Zpos p = Zpos (digits2_pos q) - 53) by lia.
    pose proof (digits_bounds q) as [Lo _].
    assert (Hq : 2 ^ 52 <= Zpos q / 2 ^ Zpos p).
    { apply Z.div_le_lower_bound; [exact Hp2|].
      rewrite Z.mul_comm, <- Z.pow_add_r by lia.
      replace (52 + Zpos p) with (Zpos (digits2_pos q) - 1) by lia. exact Lo. }
    apply (val_le_intro ec); [lia | lia |].
    rewrite Z.sub_diag, Z.mul_1_r.
    assert (2 ^ 1 <= 2 ^ (e + Zpos p - ec)) by (apply Z.pow_le_mono_r; lia).
    change (2 ^ 1) with 2 in *. change (2 ^ 52) with 4503599627370496 in *.
    change (2 ^ 53) with 9007199254740992 in *. nia.
Qed.

Lemma round_nearest_even_ge (m : Z) (l : location) : m <= round_nearest_even m l.
Proof. destruct l as [|[| |]]; simpl; try destruct (Z.even m); lia. Qed.

(** A float not below the float [c]: a positive number [m * 2 ^ e] with
    [mc * 2 ^ ec <= m * 2 ^ e], or the positive infinity. *)
Definition SFabove (c x : spec_float) : Prop :=
  match c, x with
  | S754_finite false mc ec, S754_finite false m e => val_le (Zpos mc) ec (Zpos m) e
  | S754_finite false _ _, S754_infinity false => True
  | _, _ => False
  end.

Lemma binary_round_aux_above (mc : positive) (ec m e : Z) (l : location) :
  fits (Zpos mc) ec -> val_le (Zpos mc) ec m e ->
  SFabove (S754_finite false mc ec) (binary_round_aux prec emax false m e l).
Proof.
  intros Hf H. unfold binary_round_aux.
  pose proof (shr_fexp_above _ _ _ _ l Hf H) as H1.
  destruct (shr_fexp prec emax m e l) as [mrs1 e1]. simpl in H1.
  pose proof (val_le_mono _ _ _ _ _
                (round_nearest_even_ge (shr_m mrs1) (loc_of_shr_record mrs1)) H1) as H2.
  pose proof (shr_fexp_above _ _ _ _ loc_Exact Hf H2) as H3.
  destruct (shr_fexp prec emax _ e1 loc_Exact) as [mrs3 e3]. simpl in H3.
  pose proof (val_le_positive _ _ _ _ (Pos2Z.is_pos mc) H3) as Hp.
  destruct (shr_m mrs3) as [|q|q]; try lia.
  destruct (e3 <=? emax - prec); [exact H3 | exact I].
Qed.

Lemma binary_round_above (mc : positive) (ec : Z) (m : positive) (e : Z) :
  fits (Zpos mc) ec -> val_le (Zpos mc) ec (Zpos m) e ->
  SFabove (S754_finite false mc ec) (binary_round prec emax false m e).
Proof.
  intros Hf H. unfold binary_round, shl_align.
  destruct (fexp prec emax (Zpos (digits2_pos m) + e) - e) as [|d|d] eqn:Ed;
    apply binary_round_aux_above; try exact Hf; try exact H.
  rewrite pos_iter_xO.
  replace (fexp prec emax (Zpos (digits2_pos m) + e)) with (e - Zpos d) by lia.
  apply val_le_shift; [lia | exact H].
Qed.

(** The operand of a sum, brought to the common exponent. *)
Lemma shl_align_value (m : positive) (e ez : Z) :
  ez <= e -> Zpos (fst (shl_align m e ez)) = Zpos m * 2 ^ (e - ez).
Proof.
  intros H. unfold shl_align.
  destruct (ez - e) as [|d|d] eqn:Ed; simpl fst.
  - replace (e - ez) with 0 by lia. lia.
  - lia.
  - rewrite pos_iter_xO. f_equal. f_equal. lia.
Qed.

(** Zero, a positive number or the positive infinity. *)
Definition SFnot_negative (x : spec_float) : bool :=
  match x with
  | S754_zero false | S754_finite false _ _ | S754_infinity false => true
  | _ => false
  end.

(** The sum of two numbers that are not negative is not below either. *)
Lemma SFadd_above (c x y : spec_float) :
  (match c with S754_finite false mc ec => fits (Zpos mc) ec | _ => False end) ->
  SFnot_negative x = true -> SFnot_negative y = true ->
  SFabove c x \/ SFabove c y -> SFabove c (SFadd prec emax x y).
Proof.
  destruct c as [sc|sc| |[|] mc ec]; try contradiction. intros Hf Hx Hy H.
  destruct x as [[|]|[|]| |[|] mx ex]; try discriminate Hx;
    destruct y as [[|]|[|]| |[|] my ey]; try discriminate Hy;
    simpl SFabove in H; try (destruct H as [[]|[]]; fail);
    try (exact I); try (destruct H as [H|H]; [exact H | contradiction]);
    try (destruct H as [H|H]; [contradiction | exact H]).
  unfold SFadd. cbv zeta. cbn [cond_Zopp].
  rewrite !shl_align_value by lia.
  assert (Px : 0 < Zpos mx * 2 ^ (ex - Z.min ex ey))
    by (apply Z.mul_pos_pos; [lia | apply Z.pow_pos_nonneg; lia]).
  assert (Py : 0 < Zpos my * 2 ^ (ey - Z.min ex ey))
    by (apply Z.mul_pos_pos; [lia | apply Z.pow_pos_nonneg; lia]).
  destruct (Zpos mx * 2 ^ (ex - Z.min ex ey) + Zpos my * 2 ^ (ey - Z.min ex ey))
    as [|s|s] eqn:Es; try lia.
  simpl binary_normalize. apply binary_round_above; [exact Hf|].
  rewrite <- Es. destruct H as [H|H].
  - apply (val_le_mono _ _ (Zpos mx * 2 ^ (ex - Z.min ex ey))); [lia|].
    replace (Z.min ex ey) with (ex - (ex - Z.min ex ey)) at 2 by lia.
    apply val_le_shift; [lia | exact H].
  - apply (val_le_mono _ _ (Zpos my * 2 ^ (ey - Z.min ex ey))); [lia|].
    replace (Z.min ex ey) with (ey - (ey - Z.min ex ey)) at 2 by lia.
    apply val_le_shift; [lia | exact H].
Qed.

Lemma valid_fits (m : positive) (e : Z) :
  valid_binary (S754_finite false m e) = true ->
  fits (Zpos m) e /\ (-1074 < e -> 2 ^ 52 <= Zpos m).
Proof.
  intros V. simpl in V. unfold bounded in V.
  apply andb_true_iff in V. destruct V as [C _].
  apply canonical_digits in C. destruct C as (D & E & N).
  pose proof (digits_bounds m) as [Lo Hi].
  split; [split; [split; [lia|] | exact E]|].
  - eapply Z.lt_le_trans; [exact Hi|]. apply Z.pow_le_mono_r; lia.
  - intros G. rewrite (N G) in Lo. exact Lo.
Qed.

(** On floats of the format, [SFabove] is the order the comparison
    decides. *)
Lemma SFabove_leb (c x : spec_float) :
  valid_binary c = true -> valid_binary x = true ->
  SFabove c x -> SFleb c x = true.
Proof.
  destruct c as [sc|sc| |[|] mc ec]; try contradiction;
    destruct x as [s|[|]| |[|] m e]; try contradiction; intros Vc Vx H;
    [reflexivity|].
  apply SFleb_finite_iff.
  destruct (valid_fits _ _ Vc) as [[Hc Hec] Nc].
  destruct (valid_fits _ _ Vx) as [[Hm He] _].
  simpl in H.
  destruct (Z_lt_le_dec ec e) as [D|D]; [left; exact D|].
  destruct (Z.eq_dec ec e) as [E|E].
  - right. split; [exact E|]. subst e.
    specialize (H ec ltac:(lia) ltac:(lia)). rewrite Z.sub_diag in H. lia.
  - exfalso. specialize (H e ltac:(lia) ltac:(lia)).
    rewrite Z.sub_diag, Z.mul_1_r in H.
    assert (2 ^ 1 <= 2 ^ (ec - e)) by (apply Z.pow_le_mono_r; lia).
    specialize (Nc ltac:(lia)).
    change (2 ^ 1) with 2 in *. change (2 ^ 52) with 4503599627370496 in *.
    change (2 ^ 53) with 9007199254740992 in *. nia.
Qed.

(** ** On primitive floats *)

Definition not_negative (x : float) : bool := SFnot_negative (Prim2SF x).

(** [x] is not below the positive number [c]. *)
Definition at_least (c x : float) : Prop := SFabove (Prim2SF c) (Prim2SF x).

Lemma at_least_refl (c : float) :
  PrimFloat.ltb 0 c = true -> finite c = true -> at_least c c.
Proof.
  unfold at_least, finite. rewrite ltb_spec.
  destruct (Prim2SF c) as [s|s| |[|] m e]; try discriminate; intros _ _.
  apply val_le_refl.
Qed.

Lemma at_least_not_negative (c x : float) : at_least c x -> not_negative x = true.
Proof.
  unfold at_least, not_negative.
  destruct (Prim2SF c) as [sc|sc| |[|] mc ec]; try contradiction;
    destruct (Prim2SF x) as [s|[|]| |[|] m e]; try contradiction; reflexivity.
Qed.

Lemma add_at_least (c x y : float) :
  not_negative x = true -> not_negative y = true ->
  at_least c x \/ at_least c y -> at_least c (x + y)%float.
Proof.
  unfold not_negative, at_least. rewrite add_spec. intros Hx Hy H.
  apply SFadd_above; try assumption.
  pose proof (Prim2SF_valid c) as V.
  destruct (Prim2SF c) as [sc|sc| |[|] mc ec];
    try (destruct H as [H|H]; exact H).
  apply valid_fits. exact V.
Qed.

Lemma at_least_leb (c x : float) : at_least c x -> PrimFloat.leb c x = true.
Proof.
  unfold at_least. rewrite leb_spec. apply SFabove_leb; apply Prim2SF_valid.
Qed.

Lemma at_least_positive (c x : float) :
  at_least c x -> PrimFloat.is_nan x = false /\ PrimFloat.ltb 0 x = true.
Proof.
  unfold at_least. rewrite is_nan_spec, ltb_spec.
  change (Prim2SF 0) with (S754_zero false).
  destruct (Prim2SF c) as [sc|sc| |[|] mc ec]; try contradiction;
    destruct (Prim2SF x) as [s|[|]| |[|] m e]; try contradiction;
    intros _; split; reflexivity.
Qed.

(** Clipping to [[0, hi]] keeps a number at or above every positive [c] up
    to [hi]. *)
Lemma clip_at_least (c x hi : float) :
  at_least c x -> PrimFloat.leb c hi = true ->
  PrimFloat.leb c (clip x 0 hi) = true.
Proof.
  intros H Hhi. destruct (at_least_positive _ _ H) as [Hn Hp].
  unfold clip, np_maximum. rewrite Hn, Hp. unfold np_minimum. rewrite Hn.
  destruct (PrimFloat.ltb x hi); [apply at_least_leb; exact H | exact Hhi].
Qed.

(** What [np.clip(x, 0, 1)] returns is not negative. *)
Lemma clip_unit_not_negative (x : float) :
  PrimFloat.is_nan x = false -> not_negative (clip x 0 1) = true.
Proof.
  intros Hn. unfold clip, np_maximum. rewrite Hn.
  destruct (PrimFloat.ltb 0 x) eqn:Ep; unfold np_minimum.
  - rewrite Hn. destruct (PrimFloat.ltb x 1) eqn:E1; [|reflexivity].
    unfold not_negative. rewrite ltb_spec in Ep.
    change (Prim2SF 0) with (S754_zero false) in Ep.
    destruct (Prim2SF x) as [s|[|]| |[|] m e]; try discriminate; reflexivity.
  - change (PrimFloat.is_nan 0) with false. cbv iota.
    destruct (PrimFloat.ltb 0 1); reflexivity.
Qed.

(** ** The floor of the risk score *)

Section Scorer.
Variable _IFOREST : IsolationForest.

(** Each rule that fires sets a floor under the score: a duplicate never
    scores below 0.25, an invoice with a missing critical field never below
    0.1, and one with five or more never below 0.5, however normal the
    detector finds the amounts (as long as its score is a number). *)
Theorem fired_rules_set_a_floor (norm : Canonical) (is_duplicate : bool)
    (missing_count : Z) (risk : float) (reasons : list str) :
  (forall amt lc raw,
     decision_function _IFOREST amt lc = Ret raw -> PrimFloat.is_nan raw = false) ->
  score_anomaly _IFOREST norm is_duplicate missing_count = Ret (risk, reasons) ->
  (is_duplicate = true -> PrimFloat.leb 0.25 risk = true)
  /\ (0 < missing_count -> PrimFloat.leb 0.1 risk = true)
  /\ (5 <= missing_count -> PrimFloat.leb 0.5 risk = true).
Proof.
  intros Hnum H. apply score_anomaly_ret in H.
  destruct H as (flc & raw & risk0 & reasons0 & _ & Hraw & Hb & -> & _).
  apply Hnum in Hraw.
  assert (Hbase : not_negative (clip (0.5 - raw)%float 0 1) = true).
  { apply clip_unit_not_negative. apply sub_not_nan; [reflexivity | exact Hraw]. }
  unfold bumped in Hb. cbv zeta in Hb.
  set (base := clip (0.5 - raw)%float 0 1) in *.
  assert (Hr1 : not_negative (if is_duplicate then (base + 0.25)%float else base) = true
                /\ (is_duplicate = true ->
                    at_least 0.25 (if is_duplicate then (base + 0.25)%float else base))).
  { destruct is_duplicate; [|split; [exact Hbase | discriminate]].
    assert (A : at_least 0.25 (base + 0.25)%float).
    { apply add_at_least; [exact Hbase | reflexivity |].
      right. apply at_least_refl; reflexivity. }
    split; [eapply at_least_not_negative; exact A | intros _; exact A]. }
  destruct Hr1 as [Hnn Hdup].
  set (r1 := if is_duplicate then (base + 0.25)%float else base) in *.
  destruct (0 <? missing_count) eqn:E.
  - apply Z.ltb_lt in E. destruct Hb as (k & Hk & -> & _).
    assert (Hcases : Z.min missing_count 5 = 1 \/ Z.min missing_count 5 = 2
                     \/ Z.min missing_count 5 = 3 \/ Z.min missing_count 5 = 4
                     \/ (Z.min missing_count 5 = 5 /\ 5 <= missing_count)) by lia.
    assert (Hbump : exists b,
              (0.10 * k)%float = b
              /\ not_negative b = true /\ at_least 0.1 b
              /\ (5 <= missing_count -> at_least 0.5 b)).
    { assert (Hval : forall p : positive,
                (Zpos p * 2 ^ 0 <= Zpos p * 2 ^ 0)) by (intros; lia).
      destruct Hcases as [C|[C|[C|[C|[C C5]]]]]; rewrite C in Hk;
        injection Hk as <-; eexists; (split; [vm_compute; reflexivity|]);
        (split; [reflexivity|]); split;
        try (intros G; exfalso; lia);
        try (intros _);
        unfold at_least;
        match goal with
        | |- SFabove ?a ?b =>
            let a' := eval vm_compute in a in
            let b' := eval vm_compute in b in
            change (SFabove a' b')
        end;
        cbn [SFabove];
        match goal with
        | |- val_le _ ?ec _ ?e =>
            apply (val_le_intro (Z.min ec e)); vm_compute; congruence
        end. }
    destruct Hbump as (b & -> & Hbn & Hb1 & Hb5).
    split; [|split].
    + intros Hd. apply clip_at_least; [|reflexivity].
      apply add_at_least; [exact Hnn | exact Hbn | left; apply Hdup; exact Hd].
    + intros _. apply clip_at_least; [|reflexivity].
      apply add_at_least; [exact Hnn | exact Hbn | right; exact Hb1].
    + intros G. apply clip_at_least; [|reflexivity].
      apply add_at_least; [exact Hnn | exact Hbn | right; apply Hb5; exact G].
  - apply Z.ltb_ge in E. destruct Hb as (-> & _).
    split; [|split]; try (intros G; exfalso; lia).
    intros Hd. apply clip_at_least; [apply Hdup; exact Hd | reflexivity].
Qed.

End Scorer.

Lemma fired_rules_set_a_floor_witness :
  exists risk reasons,
    score_anomaly steady_forest sample_canonical true 7 = Ret (risk, reasons)
    /\ PrimFloat.leb 0.25 risk = true
    /\ PrimFloat.leb 0.5 risk = true.
Proof.
  destruct (score_anomaly steady_forest sample_canonical true 7)
    as [[risk reasons]|e] eqn:E; [|revert E; vm_compute; discriminate].
  exists risk, reasons. split; [reflexivity|].
  destruct (fired_rules_set_a_floor steady_forest sample_canonical true 7 risk reasons
              steady_forest_is_a_number E) as (Hd & _ & H5).
  split; [apply Hd; reflexivity | apply H5; lia].
Defined.

End RiskFloorFacts.
